(* ===== verification/_CoqProject ===== *)
-Q . S2P
Prelude.v
GoStd.v
GoCache.v
AwsErrors.v
ApiV1.v
UnavailableOfferings.v
CapacityReservation.v
Batcher.v
BatchExecutors.v
Quantities.v
Scheduling.v
Kube.v
Filters.v
Launch.v
Instances.v
Compatibility.v
InstanceTypes.v
AmiFamily.v
Kubelet.v
KubeletValidation.v
Resolver.v
PlacementGroup.v
Utils.v
Offerings.v
LaunchTemplates.v
LaunchTemplateProvider.v
Subnet.v
CloudProvider.v
Interruption.v
InstanceProfile.v
SecurityGroup.v
NodeClassStatus.v
Validation.v
NodeClassController.v
InstanceTypeLabels.v
InstanceTypeProvider.v
InstanceTypeKeys.v
InstanceTypeCache.v
NodeClaimControllers.v
ReservationControllers.v
Pricing.v
ZonalShift.v
Bootstrap.v
Operations.v
DynamicResources.v
NodeHealth.v
OverlayPrices.v
