(* ===== verification/Prelude.v ===== *)
(** * A verification of the core of the AWS provider of Karpenter

    Karpenter launches machines for pending pods.  This library models the part of its AWS
    provider (the Go code under [src/pkg]) that decides what can be launched, launches it,
    and keeps account of what is left.  Go functions become functions; shared objects
    become explicit state passed through them; concurrency becomes step relations whose
    steps are the critical sections of the code.

    ** The program and its model

    - [GoCache]: the expiring cache ([patrickmn/go-cache], third-party) as a class with
      laws, and an implementation of it for concrete executions.
    - [AwsErrors] ([pkg/errors/errors.go]): classification of AWS errors.
    - [ApiV1] ([pkg/apis/v1]): the EC2NodeClass, its aliases, zones and reservations.
    - [UnavailableOfferings] ([pkg/cache/unavailableofferings.go]): the ICE cache, which
      remembers offerings that had no capacity, and its sequence numbers.
    - [CapacityReservation] ([pkg/providers/capacityreservation]): describing reservations
      and counting the slots left in them.
    - [Batcher], [BatchExecutors] ([pkg/batcher]): the request batcher, and the calls that
      merge CreateFleet, TerminateInstances and DescribeInstances requests.
    - [Quantities], [Scheduling]: Kubernetes quantities and Karpenter's scheduling library
      (both third-party) as classes with laws and reference implementations.
    - [Filters] ([pkg/providers/instance/filter]): the launch filters.
    - [Launch], [Instances] ([pkg/providers/instance]): creating, reading and deleting
      instances.
    - [Compatibility] ([pkg/providers/instancetype/compatibility]): which instance types a
      NodeClass can use.
    - [InstanceTypes] ([pkg/providers/instancetype/types.go]): capacity and overhead.
    - [Offerings] ([pkg/providers/instancetype/offering]): the offerings of an instance type.
    - [Subnet] ([pkg/providers/subnet]): subnets and in-flight IP addresses.
    - [AmiFamily] ([pkg/providers/amifamily], [pkg/providers/ssm] and
      [pkg/controllers/providers/ssm/invalidation]): the images of a NodeClass, the image of
      each instance type, and the cached parameters behind them.
    - [Kubelet] ([pkg/cel] and [pkg/apis/v1/kubeletconfiguration.go]): the kubelet
      configuration and the resolution of its expressions.
    - [Resolver] ([pkg/providers/amifamily/resolver.go]): the templates of a launch.
    - [LaunchTemplates], [LaunchTemplateProvider] ([pkg/providers/launchtemplate]): the
      request that creates a launch template, and the cache of those that exist.
    - [PlacementGroup] ([pkg/providers/placementgroup]): the placement group of a NodeClass.
    - [Utils] ([pkg/utils]): provider IDs and tags; [GoStd]: what is used of Go's library.
    - [CloudProvider] ([pkg/cloudprovider]): the operations the core of Karpenter calls,
      and drift, against an interface that [Launch] and [Instances] implement.
    - [Kube]: the Kubernetes API (third-party): the objects, and the client as a class with
      laws.
    - [Interruption] ([pkg/controllers/interruption] and [pkg/providers/instancestatus]): what
      EC2 announces about instances, and what is done to their NodeClaims.
    - [InstanceProfile] ([pkg/providers/instanceprofile], [pkg/controllers/nodeclass/instanceprofile.go]
      and [pkg/controllers/nodeclass/garbagecollection]): the instance profiles of NodeClasses.
    - [SecurityGroup] ([pkg/providers/securitygroup]): the security groups a NodeClass selects.
    - [KubeletValidation] ([pkg/apis/v1/kubeletconfiguration_validation.go]): which kubelet
      configurations are accepted.
    - [NodeClassStatus] ([pkg/controllers/nodeclass]): the status of a NodeClass.
    - [Validation] ([pkg/controllers/nodeclass/validation.go]): the checks and the dry runs a
      NodeClass must pass, and the cache of their outcome.
    - [NodeClassController] ([pkg/controllers/nodeclass/controller.go] and [hash]): the round
      that runs those reconcilers, the deletion of a NodeClass, and the hash annotations.
    - [InstanceTypeLabels], [InstanceTypeProvider] ([pkg/providers/instancetype]): the labels of
      instance types, the default resolver, and the provider with its tables and caches.
      [InstanceTypeKeys] shows what a resolution depends on, [InstanceTypeCache] that the
      cache of the provider cannot be told from fresh builds.
    - [NodeClaimControllers], [ReservationControllers] ([pkg/controllers/nodeclaim] and
      [pkg/controllers/capacityreservation]): the collection and the tagging of instances, the
      end of capacity reservations and what it does to NodeClaims and nodes.
    - [Pricing] ([pkg/providers/pricing]): the prices behind the offerings.
    - [ZonalShift] ([pkg/providers/arczonalshift], [pkg/controllers/arczonalshift]): which zones
      are shifted away from, and what NodePools are told of it.
    - [Bootstrap] ([pkg/providers/amifamily/bootstrap]): the user data of every image family.
    - [Operations]: the version provider, the queue, the options, the controllers that
      refresh the providers, and the metrics.
    - [DynamicResources] ([efadra], [nvidiadra], [dynamicresources.go]): the devices of instance
      types, and [GetInstanceTypes].
    - [NodeHealth] ([pkg/controllers/instancestatus]): status checks as a condition of the node,
      the repair policies, and the registration in a placement group.
    - [OverlayPrices] ([offering.go], [pkg/operator/operator.go]): the prices of NodeOverlays, and
      what the operator checks and discovers at start-up.

    A launch runs through them in this order: [InstanceTypes] and [Offerings] describe the
    candidates, reading [Compatibility], [UnavailableOfferings] and [CapacityReservation];
    [Filters] narrows them; [Subnet] picks subnets; [Launch] builds the fleet request,
    which [Batcher] and [BatchExecutors] merge with others; and the fleet's errors go back
    into [UnavailableOfferings] and [CapacityReservation].

    ** What the theorems show

    - The ICE cache: marks last three minutes and touch nothing else; equal sequence
      numbers mean equal answers in any interleaving of marks, deletions and expiries;
      the eviction callback cannot panic.  On top of it, cached offerings are current
      ([Offerings.base_resolve_current]), except across NodeClasses, which two
      counterexamples show.
    - Reservations: the pointer-based counts refine a map; a returned slot is returned
      once; [List] is sound, and cached.
    - The batcher: no request is lost or answered twice, no wake-up is lost, and every
      maximal execution ends with all requests answered; the executors give every caller
      the outcome of its own request.
    - The launch: filters only narrow, and each does what it is for; a launch makes at most
      one CreateFleet call per attempt and feeds errors back where they belong.
    - Subnets: each zone gets its best subnet, and addresses are conserved over
      interleaved launches.
    - Node resources: floating-point results agree with exact arithmetic for every input,
      and no integer overflows.
    - Images: a NodeClass gets the best image for each set of requirements, and an instance
      type the first image it is compatible with.
    - Launch templates: the templates of a launch partition its instance types, the node is
      told what the expressions resolve to (or, when nothing is left of them, their text),
      and the templates a launch is given exist, however the cache's callbacks interleave.
    - The cloud provider: a launch is gated by the state of the NodeClass; the NodeClaim it
      returns identifies its instance; drift is reported exactly when it is there.
    - Interruptions: a message leaves the queue only when what it asks for is done, and only
      the NodeClaims it names are touched; likewise for the status checks.
    - Instance profiles: a NodeClass gets a profile with its role, and collection deletes
      only profiles that nothing uses and that are not protected.
    - Kubelet validation accepts what the rules say, and what it accepts does not panic an
      instance type, except for NaN percent.
    - Validation: what is accepted can launch, as far as dry runs tell, and their outcome is
      remembered; a round does not panic if an instance type can be tried.
    - NodeClass rounds: no part of the status depends on the failure of another, a NodeClass
      goes only when nothing is left of it, and a new version of the hash is no drift.
    - Instance types: [List] is fresh although it caches, across NodeClasses with one key.
    - NodeClaims: collection never touches an instance the cluster knows, tags are only added,
      and labels follow the capacity type.
    - Zonal shifts: a zone counts as shifted as the listings say, and events tell NodePools of
      each transition once.
    - User data: every family makes the node register with its taints.
    - Options are validated as declared; metrics do not depend on NodePools that fail.
    - Prices are the last known ones.
    - Devices are told apart across instance types, and shared as the NodeClass says.
    - The toleration of a failing status check runs from its first report.

    ** Conventions and bounds

    Machine integers are integers with their wrap-around written out ([u64], [i32], [i64]);
    a [float64] is its multiple of [2^-1074], rounded as IEEE 754 does ([round53]).
    [None] is a panic where the code can panic; errors are values of [result].  Instants
    are nanoseconds; a step reads the clock once unless it says otherwise.  Map iterations
    use the order of [map_to_list] or are shown not to depend on it.  No definition needs
    fuel: every recursion is structural, and termination of the batcher is a theorem about
    its step relation.

    ** Not modelled

    Calls to AWS and Kubernetes (parameters of the definitions that make them), logging,
    most metrics and events; the TOML, YAML and MIME libraries; CEL evaluation; generated
    tables and deep copies; process wiring; the simulators, tools and test doubles.
    The metadata of devices is in generated tables, which are
    parameters; what is left of the operator is the construction of clients and providers. *)
From stdpp Require Export base gmap strings list fin_maps pretty.
From Stdlib Require Export ZArith Lia.
From Stdlib Require Ascii.
Export (notations) Stdlib.Strings.Ascii.

#[export] Set Default Goal Selector "!".
#[export] Set Warnings "-clear-no-such-hyp".

Declare Scope go_scope.
Delimit Scope go_scope with go.
#[global] Open Scope Z_scope.
#[global] Open Scope go_scope.

(** * Machine integers and floats *)

(** The value of a Go [uint64] after an arithmetic operation. *)
Definition u64 (z : Z) : Z := z `mod` 2 ^ 64.

(** Reading an integer as a Go [int32]: two's complement wrap-around. *)
Definition i32 (z : Z) : Z := (z + 2 ^ 31) `mod` 2 ^ 32 - 2 ^ 31.

(** Reading an integer as a Go [int64] (and [int] on the supported platforms). *)
Definition i64 (z : Z) : Z := (z + 2 ^ 63) `mod` 2 ^ 64 - 2 ^ 63.

(** A finite [float64] is an integer multiple of [2^-1074]; the multiplier itself
    is the model, and the operations the code uses round as IEEE 754 does. *)
Abbreviation float64 := Z (only parsing).

(** [math.MaxFloat64], in units of [2^-1074]. *)
Definition MaxFloat64 : float64 := (2 ^ 53 - 1) * 2 ^ (971 + 1074).

(** [n / m] rounded to the nearest integer, ties to even. *)
Definition round_half_even (n m : Z) : Z :=
  let q := n / m in
  let r := n mod m in
  if decide (2 * r < m) then q
  else if decide (m < 2 * r) then q + 1
  else if Z.even q then q else q + 1.

(** The [float64] nearest to [n / d], in units of [2^-1074]: 53 significant bits are kept,
    and below [2^53] every multiple of the unit is one.  [n] is not negative and the result
    below [2^1024]. *)
Definition round53 (n d : Z) : float64 :=
  let e := Z.max 0 (Z.log2 (n / d) - 52) in
  round_half_even n (d * 2 ^ e) * 2 ^ e.

(** One, in units of [2^-1074]. *)
Definition float64_one : Z := 2 ^ 1074.

(** Conversion from an integer, a literal [n/d], products, quotients by an integer,
    [int64(_)] and [math.Ceil]. *)
Definition float64_of_int (n : Z) : float64 := round53 (n * float64_one) 1.
Definition float64_lit (n d : Z) : float64 := round53 (n * float64_one) d.
Definition float64_mul (x y : float64) : float64 := round53 (x * y) float64_one.
Definition float64_div (x : float64) (d : Z) : float64 := round53 x d.
Definition float64_trunc (x : float64) : Z := x / float64_one.
Definition float64_ceil (x : float64) : Z := - (- x / float64_one).

Lemma u64_range z : 0 ≤ u64 z < 2 ^ 64.
Proof. unfold u64. apply Z.mod_pos_bound. lia. Qed.

Lemma u64_add_l a b : u64 (u64 a + b) = u64 (a + b).
Proof. unfold u64. by rewrite Z.add_mod_idemp_l by lia. Qed.

Lemma u64_add_r a b : u64 (a + u64 b) = u64 (a + b).
Proof. unfold u64. by rewrite Z.add_mod_idemp_r by lia. Qed.

Lemma u64_small z : 0 ≤ z < 2 ^ 64 → u64 z = z.
Proof. intros. unfold u64. by apply Z.mod_small. Qed.

(** Decides equations between [uint64] sums: the nested remainders become Euclidean
    equations over literals. *)
Ltac u64_solve :=
  unfold u64; change (2 ^ 64) with 18446744073709551616 in *;
  Z.to_euclidean_division_equations; lia.

Lemma i32_small z : - 2 ^ 31 ≤ z < 2 ^ 31 → i32 z = z.
Proof. intros. unfold i32. rewrite Z.mod_small; lia. Qed.

Lemma i64_small z : - 2 ^ 63 ≤ z < 2 ^ 63 → i64 z = z.
Proof. intros. unfold i64. rewrite Z.mod_small; lia. Qed.

(** * Errors as values *)

(** The [(value, error)] pair a Go function returns, when the value is only read on a
    nil error. *)
Inductive result (E A : Type) : Type :=
  | Ok (a : A)
  | Err (e : E).
Arguments Ok {E A} a.
Arguments Err {E A} e.

#[export] Instance result_ret {E} : MRet (result E) := @Ok E.
#[export] Instance result_bind {E} : MBind (result E) :=
  λ A B f r, match r with Ok a => f a | Err e => Err e end.
#[export] Instance result_fmap {E} : FMap (result E) :=
  λ A B f r, match r with Ok a => Ok (f a) | Err e => Err e end.
#[export] Instance result_eq_dec {E A} `{EqDecision E, EqDecision A} :
  EqDecision (result E A).
Proof. solve_decision. Defined.

Definition is_ok {E A} (r : result E A) : bool :=
  match r with Ok _ => true | Err _ => false end.

(** * Strings of the Go standard library *)

Abbreviation ascii := Ascii.ascii (only parsing).

Definition colon : ascii := ":"%char.

(** [strings.Split] for a one-character separator. *)
Fixpoint Split (s : string) (sep : ascii) : list string :=
  match s with
  | EmptyString => [EmptyString]
  | String c s' =>
      if decide (c = sep) then EmptyString :: Split s' sep
      else match Split s' sep with
           | [] => [String c EmptyString]
           | h :: t => String c h :: t
           end
  end.

(** [strings.Join] for a one-character separator. *)
Fixpoint Join (l : list string) (sep : ascii) : string :=
  match l with
  | [] => EmptyString
  | [s] => s
  | s :: l' => s +:+ String sep (Join l' sep)
  end.

(** [strings.HasPrefix] and [strings.Contains]. *)
Fixpoint HasPrefix (s prefix : string) : bool :=
  match prefix, s with
  | EmptyString, _ => true
  | String p prefix', String c s' => bool_decide (c = p) && HasPrefix s' prefix'
  | String _ _, EmptyString => false
  end.

Fixpoint Contains (s substr : string) : bool :=
  HasPrefix s substr ||
  match s with EmptyString => false | String _ s' => Contains s' substr end.

(** No character of [s] is [c]. *)
Fixpoint free_of (c : ascii) (s : string) : Prop :=
  match s with
  | EmptyString => True
  | String a s' => a ≠ c ∧ free_of c s'
  end.

#[export] Instance free_of_dec c s : Decision (free_of c s).
Proof. induction s; simpl; apply _. Defined.

Lemma Split_free s sep : free_of sep s → Split s sep = [s].
Proof.
  induction s as [|a s IH]; simpl; [done|].
  intros [Ha Hs]. rewrite decide_False by done. by rewrite IH.
Qed.

Lemma Split_app_sep s s' sep :
  free_of sep s → Split (s +:+ String sep s') sep = s :: Split s' sep.
Proof.
  induction s as [|a s IH]; simpl.
  - intros _. by rewrite decide_True.
  - intros [Ha Hs]. rewrite decide_False by done. by rewrite IH.
Qed.

(** Splitting a joined list gives the list back: what makes a separator-joined cache
    key injective. *)
Lemma Split_Join l sep :
  l ≠ [] → Forall (free_of sep) l → Split (Join l sep) sep = l.
Proof.
  induction l as [|s l IH]; [done|]. intros _ [Hs Hl]%Forall_cons.
  destruct l as [|s' l].
  - simpl. by apply Split_free.
  - change (Join (s :: s' :: l) sep) with (s +:+ String sep (Join (s' :: l) sep)).
    rewrite Split_app_sep by done. f_equal. by apply IH.
Qed.

Lemma Join_inj l l' sep :
  l ≠ [] → l' ≠ [] → Forall (free_of sep) l → Forall (free_of sep) l' →
  Join l sep = Join l' sep → l = l'.
Proof.
  intros ? ? ? ? HJ. rewrite <- (Split_Join l sep), <- (Split_Join l' sep) by done.
  by rewrite HJ.
Qed.

Lemma HasPrefix_spec s prefix : HasPrefix s prefix = true ↔ ∃ t, s = prefix +:+ t.
Proof.
  revert s. induction prefix as [|p prefix IH]; intros s; simpl.
  - split; [by exists s|]. by destruct s.
  - destruct s as [|c s]; simpl.
    + split; [done|]. intros [t Ht]. done.
    + rewrite andb_true_iff, bool_decide_eq_true, IH. split.
      * intros [-> [t ->]]. by exists t.
      * intros [t [= -> ->]]. split; [done|by exists t].
Qed.

Lemma Contains_unfold s substr :
  Contains s substr =
  HasPrefix s substr ||
  match s with EmptyString => false | String _ s' => Contains s' substr end.
Proof. by destruct s. Qed.

Lemma Contains_spec s substr :
  Contains s substr = true ↔ ∃ a b, s = a +:+ substr +:+ b.
Proof.
  induction s as [|c s IH]; rewrite Contains_unfold, orb_true_iff, HasPrefix_spec.
  - split; [intros [[t Ht]|?]; [by exists EmptyString, t|done]|].
    intros ([|x a] & b & H); simpl in H; [|discriminate]. left. by exists b.
  - rewrite IH. split.
    + intros [[t Ht]|(a & b & ->)]; [by exists EmptyString, t|by exists (String c a), b].
    + intros ([|x a] & b & H); simpl in H.
      * left. by exists b.
      * right. exists a, b. by injection H.
Qed.

Lemma string_app_cons c (s t : string) : String c s +:+ t = String c (s +:+ t).
Proof. done. Qed.

Lemma string_app_nil_r (s : string) : s +:+ "" = s.
Proof. induction s as [|c s IH]; [done|]. by rewrite string_app_cons, IH. Qed.

Lemma string_app_assoc (s1 s2 s3 : string) : s1 +:+ (s2 +:+ s3) = (s1 +:+ s2) +:+ s3.
Proof. induction s1 as [|c s1 IH]; [done|]. by rewrite !string_app_cons, IH. Qed.

(** [strings.ToLower] on ASCII text. *)
Definition lower_ascii (c : ascii) : ascii :=
  let n := Ascii.nat_of_ascii c in
  if bool_decide (65 ≤ n ∧ n ≤ 90)%nat then Ascii.ascii_of_nat (n + 32) else c.

Fixpoint ToLower (s : string) : string :=
  match s with
  | EmptyString => EmptyString
  | String c s' => String (lower_ascii c) (ToLower s')
  end.

(** [fmt.Sprintf] verbs for booleans ([%t]) and integers ([%d]). *)
Definition fmt_bool (b : bool) : string := if b then "true" else "false".
Definition fmt_int (z : Z) : string := pretty z.

Lemma fmt_bool_inj b b' : fmt_bool b = fmt_bool b' → b = b'.
Proof. by destruct b, b'. Qed.

Lemma fmt_int_inj z z' : fmt_int z = fmt_int z' → z = z'.
Proof. apply (inj pretty). Qed.

(** * Lists *)

Lemma Forall2_elem_l {A B} (P : A → B → Prop) l k x :
  Forall2 P l k → x ∈ l → ∃ y, y ∈ k ∧ P x y.
Proof.
  intros HF (i & Hi)%list_elem_of_lookup.
  destruct (Forall2_lookup_l _ _ _ _ _ HF Hi) as (y & Hy & ?).
  exists y. split; [|done]. by eapply list_elem_of_lookup_2.
Qed.

Lemma Forall2_elem_r {A B} (P : A → B → Prop) l k y :
  Forall2 P l k → y ∈ k → ∃ x, x ∈ l ∧ P x y.
Proof. intros HF%Forall2_flip Hy. by eapply (Forall2_elem_l (flip P)) in HF. Qed.

Lemma Forall2_impl_elem {A B} (P Q : A → B → Prop) l k :
  Forall2 P l k → (∀ x y, x ∈ l → P x y → Q x y) → Forall2 Q l k.
Proof.
  induction 1 as [|x y l k Hxy HF IH]; intros Himpl; [constructor|].
  constructor; [apply Himpl; [by left|done]|].
  apply IH. intros x' y' ?. apply Himpl. by right.
Qed.

Lemma filter_all {A} (P : A → Prop) `{∀ x, Decision (P x)} (l : list A) :
  (∀ x, x ∈ l → P x) → filter P l = l.
Proof.
  induction l as [|x l IH]; intros Hl; [done|].
  rewrite filter_cons_True by (apply Hl; by left). f_equal. apply IH.
  intros y ?. apply Hl. by right.
Qed.

Lemma filter_none {A} (P : A → Prop) `{∀ x, Decision (P x)} (l : list A) :
  (∀ x, x ∈ l → ¬ P x) → filter P l = [].
Proof.
  induction l as [|x l IH]; intros Hl; [done|].
  rewrite filter_cons_False by (apply Hl; by left). apply IH.
  intros y ?. apply Hl. by right.
Qed.

Lemma filter_nonempty {A} (P : A → Prop) `{∀ x, Decision (P x)} (l : list A) :
  filter P l ≠ [] ↔ ∃ x, x ∈ l ∧ P x.
Proof.
  split.
  - intros Hne. destruct (filter P l) as [|x k] eqn:E; [done|]. exists x.
    assert (x ∈ filter P l) as Hx by (rewrite E; by left).
    by apply list_elem_of_filter in Hx as [? ?].
  - intros (x & Hx & HP) Hnil. assert (x ∈ filter P l) as Hin by by apply list_elem_of_filter.
    rewrite Hnil in Hin. by apply elem_of_nil in Hin.
Qed.

Lemma filter_ext_in {A} (P Q : A → Prop) `{∀ x, Decision (P x)} `{∀ x, Decision (Q x)} (l : list A) :
  (∀ x, x ∈ l → P x ↔ Q x) → filter P l = filter Q l.
Proof.
  induction l as [|x l IH]; intros Hl; [done|].
  assert (filter P l = filter Q l) as IH' by (apply IH; intros y ?; apply Hl; by right).
  assert (P x ↔ Q x) as Hx by (apply Hl; by left).
  rewrite !filter_cons, IH'. repeat case_decide; tauto.
Qed.

Lemma filter_fmap {A B} (f : A → B) (P : B → Prop) `{∀ x, Decision (P x)} (l : list A) :
  filter P (f <$> l) = f <$> filter (λ x, P (f x)) l.
Proof.
  induction l as [|x l IH]; [done|]. rewrite fmap_cons, !filter_cons.
  case_decide; by rewrite ?fmap_cons, IH.
Qed.

Lemma last_fmap {A B} (f : A → B) (l : list A) : last (f <$> l) = f <$> last l.
Proof. induction l as [|x [|y l] IH]; [done..|]. exact IH. Qed.

Lemma submseteq_NoDup {A} (l k : list A) : l ⊆+ k → NoDup k → NoDup l.
Proof.
  intros (k' & ->)%submseteq_Permutation Hnd. by apply NoDup_app in Hnd as [? _].
Qed.

Lemma NoDup_fmap_filter {A B} (f : A → B) (P : A → Prop) `{∀ x, Decision (P x)} l :
  NoDup (f <$> l) → NoDup (f <$> filter P l).
Proof.
  intros Hl. eapply sublist_NoDup; [exact Hl|]. apply fmap_sublist, sublist_filter.
Qed.

(** * The slice combinators of [samber/lo], read as list functions *)

Section lo.
Context {A K : Type} `{EqDecision K}.

(** [lo.UniqBy]: the first element of each key, in order. *)
Fixpoint UniqBy_seen (f : A → K) (seen : list K) (l : list A) : list A :=
  match l with
  | [] => []
  | x :: l' =>
      if decide (f x ∈ seen) then UniqBy_seen f seen l'
      else x :: UniqBy_seen f (f x :: seen) l'
  end.
Definition UniqBy (f : A → K) (l : list A) : list A := UniqBy_seen f [] l.

Lemma UniqBy_seen_elem f seen l x :
  x ∈ UniqBy_seen f seen l → x ∈ l ∧ f x ∉ seen.
Proof.
  revert seen. induction l as [|y l IH]; intros seen; simpl; [by intros ?%elem_of_nil|].
  case_decide as Hy.
  - intros [? ?]%IH. split; [by right|done].
  - intros [->|[? ?]%IH]%elem_of_cons; [split; [by left|done]|].
    split; [by right|]. set_solver.
Qed.

Lemma UniqBy_seen_NoDup f seen l : NoDup (f <$> UniqBy_seen f seen l).
Proof.
  revert seen. induction l as [|y l IH]; intros seen; simpl; [constructor|].
  case_decide; [apply IH|]. simpl. constructor; [|apply IH].
  intros (x & Hx & Hin)%list_elem_of_fmap. apply UniqBy_seen_elem in Hin. set_solver.
Qed.

Lemma UniqBy_seen_cover f seen l x :
  x ∈ l → f x ∉ seen → ∃ y, y ∈ UniqBy_seen f seen l ∧ f y = f x.
Proof.
  revert seen. induction l as [|z l IH]; intros seen; simpl; [by intros ?%elem_of_nil|].
  intros Hx Hseen. case_decide as Hz.
  - apply elem_of_cons in Hx as [->|Hx]; [done|]. by apply IH.
  - destruct (decide (f z = f x)) as [Heq|Hne].
    + exists z. split; [by left|done].
    + apply elem_of_cons in Hx as [->|Hx]; [done|].
      destruct (IH (f z :: seen)) as (y & Hy & Hfy); [done|set_solver|].
      exists y. split; [by right|done].
Qed.

Lemma UniqBy_elem f l x : x ∈ UniqBy f l → x ∈ l.
Proof. by intros [? _]%UniqBy_seen_elem. Qed.

Lemma UniqBy_NoDup f l : NoDup (f <$> UniqBy f l).
Proof. apply UniqBy_seen_NoDup. Qed.

Lemma UniqBy_cover f l x : x ∈ l → ∃ y, y ∈ UniqBy f l ∧ f y = f x.
Proof. intros. apply UniqBy_seen_cover; [done|set_solver]. Qed.

(** [lo.FilterReject] and [lo.Find]. *)
Definition FilterReject (p : A → bool) (l : list A) : list A * list A :=
  (filter (λ x, p x = true) l, filter (λ x, p x = false) l).

Definition Find (p : A → bool) (l : list A) : option A :=
  head (filter (λ x, p x = true) l).

Lemma Find_Some p l x : Find p l = Some x → x ∈ l ∧ p x = true.
Proof.
  unfold Find. intros H. assert (x ∈ filter (λ x, p x = true) l) as Hin.
  { destruct (filter _ l); simplify_eq/=. by left. }
  by apply list_elem_of_filter in Hin as [? ?].
Qed.

Lemma Find_None p l x : Find p l = None → x ∈ l → p x = false.
Proof.
  unfold Find. intros H Hx. destruct (p x) eqn:E; [|done].
  assert (x ∈ filter (λ x, p x = true) l) as Hin by by apply list_elem_of_filter.
  destruct (filter _ l); [|done]. by apply elem_of_nil in Hin.
Qed.

(** Keys that determine the element. *)
Lemma Find_by_key (f : A → K) l x :
  NoDup (f <$> l) → x ∈ l → Find (λ y, bool_decide (f y = f x)) l = Some x.
Proof.
  intros Hnd Hx. destruct (Find _ l) as [y|] eqn:E.
  - apply Find_Some in E as [Hy Hf%bool_decide_eq_true].
    apply list_elem_of_lookup in Hx as [i Hi]. apply list_elem_of_lookup in Hy as [j Hj].
    assert (i = j) as ->; [|congruence].
    apply (NoDup_lookup _ i j (f x) Hnd); rewrite list_lookup_fmap, ?Hi, ?Hj; simpl; congruence.
  - pose proof (Find_None _ _ _ E Hx) as Hf. by apply bool_decide_eq_false in Hf.
Qed.

Lemma FilterReject_perm p l :
  l ≡ₚ (FilterReject p l).1 ++ (FilterReject p l).2.
Proof.
  simpl. induction l as [|x l IH]; [done|]. rewrite !filter_cons.
  destruct (p x) eqn:E; simpl.
  - by rewrite <- IH.
  - rewrite IH at 1. by rewrite Permutation_middle.
Qed.

(** [lo.GroupBy]: each group in the order of the slice. *)
Context `{Countable K}.
Definition GroupBy (f : A → K) (l : list A) : gmap K (list A) :=
  foldl (λ m x, <[f x := default [] (m !! f x) ++ [x]]> m) ∅ l.

Lemma GroupBy_snoc f l x :
  GroupBy f (l ++ [x]) = <[f x := default [] (GroupBy f l !! f x) ++ [x]]> (GroupBy f l).
Proof. unfold GroupBy. by rewrite foldl_app. Qed.

Lemma GroupBy_lookup f l k :
  GroupBy f l !! k =
  match filter (λ x, f x = k) l with [] => None | g => Some g end.
Proof.
  induction l as [|x l IH] using rev_ind; [done|].
  rewrite GroupBy_snoc, filter_app, filter_cons, filter_nil. case_decide as Hk.
  - subst. rewrite lookup_insert_eq, IH. by destruct (filter _ l).
  - rewrite lookup_insert_ne by done. by rewrite IH, app_nil_r.
Qed.
End lo.

(** * Buckets: maps from a key to the list of its elements *)

Section buckets.
Context {A : Type} `{Countable K}.

Definition bucket_elems (m : gmap K (list A)) : list A := mjoin (snd <$> map_to_list m).

Lemma bucket_elems_insert (m : gmap K (list A)) k l :
  m !! k = None → bucket_elems (<[k := l]> m) ≡ₚ l ++ bucket_elems m.
Proof. intros Hk. unfold bucket_elems. by rewrite map_to_list_insert. Qed.

Lemma bucket_elems_add (m : gmap K (list A)) k x :
  bucket_elems (<[k := default [] (m !! k) ++ [x]]> m) ≡ₚ bucket_elems m ++ [x].
Proof.
  destruct (m !! k) as [l|] eqn:E; simpl.
  - rewrite <- (insert_delete_id m k l E) at 2.
    rewrite <- insert_delete_eq, !bucket_elems_insert by apply lookup_delete_eq.
    rewrite <- !app_assoc. f_equiv. apply Permutation_app_comm.
  - rewrite bucket_elems_insert by done. simpl. apply Permutation_cons_append.
Qed.

Lemma bucket_elems_empty : bucket_elems (∅ : gmap K (list A)) = [].
Proof. unfold bucket_elems. by rewrite map_to_list_empty. Qed.

Lemma bucket_elems_elem (m : gmap K (list A)) x :
  x ∈ bucket_elems m ↔ ∃ k l, m !! k = Some l ∧ x ∈ l.
Proof.
  unfold bucket_elems. rewrite list_elem_of_join. split.
  - intros (l & Hx & Hl). apply list_elem_of_fmap in Hl as ([k l'] & -> & Hl).
    apply elem_of_map_to_list in Hl. by exists k, l'.
  - intros (k & l & Hk & Hx). exists l. split; [done|].
    apply list_elem_of_fmap. exists (k, l). split; [done|]. by apply elem_of_map_to_list.
Qed.
End buckets.

(** * Folds that update one key per element *)

Section keyed_fold.
Context `{Countable K} {A V : Type} (key : A → K) (g : A → option V → option V).

Lemma foldl_partial_alter_ne (l : list A) (m : gmap K V) k :
  k ∉ (key <$> l) → foldl (λ m x, partial_alter (g x) (key x) m) m l !! k = m !! k.
Proof.
  revert m. induction l as [|x l IH]; intros m Hk; [done|]. simpl.
  rewrite fmap_cons, not_elem_of_cons in Hk. destruct Hk as [Hx Hl].
  rewrite IH by done. by rewrite lookup_partial_alter_ne.
Qed.

Lemma foldl_partial_alter (l : list A) (m : gmap K V) x :
  NoDup (key <$> l) → x ∈ l →
  foldl (λ m x, partial_alter (g x) (key x) m) m l !! key x = g x (m !! key x).
Proof.
  revert m. induction l as [|y l IH]; intros m Hnd Hx; [by apply elem_of_nil in Hx|].
  rewrite fmap_cons, NoDup_cons in Hnd. destruct Hnd as [Hy Hnd]. simpl.
  apply elem_of_cons in Hx as [->|Hx].
  - rewrite foldl_partial_alter_ne by done. by rewrite lookup_partial_alter_eq.
  - rewrite IH by done. rewrite lookup_partial_alter_ne; [done|].
    intros Heq. apply Hy. rewrite Heq. by apply list_elem_of_fmap_2.
Qed.

Lemma foldl_partial_alter_Find (l : list A) (m : gmap K V) k :
  NoDup (key <$> l) →
  foldl (λ m x, partial_alter (g x) (key x) m) m l !! k =
  match Find (λ x, bool_decide (key x = k)) l with Some x => g x (m !! k) | None => m !! k end.
Proof.
  intros Hnd. destruct (Find _ l) as [x|] eqn:E.
  - apply Find_Some in E as [Hx <-%bool_decide_eq_true]. by apply foldl_partial_alter.
  - apply foldl_partial_alter_ne. intros (x & -> & Hx)%list_elem_of_fmap.
    apply (Find_None _ _ _ E), bool_decide_eq_false in Hx. done.
Qed.

Lemma partial_alter_intro (m m' : gmap K V) (f : option V → option V) k :
  m' !! k = f (m !! k) → (∀ j, k ≠ j → m' !! j = m !! j) → m' = partial_alter f k m.
Proof.
  intros Hk Hj. apply map_eq. intros j. destruct (decide (k = j)) as [<-|Hne].
  - by rewrite lookup_partial_alter_eq.
  - rewrite lookup_partial_alter_ne by done. by apply Hj.
Qed.
End keyed_fold.

Lemma foldl_ext_in {A B} (f g : B → A → B) (l : list A) b :
  (∀ b x, f b x = g b x) → foldl f b l = foldl g b l.
Proof. intros Hfg. revert b. induction l as [|x l IH]; intros b; [done|]. simpl. by rewrite Hfg, IH. Qed.

(** [int32] sums: inner wrap-arounds do not matter. *)
Lemma i32_add_l a b : i32 (i32 a + b) = i32 (a + b).
Proof.
  unfold i32. replace (_ - 2 ^ 31 + b + 2 ^ 31) with ((a + 2 ^ 31) `mod` 2 ^ 32 + b) by lia.
  rewrite Z.add_mod_idemp_l by lia. f_equal. f_equal. lia.
Qed.

(** * Rounding of [float64] operations *)

Lemma round_half_even_bounds n m :
  0 < m → 2 * n - m ≤ 2 * (m * round_half_even n m) ≤ 2 * n + m.
Proof.
  intros Hm. unfold round_half_even. pose proof (Z.div_mod n m ltac:(lia)).
  pose proof (Z.mod_pos_bound n m Hm). repeat case_decide; try case_match; lia.
Qed.

Lemma round_half_even_ge n m k : 0 < m → k * m ≤ n → k ≤ round_half_even n m.
Proof. intros Hm Hk. pose proof (round_half_even_bounds n m Hm). nia. Qed.

Lemma round_half_even_le n m k : 0 < m → n ≤ k * m → round_half_even n m ≤ k.
Proof. intros Hm Hk. pose proof (round_half_even_bounds n m Hm). nia. Qed.

(** The exponent [round53] rounds at, and what it says of the quotient. *)
Definition exponent53 (n d : Z) : Z := Z.max 0 (Z.log2 (n / d) - 52).

Lemma exponent53_spec n d :
  0 ≤ n → 0 < d → 0 < exponent53 n d →
  2 ^ (exponent53 n d + 52) * d ≤ n < 2 ^ (exponent53 n d + 53) * d.
Proof.
  intros Hn Hd He. unfold exponent53 in *. rewrite Z.max_r in * by lia.
  assert (0 < n / d) as Hq.
  { destruct (Z.le_gt_cases (n / d) 0); [|done]. rewrite Z.log2_nonpos in He; lia. }
  destruct (Z.log2_spec _ Hq) as [Hlo Hhi].
  replace (Z.log2 (n / d) - 52 + 52) with (Z.log2 (n / d)) by lia.
  replace (Z.log2 (n / d) - 52 + 53) with (Z.succ (Z.log2 (n / d))) by lia.
  pose proof (Z.div_mod n d ltac:(lia)). pose proof (Z.mod_pos_bound n d Hd). nia.
Qed.

Lemma pow2_pos e : 0 ≤ e → 0 < 2 ^ e.
Proof. intros. by apply Z.pow_pos_nonneg. Qed.

(** Rounding does not cross a representable number [c * 2^j]. *)
Lemma round53_ge n d c j :
  0 ≤ n → 0 < d → 0 ≤ c ≤ 2 ^ 53 → 0 ≤ j → c * 2 ^ j * d ≤ n → c * 2 ^ j ≤ round53 n d.
Proof.
  intros Hn Hd Hc Hj Hle. unfold round53. fold (exponent53 n d). set (e := exponent53 n d).
  assert (0 ≤ e) as He by (unfold e, exponent53; lia). pose proof (pow2_pos e He) as Hp.
  assert (0 < d * 2 ^ e) as Hm by nia.
  destruct (Z.le_gt_cases e j) as [Hej|Hej].
  - replace j with (j - e + e) in * by lia. rewrite Z.pow_add_r in * by lia.
    rewrite Z.mul_assoc. apply Z.mul_le_mono_nonneg_r; [lia|]. apply round_half_even_ge; [done|]. nia.
  - destruct (exponent53_spec n d Hn Hd ltac:(fold e; lia)) as [Hlo _]. fold e in Hlo.
    rewrite Z.pow_add_r in Hlo by lia.
    assert (2 ^ 52 ≤ round_half_even n (d * 2 ^ e)) by (apply round_half_even_ge; [done|lia]).
    assert (2 * 2 ^ j ≤ 2 ^ e).
    { replace e with (e - 1 - j + 1 + j) by lia. rewrite !Z.pow_add_r by lia.
      pose proof (pow2_pos (e - 1 - j) ltac:(lia)). pose proof (pow2_pos j Hj). change (2 ^ 1) with 2. nia. }
    assert (c * 2 ^ j ≤ 2 ^ 52 * 2 ^ e); [|nia]. pose proof (pow2_pos j Hj).
    change (2 ^ 53) with (2 ^ 52 * 2) in Hc. nia.
Qed.

Lemma round53_le n d c j :
  0 ≤ n → 0 < d → 0 ≤ c ≤ 2 ^ 53 → 0 ≤ j → n ≤ c * 2 ^ j * d → round53 n d ≤ c * 2 ^ j.
Proof.
  intros Hn Hd Hc Hj Hle. unfold round53. fold (exponent53 n d). set (e := exponent53 n d).
  assert (0 ≤ e) as He by (unfold e, exponent53; lia). pose proof (pow2_pos e He) as Hp.
  assert (0 < d * 2 ^ e) as Hm by nia.
  destruct (Z.le_gt_cases e j) as [Hej|Hej].
  - replace j with (j - e + e) in * by lia. rewrite Z.pow_add_r in * by lia.
    rewrite Z.mul_assoc. apply Z.mul_le_mono_nonneg_r; [lia|]. apply round_half_even_le; [done|]. nia.
  - destruct (exponent53_spec n d Hn Hd ltac:(fold e; lia)) as [Hlo _]. fold e in Hlo.
    rewrite Z.pow_add_r in Hlo by lia.
    assert (2 * 2 ^ j ≤ 2 ^ e).
    { replace e with (e - 1 - j + 1 + j) by lia. rewrite !Z.pow_add_r by lia.
      pose proof (pow2_pos (e - 1 - j) ltac:(lia)). pose proof (pow2_pos j Hj). change (2 ^ 1) with 2. nia. }
    pose proof (pow2_pos j Hj).
    assert (c * 2 ^ j ≤ 2 ^ 52 * 2 ^ e) by (change (2 ^ 53) with (2 ^ 52 * 2) in Hc; nia).
    assert (round_half_even n (d * 2 ^ e) ≤ 2 ^ 52) by (apply round_half_even_le; [done|nia]).
    assert (2 ^ 52 * 2 ^ e ≤ c * 2 ^ j); nia.
Qed.

(** A number less than half a unit below a representable one is rounded up to it. *)
Lemma round53_reach n d c j :
  0 ≤ n → 0 < d → exponent53 n d ≤ j → 2 * (c * 2 ^ j * d - n) < d * 2 ^ exponent53 n d →
  c * 2 ^ j ≤ round53 n d.
Proof.
  intros Hn Hd Hj Hnear. unfold round53. fold (exponent53 n d). set (e := exponent53 n d) in *.
  assert (0 ≤ e) as He by (unfold e, exponent53; lia). pose proof (pow2_pos e He) as Hp.
  pose proof (round_half_even_bounds n (d * 2 ^ e) ltac:(nia)) as [Hb _].
  set (y := round_half_even _ _) in *. replace j with (j - e + e) in * by lia.
  rewrite Z.pow_add_r in * by lia. set (w := 2 ^ (j - e)) in *. set (b := 2 ^ e) in *.
  clearbody w b y. clear - Hnear Hb Hp Hd.
  assert (c * w - 1 < y) by (apply (Z.mul_lt_mono_pos_l (d * b)); nia).
  rewrite Z.mul_assoc. apply Z.mul_le_mono_nonneg_r; lia.
Qed.

Lemma round53_exact d c j :
  0 < d → 0 ≤ c ≤ 2 ^ 53 → 0 ≤ j → round53 (c * 2 ^ j * d) d = c * 2 ^ j.
Proof.
  intros Hd Hc Hj. pose proof (pow2_pos j Hj).
  assert (0 ≤ c * 2 ^ j * d) by nia.
  apply Z.le_antisymm; [by apply round53_le|by apply round53_ge].
Qed.

Lemma float64_one_pos : 0 < float64_one.
Proof. by apply pow2_pos. Qed.

Lemma float64_of_int_exact c j :
  0 ≤ c ≤ 2 ^ 53 → 0 ≤ j → float64_of_int (c * 2 ^ j) = c * 2 ^ j * float64_one.
Proof.
  intros Hc Hj. unfold float64_of_int, float64_one.
  replace (c * 2 ^ j * 2 ^ 1074) with (c * 2 ^ (j + 1074)) by (rewrite Z.pow_add_r; lia).
  rewrite <- (Z.mul_1_r (c * _)). rewrite round53_exact by lia. lia.
Qed.

(** The same bounds for the integers and dyadic fractions [float64_one] scales. *)
Lemma round53_ge_one n d c i :
  0 ≤ n → 0 < d → 0 ≤ c ≤ 2 ^ 53 → 0 ≤ i →
  c * 2 ^ i * float64_one * d ≤ n → c * 2 ^ i * float64_one ≤ round53 n d.
Proof.
  intros Hn Hd Hc Hi. unfold float64_one. rewrite <- (Z.mul_assoc c), <- Z.pow_add_r by lia.
  intros. apply round53_ge; lia.
Qed.

Lemma round53_le_one n d c i :
  0 ≤ n → 0 < d → 0 ≤ c ≤ 2 ^ 53 → 0 ≤ i →
  n ≤ c * 2 ^ i * float64_one * d → round53 n d ≤ c * 2 ^ i * float64_one.
Proof.
  intros Hn Hd Hc Hi. unfold float64_one. rewrite <- (Z.mul_assoc c), <- Z.pow_add_r by lia.
  intros. apply round53_le; lia.
Qed.

Lemma round53_nonneg n d : 0 ≤ n → 0 < d → 0 ≤ round53 n d.
Proof. intros. rewrite <- (Z.mul_0_l (2 ^ 0)). apply round53_ge; lia. Qed.
