(* ===== verification/GoStd.v ===== *)
(** * Go's standard library: integers, times and JSON as text

    [strconv.Atoi], suffix and prefix trimming, and [time.Parse] for the RFC 3339 layout,
    as far as the providers use them.  A time is its number of seconds since 1970. *)
From stdpp Require Import sorting.
From S2P Require Import Prelude.

(** ** Decimal digits *)

Definition digit (c : ascii) : option Z :=
  let n := Z.of_nat (Ascii.nat_of_ascii c) - 48 in
  if decide (0 ≤ n ≤ 9) then Some n else None.

(** The leading digits of a string, after [acc], and the rest. *)
Fixpoint parse_digits (acc : Z) (s : string) : Z * string :=
  match s with
  | EmptyString => (acc, "")
  | String c s' => match digit c with
                   | Some d => parse_digits (acc * 10 + d) s'
                   | None => (acc, s)
                   end
  end.


(** ** strconv and strings *)

(** [strconv.Atoi]: an optional sign and decimal digits, in the range of [int]. *)
Definition Atoi (s : string) : option Z :=
  let '(sign, body) :=
    match s with
    | String "-" s' => (-1, s')
    | String "+" s' => (1, s')
    | _ => (1, s)
    end in
  match body, parse_digits 0 body with
  | EmptyString, _ => None
  | _, (n, EmptyString) =>
      if decide (- 2 ^ 63 ≤ sign * n < 2 ^ 63) then Some (sign * n) else None
  | _, _ => None
  end.

(** [strings.Join] *)
Fixpoint JoinWith (sep : string) (l : list string) : string :=
  match l with
  | [] => ""
  | [s] => s
  | s :: l' => s +:+ sep +:+ JoinWith sep l'
  end.

(** [strings.TrimLeft] for a cutset of one character. *)
Fixpoint TrimLeft (s : string) (c : ascii) : string :=
  match s with
  | String a s' => if decide (a = c) then TrimLeft s' c else s
  | EmptyString => ""
  end.

(** [strings.TrimPrefix], [strings.HasSuffix] and [strings.TrimSuffix]. *)
Fixpoint CutPrefix (s prefix : string) : option string :=
  match prefix, s with
  | EmptyString, _ => Some s
  | String p prefix', String c s' => if decide (c = p) then CutPrefix s' prefix' else None
  | String _ _, EmptyString => None
  end.
Fixpoint HasSuffix (s suffix : string) : bool :=
  bool_decide (s = suffix) ||
  match s with EmptyString => false | String _ s' => HasSuffix s' suffix end.
Fixpoint TrimSuffix (s suffix : string) : string :=
  if decide (s = suffix) then ""
  else match s with EmptyString => "" | String c s' => String c (TrimSuffix s' suffix) end.

(** [strings.Cut] around the first occurrence of a character. *)
Fixpoint Cut (s : string) (sep : ascii) : option (string * string) :=
  match s with
  | EmptyString => None
  | String c s' =>
      if decide (c = sep) then Some ("", s')
      else '(before, after) ← Cut s' sep; Some (String c before, after)
  end.

(** [strings.TrimSpace] on ASCII text. *)
Definition is_space (c : ascii) : bool :=
  let n := Z.of_nat (Ascii.nat_of_ascii c) in bool_decide (9 ≤ n ≤ 13 ∨ n = 32).
Fixpoint trim_start (s : string) : string :=
  match s with
  | String c s' => if is_space c then trim_start s' else s
  | EmptyString => ""
  end.
Fixpoint trim_end (s : string) : string :=
  match s with
  | String c s' =>
      match trim_end s' with
      | EmptyString => if is_space c then "" else String c ""
      | t => String c t
      end
  | EmptyString => ""
  end.
Definition TrimSpace (s : string) : string := trim_end (trim_start s).

(** ** encoding/json *)

Definition quote : ascii := "034"%char.
Definition backslash : ascii := "092"%char.
Definition hex_digit (n : Z) : ascii :=
  Ascii.ascii_of_nat (Z.to_nat (if decide (n < 10) then 48 + n else 87 + n)).

(** One character of a JSON string, as [json.Marshal] writes ASCII text: quotes and
    backslashes escaped, control characters and the HTML characters as code points. *)
Definition json_char (c : ascii) : string :=
  let n := Z.of_nat (Ascii.nat_of_ascii c) in
  let escape s := String backslash s in
  if decide (c = quote ∨ c = backslash) then escape (String c "")
  else if decide (n = 8) then escape "b" else if decide (n = 9) then escape "t"
  else if decide (n = 10) then escape "n" else if decide (n = 12) then escape "f"
  else if decide (n = 13) then escape "r"
  else if decide (n < 32 ∨ c ∈ ["<"; ">"; "&"]%char) then
    escape ("u00" +:+ String (hex_digit (n / 16)) (String (hex_digit (n mod 16)) ""))
  else String c "".
Fixpoint json_chars (s : string) : string :=
  match s with EmptyString => "" | String c s' => json_char c +:+ json_chars s' end.
Definition json_string (s : string) : string := String quote (json_chars s +:+ String quote "").
Definition json_list (l : list string) : string := "[" +:+ Join (json_string <$> l) "," +:+ "]".
(** The keys of a map are sorted. *)
Definition json_map (m : gmap string string) : string :=
  let entry k := json_string k +:+ ":" +:+ json_string (m !!! k) in
  "{" +:+ Join (entry <$> merge_sort String.le (map_to_list m).*1) "," +:+ "}".

(** ** time.Parse(time.RFC3339, _) *)

Definition days_in_month (year month : Z) : Z :=
  if decide (month = 2) then
    if bool_decide (year mod 4 = 0) && (bool_decide (year mod 100 ≠ 0) || bool_decide (year mod 400 = 0))
    then 29 else 28
  else if decide (month ∈ [4; 6; 9; 11]) then 30 else 31.

(** Days of the years before [year], and of its months before [month], since 0001-01-01. *)
Definition days_before_year (year : Z) : Z :=
  let y := year - 1 in 365 * y + y / 4 - y / 100 + y / 400.
Definition days_before_month (year month : Z) : Z :=
  foldl (λ acc m, acc + days_in_month year m) 0 (seqZ 1 (month - 1)).

(** [time.Date(...).Unix()] in UTC. *)
Definition Date (year month day hour min sec : Z) : Z :=
  let days := days_before_year year + days_before_month year month + (day - 1) - 719162 in
  ((days * 24 + hour) * 60 + min) * 60 + sec.

(** A two-digit number, and the hour, which may have one digit. *)
Definition getnum2 (s : string) : option (Z * string) :=
  match s with
  | String a (String b s') => x ← digit a; y ← digit b; Some (10 * x + y, s')
  | _ => None
  end.
Definition getnum (s : string) : option (Z * string) :=
  match getnum2 s with
  | Some r => Some r
  | None => match s with String a s' => x ← digit a; Some (x, s') | _ => None end
  end.
Definition getyear (s : string) : option (Z * string) :=
  '(x, s) ← getnum2 s; '(y, s) ← getnum2 s; Some (100 * x + y, s).

Definition expect (c : ascii) (s : string) : option string :=
  match s with String a s' => if decide (a = c) then Some s' else None | _ => None end.
Definition in_range (lo hi n : Z) : option unit := if decide (lo ≤ n ≤ hi) then Some () else None.

(** A fraction of a second, which [Unix] ignores. *)
Definition skip_fraction (s : string) : string :=
  match s with
  | String c (String d s') =>
      if decide ((c = "." ∨ c = ",")%char ∧ is_Some (digit d)) then (parse_digits 0 s').2 else s
  | _ => s
  end.

(** The offset in seconds: [Z], or a sign, hours and minutes. *)
Definition getoffset (s : string) : option Z :=
  match s with
  | String "Z" EmptyString => Some 0
  | String c s =>
      '(h, s) ← getnum2 s; s ← expect ":" s; '(m, s) ← getnum2 s;
      _ ← in_range 0 24 h; _ ← in_range 0 60 m;
      if decide (s ≠ "") then None
      else if decide (c = "+"%char) then Some ((h * 60 + m) * 60)
      else if decide (c = "-"%char) then Some (- ((h * 60 + m) * 60))
      else None
  | EmptyString => None
  end.

Definition ParseRFC3339 (s : string) : option Z :=
  '(year, s) ← getyear s; s ← expect "-" s;
  '(month, s) ← getnum2 s; _ ← in_range 1 12 month; s ← expect "-" s;
  '(day, s) ← getnum2 s; s ← expect "T" s;
  '(hour, s) ← getnum s; _ ← in_range 0 23 hour; s ← expect ":" s;
  '(min, s) ← getnum2 s; _ ← in_range 0 59 min; s ← expect ":" s;
  '(sec, s) ← getnum2 s; _ ← in_range 0 59 sec;
  offset ← getoffset (skip_fraction s);
  _ ← in_range 1 (days_in_month year month) day;
  Some (Date year month day hour min sec - offset).

(** ** Facts *)

Lemma digit_pretty_char n : (n < 10)%N → digit (pretty_N_char n) = Some (Z.of_N n).
Proof.
  intros Hn. assert (n ∈ [0; 1; 2; 3; 4; 5; 6; 7; 8; 9])%N as Hin.
  { destruct n as [|p]; [by left|]. do 4 (try destruct p as [p|p|]); try lia;
      by apply (bool_decide_unpack _); vm_compute. }
  repeat (apply elem_of_cons in Hin as [->|Hin]; [by vm_compute|]). by apply elem_of_nil in Hin.
Qed.

Lemma parse_digits_pretty x s : parse_digits 0 (pretty_N_go x s) = parse_digits (Z.of_N x) s.
Proof.
  revert s. induction (N.lt_wf_0 x) as [x _ IH]. intros s. destruct (decide (0 < x)%N) as [Hx|Hx].
  - rewrite pretty_N_go_step by done. rewrite IH by (apply N.div_lt; lia). simpl.
    rewrite digit_pretty_char by (apply N.mod_lt; lia). f_equal.
    rewrite (N.div_mod x 10) at 3 by lia. lia.
  - assert (x = 0)%N as -> by lia. by rewrite pretty_N_go_0.
Qed.

Lemma pretty_N_go_app x s s' : pretty_N_go x s +:+ s' = pretty_N_go x (s +:+ s').
Proof.
  revert s. induction (N.lt_wf_0 x) as [x _ IH]. intros s. destruct (decide (0 < x)%N) as [Hx|Hx].
  - rewrite !(pretty_N_go_step x) by done. rewrite IH by (apply N.div_lt; lia). done.
  - assert (x = 0)%N as -> by lia. by rewrite !pretty_N_go_0.
Qed.

(** The string starts with a digit. *)
Definition starts_digit (s : string) : Prop :=
  match s with String c _ => is_Some (digit c) | EmptyString => False end.

Lemma pretty_N_go_starts x s : (0 < x)%N ∨ starts_digit s → starts_digit (pretty_N_go x s).
Proof.
  revert s. induction (N.lt_wf_0 x) as [x _ IH]. intros s Hs. destruct (decide (0 < x)%N) as [Hx|Hx].
  - rewrite pretty_N_go_step by done. apply IH; [apply N.div_lt; lia|]. right. simpl.
    rewrite digit_pretty_char by (apply N.mod_lt; lia). by eexists.
  - assert (x = 0)%N as -> by lia. rewrite pretty_N_go_0. destruct Hs; [lia|done].
Qed.

(** A number printed before a non-digit is read back. *)
Lemma parse_digits_fmt n s :
  0 ≤ n → ¬ starts_digit s →
  starts_digit (fmt_int n +:+ s) ∧ parse_digits 0 (fmt_int n +:+ s) = (n, s).
Proof.
  intros Hn Hs. assert (parse_digits n s = (n, s)) as Hrest.
  { destruct s as [|c s]; [done|]. simpl in *. destruct (digit c); [|done]. by destruct Hs. }
  destruct n as [|p|p]; [| |lia].
  - split; [by eexists|]. exact Hrest.
  - change (fmt_int (Z.pos p)) with (pretty_N_go (N.pos p) ""). rewrite pretty_N_go_app.
    split; [by apply pretty_N_go_starts; left|]. by rewrite parse_digits_pretty.
Qed.

Lemma Atoi_fmt_int n : 0 ≤ n < 2 ^ 63 → Atoi (fmt_int n) = Some n.
Proof.
  intros Hn. destruct (parse_digits_fmt n "") as [Hs Hp]; [lia|by intros []|].
  rewrite string_app_nil_r in Hs, Hp. unfold Atoi. destruct (fmt_int n) as [|c s]; [done|].
  destruct Hs as [d Hd].
  assert (c ≠ "-" ∧ c ≠ "+")%char as [H1 H2] by (split; intros ->; done).
  destruct c as [[] [] [] [] [] [] [] []]; try done; rewrite Hp;
    (rewrite decide_True by lia; f_equal; lia).
Qed.

Example ParseRFC3339_epoch : ParseRFC3339 "1970-01-01T00:00:00Z" = Some 0.
Proof. reflexivity. Qed.
Example ParseRFC3339_leap : ParseRFC3339 "2024-02-29T12:30:45.123+01:00" = Some 1709206245.
Proof. reflexivity. Qed.
Example ParseRFC3339_short_hour : ParseRFC3339 "2001-09-09T1:46:40Z" = Some 1000000000.
Proof. reflexivity. Qed.
Example ParseRFC3339_bad_day : ParseRFC3339 "2023-02-29T12:30:45Z" = None.
Proof. reflexivity. Qed.
