(* ===== verification/GoCache.v ===== *)
(** * The [patrickmn/go-cache] interface

    The expiring caches the providers keep are third-party code.  What the providers rely
    on is stated here as a class: [items] is the abstract content (a value and its expiry
    instant per key), and each operation is specified by its effect on [items].  Expired
    entries stay in [items] until the janitor's [DeleteExpired] removes them, but [Get]
    does not return them; the eviction callback runs for [Delete] and [DeleteExpired], and
    not for [Flush].  [RefCache] is one implementation of the interface, which discharges
    the laws and makes the client components executable. *)
From S2P Require Import Prelude.

(** Instants and durations, in nanoseconds. *)
Abbreviation time := Z (only parsing).
Definition Millisecond : Z := 1_000_000.
Definition Second : Z := 1000 * Millisecond.
Definition Minute : Z := 60 * Second.
Definition Hour : Z := 60 * Minute.

(** The instant an entry stored at [now] with default duration [ttl] expires:
    a duration below 1 means "never". *)
Definition expiry (ttl : Z) (now : time) : option time :=
  if decide (0 < ttl) then Some (now + ttl) else None.

(** An entry is expired once the clock is strictly past its expiry instant. *)
Definition expired (t : time) (e : option time) : bool :=
  match e with Some x => bool_decide (x < t) | None => false end.

Definition live_value {V} (t : time) (it : V * option time) : option V :=
  if expired t it.2 then None else Some it.1.

Class GoCache (V C : Type) := {
  New : Z → C;                                       (* cache.New(defaultExpiration, _) *)
  defaultTTL : C → Z;
  items : C → gmap string (V * option time);
  Get : C → time → string → option V;
  SetDefault : C → time → string → V → C;
  Set_ : C → time → string → V → Z → C;              (* Set with an explicit duration *)
  Delete : C → string → C * list (string * V);       (* with the callback's arguments *)
  DeleteExpired : C → time → C * list (string * V);
  Flush : C → C;
}.
#[global] Hint Mode GoCache - ! : typeclass_instances.

Class GoCacheLaws (V C : Type) `{GoCache V C} := {
  New_ttl ttl : defaultTTL (New ttl : C) = ttl;
  New_items ttl : items (New ttl : C) = ∅;
  Get_items (c : C) t k : Get c t k = items c !! k ≫= live_value t;
  SetDefault_ttl (c : C) t k (v : V) : defaultTTL (SetDefault c t k v) = defaultTTL c;
  SetDefault_items (c : C) t k (v : V) :
    items (SetDefault c t k v) = <[k := (v, expiry (defaultTTL c) t)]> (items c);
  Set_ttl (c : C) t k (v : V) d : defaultTTL (Set_ c t k v d) = defaultTTL c;
  Set_items (c : C) t k (v : V) d :
    items (Set_ c t k v d) = <[k := (v, expiry d t)]> (items c);
  Delete_ttl (c : C) k : defaultTTL (Delete c k).1 = defaultTTL c;
  Delete_items (c : C) k : items (Delete c k).1 = delete k (items c);
  Delete_evicted (c : C) k :
    (Delete c k).2 = match items c !! k with Some (v, _) => [(k, v)] | None => [] end;
  DeleteExpired_ttl (c : C) t : defaultTTL (DeleteExpired c t).1 = defaultTTL c;
  DeleteExpired_items (c : C) t k :
    items (DeleteExpired c t).1 !! k =
    items c !! k ≫= λ it, if expired t it.2 then None else Some it;
  DeleteExpired_evicted (c : C) t k (v : V) :
    (k, v) ∈ (DeleteExpired c t).2 ↔
    ∃ e, items c !! k = Some (v, e) ∧ expired t e = true;
  DeleteExpired_NoDup (c : C) t : NoDup (DeleteExpired c t).2.*1;
  Flush_ttl (c : C) : defaultTTL (Flush c) = defaultTTL c;
  Flush_items (c : C) : items (Flush c) = ∅;
}.

(** The expiry instant [GetWithExpiration] reports: none for an entry that is gone, expired
    or kept for ever. *)
Definition GetExpiration {V C} `{GoCache V C} (c : C) (t : time) (k : string) : option time :=
  match items c !! k with
  | Some (_, e) => if expired t e then None else e
  | None => None
  end.

(** * Consequences for [Get] *)

Section consequences.
Context {V C : Type} `{GoCacheLaws V C}.
Implicit Types (c : C) (k : string) (v : V) (t : time).

Lemma expiry_live ttl now t :
  0 < ttl → expired t (expiry ttl now) = bool_decide (now + ttl < t).
Proof. intros. unfold expiry. by rewrite decide_True. Qed.

Lemma Get_SetDefault_eq c now t k v :
  0 < defaultTTL c →
  Get (SetDefault c now k v) t k = if decide (t ≤ now + defaultTTL c) then Some v else None.
Proof.
  intros. rewrite Get_items, SetDefault_items, lookup_insert_eq. simpl.
  unfold live_value; simpl. rewrite expiry_live by done.
  repeat case_decide; try case_bool_decide; done || lia.
Qed.

Lemma Get_SetDefault_ne c now t k k' v :
  k ≠ k' → Get (SetDefault c now k v) t k' = Get c t k'.
Proof. intros. by rewrite !Get_items, SetDefault_items, lookup_insert_ne. Qed.

Lemma Get_SetDefault_Some c now t k k' v v' :
  Get (SetDefault c now k v) t k' = Some v' → k' = k ∧ v' = v ∨ k' ≠ k ∧ Get c t k' = Some v'.
Proof.
  destruct (decide (k' = k)) as [->|Hne].
  - rewrite Get_items, SetDefault_items, lookup_insert_eq. simpl. unfold live_value; simpl.
    destruct (expired _ _); [done|]. intros [= ->]. by left.
  - rewrite Get_SetDefault_ne by done. by right.
Qed.

Lemma Get_Set_ne c now t k k' v d : k ≠ k' → Get (Set_ c now k v d) t k' = Get c t k'.
Proof. intros. by rewrite !Get_items, Set_items, lookup_insert_ne. Qed.

Lemma Get_Delete c t k k' :
  Get (Delete c k).1 t k' = if decide (k = k') then None else Get c t k'.
Proof.
  rewrite !Get_items, Delete_items. case_decide; subst.
  - by rewrite lookup_delete_eq.
  - by rewrite lookup_delete_ne.
Qed.

Lemma expired_mono t t' e : t ≤ t' → expired t e = true → expired t' e = true.
Proof. destruct e; simpl; [|done]. rewrite !bool_decide_eq_true. lia. Qed.

(** The janitor is invisible to readers whose clock has reached its own. *)
Lemma Get_DeleteExpired c t t' k :
  t ≤ t' → Get (DeleteExpired c t).1 t' k = Get c t' k.
Proof.
  intros Ht. rewrite !Get_items, DeleteExpired_items.
  destruct (items c !! k) as [[v e]|]; simpl; [|done].
  destruct (expired t e) eqn:E; simpl; [|done].
  unfold live_value; simpl. by rewrite (expired_mono _ _ _ Ht E).
Qed.

Lemma Get_Flush c t k : Get (Flush c) t k = None.
Proof. by rewrite Get_items, Flush_items, lookup_empty. Qed.

Lemma Get_New ttl t k : Get (New ttl : C) t k = None.
Proof. by rewrite Get_items, New_items, lookup_empty. Qed.

(** A value, once gone, does not come back by waiting. *)
Lemma Get_mono c t t' k : t ≤ t' → Get c t k = None → Get c t' k = None.
Proof.
  intros Ht. rewrite !Get_items. destruct (items c !! k) as [[v e]|]; simpl; [|done].
  unfold live_value; simpl. destruct (expired t e) eqn:E; [|done].
  by rewrite (expired_mono _ _ _ Ht E).
Qed.

(** A value that is there was there before, if nothing was stored. *)
Lemma Get_earlier c t t' k v : t ≤ t' → Get c t' k = Some v → Get c t k = Some v.
Proof.
  intros Ht. rewrite !Get_items. destruct (items c !! k) as [[v' e]|]; simpl; [|done].
  unfold live_value; simpl. destruct (expired t e) eqn:E; [|by destruct (expired t' e)].
  by rewrite (expired_mono _ _ _ Ht E).
Qed.

Lemma Get_Some_items c t k v : Get c t k = Some v → ∃ e, items c !! k = Some (v, e).
Proof.
  rewrite Get_items. destruct (items c !! k) as [[v' e]|]; simpl; [|done].
  unfold live_value; simpl. destruct (expired t e); naive_solver.
Qed.
End consequences.

Create HintDb gocache.
Create Rewrite HintDb gocache.
#[export] Hint Rewrite @New_ttl @SetDefault_ttl @Set_ttl @Delete_ttl @DeleteExpired_ttl @Flush_ttl
  using (typeclasses eauto) : gocache.
#[export] Hint Rewrite @Get_Flush @Get_New using (typeclasses eauto) : gocache.
#[export] Hint Resolve expired_mono Get_mono : gocache.

(** * One implementation *)

Module RefCache.
Section ref.
Context {V : Type}.

Record t := { ttl : Z; content : gmap string (V * option time) }.

Definition is_expired (now : time) (kv : string * (V * option time)) : Prop :=
  expired now kv.2.2 = true.

#[global] Instance is_expired_dec now kv : Decision (is_expired now kv).
Proof. unfold is_expired. apply _. Defined.

Definition evict (m : gmap string (V * option time)) : list (string * V) :=
  (λ kv, (kv.1, kv.2.1)) <$> map_to_list m.

#[global] Instance ref_cache : GoCache V t := {|
  New d := {| ttl := d; content := ∅ |};
  defaultTTL := ttl;
  items := content;
  Get c now k := content c !! k ≫= live_value now;
  SetDefault c now k v :=
    {| ttl := ttl c; content := <[k := (v, expiry (ttl c) now)]> (content c) |};
  Set_ c now k v d :=
    {| ttl := ttl c; content := <[k := (v, expiry d now)]> (content c) |};
  Delete c k :=
    ({| ttl := ttl c; content := delete k (content c) |},
     match content c !! k with Some (v, _) => [(k, v)] | None => [] end);
  DeleteExpired c now :=
    ({| ttl := ttl c; content := filter (λ kv, ¬ is_expired now kv) (content c) |},
     evict (filter (is_expired now) (content c)));
  Flush c := {| ttl := ttl c; content := ∅ |};
|}.

#[global] Instance ref_cache_laws : GoCacheLaws V t.
Proof.
  split; try done.
  - intros c now k; simpl. destruct (content c !! k) as [[v e]|] eqn:E; simpl.
    + destruct (expired now e) eqn:X.
      * apply map_lookup_filter_None. right. intros x Hx. simplify_eq.
        unfold is_expired; simpl. by rewrite X; auto.
      * apply map_lookup_filter_Some. split; [done|]. unfold is_expired; simpl. by rewrite X.
    + apply map_lookup_filter_None. by left.
  - intros c now k v. simpl. unfold evict. rewrite list_elem_of_fmap. split.
    + intros ([k' [v' e]] & [= -> ->] & Hin). apply elem_of_map_to_list in Hin.
      apply map_lookup_filter_Some in Hin as [? ?]. by exists e.
    + intros (e & Hk & He). exists (k, (v, e)). split; [done|].
      apply elem_of_map_to_list, map_lookup_filter_Some. done.
  - intros c now. simpl. unfold evict. rewrite <- list_fmap_compose.
    apply NoDup_fst_map_to_list.
Qed.
End ref.
Arguments t : clear implicits.
End RefCache.
