(* ===== verification/AwsErrors.v ===== *)
(** * [pkg/errors]: classification of AWS errors

    An [error] is observed through its text and through the [smithy.APIError] that
    [errors.As] finds in its chain, if any.  Pointer fields that the code dereferences
    without a test ([*err.ErrorCode]) are plain values here: EC2 always fills them. *)
From S2P Require Import Prelude.

Inductive ErrorFault_ := FaultUnknown | FaultServer | FaultClient.
#[export] Instance ErrorFault_eq_dec : EqDecision ErrorFault_.
Proof. solve_decision. Defined.

Record APIError := {
  ErrorCode : string;
  ErrorMessage : string;
  ErrorFault : ErrorFault_;
}.

Record error := { Error : string; asAPIError : option APIError }.

#[export] Instance APIError_eq_dec : EqDecision APIError.
Proof. solve_decision. Defined.
#[export] Instance error_eq_dec : EqDecision error.
Proof. solve_decision. Defined.

(** [fmt.Errorf("<prefix>, %w", err)]: the text grows, the chain is kept. *)
Definition wrap (prefix : string) (e : error) : error :=
  {| Error := prefix +:+ ", " +:+ Error e; asAPIError := asAPIError e |}.

(** [fmt.Errorf] without a wrapped error. *)
Definition errorf (s : string) : error := {| Error := s; asAPIError := None |}.

(** [ec2types.CreateFleetError] *)
Record CreateFleetError := {
  cfe_ErrorCode : string;
  cfe_ErrorMessage : option string;
  cfe_InstanceType : string;
  cfe_AvailabilityZone : string;
  cfe_SubnetId : option string;
  cfe_Lifecycle : string;
}.

Definition launchTemplateNameNotFoundCode := "InvalidLaunchTemplateName.NotFoundException".
Definition RunInstancesInvalidParameterValueCode := "InvalidParameterValue".
Definition DryRunOperationErrorCode := "DryRunOperation".
Definition UnauthorizedOperationErrorCode := "UnauthorizedOperation".
Definition RateLimitingErrorCode := "RequestLimitExceeded".
Definition ServiceLinkedRoleCreationNotPermittedErrorCode :=
  "AuthFailure.ServiceLinkedRoleCreationNotPermitted".
Definition InsufficientFreeAddressesInSubnetErrorCode := "InsufficientFreeAddressesInSubnet".
Definition MaxFleetCountExceededErrorCode := "MaxFleetCountExceeded".
Definition InvalidUserDataMalformedCode := "InvalidUserData.Malformed".

Definition notFoundErrorCodes : gset string := list_to_set
  ["InvalidCapacityReservationId.NotFound"; "InvalidInstanceID.NotFound";
   launchTemplateNameNotFoundCode; "InvalidLaunchTemplateId.NotFound"; "QueueDoesNotExist";
   "NoSuchEntity"; "ParameterNotFound"].

Definition alreadyExistsErrorCodes : gset string := list_to_set ["EntityAlreadyExists"].

Definition reservationCapacityExceededErrorCode := "ReservationCapacityExceeded".
Definition capacityReservationStateUnavailableErrorCode :=
  "InvalidCapacityReservationState.Unavailable".

Definition unfulfillableCapacityErrorCodes : gset string := list_to_set
  ["InsufficientInstanceCapacity"; "MaxSpotInstanceCountExceeded"; "VcpuLimitExceeded";
   "UnfulfillableCapacity"; "Unsupported"; "InsufficientFreeAddressesInSubnet";
   "MaxFleetCountExceeded"; "SpotMaxPriceTooLow"; reservationCapacityExceededErrorCode;
   capacityReservationStateUnavailableErrorCode].

(** The shape every predicate on [error] shares: nil, or not an API error, is [false]. *)
Definition on_api (p : APIError → bool) (err : option error) : bool :=
  match err ≫= asAPIError with Some a => p a | None => false end.

Definition IsNotFound := on_api (λ a, bool_decide (ErrorCode a ∈ notFoundErrorCodes)).
Definition IgnoreNotFound (err : option error) : option error :=
  if IsNotFound err then None else err.
Definition IsAlreadyExists := on_api (λ a, bool_decide (ErrorCode a ∈ alreadyExistsErrorCodes)).
Definition IgnoreAlreadyExists (err : option error) : option error :=
  if IsAlreadyExists err then None else err.
Definition IsDryRunError := on_api (λ a, bool_decide (ErrorCode a = DryRunOperationErrorCode)).
Definition IgnoreDryRunError (err : option error) : option error :=
  if IsDryRunError err then None else err.
Definition IsUnauthorizedOperationError :=
  on_api (λ a, bool_decide (ErrorCode a = UnauthorizedOperationErrorCode)).
Definition IgnoreUnauthorizedOperationError (err : option error) : option error :=
  if IsUnauthorizedOperationError err then None else err.
Definition IsRateLimitedError :=
  on_api (λ a, bool_decide (ErrorCode a = RateLimitingErrorCode)).
Definition IgnoreRateLimitedError (err : option error) : option error :=
  if IsRateLimitedError err then None else err.
Definition IsServerError := on_api (λ a, bool_decide (ErrorFault a = FaultServer)).
Definition IgnoreServerError (err : option error) : option error :=
  if IsServerError err then None else err.

Definition IsUnfulfillableCapacity (err : CreateFleetError) : bool :=
  bool_decide (cfe_ErrorCode err ∈ unfulfillableCapacityErrorCodes).
Definition IsServiceLinkedRoleCreationNotPermitted (err : CreateFleetError) : bool :=
  bool_decide (cfe_ErrorCode err = ServiceLinkedRoleCreationNotPermittedErrorCode).
Definition IsInsufficientFreeAddressesInSubnet (err : CreateFleetError) : bool :=
  bool_decide (cfe_ErrorCode err = InsufficientFreeAddressesInSubnetErrorCode).
Definition IsSpreadPlacementGroupLimitError (err : CreateFleetError) : bool :=
  match cfe_ErrorMessage err with
  | Some m => Contains m "limit of instances in this spread placement group"
  | None => false
  end.
Definition IsReservationCapacityExceeded (err : CreateFleetError) : bool :=
  bool_decide (cfe_ErrorCode err = reservationCapacityExceededErrorCode).

Definition IsLaunchTemplateNotFound :=
  on_api (λ a, bool_decide (ErrorCode a = launchTemplateNameNotFoundCode)).
Definition IsInstanceProfileNotFound :=
  on_api (λ a, bool_decide (ErrorCode a = RunInstancesInvalidParameterValueCode)
               && Contains (ErrorMessage a) "Invalid IAM Instance Profile name").
Definition IsUserDataTooLarge :=
  on_api (λ a, bool_decide (ErrorCode a = InvalidUserDataMalformedCode)
               && Contains (ErrorMessage a) "User data is limited to").

(** Condition reason and message of a launch failure; the cases are tried in order. *)
Definition ToReasonMessage (err : error) : string * string :=
  let has := Contains (Error err) in
  if has "AuthFailure.ServiceLinkedRoleCreationNotPermitted" then
    ("SpotSLRCreationFailed",
     "User does not have sufficient permission to create the Spot ServiceLinkedRole to launch spot instances")
  else
  if has "UnauthorizedOperation" || has "AccessDenied" || has "AuthFailure" then
    if has "with an explicit deny in a permissions boundary" then
      ("Unauthorized",
       "User is not authorized to perform this operation due to a permission boundary")
    else
    if has "with an explicit deny in a service control policy" then
      ("Unauthorized",
       "User is not authorized to perform this operation due to a service control policy")
    else
    if has "Not authorized for images" then
      ("AMIAuthorizationFailure",
       "User is not authorized for AMI used in instance launch")
    else
    ("Unauthorized",
     "User is not authorized to perform this operation because no identity-based policy allows it")
  else
  if has "InvalidParameter" && has "belong to different networks" then
    ("SecurityGroupSubnetVPCMismatch",
     "Security groups and subnets must be in the same VPC.")
  else
  if has "iamInstanceProfile.name is invalid" then
    ("InstanceProfileNameInvalid",
     "Instance profile name used from EC2NodeClass status does not exist")
  else
  if has "InvalidLaunchTemplateId.NotFound" then
    ("LaunchTemplateNotFound",
     "Launch template used for instance launch wasn't found")
  else
  if has "User data is limited to" then
    ("UserDataSizeLimitExceeded",
     "Rendered user data exceeds the EC2 user data size limit")
  else
  if has "InvalidAMIID.Malformed" then
    ("InvalidAMIID",
     "AMI used for instance launch is invalid")
  else
  if has "InvalidAMIID.NotFound" then
    ("AMINotFound",
     "AMI used for instance launch either does not exist or you don't have permissions to use it")
  else
  if has "RequestLimitExceeded" then
    ("RequestLimitExceeded",
     "Request limit exceeded")
  else
  if has "InternalError" then
    ("InternalError",
     "An internal error has occurred")
  else
  if has "not eligible for Free Tier" then
    ("FreeTierIneligible",
     "The specified instance type is not eligible for Free Tier")
  else
  if has "MaxFleetCountExceeded" then
    ("FleetQuotaExceeded",
     "A fleet launch was requested but this would exceed your fleet request quota")
  else
  if has "PendingVerification" then
    ("AccountPendingVerification",
     "An instance launch was requested but the request for launching resources in this region is still being verified")
  else
  if has "MaxSpotInstanceCountExceeded" then
    ("SpotQuotaExceeded",
     "A spot instance launch was requested but this would exceed your spot instance quota")
  else
  if has "VcpuLimitExceeded" then
    ("VCPULimitExceeded",
     "An instance was requested that would exceed your VCPU quota")
  else
  if has "InsufficientFreeAddressesInSubnet" then
    ("InsufficientFreeAddressesInSubnet",
     "There are not enough free IP addresses to launch an instance in this subnet")
  else
  ("LaunchFailed",
   "Instance launch failed").

(** ** Properties of the classification *)

(** Wrapping keeps the classification; only [ToReasonMessage] reads the text. *)
Lemma on_api_wrap p prefix e : on_api p (Some (wrap prefix e)) = on_api p (Some e).
Proof. done. Qed.

Lemma IsLaunchTemplateNotFound_NotFound err :
  IsLaunchTemplateNotFound err = true → IsNotFound err = true.
Proof.
  unfold IsLaunchTemplateNotFound, IsNotFound, on_api. destruct (err ≫= asAPIError); [|done].
  rewrite !bool_decide_eq_true. intros ->. by apply (bool_decide_unpack _).
Qed.

(** The two launch errors with a dedicated reaction are capacity errors too. *)
Lemma capacity_subclasses err :
  IsReservationCapacityExceeded err = true ∨ IsInsufficientFreeAddressesInSubnet err = true →
  IsUnfulfillableCapacity err = true.
Proof.
  unfold IsReservationCapacityExceeded, IsInsufficientFreeAddressesInSubnet,
    IsUnfulfillableCapacity. rewrite !bool_decide_eq_true.
  by intros [-> | ->]; apply (bool_decide_unpack _).
Qed.

(** A missing service-linked role is never taken for a capacity shortage. *)
Lemma slr_not_capacity err :
  IsServiceLinkedRoleCreationNotPermitted err = true → IsUnfulfillableCapacity err = false.
Proof.
  unfold IsServiceLinkedRoleCreationNotPermitted, IsUnfulfillableCapacity.
  rewrite bool_decide_eq_true, bool_decide_eq_false. intros ->.
  by apply (bool_decide_unpack _).
Qed.

(** The reasons of the last group: capacity and quota errors, and the default. *)
Definition capacity_reasons : list string :=
  ["FleetQuotaExceeded"; "AccountPendingVerification"; "SpotQuotaExceeded";
   "VCPULimitExceeded"; "InsufficientFreeAddressesInSubnet"; "LaunchFailed"].

Definition configuration_patterns : list string :=
  ["AuthFailure.ServiceLinkedRoleCreationNotPermitted"; "UnauthorizedOperation"; "AccessDenied";
   "AuthFailure"; "iamInstanceProfile.name is invalid"; "InvalidLaunchTemplateId.NotFound";
   "User data is limited to"; "InvalidAMIID.Malformed"; "InvalidAMIID.NotFound";
   "RequestLimitExceeded"; "InternalError"; "not eligible for Free Tier"].

Ltac split_matches :=
  repeat match goal with
    | H : context [if ?b then _ else _] |- _ => destruct b eqn:?
    | H : _ || _ = false |- _ => apply orb_false_elim in H as [? ?]
    end.

(** Capacity reasons come last.  A launch error is reported with a capacity or quota
    reason (or the generic one) only if its text matches none of the configuration and
    permission patterns, whatever else it contains. *)
Theorem ToReasonMessage_capacity_last err :
  (ToReasonMessage err).1 ∈ capacity_reasons →
  Forall (λ p, Contains (Error err) p = false) configuration_patterns.
Proof.
  unfold ToReasonMessage. intros H.
  split_matches; simpl in H; try (exfalso; revert H; by apply (bool_decide_unpack _)).
  all: by repeat constructor.
Qed.

Lemma ToReasonMessage_capacity_last_witness :
  ToReasonMessage (errorf "VcpuLimitExceeded: quota") =
    ("VCPULimitExceeded", "An instance was requested that would exceed your VCPU quota") ∧
  Forall (λ p, Contains "VcpuLimitExceeded: quota" p = false) configuration_patterns.
Proof.
  split; [by vm_compute|].
  apply (ToReasonMessage_capacity_last (errorf "VcpuLimitExceeded: quota")).
  apply (bool_decide_unpack _). by vm_compute.
Defined.
