(* ===== verification/ApiV1.v ===== *)
(** * [pkg/apis/v1]: the EC2NodeClass API types

    [ec2nodeclass.go], [ec2nodeclass_status.go], [labels.go] and [kubeletconfiguration.go].
    Field names carry a prefix per struct.  Pointers are options; [resource.Quantity] is a
    type parameter of the records that hold one.  A kubelet configuration is kept as the
    map from field names to JSON text that the API stores. *)
From S2P Require Import Prelude AwsErrors.

(** ** Selector terms *)

Record SubnetSelectorTerm := { sst_Tags : gmap string string; sst_ID : string }.

Record SecurityGroupSelectorTerm :=
  { sgst_Tags : gmap string string; sgst_ID : string; sgst_Name : string }.

Record CapacityReservationSelectorTerm := {
  crst_Tags : gmap string string;
  crst_ID : string;
  crst_OwnerID : string;
  crst_InstanceMatchCriteria : string;
}.

Record PlacementGroupSelector := { pgs_Name : option string; pgs_ID : option string }.

Record AMISelectorTerm := {
  ast_Alias : string;
  ast_Tags : gmap string string;
  ast_ID : string;
  ast_Name : string;
  ast_Owner : string;
  ast_SSMParameter : string;
}.

(** ** Launch options *)

Record MetadataOptions := {
  HTTPEndpoint : option string;
  HTTPProtocolIPv6 : option string;
  HTTPPutResponseHopLimit : option Z;
  HTTPTokens : option string;
}.

Record CPUOptions := { NestedVirtualization : option string }.

Record ConnectionTracking := {
  TCPEstablishedTimeout : option Z;
  UDPStreamTimeout : option Z;
  UDPTimeout : option Z;
}.

Record EnclaveOptions := { Enabled : bool }.

Record NetworkInterface := {
  ni_NetworkCardIndex : Z;
  ni_DeviceIndex : Z;
  ni_InterfaceType : string;
}.
Definition InterfaceTypeInterface := "interface".
Definition InterfaceTypeEFAOnly := "efa-only".

(** Extended resources. *)
Definition ResourceNVIDIAGPU := "nvidia.com/gpu".
Definition ResourceAMDGPU := "amd.com/gpu".
Definition ResourceAWSNeuron := "aws.amazon.com/neuron".
Definition ResourceAWSNeuronCore := "aws.amazon.com/neuroncore".
Definition ResourceHabanaGaudi := "habana.ai/gaudi".
Definition ResourceAWSPodENI := "vpc.amazonaws.com/pod-eni".
Definition ResourceEFA := "vpc.amazonaws.com/efa".

Definition InstanceStorePolicyRAID0 := "RAID0".

Definition KubeletConfiguration : Type := gmap string string.

Section quantity.
Context {Quantity : Type}.

Record BlockDevice := {
  DeleteOnTermination : option bool;
  Encrypted : option bool;
  IOPS : option Z;
  KMSKeyID : option string;
  SnapshotID : option string;
  Throughput : option Z;
  VolumeInitializationRate : option Z;
  VolumeSize : option Quantity;
  VolumeType : option string;
}.

Record BlockDeviceMapping := {
  DeviceName : option string;
  EBS : option BlockDevice;
  RootVolume : bool;
}.

Record EC2NodeClassSpec := {
  SubnetSelectorTerms : list SubnetSelectorTerm;
  SecurityGroupSelectorTerms : list SecurityGroupSelectorTerm;
  CapacityReservationSelectorTerms : list CapacityReservationSelectorTerm;
  PlacementGroupSelector_ : option PlacementGroupSelector;
  AssociatePublicIPAddress : option bool;
  IPPrefixCount : option Z;
  AMISelectorTerms : list AMISelectorTerm;
  AMIFamily_ : option string;
  UserData : option string;
  Role : string;
  InstanceProfile_ : option string;
  Tags : gmap string string;
  Kubelet : KubeletConfiguration;
  BlockDeviceMappings_ : list BlockDeviceMapping;
  InstanceStorePolicy_ : option string;
  NetworkInterfaces_ : list NetworkInterface;
  DetailedMonitoring : option bool;
  MetadataOptions_ : option MetadataOptions;
  EnclaveOptions_ : option EnclaveOptions;
  ConnectionTracking_ : option ConnectionTracking;
  Context_ : option string;
  CPUOptions_ : option CPUOptions;
}.
End quantity.
Arguments BlockDevice : clear implicits.
Arguments BlockDeviceMapping : clear implicits.
Arguments EC2NodeClassSpec : clear implicits.

(** ** Status *)

Definition ConditionTypeSubnetsReady := "SubnetsReady".
Definition ConditionTypeSecurityGroupsReady := "SecurityGroupsReady".
Definition ConditionTypeAMIsReady := "AMIsReady".
Definition ConditionTypeInstanceProfileReady := "InstanceProfileReady".
Definition ConditionTypeCapacityReservationsReady := "CapacityReservationsReady".
Definition ConditionTypeValidationSucceeded := "ValidationSucceeded".
Definition ConditionTypePlacementGroupReady := "PlacementGroupReady".

Record Subnet := { sn_ID : string; sn_Zone : string; sn_ZoneID : string }.
Record SecurityGroup := { sg_ID : string; sg_Name : string }.

(** [corev1.NodeSelectorRequirement] *)
Record NodeSelectorRequirement :=
  { nsr_Key : string; nsr_Operator : string; nsr_Values : list string }.

Record AMI := {
  ami_ID : string;
  ami_Deprecated : bool;
  ami_Name : string;
  ami_Requirements : list NodeSelectorRequirement;
}.

Definition CapacityReservationTypeDefault := "default".
Definition CapacityReservationTypeCapacityBlock := "capacity-block".
Definition CapacityReservationType_Values : list string :=
  [CapacityReservationTypeDefault; CapacityReservationTypeCapacityBlock].
Definition CapacityReservationStateActive := "active".
Definition CapacityReservationStateExpiring := "expiring".

Record CapacityReservation := {
  cr_AvailabilityZone : string;
  cr_EndTime : option Z;
  cr_ID : string;
  cr_InstanceMatchCriteria : string;
  cr_InstanceType : string;
  cr_OwnerID : string;
  cr_ReservationType : string;
  cr_Interruptible : bool;
  cr_State : string;
}.

(** A status condition ([operatorpkg/status]): a type and its value. *)
Inductive ConditionStatus := ConditionTrue | ConditionFalse | ConditionUnknown.
#[export] Instance ConditionStatus_eq_dec : EqDecision ConditionStatus.
Proof. solve_decision. Defined.
Record Condition := {
  cond_Status : ConditionStatus;
  cond_Reason : string;
  cond_Message : string;
  cond_ObservedGeneration : Z;
}.

Record EC2NodeClassStatus := {
  Subnets : list Subnet;
  SecurityGroups : list SecurityGroup;
  CapacityReservations_ : list CapacityReservation;
  AMIs_ : list AMI;
  InstanceProfile : string;
  Conditions : gmap string Condition;
}.

Record EC2NodeClass {Quantity : Type} := {
  nc_Name : string;
  nc_UID : string;
  nc_Generation : Z;
  nc_DeletionTimestamp : option Z;
  nc_Annotations : gmap string string;
  Spec : EC2NodeClassSpec Quantity;
  Status : EC2NodeClassStatus;
}.
Arguments EC2NodeClass : clear implicits.

(** Equality of NodeClasses is decidable ([equality.Semantic.DeepEqual]). *)
#[export] Instance SubnetSelectorTerm_eq_dec : EqDecision SubnetSelectorTerm.
Proof. solve_decision. Defined.
#[export] Instance SecurityGroupSelectorTerm_eq_dec : EqDecision SecurityGroupSelectorTerm.
Proof. solve_decision. Defined.
#[export] Instance CapacityReservationSelectorTerm_eq_dec : EqDecision CapacityReservationSelectorTerm.
Proof. solve_decision. Defined.
#[export] Instance PlacementGroupSelector_eq_dec : EqDecision PlacementGroupSelector.
Proof. solve_decision. Defined.
#[export] Instance AMISelectorTerm_eq_dec : EqDecision AMISelectorTerm.
Proof. solve_decision. Defined.
#[export] Instance MetadataOptions_eq_dec : EqDecision MetadataOptions.
Proof. solve_decision. Defined.
#[export] Instance CPUOptions_eq_dec : EqDecision CPUOptions.
Proof. solve_decision. Defined.
#[export] Instance ConnectionTracking_eq_dec : EqDecision ConnectionTracking.
Proof. solve_decision. Defined.
#[export] Instance EnclaveOptions_eq_dec : EqDecision EnclaveOptions.
Proof. solve_decision. Defined.
#[export] Instance NetworkInterface_eq_dec : EqDecision NetworkInterface.
Proof. solve_decision. Defined.
#[export] Instance Subnet_eq_dec : EqDecision Subnet.
Proof. solve_decision. Defined.
#[export] Instance SecurityGroup_eq_dec : EqDecision SecurityGroup.
Proof. solve_decision. Defined.
#[export] Instance NodeSelectorRequirement_eq_dec : EqDecision NodeSelectorRequirement.
Proof. solve_decision. Defined.
#[export] Instance AMI_eq_dec : EqDecision AMI.
Proof. solve_decision. Defined.
#[export] Instance CapacityReservation_eq_dec : EqDecision CapacityReservation.
Proof. solve_decision. Defined.
#[export] Instance Condition_eq_dec : EqDecision Condition.
Proof. solve_decision. Defined.
#[export] Instance EC2NodeClassStatus_eq_dec : EqDecision EC2NodeClassStatus.
Proof. solve_decision. Defined.
Section equality.
Context {Q : Type} `{EqDecision Q}.
#[global] Instance BlockDevice_eq_dec : EqDecision (BlockDevice Q).
Proof. solve_decision. Defined.
#[global] Instance BlockDeviceMapping_eq_dec : EqDecision (BlockDeviceMapping Q).
Proof. solve_decision. Defined.
#[global] Instance EC2NodeClassSpec_eq_dec : EqDecision (EC2NodeClassSpec Q).
Proof. solve_decision. Defined.
#[global] Instance EC2NodeClass_eq_dec : EqDecision (EC2NodeClass Q).
Proof. solve_decision. Defined.
End equality.

(** The condition types whose conjunction is readiness. *)
Definition StatusConditions_types (CapacityReservationsEnabled : bool) : list string :=
  [ConditionTypeAMIsReady; ConditionTypeSubnetsReady; ConditionTypeSecurityGroupsReady;
   ConditionTypeInstanceProfileReady; ConditionTypeValidationSucceeded;
   ConditionTypePlacementGroupReady]
  ++ if CapacityReservationsEnabled then [ConditionTypeCapacityReservationsReady] else [].

(** ** Zones *)

Record ZoneInfo_ := { zi_Zone : string; zi_ZoneID : string; zi_SubnetIDs : list string }.

Definition zone_info_of (zoneID : string) (subnets : list Subnet) : ZoneInfo_ :=
  {| zi_Zone := default "" (sn_Zone <$> head subnets); zi_ZoneID := zoneID;
     zi_SubnetIDs := sn_ID <$> subnets |}.

(** One entry per zone ID; the order of a Go map iteration is unspecified, the model takes
    the order of [map_to_list]. *)
Definition ZoneInfo (subnets : list Subnet) : list ZoneInfo_ :=
  (λ g, zone_info_of g.1 g.2) <$> map_to_list (GroupBy sn_ZoneID subnets).

(** ** Capacity reservations *)

(** The fields of [ec2types.CapacityReservation] the code reads. *)
Record Ec2CapacityReservation := {
  CapacityReservationId : string;
  AvailableInstanceCount : Z;
  EndDate : option Z;
  AvailabilityZone : string;
  InstanceMatchCriteria : string;
  InstanceType : string;
  OwnerId : string;
  ReservationType : string;
  Interruptible : option bool;
}.

Definition CapacityReservationTypeFromEC2 (t : string) : result error string :=
  if bool_decide (t = "") then Ok CapacityReservationTypeDefault
  else match Find (λ crt, bool_decide (crt = t)) CapacityReservationType_Values with
       | Some crt => Ok crt
       | None => Err (errorf "received capacity reservation with unsupported reservation type from ec2")
       end.

(** [capacityReservationExpirationPeriod], 40 minutes in nanoseconds. *)
Definition capacityReservationExpirationPeriod : Z := 40 * 60 * 1_000_000_000.

Definition is_active (now : Z) (reservationType : string) (endTime : option Z) : bool :=
  bool_decide (reservationType ≠ CapacityReservationTypeCapacityBlock)
  || match endTime with
     | None => true
     | Some e => bool_decide (now < e - capacityReservationExpirationPeriod)
     end.

Definition CapacityReservationFromEC2 (now : Z) (cr : Ec2CapacityReservation) :
    result error CapacityReservation :=
  if negb (bool_decide (InstanceMatchCriteria cr ∈ ["open"; "targeted"])) then
    Err (errorf "received capacity reservation with unsupported instance match criteria from ec2")
  else
    reservationType ← CapacityReservationTypeFromEC2 (ReservationType cr);
    Ok {| cr_AvailabilityZone := AvailabilityZone cr;
          cr_EndTime := EndDate cr;
          cr_ID := CapacityReservationId cr;
          cr_InstanceMatchCriteria := InstanceMatchCriteria cr;
          cr_InstanceType := InstanceType cr;
          cr_OwnerID := OwnerId cr;
          cr_ReservationType := reservationType;
          cr_Interruptible := default false (Interruptible cr);
          cr_State := if is_active now reservationType (EndDate cr) then CapacityReservationStateActive
                      else CapacityReservationStateExpiring |}.


(** ** AMI aliases *)

Definition AMIFamilyBottlerocket := "Bottlerocket".
Definition AMIFamilyAL2 := "AL2".
Definition AMIFamilyAL2023 := "AL2023".
Definition AMIFamilyWindows2019 := "Windows2019".
Definition AMIFamilyWindows2022 := "Windows2022".
Definition AMIFamilyWindows2025 := "Windows2025".
Definition AMIFamilyCustom := "Custom".

Record Alias_ := { Family : string; Version : string }.
Definition AliasVersionLatest := "latest".

Definition Alias_String (a : Alias_) : string := Family a +:+ "@" +:+ Version a.

Definition at_sign : ascii := "@"%char.

(** [log.Fatalf], which ends the process, is [None]. *)
Definition amiFamilyFromAlias (alias : string) : option string :=
  match Split alias at_sign with
  | [c0; _] =>
      Find (λ family, bool_decide (ToLower family = c0))
        [AMIFamilyAL2; AMIFamilyAL2023; AMIFamilyBottlerocket; AMIFamilyWindows2019;
         AMIFamilyWindows2022; AMIFamilyWindows2025]
  | _ => None
  end.

Definition amiVersionFromAlias (alias : string) : option string :=
  match Split alias at_sign with [_; c1] => Some c1 | _ => None end.

Section nodeclass.
Context {Quantity : Type}.
Local Abbreviation NC := (EC2NodeClass Quantity).

(** The outer option is process exit, the inner one the nil alias. *)
Definition Alias (nc : NC) : option (option Alias_) :=
  match Find (λ term, bool_decide (ast_Alias term ≠ "")) (AMISelectorTerms (Spec nc)) with
  | None => Some None
  | Some term =>
      f ← amiFamilyFromAlias (ast_Alias term);
      v ← amiVersionFromAlias (ast_Alias term);
      Some (Some {| Family := f; Version := v |})
  end.

Definition AMIFamily (nc : NC) : option string :=
  match AMIFamily_ (Spec nc) with
  | Some f => Some f
  | None => a ← Alias nc;
            Some (match a with Some al => Family al | None => AMIFamilyCustom end)
  end.

Definition EKSClusterNameTagKey := "eks:eks-cluster-name".
Definition AnnotationInstanceProfile := "karpenter.k8s.aws/instance-profile-name".
Definition LabelNodeClass := "karpenter.k8s.aws/ec2nodeclass".
Definition LabelTopologyRegion := "topology.kubernetes.io/region".

(** [lo.Assign]: the later map wins. *)
Definition InstanceProfileTags (nc : NC) (clusterName region : string) : gmap string string :=
  <[("kubernetes.io/cluster/" +:+ clusterName) := "owned"]>
    (<[EKSClusterNameTagKey := clusterName]>
      (<[LabelNodeClass := nc_Name nc]>
        (<[LabelTopologyRegion := region]> (Tags (Spec nc))))).

Definition InstanceProfileRole (nc : NC) : string := Role (Spec nc).
Definition BlockDeviceMappings (nc : NC) := BlockDeviceMappings_ (Spec nc).
Definition InstanceStorePolicy (nc : NC) := InstanceStorePolicy_ (Spec nc).
Definition NetworkInterfaces (nc : NC) := NetworkInterfaces_ (Spec nc).
Definition ConnectionTracking__ (nc : NC) := ConnectionTracking_ (Spec nc).
Definition CPUOptions__ (nc : NC) := CPUOptions_ (Spec nc).
Definition EnclaveOptions__ (nc : NC) := EnclaveOptions_ (Spec nc).
Definition AMIs (nc : NC) := AMIs_ (Status nc).
Definition CapacityReservations (nc : NC) := CapacityReservations_ (Status nc).
End nodeclass.

(** ** Properties *)

Lemma ZoneInfo_elem subnets zi :
  zi ∈ ZoneInfo subnets ↔
  zi = zone_info_of (zi_ZoneID zi) (filter (λ s, sn_ZoneID s = zi_ZoneID zi) subnets) ∧
  filter (λ s, sn_ZoneID s = zi_ZoneID zi) subnets ≠ [].
Proof.
  unfold ZoneInfo. rewrite list_elem_of_fmap. split.
  - intros ([z g] & -> & Hg%elem_of_map_to_list). rewrite GroupBy_lookup in Hg. simpl.
    destruct (filter _ subnets) eqn:E; [done|]. by simplify_eq.
  - intros [Hzi Hne]. exists (zi_ZoneID zi, filter (λ s, sn_ZoneID s = zi_ZoneID zi) subnets).
    split; [done|]. apply elem_of_map_to_list. rewrite GroupBy_lookup.
    by destruct (filter _ subnets).
Qed.

Lemma ZoneInfo_NoDup subnets : NoDup (zi_ZoneID <$> ZoneInfo subnets).
Proof.
  unfold ZoneInfo. rewrite <- list_fmap_compose.
  rewrite (list_fmap_ext _ fst); [apply NoDup_fst_map_to_list|done].
Qed.

(** [ZoneInfo] partitions the subnets by zone ID.  Each zone ID has one entry, whose
    subnet list is exactly the IDs of the subnets of that zone in status order, and every
    subnet of the status is in the entry of its own zone. *)
Theorem ZoneInfo_partition subnets :
  NoDup (zi_ZoneID <$> ZoneInfo subnets) ∧
  (∀ zi, zi ∈ ZoneInfo subnets →
     zi_SubnetIDs zi = sn_ID <$> filter (λ s, sn_ZoneID s = zi_ZoneID zi) subnets ∧
     zi_SubnetIDs zi ≠ []) ∧
  (∀ s, s ∈ subnets →
     ∃ zi, zi ∈ ZoneInfo subnets ∧ zi_ZoneID zi = sn_ZoneID s ∧ sn_ID s ∈ zi_SubnetIDs zi).
Proof.
  split; [apply ZoneInfo_NoDup|]. split.
  - intros zi [-> Hne]%ZoneInfo_elem. simpl. split; [done|].
    by intros ?%fmap_nil_inv.
  - intros s Hs. set (g := filter (λ s', sn_ZoneID s' = sn_ZoneID s) subnets).
    assert (s ∈ g) as Hg by by apply list_elem_of_filter.
    exists (zone_info_of (sn_ZoneID s) g). split_and!; [|done|].
    + apply ZoneInfo_elem. simpl. split; [done|].
      intros Hnil. unfold g in Hg. rewrite Hnil in Hg. by apply elem_of_nil in Hg.
    + by apply list_elem_of_fmap_2.
Qed.

Lemma CapacityReservationType_ok t rt :
  CapacityReservationTypeFromEC2 t = Ok rt ↔
  (t = "" ∧ rt = CapacityReservationTypeDefault) ∨
  (t ≠ "" ∧ rt = t ∧ t ∈ CapacityReservationType_Values).
Proof.
  unfold CapacityReservationTypeFromEC2. case_bool_decide; subst; [naive_solver|].
  destruct (Find _ _) as [crt|] eqn:E.
  - apply Find_Some in E as [Hin ->%bool_decide_eq_true]. naive_solver.
  - split; [done|]. intros [[? ?]|(? & ? & Hin)]; [done|].
    pose proof (Find_None _ _ _ E Hin) as Hx. by apply bool_decide_eq_false in Hx.
Qed.

Lemma expiring_iff now rt endTime :
  (if is_active now rt endTime then CapacityReservationStateActive
   else CapacityReservationStateExpiring) = "expiring" ↔
  rt = "capacity-block" ∧ ∃ e, endTime = Some e ∧ e - now ≤ 2_400_000_000_000.
Proof.
  unfold is_active, capacityReservationExpirationPeriod, CapacityReservationTypeCapacityBlock.
  case_bool_decide; simpl; [split; [done|naive_solver]|].
  destruct endTime as [e|]; [|split; [done|naive_solver]].
  case_bool_decide; (split; [intros ?|intros (? & ? & [= <-] & ?)]); try done; try lia.
  split; [done|]. exists e. split; [done|lia].
Qed.

(** Conversion of an EC2 capacity reservation.  It succeeds exactly for the match
    criteria [open] and [targeted] and the reservation types [default], [capacity-block]
    and the empty one; then identity, type and end time are kept (an empty type becomes
    [default]), and the state is [expiring] exactly for a capacity block that ends in forty
    minutes or less. *)
Theorem CapacityReservationFromEC2_spec now cr :
  (is_ok (CapacityReservationFromEC2 now cr) = true ↔
     InstanceMatchCriteria cr ∈ ["open"; "targeted"] ∧
     ReservationType cr ∈ [""; "default"; "capacity-block"]) ∧
  (∀ r, CapacityReservationFromEC2 now cr = Ok r →
     cr_ID r = CapacityReservationId cr ∧
     cr_InstanceType r = InstanceType cr ∧
     cr_EndTime r = EndDate cr ∧
     cr_ReservationType r = (if decide (ReservationType cr = "") then "default"
                             else ReservationType cr) ∧
     (cr_State r = "expiring" ↔
        ReservationType cr = "capacity-block" ∧
        ∃ e, EndDate cr = Some e ∧ e - now ≤ 2_400_000_000_000) ∧
     (cr_State r = "active" ∨ cr_State r = "expiring")).
Proof.
  unfold CapacityReservationFromEC2.
  case_bool_decide as Himc; simpl; [|split; [split; [done|naive_solver]|done]].
  destruct (CapacityReservationTypeFromEC2 _) as [rt|e] eqn:E; simpl.
  - apply CapacityReservationType_ok in E. split.
    + split; [intros _|done]. split; [done|].
      unfold CapacityReservationType_Values, CapacityReservationTypeDefault,
        CapacityReservationTypeCapacityBlock in E. set_solver.
    + intros r [= <-]; simpl. split_and!; try done.
      * destruct E as [[-> ->]|(? & -> & _)]; by case_decide.
      * rewrite expiring_iff. destruct E as [[Hrt ->]|(_ & -> & _)]; [|done].
        rewrite Hrt. split; by intros [? _].
      * destruct (is_active _ _ _); auto.
  - split; [|done]. split; [done|]. intros [_ Hrt]. exfalso.
    assert (∃ rt, CapacityReservationTypeFromEC2 (ReservationType cr) = Ok rt) as [rt Hok].
    { rewrite !elem_of_cons, elem_of_nil in Hrt. destruct Hrt as [->|[->|[->|[]]]]; by eexists. }
    congruence.
Qed.

(** Alias round trip.  A supported AMI family, lower-cased and joined with a version
    that contains no [@], parses back to the family in its canonical case and the version;
    the [log.Fatalf] exits are not reached. *)
Theorem alias_roundtrip family version :
  family ∈ [AMIFamilyAL2; AMIFamilyAL2023; AMIFamilyBottlerocket; AMIFamilyWindows2019;
            AMIFamilyWindows2022; AMIFamilyWindows2025] →
  free_of at_sign version →
  amiFamilyFromAlias (ToLower family +:+ "@" +:+ version) = Some family ∧
  amiVersionFromAlias (ToLower family +:+ "@" +:+ version) = Some version.
Proof.
  intros Hf Hv. unfold amiFamilyFromAlias, amiVersionFromAlias.
  assert (Split (ToLower family +:+ "@" +:+ version) at_sign = [ToLower family; version]) as ->.
  { apply (Split_Join [ToLower family; version]); [done|].
    repeat constructor; [|done]. revert family Hf. apply Forall_forall.
    repeat constructor; by apply (bool_decide_unpack _). }
  split; [|done]. revert family Hf. apply Forall_forall. repeat constructor.
Qed.

Lemma alias_roundtrip_witness :
  amiFamilyFromAlias "bottlerocket@v1.10.0" = Some "Bottlerocket" ∧
  amiVersionFromAlias "bottlerocket@v1.10.0" = Some "v1.10.0".
Proof.
  apply (alias_roundtrip "Bottlerocket" "v1.10.0").
  - apply (bool_decide_unpack _). by vm_compute.
  - apply (bool_decide_unpack _). by vm_compute.
Defined.
