(* ===== verification/UnavailableOfferings.v ===== *)
(** * [pkg/cache]: the insufficient-capacity (ICE) cache

    [pkg/cache/cache.go] and [pkg/cache/unavailableofferings.go].  The three expiring
    caches are used through the [GoCache] interface; the sequence numbers are the
    [uint64] counters that the offering provider compares to decide whether the
    offerings it computed earlier are still valid.  Eviction callbacks are the second
    component of the [GoCache] deletions.  Logging is left out. *)
From S2P Require Import Prelude GoCache.

(** ** [cache.go] *)

Definition DefaultTTL : Z := Minute.
Definition PlacementGroupAvailabilityTTL : Z := 24 * Hour.
Definition UnavailableOfferingsTTL : Z := 3 * Minute.
Definition CapacityReservationAvailabilityTTL : Z := 24 * Hour.
Definition InstanceTypesZonesAndOfferingsTTL : Z := 5 * Minute.
Definition InstanceProfileTTL : Z := 15 * Minute.
Definition AvailableIPAddressTTL : Z := 5 * Minute.
Definition SSMCacheTTL : Z := 24 * Hour.
Definition DiscoveredCapacityCacheTTL : Z := 60 * 24 * Hour.
Definition ValidationTTL : Z := 30 * Minute.
Definition RecreationTTL : Z := 1 * Minute.
Definition ProtectedProfilesTTL : Z := 1 * Hour.
Definition OverlayPricedTypesTTL : Z := 5 * Minute.

(** [NewJitteredCache]: [None] is the panic.  [r] is the value [rand.N(2*jitter)] draws,
    in [[0, 2*jitter)]. *)
Definition NewJitteredCache {V C} `{GoCache V C} (ttl jitter r : Z) : option C :=
  if decide (ttl ≤ jitter) then None
  else Some (New (if decide (0 < jitter) then ttl + (r - jitter) else ttl)).

(** ** Options that scope an entry *)

Record unavailableOfferingsOptions := {
  placementGroupID : string;
  placementGroupPartition : string;
  reservationID : string;
}.

Definition UnavailableOfferingsOption : Type :=
  unavailableOfferingsOptions → unavailableOfferingsOptions.

Definition WithPlacementGroup (id : string) : UnavailableOfferingsOption := λ o,
  {| placementGroupID := id; placementGroupPartition := placementGroupPartition o;
     reservationID := reservationID o |}.

Definition WithReservationID (id : string) : UnavailableOfferingsOption := λ o,
  {| placementGroupID := placementGroupID o;
     placementGroupPartition := placementGroupPartition o; reservationID := id |}.

Definition WithPlacementGroupPartition (partition : string) : UnavailableOfferingsOption := λ o,
  {| placementGroupID := placementGroupID o; placementGroupPartition := partition;
     reservationID := reservationID o |}.

(** [option.Resolve]: the options are applied in order to the zero value. *)
Definition Resolve (opts : list UnavailableOfferingsOption) : unavailableOfferingsOptions :=
  foldl (λ o f, f o)
    {| placementGroupID := ""; placementGroupPartition := ""; reservationID := "" |} opts.

(** ** The key of an entry: [<capacityType>:<instanceType>:<zone>[:<scope>]] *)

Definition key (instanceType zone capacityType : string)
    (opts : list UnavailableOfferingsOption) : string :=
  let resolved := Resolve opts in
  if decide (reservationID resolved ≠ "") then
    capacityType +:+ ":" +:+ instanceType +:+ ":" +:+ zone +:+ ":" +:+ reservationID resolved
  else if decide (placementGroupID resolved ≠ "") then
    if decide (placementGroupPartition resolved ≠ "") then
      capacityType +:+ ":" +:+ instanceType +:+ ":" +:+ zone +:+ ":"
        +:+ placementGroupID resolved +:+ ":" +:+ placementGroupPartition resolved
    else
      capacityType +:+ ":" +:+ instanceType +:+ ":" +:+ zone +:+ ":"
        +:+ placementGroupID resolved
  else capacityType +:+ ":" +:+ instanceType +:+ ":" +:+ zone.

(** The scope an option list selects: a reservation, a placement group with or without a
    partition, or nothing. *)
Definition scope (o : unavailableOfferingsOptions) : list string :=
  if decide (reservationID o ≠ "") then [reservationID o]
  else if decide (placementGroupID o ≠ "") then
    if decide (placementGroupPartition o ≠ "")
    then [placementGroupID o; placementGroupPartition o] else [placementGroupID o]
  else [].

(** ** State and operations *)

Section uo.
Context {C : Type} `{GoCache unit C}.

Record UnavailableOfferings := {
  offeringCache : C;
  offeringCacheSeqNum : gmap string Z;
  capacityTypeCache : C;
  capacityTypeCacheSeqNum : Z;
  subnetCache : C;
  subnetCacheSeqNum : Z;
}.

Definition with_offerings (u : UnavailableOfferings) (c : C) : UnavailableOfferings :=
  {| offeringCache := c; offeringCacheSeqNum := offeringCacheSeqNum u;
     capacityTypeCache := capacityTypeCache u;
     capacityTypeCacheSeqNum := capacityTypeCacheSeqNum u;
     subnetCache := subnetCache u; subnetCacheSeqNum := subnetCacheSeqNum u |}.

Definition with_capacity_types (u : UnavailableOfferings) (c : C) : UnavailableOfferings :=
  {| offeringCache := offeringCache u; offeringCacheSeqNum := offeringCacheSeqNum u;
     capacityTypeCache := c; capacityTypeCacheSeqNum := capacityTypeCacheSeqNum u;
     subnetCache := subnetCache u; subnetCacheSeqNum := subnetCacheSeqNum u |}.

Definition with_subnets (u : UnavailableOfferings) (c : C) : UnavailableOfferings :=
  {| offeringCache := offeringCache u; offeringCacheSeqNum := offeringCacheSeqNum u;
     capacityTypeCache := capacityTypeCache u;
     capacityTypeCacheSeqNum := capacityTypeCacheSeqNum u;
     subnetCache := c; subnetCacheSeqNum := subnetCacheSeqNum u |}.

(** One increment of one of the counters: [seq[it]++] or [seq.Add(1)]. *)
Inductive bump := BumpType (instanceType : string) | BumpCapacityType | BumpSubnet.

Definition apply_bump (b : bump) (u : UnavailableOfferings) : UnavailableOfferings :=
  match b with
  | BumpType it =>
      {| offeringCache := offeringCache u;
         offeringCacheSeqNum :=
           <[it := u64 (default 0 (offeringCacheSeqNum u !! it) + 1)]> (offeringCacheSeqNum u);
         capacityTypeCache := capacityTypeCache u;
         capacityTypeCacheSeqNum := capacityTypeCacheSeqNum u;
         subnetCache := subnetCache u; subnetCacheSeqNum := subnetCacheSeqNum u |}
  | BumpCapacityType =>
      {| offeringCache := offeringCache u; offeringCacheSeqNum := offeringCacheSeqNum u;
         capacityTypeCache := capacityTypeCache u;
         capacityTypeCacheSeqNum := u64 (capacityTypeCacheSeqNum u + 1);
         subnetCache := subnetCache u; subnetCacheSeqNum := subnetCacheSeqNum u |}
  | BumpSubnet =>
      {| offeringCache := offeringCache u; offeringCacheSeqNum := offeringCacheSeqNum u;
         capacityTypeCache := capacityTypeCache u;
         capacityTypeCacheSeqNum := capacityTypeCacheSeqNum u;
         subnetCache := subnetCache u;
         subnetCacheSeqNum := u64 (subnetCacheSeqNum u + 1) |}
  end.

Definition NewUnavailableOfferings : UnavailableOfferings := {|
  offeringCache := New UnavailableOfferingsTTL; offeringCacheSeqNum := ∅;
  capacityTypeCache := New UnavailableOfferingsTTL; capacityTypeCacheSeqNum := 0;
  subnetCache := New UnavailableOfferingsTTL; subnetCacheSeqNum := 0 |}.

(** The counter the offering cache's eviction callback increments for key [k]:
    [None] is the panic on a key that is not of the expected format. *)
Definition evicted_bump (k : string) : option bump :=
  let elems := Split k colon in
  if bool_decide (length elems < 3)%nat || bool_decide (5 < length elems)%nat then None
  else BumpType <$> elems !! 1%nat.

(** Running the callback for a list of evicted offering keys. *)
Fixpoint run_evicted (ks : list string) (u : UnavailableOfferings) :
    option UnavailableOfferings :=
  match ks with
  | [] => Some u
  | k :: ks' => evicted_bump k ≫= λ b, run_evicted ks' (apply_bump b u)
  end.

Definition SeqNum (u : UnavailableOfferings) (instanceType : string) : Z :=
  u64 (u64 (default 0 (offeringCacheSeqNum u !! instanceType) + capacityTypeCacheSeqNum u)
       + subnetCacheSeqNum u).

Definition found (c : C) (t : Z) (k : string) : bool := bool_decide (is_Some (Get c t k)).

Definition IsUnavailable (u : UnavailableOfferings) (t : Z) (instanceType zone : string)
    (subnetIDs : list string) (capacityType : string)
    (opts : list UnavailableOfferingsOption) : bool :=
  let offeringFound := found (offeringCache u) t (key instanceType zone capacityType opts) in
  let capacityTypeFound := found (capacityTypeCache u) t capacityType in
  let allSubnetsUnavailable := forallb (found (subnetCache u) t) subnetIDs in
  offeringFound || capacityTypeFound
  || (allSubnetsUnavailable && bool_decide (length subnetIDs ≠ 0%nat)).

(** The cache write of [MarkUnavailable] and its siblings, before the counter moves. *)
Definition set_offering (u : UnavailableOfferings) (now : Z)
    (instanceType zone capacityType : string) (opts : list UnavailableOfferingsOption) :=
  with_offerings u
    (SetDefault (offeringCache u) now (key instanceType zone capacityType opts) ()).

Definition MarkUnavailable (u : UnavailableOfferings) (now : Z)
    (instanceType zone capacityType : string) (opts : list UnavailableOfferingsOption) :=
  apply_bump (BumpType instanceType) (set_offering u now instanceType zone capacityType opts).

Definition set_capacity_type (u : UnavailableOfferings) (now : Z) (capacityType : string) :=
  with_capacity_types u (SetDefault (capacityTypeCache u) now capacityType ()).

Definition MarkCapacityTypeUnavailable (u : UnavailableOfferings) (now : Z)
    (capacityType : string) :=
  apply_bump BumpCapacityType (set_capacity_type u now capacityType).

Definition set_subnet (u : UnavailableOfferings) (now : Z) (subnetID : string) :=
  with_subnets u (SetDefault (subnetCache u) now subnetID ()).

Definition MarkSubnetUnavailable (u : UnavailableOfferings) (now : Z) (subnetID : string) :=
  apply_bump BumpSubnet (set_subnet u now subnetID).

(** [Delete]: [None] is a panic in the eviction callback. *)
Definition Delete_ (u : UnavailableOfferings) (instanceType zone capacityType : string) :
    option UnavailableOfferings :=
  let r := Delete (offeringCache u) (key instanceType zone capacityType []) in
  run_evicted r.2.*1 (with_offerings u r.1).

Definition Flush_ (u : UnavailableOfferings) : UnavailableOfferings :=
  with_subnets
    (with_capacity_types (with_offerings u (Flush (offeringCache u)))
       (Flush (capacityTypeCache u)))
    (Flush (subnetCache u)).

(** The janitors [cache.New] starts, one per cache, with the callbacks installed by
    [NewUnavailableOfferings]. *)
Definition evict_offerings (u : UnavailableOfferings) (now : Z) : option UnavailableOfferings :=
  let r := DeleteExpired (offeringCache u) now in
  run_evicted r.2.*1 (with_offerings u r.1).

Definition evict_capacity_types (u : UnavailableOfferings) (now : Z) : UnavailableOfferings :=
  let r := DeleteExpired (capacityTypeCache u) now in
  Nat.iter (length r.2) (apply_bump BumpCapacityType) (with_capacity_types u r.1).

Definition evict_subnets (u : UnavailableOfferings) (now : Z) : UnavailableOfferings :=
  let r := DeleteExpired (subnetCache u) now in
  Nat.iter (length r.2) (apply_bump BumpSubnet) (with_subnets u r.1).
End uo.
Arguments UnavailableOfferings : clear implicits.

(** ** Keys *)

Lemma key_Join it z ct opts :
  key it z ct opts = Join ([ct; it; z] ++ scope (Resolve opts)) colon.
Proof.
  unfold key, scope. generalize (Resolve opts). intros [pg part rid]; simpl.
  destruct (decide (rid ≠ "")); [done|].
  destruct (decide (pg ≠ "")); [|done]. by destruct (decide (part ≠ "")).
Qed.

(** The names that make up a key contain no separator: AWS instance types, zones,
    capacity types and resource IDs do not. *)
Definition plain (it z ct : string) (opts : list UnavailableOfferingsOption) : Prop :=
  Forall (free_of colon) ([ct; it; z] ++ scope (Resolve opts)).

#[export] Instance plain_dec it z ct opts : Decision (plain it z ct opts).
Proof. unfold plain. apply _. Defined.

Lemma Split_key it z ct opts :
  plain it z ct opts →
  Split (key it z ct opts) colon = [ct; it; z] ++ scope (Resolve opts).
Proof. intros. rewrite key_Join. by apply Split_Join. Qed.

Lemma scope_length o : (length (scope o) ≤ 2)%nat.
Proof. unfold scope. repeat case_decide; simpl; lia. Qed.

Lemma key_inj it z ct opts it' z' ct' opts' :
  plain it z ct opts → plain it' z' ct' opts' →
  key it z ct opts = key it' z' ct' opts' →
  it = it' ∧ z = z' ∧ ct = ct' ∧ scope (Resolve opts) = scope (Resolve opts').
Proof.
  intros P P' E. apply (f_equal (λ s, Split s colon)) in E.
  rewrite !Split_key in E by done. by simplify_eq/=.
Qed.

Lemma evicted_bump_key it z ct opts :
  plain it z ct opts → evicted_bump (key it z ct opts) = Some (BumpType it).
Proof.
  intros P. unfold evicted_bump. rewrite Split_key by done.
  pose proof (scope_length (Resolve opts)). simpl.
  rewrite !bool_decide_eq_false_2 by lia. done.
Qed.

(** ** Executions: the atomic actions of concurrent callers *)

Section runs.
Context {C : Type} `{GoCacheLaws unit C}.
Local Abbreviation UO := (UnavailableOfferings C).
Implicit Types (u : UO) (b : bump) (t now : Z).

(** A system state: the shared object and the counter increments that callers (or
    eviction callbacks) still have to perform, because a cache write and the increment
    that follows it are two critical sections. *)
Definition system : Type := UO * list bump.

Inductive step (t : Z) : system → list bump → system → Prop :=
  | step_offering u ps it z ct opts :
      plain it z ct opts →
      step t (u, ps) [] (set_offering u t it z ct opts, ps ++ [BumpType it])
  | step_capacity_type u ps ct :
      step t (u, ps) [] (set_capacity_type u t ct, ps ++ [BumpCapacityType])
  | step_subnet u ps s :
      step t (u, ps) [] (set_subnet u t s, ps ++ [BumpSubnet])
  | step_delete u ps it z ct bs :
      plain it z ct [] →
      mapM evicted_bump (Delete (offeringCache u) (key it z ct [])).2.*1 = Some bs →
      step t (u, ps) [] (with_offerings u (Delete (offeringCache u) (key it z ct [])).1, ps ++ bs)
  | step_evict_offerings u ps bs :
      mapM evicted_bump (DeleteExpired (offeringCache u) t).2.*1 = Some bs →
      step t (u, ps) [] (with_offerings u (DeleteExpired (offeringCache u) t).1, ps ++ bs)
  | step_evict_capacity_types u ps :
      step t (u, ps) []
        (with_capacity_types u (DeleteExpired (capacityTypeCache u) t).1,
         ps ++ replicate (length (DeleteExpired (capacityTypeCache u) t).2) BumpCapacityType)
  | step_evict_subnets u ps :
      step t (u, ps) []
        (with_subnets u (DeleteExpired (subnetCache u) t).1,
         ps ++ replicate (length (DeleteExpired (subnetCache u) t).2) BumpSubnet)
  | step_bump u ps ps' b :
      step t (u, ps ++ b :: ps') [b] (apply_bump b u, ps ++ ps').

(** Executions with a monotone clock: the increments performed, in order, and the last
    instant. *)
Inductive run (s : system) : list bump → Z → system → Prop :=
  | run_nil t : run s [] t s
  | run_step fs bs t t' s1 s2 :
      run s fs t s1 → t ≤ t' → step t' s1 bs s2 → run s (fs ++ bs) t' s2.

Definition reachable (t : Z) (s : system) : Prop :=
  ∃ fs, run (NewUnavailableOfferings, []) fs t s.

(** *** The invariant: every offering key parses, every default TTL is the ICE TTL. *)
Definition wf_key (k : string) : Prop :=
  ∃ it z ct opts, plain it z ct opts ∧ k = key it z ct opts.

Record uo_inv u : Prop := {
  inv_keys : ∀ k, is_Some (items (offeringCache u) !! k) → wf_key k;
  inv_ttl_offering : defaultTTL (offeringCache u) = UnavailableOfferingsTTL;
  inv_ttl_capacity : defaultTTL (capacityTypeCache u) = UnavailableOfferingsTTL;
  inv_ttl_subnet : defaultTTL (subnetCache u) = UnavailableOfferingsTTL;
}.

Lemma uo_inv_new : uo_inv NewUnavailableOfferings.
Proof.
  split; simpl; rewrite ?New_ttl; try done. intros k. rewrite New_items, lookup_empty.
  by intros [? ?].
Qed.

Lemma uo_inv_bump b u : uo_inv u → uo_inv (apply_bump b u).
Proof. intros []; destruct b; by split. Qed.

Lemma uo_inv_offerings u c :
  uo_inv u → defaultTTL c = defaultTTL (offeringCache u) →
  (∀ k, is_Some (items c !! k) → is_Some (items (offeringCache u) !! k) ∨ wf_key k) →
  uo_inv (with_offerings u c).
Proof.
  intros [] ? Hk. split; simpl; try congruence.
  intros k [?|?]%Hk; eauto.
Qed.

Lemma uo_inv_set_offering u t it z ct opts :
  plain it z ct opts → uo_inv u → uo_inv (set_offering u t it z ct opts).
Proof.
  intros P Hu. apply uo_inv_offerings; [done|by rewrite SetDefault_ttl|].
  intros k. rewrite SetDefault_items, lookup_insert.
  case_decide; [|by left]. intros _. right. subst. by repeat eexists.
Qed.

Lemma uo_inv_step t s bs s' : step t s bs s' → uo_inv s.1 → uo_inv s'.1.
Proof.
  destruct 1; simpl; intros Hu.
  - by apply uo_inv_set_offering.
  - destruct Hu. split; simpl; try done. by rewrite SetDefault_ttl.
  - destruct Hu. split; simpl; try done. by rewrite SetDefault_ttl.
  - apply uo_inv_offerings; [done|by rewrite Delete_ttl|].
    intros k. rewrite Delete_items, lookup_delete. case_decide; [by intros [? ?]|by left].
  - apply uo_inv_offerings; [done|by rewrite DeleteExpired_ttl|].
    intros k. rewrite DeleteExpired_items.
    destruct (items _ !! k) eqn:E; simpl; [by left|by intros [? ?]].
  - destruct Hu. split; simpl; try done. by rewrite DeleteExpired_ttl.
  - destruct Hu. split; simpl; try done. by rewrite DeleteExpired_ttl.
  - by apply uo_inv_bump.
Qed.

Lemma uo_inv_run s fs t s' : run s fs t s' → uo_inv s.1 → uo_inv s'.1.
Proof. induction 1; eauto using uo_inv_step. Qed.

Lemma uo_inv_reachable t s : reachable t s → uo_inv s.1.
Proof. intros [fs Hr]. eapply uo_inv_run; [exact Hr|]. apply uo_inv_new. Qed.

(** *** Eviction callbacks do not panic *)

Lemma wf_key_bump k : wf_key k → is_Some (evicted_bump k).
Proof. intros (it & z & ct & opts & P & ->). by rewrite evicted_bump_key. Qed.

Lemma run_evicted_some ks u : Forall wf_key ks → is_Some (run_evicted ks u).
Proof.
  intros Hks. revert u. induction Hks as [|k ks Hk Hks IH]; intros u; simpl; [by eexists|].
  destruct (wf_key_bump _ Hk) as [b ->]. apply IH.
Qed.

Lemma evicted_wf u t : uo_inv u → Forall wf_key (DeleteExpired (offeringCache u) t).2.*1.
Proof.
  intros Hu. apply Forall_forall. intros k ([k' v] & -> & Hin)%list_elem_of_fmap.
  apply DeleteExpired_evicted in Hin as (e & He & _). eapply inv_keys; [done|]. by eexists.
Qed.

Lemma deleted_wf u k : uo_inv u → Forall wf_key (Delete (offeringCache u) k).2.*1.
Proof.
  intros Hu. rewrite Delete_evicted. destruct (items _ !! k) as [[v e]|] eqn:E; simpl; [|done].
  constructor; [|done]. eapply inv_keys; [done|by rewrite E].
Qed.

(** *** What the counters record *)

Definition concerns (it : string) (b : bump) : bool :=
  match b with BumpType it' => bool_decide (it' = it) | _ => true end.

Lemma SeqNum_bump u b it :
  SeqNum (apply_bump b u) it = u64 (SeqNum u it + if concerns it b then 1 else 0).
Proof.
  unfold SeqNum. destruct b as [it'| |]; simpl; [case_bool_decide; subst|..].
  - rewrite lookup_insert_eq; simpl. u64_solve.
  - rewrite lookup_insert_ne by done. u64_solve.
  - u64_solve.
  - u64_solve.
Qed.

Definition count_concerning (it : string) (bs : list bump) : Z :=
  Z.of_nat (length (filter (λ b, concerns it b = true) bs)).

Local Arguments count_concerning : simpl never.

Lemma count_nil it : count_concerning it [] = 0.
Proof. done. Qed.

Lemma count_app it bs bs' :
  count_concerning it (bs ++ bs') = count_concerning it bs + count_concerning it bs'.
Proof. unfold count_concerning. rewrite filter_app, length_app. lia. Qed.

Lemma count_cons it b bs :
  count_concerning it (b :: bs)
  = (if concerns it b then 1 else 0) + count_concerning it bs.
Proof.
  unfold count_concerning. rewrite filter_cons.
  destruct (concerns it b); case_decide; simpl; lia || congruence.
Qed.

Lemma count_nonneg it bs : 0 ≤ count_concerning it bs.
Proof. unfold count_concerning. lia. Qed.

Lemma SeqNum_u64 u it : u64 (SeqNum u it) = SeqNum u it.
Proof. unfold SeqNum. u64_solve. Qed.

(** The sequence number counts, modulo [2^64], the increments that concern the type. *)
Lemma SeqNum_run s fs t s' it :
  run s fs t s' → SeqNum s'.1 it = u64 (SeqNum s.1 it + count_concerning it fs).
Proof.
  induction 1 as [t|fs bs t t' s1 s2 Hrun IH Ht Hstep].
  - by rewrite Z.add_0_r, SeqNum_u64.
  - rewrite count_app. destruct Hstep; simpl in *;
      try (unfold count_concerning at 2; simpl; rewrite Z.add_0_r; exact IH).
    rewrite SeqNum_bump, IH, count_cons, u64_add_l. f_equal.
    unfold count_concerning at 3; simpl. lia.
Qed.

(** *** Reads are stable while no relevant increment is performed or outstanding *)

Definition same_reads (t : Z) (it : string) u u' : Prop :=
  ∀ z subs ct opts, plain it z ct opts →
    IsUnavailable u' t it z subs ct opts = IsUnavailable u t it z subs ct opts.

Lemma same_reads_offerings t it u c :
  (∀ z ct opts, plain it z ct opts →
     Get c t (key it z ct opts) = Get (offeringCache u) t (key it z ct opts)) →
  same_reads t it u (with_offerings u c).
Proof. intros Hc z subs ct opts P. unfold IsUnavailable, found; simpl. by rewrite Hc. Qed.

Lemma found_DeleteExpired (c : C) t t' k :
  t ≤ t' → found (DeleteExpired c t).1 t' k = found c t' k.
Proof. intros. unfold found. by rewrite Get_DeleteExpired. Qed.

Lemma forallb_found_DeleteExpired (c : C) t t' l :
  t ≤ t' → forallb (found (DeleteExpired c t).1 t') l = forallb (found c t') l.
Proof. intros. induction l; simpl; [done|]. rewrite found_DeleteExpired by done. by f_equal. Qed.

Lemma same_reads_bump t it b u : same_reads t it u (apply_bump b u).
Proof. intros z subs ct opts _. by destruct b. Qed.

Lemma same_reads_delete t it u it0 z0 ct0 bs :
  plain it0 z0 ct0 [] →
  mapM evicted_bump (Delete (offeringCache u) (key it0 z0 ct0 [])).2.*1 = Some bs →
  count_concerning it bs = 0 →
  same_reads t it u (with_offerings u (Delete (offeringCache u) (key it0 z0 ct0 [])).1).
Proof.
  intros P0 Hbs Hcount. apply same_reads_offerings. intros z ct opts P.
  rewrite Get_Delete. case_decide as E; [|done].
  apply key_inj in E as (-> & -> & -> & Hsc); [|done..].
  rewrite Delete_evicted in Hbs. rewrite Get_items, key_Join, <- Hsc, <- key_Join.
  destruct (items _ !! key it z ct []) as [[v e]|]; [|done].
  simpl in Hbs. rewrite evicted_bump_key in Hbs by done. injection Hbs as <-.
  rewrite count_cons in Hcount. simpl in Hcount. rewrite bool_decide_eq_true_2 in Hcount by done.
  pose proof (count_nonneg it []). lia.
Qed.

Lemma same_reads_step t t' it s bs s' :
  step t s bs s' → t ≤ t' →
  count_concerning it bs = 0 → count_concerning it s'.2 = 0 →
  same_reads t' it s.1 s'.1 ∧ count_concerning it s.2 = 0.
Proof.
  intros Hstep Ht. destruct Hstep as
    [u ps it0 z0 ct0 opts0 P0|u ps ct0|u ps s0|u ps it0 z0 ct0 bs P0 Hbs|u ps bs Hbs
    |u ps|u ps|u ps ps' b]; simpl; rewrite ?count_app, ?count_cons, ?count_nil;
    pose proof (count_nonneg it ps); intros Hfs Hps.
  - simpl in Hps. case_bool_decide; simpl in Hps; [lia|].
    split; [|lia].
    apply same_reads_offerings. intros z ct opts P. apply Get_SetDefault_ne.
    by intros [? _]%key_inj.
  - simpl in Hps. lia.
  - simpl in Hps. lia.
  - pose proof (count_nonneg it bs). split; [|lia].
    eapply same_reads_delete; [done..|lia].
  - pose proof (count_nonneg it bs). split; [|lia].
    apply same_reads_offerings. intros z ct opts _. by apply Get_DeleteExpired.
  - split; [|pose proof (count_nonneg it (replicate
      (length (DeleteExpired (capacityTypeCache u) t).2) BumpCapacityType)); lia].
    intros z subs ct opts _. unfold IsUnavailable; simpl.
    by rewrite found_DeleteExpired.
  - split; [|pose proof (count_nonneg it (replicate
      (length (DeleteExpired (subnetCache u) t).2) BumpSubnet)); lia].
    intros z subs ct opts _. unfold IsUnavailable; simpl.
    by rewrite forallb_found_DeleteExpired.
  - split; [apply same_reads_bump|]. pose proof (count_nonneg it ps').
    destruct (concerns it b); lia.
Qed.

Lemma same_reads_run s fs t s' t' it :
  run s fs t s' → t ≤ t' →
  count_concerning it fs = 0 → count_concerning it s'.2 = 0 →
  same_reads t' it s.1 s'.1.
Proof.
  intros Hrun. revert t'. induction Hrun as [t|fs bs t t1 s1 s2 Hrun IH Ht Hstep];
    intros t' Ht' Hfs Hps; [done|].
  rewrite count_app in Hfs. pose proof (count_nonneg it fs). pose proof (count_nonneg it bs).
  destruct (same_reads_step _ t' it _ _ _ Hstep) as [Hreads Hps1]; [lia..|].
  intros z subs ct opts P. rewrite Hreads by done. apply IH; [lia..|done].
Qed.
End runs.

(** ** Jittered expiry *)

(** With [0 <= jitter < ttl] the constructor does not panic and the drawn lifetime stays
    within [jitter] of [ttl], so entries always expire. *)
Lemma NewJitteredCache_ttl {V C} `{GoCacheLaws V C} ttl jitter r :
  0 ≤ jitter < ttl → 0 ≤ r < 2 * jitter ∨ jitter = 0 →
  ∃ c : C, NewJitteredCache ttl jitter r = Some c ∧
    ttl - jitter ≤ defaultTTL c ≤ ttl + jitter ∧ 0 < defaultTTL c.
Proof.
  intros Hj Hr. unfold NewJitteredCache. rewrite decide_False by lia. eexists. split; [done|].
  rewrite New_ttl. case_decide; lia.
Qed.

Lemma NewJitteredCache_panics {V C} `{GoCache V C} ttl jitter r :
  ttl ≤ jitter → NewJitteredCache (C := C) ttl jitter r = None.
Proof. intros. unfold NewJitteredCache. by rewrite decide_True. Qed.

(** ** Properties *)

Section properties.
Context {C : Type} `{GoCacheLaws unit C}.

(** Cache keys are injective.  For separator-free names, two offerings share a cache
    key only if they agree on instance type, zone, capacity type and scope, so a failure
    recorded for a reservation, a placement group or a partition never hides another. *)
Theorem key_injective it z ct opts it' z' ct' opts' :
  plain it z ct opts → plain it' z' ct' opts' →
  key it z ct opts = key it' z' ct' opts' →
  it = it' ∧ z = z' ∧ ct = ct' ∧ scope (Resolve opts) = scope (Resolve opts').
Proof. apply key_inj. Qed.

(** What [MarkUnavailable] changes.  From any reachable state, after marking an
    offering, exactly that offering (same type, zone, capacity type and scope) reads
    unavailable for three minutes from the mark, its capacity type and subnets aside,
    and every other offering reads as before. *)
Theorem MarkUnavailable_spec (u : UnavailableOfferings C) ps t0 now t
    it z ct opts it' z' subs ct' opts' :
  reachable t0 (u, ps) → plain it z ct opts → plain it' z' ct' opts' →
  IsUnavailable (MarkUnavailable u now it z ct opts) t it' z' subs ct' opts' =
  if decide (it' = it ∧ z' = z ∧ ct' = ct ∧ scope (Resolve opts') = scope (Resolve opts))
  then bool_decide (t ≤ now + 180_000_000_000)
       || found (capacityTypeCache u) t ct'
       || (forallb (found (subnetCache u) t) subs && bool_decide (length subs ≠ 0%nat))
  else IsUnavailable u t it' z' subs ct' opts'.
Proof.
  intros Hr P P'. pose proof (inv_ttl_offering _ (uo_inv_reachable _ _ Hr)) as Httl.
  simpl in Httl. unfold IsUnavailable, MarkUnavailable; simpl. unfold found at 1.
  case_decide as E.
  - destruct E as (-> & -> & -> & Hsc).
    rewrite (key_Join _ _ _ opts'), Hsc, <- key_Join.
    rewrite Get_SetDefault_eq, Httl by (by rewrite Httl).
    f_equal. f_equal. change UnavailableOfferingsTTL with 180_000_000_000.
    repeat case_decide; repeat case_bool_decide; naive_solver.
  - rewrite Get_SetDefault_ne; [done|]. intros (-> & -> & -> & ?)%key_inj; [|done..]. by destruct E.
Qed.

(** The eviction callback never panics.  In every reachable state, whatever the
    interleaving of marks, deletions and janitor runs, the keys the offering cache
    evicts parse, so neither the janitor nor [Delete] reaches the callback's [panic]. *)
Theorem eviction_never_panics (u : UnavailableOfferings C) ps t t' it z ct :
  reachable t (u, ps) → is_Some (evict_offerings u t') ∧ is_Some (Delete_ u it z ct).
Proof.
  intros Hu%uo_inv_reachable. split; apply run_evicted_some;
    auto using evicted_wf, deleted_wf.
Qed.

(** Equal sequence numbers mean equal answers. *)
Lemma SeqNum_same_reads (s s' : UnavailableOfferings C * list bump) fs t t' it :
  run s fs t s' → t ≤ t' →
  count_concerning it fs < 2 ^ 64 →
  SeqNum s'.1 it = SeqNum s.1 it →
  Forall (λ b, concerns it b = false) s'.2 →
  ∀ z subs ct opts, plain it z ct opts →
    IsUnavailable s'.1 t' it z subs ct opts = IsUnavailable s.1 t' it z subs ct opts.
Proof.
  intros Hrun Ht Hlt Hseq Hps. eapply same_reads_run; [done..| |].
  - rewrite (SeqNum_run _ _ _ _ it Hrun), <- (SeqNum_u64 s.1) in Hseq.
    pose proof (count_nonneg it fs). revert Hlt Hseq. u64_solve.
  - unfold count_concerning. induction Hps as [|b bs Hb Hbs IH]; [done|].
    rewrite filter_cons, decide_False by congruence. apply IH.
Qed.

End properties.

(** ** Witnesses *)

Section witnesses.
Local Abbreviation UO0 := (NewUnavailableOfferings (C := RefCache.t unit)).
Local Abbreviation pg := [WithPlacementGroup "pg-1"; WithPlacementGroupPartition "2"].

Lemma key_injective_witness :
  plain "m5.large" "us-west-2a" "spot" pg ∧
  ("m5.large" = "m5.large" ∧ "us-west-2a" = "us-west-2a" ∧ "spot" = "spot"
   ∧ scope (Resolve pg) = scope (Resolve pg)).
Proof.
  assert (plain "m5.large" "us-west-2a" "spot" pg) as P.
  { apply (bool_decide_unpack _). by vm_compute. }
  split; [exact P|]. exact (key_injective _ _ _ _ _ _ _ _ P P eq_refl).
Defined.

Lemma MarkUnavailable_spec_witness :
  IsUnavailable (MarkUnavailable UO0 7 "m5.large" "us-west-2a" "spot" pg) (7 + 2 * Minute)
    "m5.large" "us-west-2a" [] "spot" pg = true.
Proof.
  rewrite (MarkUnavailable_spec UO0 [] 0).
  - by vm_compute.
  - exists []. apply run_nil.
  - apply (bool_decide_unpack _). by vm_compute.
  - apply (bool_decide_unpack _). by vm_compute.
Defined.

Lemma eviction_never_panics_witness :
  is_Some (evict_offerings UO0 5) ∧ is_Some (Delete_ UO0 "m5.large" "us-west-2a" "spot").
Proof.
  apply (eviction_never_panics UO0 [] 0 5 "m5.large" "us-west-2a" "spot").
  exists []. apply run_nil.
Defined.

End witnesses.
