(* ===== verification/CapacityReservation.v ===== *)
(** * [pkg/providers/capacityreservation]: on-demand capacity reservations

    [types.go] and [provider.go].  The availability cache stores pointers to entries that
    [MarkLaunched] and [MarkTerminated] update in place, without renewing the cache
    entry's lifetime; the model therefore keeps an explicit heap of entries, and the
    non-aliasing of cached pointers is an invariant.  Every operation runs under one
    mutex.  [now] is the provider's injected clock, [t] the wall clock that [go-cache]
    reads. *)
From S2P Require Import Prelude GoCache AwsErrors ApiV1 UnavailableOfferings.

(** ** Queries *)

Record Query := {
  q_ID : string;
  q_OwnerID : string;
  q_Tags : gmap string string;
  q_InstanceMatchCriteria : string;
}.

Definition queries_of_term (term : CapacityReservationSelectorTerm) : list Query :=
  (if decide (crst_ID term ≠ "")
   then [{| q_ID := crst_ID term; q_OwnerID := ""; q_Tags := ∅;
            q_InstanceMatchCriteria := "" |}] else [])
  ++ (if decide (size (crst_Tags term) ≠ 0%nat ∨ crst_InstanceMatchCriteria term ≠ "")
      then [{| q_ID := ""; q_OwnerID := crst_OwnerID term; q_Tags := crst_Tags term;
               q_InstanceMatchCriteria := crst_InstanceMatchCriteria term |}] else []).

Definition QueriesFromSelectorTerms (terms : list CapacityReservationSelectorTerm) :
    list Query := mjoin (queries_of_term <$> terms).

Record Filter := { f_Name : string; f_Values : list string }.
Record DescribeInput := {
  Filters : list Filter;
  CapacityReservationIds : list string;
  MaxResults : option Z;
}.

(** A tag selector: the value [*] matches every value of the key. *)
Definition tag_filter (kv : string * string) : Filter :=
  if decide (kv.2 = "*") then {| f_Name := "tag-key"; f_Values := [kv.1] |}
  else {| f_Name := "tag:" +:+ kv.1; f_Values := [kv.2] |}.

Definition DescribeCapacityReservationsInput (q : Query) : DescribeInput :=
  let filters := [{| f_Name := "state"; f_Values := ["active"] |}] in
  if decide (q_ID q ≠ "") then
    {| Filters := filters; CapacityReservationIds := [q_ID q]; MaxResults := None |}
  else
    {| Filters :=
         filters
         ++ (if decide (q_OwnerID q ≠ "")
             then [{| f_Name := "owner-id"; f_Values := [q_OwnerID q] |}] else [])
         ++ (tag_filter <$> map_to_list (q_Tags q))
         ++ (if decide (q_InstanceMatchCriteria q ≠ "")
             then [{| f_Name := "instance-match-criteria";
                      f_Values := [q_InstanceMatchCriteria q] |}] else []);
       CapacityReservationIds := []; MaxResults := Some 1000 |}.

Definition terminatedInstanceTTL : Z := 15 * Minute.

(** ** The availability cache *)

Record availabilityCacheEntry := { count : Z; syncTime : Z }.

Section availability.
Context {CL CT : Type} `{GoCache positive CL, GoCache unit CT}.

Record availabilityCache := {
  availabilityCache_ : CL;                       (* reservation ID -> entry pointer *)
  terminationCache : CT;                         (* instance IDs already returned *)
  heap : gmap positive availabilityCacheEntry;
  next : positive;                               (* the next fresh pointer *)
}.

(** [availabilityCache.SetDefault(id, &availabilityCacheEntry{...})] *)
Definition set_entry (a : availabilityCache) (t : Z) (id : string)
    (e : availabilityCacheEntry) : availabilityCache :=
  {| availabilityCache_ := SetDefault (availabilityCache_ a) t id (next a);
     terminationCache := terminationCache a;
     heap := <[next a := e]> (heap a);
     next := Pos.succ (next a) |}.

Definition set_heap (a : availabilityCache) (h : gmap positive availabilityCacheEntry) :=
  {| availabilityCache_ := availabilityCache_ a; terminationCache := terminationCache a;
     heap := h; next := next a |}.

Definition syncAvailability (a : availabilityCache) (now t : Z) (availability : gmap string Z) :
    availabilityCache :=
  foldl (λ a p, set_entry a t p.1 {| count := p.2; syncTime := now |}) a
    (map_to_list availability).

Definition MarkLaunched (a : availabilityCache) (now t : Z) (reservationID : string) :
    availabilityCache :=
  match Get (availabilityCache_ a) t reservationID with
  | None => a
  | Some l =>
      match heap a !! l with
      | None => a
      | Some e =>
          if decide (now < syncTime e) then a
          else if decide (count e ≠ 0) then
            set_heap a (<[l := {| count := i64 (count e - 1); syncTime := syncTime e |}]> (heap a))
          else a
      end
  end.

Definition MarkTerminated (a : availabilityCache) (t : Z) (reservationID instanceID : string) :
    availabilityCache :=
  match Get (terminationCache a) t instanceID with
  | Some _ => a
  | None =>
      let a := {| availabilityCache_ := availabilityCache_ a;
                  terminationCache := SetDefault (terminationCache a) t instanceID ();
                  heap := heap a; next := next a |} in
      match Get (availabilityCache_ a) t reservationID with
      | None => a
      | Some l =>
          match heap a !! l with
          | None => a
          | Some e =>
              set_heap a (<[l := {| count := i64 (count e + 1); syncTime := syncTime e |}]> (heap a))
          end
      end
  end.

Definition GetAvailableInstanceCount (a : availabilityCache) (t : Z) (reservationID : string) : Z :=
  match Get (availabilityCache_ a) t reservationID ≫= λ l, heap a !! l with
  | None => 0
  | Some e => count e
  end.

Definition SetAvailableInstanceCount (a : availabilityCache) (now t : Z)
    (reservationID : string) (n : Z) : availabilityCache :=
  set_entry a t reservationID {| count := n; syncTime := now |}.
End availability.
Arguments availabilityCache : clear implicits.

(** ** The provider *)

Section provider.
Context {CL CT CR : Type}.
Context `{GoCache positive CL, GoCache unit CT, GoCache (list Ec2CapacityReservation) CR}.

(** [Query.CacheKey] hashes the query with [hashstructure], a third-party package. *)
Variable CacheKey : Query → string.

(** The EC2 API: the results of the successive [NextPage] calls of the paginator. *)
Variable DescribeCapacityReservations :
  DescribeInput → list (result error (list Ec2CapacityReservation)).

Record DefaultProvider := {
  availability : availabilityCache CL CT;
  reservationCache : CR;
}.

Definition NewProvider (reservationCache : CR) (availability : CL) : DefaultProvider :=
  {| availability :=
       {| availabilityCache_ := availability; terminationCache := New terminatedInstanceTTL;
          heap := ∅; next := 1%positive |};
     reservationCache := reservationCache |}.

(** The paginator loop: a not-found error ends it with what was read so far. *)
Fixpoint fetch (pages : list (result error (list Ec2CapacityReservation)))
    (acc : list Ec2CapacityReservation) : result error (list Ec2CapacityReservation) :=
  match pages with
  | [] => Ok acc
  | Ok out :: pages' => fetch pages' (acc ++ out)
  | Err e :: _ =>
      if IsNotFound (Some e) then Ok acc else Err (wrap "listing capacity reservations" e)
  end.

(** [lo.SliceToMap]: the last occurrence of a key wins. *)
Definition counts_of (rs : list Ec2CapacityReservation) : gmap string Z :=
  foldl (λ m r, <[CapacityReservationId r := AvailableInstanceCount r]> m) ∅ rs.

Definition resolveCachedQueries (p : DefaultProvider) (t : Z) (queries : list Query) :
    list Ec2CapacityReservation * list Query :=
  foldl (λ acc q,
           match Get (reservationCache p) t (CacheKey q) with
           | Some value => (acc.1 ++ value, acc.2)
           | None => (acc.1, acc.2 ++ [q])
           end) ([], []) queries.

Definition not_ended (now : Z) (r : Ec2CapacityReservation) : bool :=
  match EndDate r with None => true | Some e => bool_decide (now < e) end.

Definition filterReservations (now : Z) (reservations : list Ec2CapacityReservation) :
    list Ec2CapacityReservation :=
  filter (λ r, not_ended now r = true) (UniqBy CapacityReservationId reservations).

(** The loop over the queries that were not cached; an API error returns from the middle
    of the loop, with the queries before it already synced and cached. *)
Fixpoint list_queries (p : DefaultProvider) (now t : Z) (queries : list Query)
    (reservations : list Ec2CapacityReservation) :
    DefaultProvider * result error (list Ec2CapacityReservation) :=
  match queries with
  | [] => (p, Ok (filterReservations now reservations))
  | q :: queries' =>
      match fetch (DescribeCapacityReservations (DescribeCapacityReservationsInput q)) [] with
      | Err e => (p, Err e)
      | Ok rs =>
          list_queries
            {| availability := syncAvailability (availability p) now t (counts_of rs);
               reservationCache := SetDefault (reservationCache p) t (CacheKey q) rs |}
            now t queries' (reservations ++ rs)
      end
  end.

Definition List_ (p : DefaultProvider) (now t : Z)
    (selectorTerms : list CapacityReservationSelectorTerm) :
    DefaultProvider * result error (list Ec2CapacityReservation) :=
  let '(reservations, queries) :=
    resolveCachedQueries p t (QueriesFromSelectorTerms selectorTerms) in
  match queries with
  | [] => (p, Ok (filterReservations now reservations))
  | _ => list_queries p now t queries reservations
  end.
End provider.
Arguments DefaultProvider : clear implicits.

(** ** The availability cache refines a map from reservations to entries *)

Section view.
Context {CL CT : Type} `{GoCacheLaws positive CL, GoCacheLaws unit CT}.
Local Abbreviation AC := (availabilityCache CL CT).
Implicit Types (a : AC) (t now : Z) (id : string).

(** What a reader at instant [t] can see of a reservation. *)
Definition view a t id : option availabilityCacheEntry :=
  Get (availabilityCache_ a) t id ≫= λ l, heap a !! l.

(** Cached pointers are allocated and no two reservations share one. *)
Record ac_inv a : Prop := {
  inv_alloc : ∀ id l e, items (availabilityCache_ a) !! id = Some (l, e) →
                (l < next a)%positive ∧ is_Some (heap a !! l);
  inv_noalias : ∀ id id' l e e',
                items (availabilityCache_ a) !! id = Some (l, e) →
                items (availabilityCache_ a) !! id' = Some (l, e') → id = id';
}.

Lemma ac_inv_get a t id l :
  ac_inv a → Get (availabilityCache_ a) t id = Some l →
  (l < next a)%positive ∧ is_Some (heap a !! l).
Proof. intros Ha [e He]%Get_Some_items. by eapply inv_alloc. Qed.

Lemma ac_inv_set_entry a t id e : ac_inv a → ac_inv (set_entry a t id e).
Proof.
  intros [Hal Hna]. split; simpl; rewrite SetDefault_items.
  - intros id' l x. rewrite lookup_insert. case_decide; intros Hl.
    + simplify_eq. rewrite lookup_insert_eq. split; [lia|done].
    + apply Hal in Hl as [? ?]. rewrite lookup_insert_ne by lia. split; [lia|done].
  - intros id1 id2 l e1 e2. rewrite !lookup_insert.
    repeat case_decide; intros E1 E2; simplify_eq; try done.
    + destruct (Hal _ _ _ E2). lia.
    + destruct (Hal _ _ _ E1). lia.
    + by eapply Hna.
Qed.

Lemma ac_inv_heap a l e : is_Some (heap a !! l) → ac_inv a → ac_inv (set_heap a (<[l:=e]> (heap a))).
Proof.
  intros Hl [Hal Hna]. split; simpl; [|done].
  intros id' l' x (? & ?)%Hal. split; [done|]. rewrite lookup_insert.
  by case_decide.
Qed.

Lemma view_set_entry a t t' id id' e :
  ac_inv a → 0 < defaultTTL (availabilityCache_ a) →
  view (set_entry a t id e) t' id' =
  if decide (id' = id)
  then if decide (t' ≤ t + defaultTTL (availabilityCache_ a)) then Some e else None
  else view a t' id'.
Proof.
  intros Ha Httl. unfold view; simpl. case_decide as E; subst.
  - rewrite Get_SetDefault_eq by done. case_decide; simpl; [|done]. by rewrite lookup_insert_eq.
  - rewrite Get_SetDefault_ne by done. destruct (Get _ t' id') as [l|] eqn:El; simpl; [|done].
    destruct (ac_inv_get _ _ _ _ Ha El). rewrite lookup_insert_ne; [done|lia].
Qed.

(** Updating the entry of [id] through its pointer, seen by any reader. *)
Lemma view_set_heap a t t' id id' l e e' :
  ac_inv a → t ≤ t' → Get (availabilityCache_ a) t id = Some l → heap a !! l = Some e →
  view (set_heap a (<[l := e']> (heap a))) t' id' =
  if decide (id' = id) then (λ _, e') <$> view a t' id' else view a t' id'.
Proof.
  intros Ha Ht Hl He. unfold view; simpl.
  destruct (Get _ t' id') as [l'|] eqn:El'; simpl; [|by case_decide].
  destruct (Get_Some_items _ _ _ _ Hl) as [x Hx].
  destruct (Get_Some_items _ _ _ _ El') as [x' Hx'].
  case_decide as E; subst.
  - rewrite Hx in Hx'. simplify_eq. by rewrite lookup_insert_eq, He.
  - rewrite lookup_insert_ne; [done|]. intros ->. apply E.
    by eapply inv_noalias.
Qed.

(** The abstract operations on one entry. *)
Definition launched (now : Z) (e : availabilityCacheEntry) : availabilityCacheEntry :=
  if decide (now < syncTime e ∨ count e = 0) then e
  else {| count := i64 (count e - 1); syncTime := syncTime e |}.
Definition terminated (e : availabilityCacheEntry) : availabilityCacheEntry :=
  {| count := i64 (count e + 1); syncTime := syncTime e |}.

Lemma view_at a t id l e :
  Get (availabilityCache_ a) t id = Some l → heap a !! l = Some e →
  ∀ t', t ≤ t' → view a t' id = Some e ∨ view a t' id = None.
Proof.
  intros Hl He t' Ht. unfold view. destruct (Get _ t' id) as [l'|] eqn:E; [|by right].
  destruct (Get_Some_items _ _ _ _ Hl) as [x Hx], (Get_Some_items _ _ _ _ E) as [x' Hx'].
  rewrite Hx in Hx'. simplify_eq/=. auto.
Qed.

Lemma view_gone a t t' id :
  ac_inv a → t ≤ t' → view a t id = None → view a t' id = None.
Proof.
  intros Ha Ht. unfold view. destruct (Get _ t id) as [l|] eqn:E; simpl.
  - destruct (ac_inv_get _ _ _ _ Ha E) as [_ [e He]]. congruence.
  - intros _. by rewrite (Get_mono _ _ _ _ Ht E).
Qed.

Lemma view_MarkLaunched a now t t' id id' :
  ac_inv a → t ≤ t' →
  view (MarkLaunched a now t id) t' id' =
  if decide (id' = id) then launched now <$> view a t' id' else view a t' id'.
Proof.
  intros Ha Ht. unfold MarkLaunched. destruct (Get _ t id) as [l|] eqn:El.
  - destruct (ac_inv_get _ _ _ _ Ha El) as [_ [e He]]. rewrite He.
    pose proof (view_at _ _ _ _ _ El He t' Ht) as Hv. unfold launched.
    repeat case_decide; subst; rewrite ?(view_set_heap _ _ _ _ _ _ _ _ Ha Ht El He);
      rewrite ?decide_True, ?decide_False by done; try done;
      destruct Hv as [-> | ->]; simpl; try done;
      first [rewrite decide_True by naive_solver | rewrite decide_False by naive_solver]; done.
  - case_decide; subst; [|done].
    rewrite (view_gone _ t t' id Ha Ht); [done|]. unfold view. by rewrite El.
Qed.

Lemma ac_inv_MarkLaunched a now t id : ac_inv a → ac_inv (MarkLaunched a now t id).
Proof.
  intros Ha. unfold MarkLaunched. destruct (Get _ t id) as [l|]; [|done].
  destruct (heap a !! l) as [e|] eqn:He; [|done]. repeat case_decide; try done.
  by apply ac_inv_heap.
Qed.

Definition set_terminated a t iid : AC :=
  {| availabilityCache_ := availabilityCache_ a;
     terminationCache := SetDefault (terminationCache a) t iid ();
     heap := heap a; next := next a |}.

Lemma ac_inv_MarkTerminated a t id iid : ac_inv a → ac_inv (MarkTerminated a t id iid).
Proof.
  intros Ha. assert (ac_inv (set_terminated a t iid)) as Ha'
    by (by destruct Ha; split).
  unfold MarkTerminated. destruct (Get (terminationCache a) t iid); [done|]. simpl.
  destruct (Get _ t id) as [l|]; [|done]. destruct (heap a !! l) eqn:He; [|done].
  by apply (ac_inv_heap (set_terminated a t iid)).
Qed.

Lemma view_MarkTerminated a t t' id id' iid :
  ac_inv a → t ≤ t' →
  view (MarkTerminated a t id iid) t' id' =
  if decide (id' = id ∧ Get (terminationCache a) t iid = None)
  then terminated <$> view a t' id' else view a t' id'.
Proof.
  intros Ha Ht. unfold MarkTerminated.
  destruct (Get (terminationCache a) t iid) eqn:Eiid; [by rewrite decide_False by naive_solver|].
  simpl. destruct (Get (availabilityCache_ a) t id) as [l|] eqn:El.
  - destruct (ac_inv_get _ _ _ _ Ha El) as [_ [e He]]. rewrite He.
    assert (ac_inv (set_terminated a t iid)) as Ha' by (by destruct Ha; split).
    etrans; [exact (view_set_heap _ t t' id id' l e _ Ha' Ht El He)|].
    pose proof (view_at _ _ _ _ _ El He t' Ht) as Hv.
    destruct (decide (id' = id)) as [->|]; [rewrite decide_True by done|by rewrite decide_False by naive_solver].
    change (view (set_terminated a t iid) t' id) with (view a t' id).
    by destruct Hv as [-> | ->].
  - case_decide as E; [|done]. destruct E as [-> _].
    change (view _ t' id) with (view a t' id) at 1.
    rewrite (view_gone _ t t' id Ha Ht); [done|]. unfold view. by rewrite El.
Qed.

Lemma sync_list (l : list (string * Z)) a now t t' id :
  ac_inv a → 0 < defaultTTL (availabilityCache_ a) → NoDup l.*1 →
  let a' := foldl (λ a p, set_entry a t p.1 {| count := p.2; syncTime := now |}) a l in
  ac_inv a' ∧
  defaultTTL (availabilityCache_ a') = defaultTTL (availabilityCache_ a) ∧
  view a' t' id =
    match (list_to_map l : gmap string Z) !! id with
    | Some n => if decide (t' ≤ t + defaultTTL (availabilityCache_ a))
                then Some {| count := n; syncTime := now |} else None
    | None => view a t' id
    end.
Proof.
  revert a. induction l as [|[k n] l IH]; intros a Ha Httl Hnd; simpl in *; [done|].
  apply NoDup_cons in Hnd as [Hk Hnd].
  assert (defaultTTL (availabilityCache_ (set_entry a t k {| count := n; syncTime := now |}))
          = defaultTTL (availabilityCache_ a)) as Hd by apply SetDefault_ttl.
  destruct (IH (set_entry a t k {| count := n; syncTime := now |})) as (? & Hd' & Hv);
    [by apply ac_inv_set_entry|by rewrite Hd|done|].
  split_and!; [done|congruence|]. rewrite Hv, Hd. clear Hv.
  rewrite (view_set_entry _ _ _ _ _ _ Ha Httl), lookup_insert.
  repeat case_decide; subst; simplify_eq; try done.
  all: by rewrite (not_elem_of_list_to_map_1 l _ Hk).
Qed.

(** Reading the count is reading the view. *)
Lemma count_view a t id :
  GetAvailableInstanceCount a t id = default 0 (count <$> view a t id).
Proof. unfold GetAvailableInstanceCount, view. by destruct (_ ≫= _). Qed.
End view.

(** ** Properties of the availability cache *)

Inductive ac_op :=
  | OpLaunched (now : Z) (reservationID : string)
  | OpTerminated (reservationID instanceID : string)
  | OpSync (now : Z) (availability : gmap string Z)
  | OpSet (now : Z) (reservationID : string) (n : Z).

Section availability_properties.
Context {CL CT : Type} `{GoCacheLaws positive CL, GoCacheLaws unit CT}.
Local Abbreviation AC := (availabilityCache CL CT).

Definition ac_apply (t : Z) (op : ac_op) (a : AC) : AC :=
  match op with
  | OpLaunched now id => MarkLaunched a now t id
  | OpTerminated id iid => MarkTerminated a t id iid
  | OpSync now m => syncAvailability a now t m
  | OpSet now id n => SetAvailableInstanceCount a now t id n
  end.

(** The abstract effect of an operation at [t] on what a reader at [t'] sees of [id]. *)
Definition spec_view (ttl t t' : Z) (op : ac_op) (fresh_instance : bool) (id : string)
    (v : option availabilityCacheEntry) : option availabilityCacheEntry :=
  let stored n now :=
    if decide (t' ≤ t + ttl) then Some {| count := n; syncTime := now |} else None in
  match op with
  | OpLaunched now id' => if decide (id = id') then launched now <$> v else v
  | OpTerminated id' _ =>
      if decide (id = id' ∧ fresh_instance = true) then terminated <$> v else v
  | OpSync now m => match m !! id with Some n => stored n now | None => v end
  | OpSet now id' n => if decide (id = id') then stored n now else v
  end.

Definition fresh (a : AC) (t : Z) (op : ac_op) : bool :=
  match op with
  | OpTerminated _ iid => bool_decide (Get (terminationCache a) t iid = None)
  | _ => true
  end.

(** C2: the availability cache refines a map from reservation to count.  Whatever the
    pointers and the heap, each operation keeps the pointers disjoint and changes what
    readers see exactly as the abstract operation does on one entry per reservation:
    a launch takes one from a positive count unless a later sync already accounts for
    it, a termination of an instance not seen before gives one back, a sync or a forced
    count replaces the entry and restarts its lifetime, and nothing else moves. *)
Theorem availability_refinement (a : AC) t op t' id :
  ac_inv a → 0 < defaultTTL (availabilityCache_ a) → t ≤ t' →
  ac_inv (ac_apply t op a) ∧
  view (ac_apply t op a) t' id =
    spec_view (defaultTTL (availabilityCache_ a)) t t' op (fresh a t op) id (view a t' id).
Proof.
  intros Ha Httl Ht. destruct op as [now id'|id' iid|now m|now id' n]; simpl.
  - split; [by apply ac_inv_MarkLaunched|by apply view_MarkLaunched].
  - split; [by apply ac_inv_MarkTerminated|].
    rewrite view_MarkTerminated by done.
    repeat case_decide; rewrite ?bool_decide_eq_true in *; naive_solver.
  - destruct (sync_list (map_to_list m) a now t t' id Ha Httl (NoDup_fst_map_to_list m))
      as (? & _ & Hv).
    split; [done|]. rewrite list_to_map_to_list in Hv. exact Hv.
  - split; [by apply ac_inv_set_entry|]. by apply view_set_entry.
Qed.

(** An instance's slot is returned once.  After the first [MarkTerminated] of an
    instance, repeating the call within fifteen minutes, for the same or any other
    reservation, changes nothing at all. *)
Theorem MarkTerminated_once (a : AC) t t' r r' iid :
  defaultTTL (terminationCache a) = terminatedInstanceTTL →
  Get (terminationCache a) t iid = None →
  t ≤ t' ≤ t + 900_000_000_000 →
  MarkTerminated (MarkTerminated a t r iid) t' r' iid = MarkTerminated a t r iid.
Proof.
  intros Httl Hiid Ht.
  assert (terminationCache (MarkTerminated a t r iid)
          = SetDefault (terminationCache a) t iid ()) as Htc.
  { unfold MarkTerminated. rewrite Hiid. simpl.
    destruct (Get (availabilityCache_ a) t r) as [l|]; [|done]. by destruct (heap a !! l). }
  unfold MarkTerminated at 1. rewrite Htc, Get_SetDefault_eq by by rewrite Httl.
  rewrite Httl, decide_True; [done|].
  change terminatedInstanceTTL with 900_000_000_000. lia.
Qed.

(** Launches drain a reservation without underflow.  [k] launches against a synced
    reservation with [n] free slots leave [max 0 (n - k)]. *)
Theorem launches_drain (a : AC) now t t' id n s k :
  ac_inv a → t ≤ t' → s ≤ now → 0 ≤ n < 2 ^ 63 →
  view a t' id = Some {| count := n; syncTime := s |} →
  GetAvailableInstanceCount (Nat.iter k (λ a, MarkLaunched a now t id) a) t' id
    = Z.max 0 (n - Z.of_nat k).
Proof.
  intros Ha Ht Hs Hn Hv.
  assert (ac_inv (Nat.iter k (λ a, MarkLaunched a now t id) a) ∧
          view (Nat.iter k (λ a, MarkLaunched a now t id) a) t' id
            = Some {| count := Z.max 0 (n - Z.of_nat k); syncTime := s |}) as [_ Hk].
  { induction k as [|k [IHi IHv]]; simpl.
    - split; [done|]. rewrite Hv. do 2 f_equal. lia.
    - split; [by apply ac_inv_MarkLaunched|].
      rewrite view_MarkLaunched, IHv, decide_True by done. simpl. unfold launched; simpl.
      case_decide; f_equal; f_equal; [lia|]. rewrite i64_small; lia. }
  by rewrite count_view, Hk.
Qed.
End availability_properties.

(** ** Properties of [List] *)

Section list_properties.
Context {CL CT CR : Type}.
Context `{GoCacheLaws positive CL, GoCacheLaws unit CT,
          GoCacheLaws (list Ec2CapacityReservation) CR}.
Variable CacheKey : Query → string.
Variable Describe : DescribeInput → list (result error (list Ec2CapacityReservation)).
Local Abbreviation P := (DefaultProvider CL CT CR).

Definition fetched (q : Query) : result error (list Ec2CapacityReservation) :=
  fetch (Describe (DescribeCapacityReservationsInput q)) [].

Lemma filterReservations_elem now l r :
  r ∈ filterReservations now l → r ∈ l ∧ not_ended now r = true.
Proof.
  intros [He Hr]%list_elem_of_filter. split; [|done]. by eapply UniqBy_elem.
Qed.

Lemma filterReservations_NoDup now l : NoDup (CapacityReservationId <$> filterReservations now l).
Proof. apply NoDup_fmap_filter, UniqBy_NoDup. Qed.

Lemma resolveCached_split (p : P) t qs :
  (resolveCachedQueries CacheKey p t qs).2
    = filter (λ q, Get (reservationCache p) t (CacheKey q) = None) qs ∧
  ∀ r, r ∈ (resolveCachedQueries CacheKey p t qs).1 ↔
    ∃ q v, q ∈ qs ∧ Get (reservationCache p) t (CacheKey q) = Some v ∧ r ∈ v.
Proof.
  induction qs as [|q qs [IH2 IH1]] using rev_ind; [split; [done|]; simpl; set_solver|].
  unfold resolveCachedQueries in *. rewrite foldl_snoc. set (acc := foldl _ _ _) in *.
  rewrite filter_app, filter_cons, filter_nil.
  destruct (Get _ t (CacheKey q)) as [v|] eqn:E; simpl.
  - rewrite app_nil_r. split; [done|].
    intros r. rewrite elem_of_app, IH1. set_solver.
  - split; [by rewrite IH2|]. intros r. rewrite IH1. set_solver.
Qed.

Lemma list_queries_ok qs : ∀ (p p' : P) now t acc rs,
  list_queries CacheKey Describe p now t qs acc = (p', Ok rs) →
  ∃ rss, Forall2 (λ q r, fetched q = Ok r) qs rss ∧
         rs = filterReservations now (acc ++ mjoin rss).
Proof.
  induction qs as [|q qs IH]; intros p p' now t acc rs; simpl.
  - intros [= <- <-]. exists []. by rewrite app_nil_r.
  - destruct (fetch _ []) as [r|e] eqn:E; [|done].
    intros (rss & HF & ->)%IH. exists (r :: rss). split; [by constructor|].
    simpl. by rewrite app_assoc.
Qed.

Lemma List_queries (p p' : P) now t terms rs :
  List_ CacheKey Describe p now t terms = (p', Ok rs) →
  ∃ rss, Forall2 (λ q r, fetched q = Ok r)
           (resolveCachedQueries CacheKey p t (QueriesFromSelectorTerms terms)).2 rss ∧
         rs = filterReservations now
                ((resolveCachedQueries CacheKey p t (QueriesFromSelectorTerms terms)).1 ++ mjoin rss).
Proof.
  unfold List_. destruct (resolveCachedQueries _ _ _ _) as [cached [|q qs]].
  - intros [= <- <-]. exists []. simpl. by rewrite app_nil_r.
  - intros Hl. simpl. by eapply list_queries_ok.
Qed.

(** What a successful [List] returns.  No reservation ID occurs twice, none has ended,
    each comes from the cached or freshly described result of one of the selector's
    queries, and every reservation of such a result that has not ended (and whose ID the
    results agree on) is returned. *)
Theorem List_sound (p p' : P) now t terms rs :
  List_ CacheKey Describe p now t terms = (p', Ok rs) →
  let from q r := ∃ v, r ∈ v ∧
    (Get (reservationCache p) t (CacheKey q) = Some v ∨
     (Get (reservationCache p) t (CacheKey q) = None ∧ fetched q = Ok v)) in
  NoDup (CapacityReservationId <$> rs) ∧
  (∀ r, r ∈ rs → not_ended now r = true ∧ ∃ q, q ∈ QueriesFromSelectorTerms terms ∧ from q r) ∧
  (∀ r q, q ∈ QueriesFromSelectorTerms terms → from q r →
     (∀ q' r', q' ∈ QueriesFromSelectorTerms terms → from q' r' →
        CapacityReservationId r' = CapacityReservationId r → r' = r) →
     not_ended now r = true → r ∈ rs).
Proof.
  intros (rss & HF & ->)%List_queries from.
  set (qs := QueriesFromSelectorTerms terms) in *.
  destruct (resolveCached_split p t qs) as [H2q H1q]. rewrite H2q in HF.
  assert (∀ r, r ∈ (resolveCachedQueries CacheKey p t qs).1 ++ mjoin rss ↔
            ∃ q, q ∈ qs ∧ from q r) as Hall.
  { intros r. rewrite elem_of_app, H1q, list_elem_of_join. split.
    - intros [(q & v & ? & ? & ?)|(v & Hr & Hv)]; [exists q; split; [done|]; exists v; auto|].
      destruct (Forall2_elem_r _ _ _ _ HF Hv) as (q & Hq & Hf).
      apply list_elem_of_filter in Hq as [? ?]. exists q. split; [done|]. exists v. auto.
    - intros (q & Hq & v & Hr & [Hv|[Hn Hf]]); [left; by exists q, v|right].
      destruct (Forall2_elem_l _ _ _ q HF) as (v' & Hv' & Hf');
        [by apply list_elem_of_filter|]. exists v'. split; [congruence|done]. }
  split_and!.
  - apply filterReservations_NoDup.
  - intros r [Hr ?]%filterReservations_elem. split; [done|]. by apply Hall.
  - intros r q Hq Hfrom Huniq Hend. unfold filterReservations.
    apply list_elem_of_filter. split; [done|].
    destruct (UniqBy_cover CapacityReservationId
      ((resolveCachedQueries CacheKey p t qs).1 ++ mjoin rss) r) as (r' & Hr' & Heq).
    { apply Hall. eauto. }
    pose proof (UniqBy_elem _ _ _ Hr') as (q' & Hq' & Hf')%Hall.
    by rewrite <- (Huniq q' r' Hq' Hf' Heq).
Qed.

(** *** Caching *)

Lemma cached_preserved (p : P) q q0 r t t2 :
  0 < defaultTTL (reservationCache p) → t2 ≤ t + defaultTTL (reservationCache p) →
  (CacheKey q0 = CacheKey q → q0 = q) →
  fetched q = Ok r → ∀ r0, fetched q0 = Ok r0 →
  (q0 = q ∨ Get (reservationCache p) t2 (CacheKey q0) = Some r0) →
  Get (SetDefault (reservationCache p) t (CacheKey q) r) t2 (CacheKey q0) = Some r0.
Proof.
  intros Httl Ht2 Hinj Hr r0 Hr0 [->|Hget].
  - rewrite Get_SetDefault_eq, decide_True by done. congruence.
  - destruct (decide (CacheKey q = CacheKey q0)) as [E|E].
    + rewrite E, Get_SetDefault_eq, decide_True by done.
      rewrite (Hinj (eq_sym E)) in Hr0. congruence.
    + by rewrite Get_SetDefault_ne.
Qed.

Lemma list_queries_cached (D qs : list Query) : ∀ (p p' : P) now t t2 acc rs,
  (∀ q q', q ∈ D → q' ∈ D → CacheKey q = CacheKey q' → q = q') →
  (∀ q, q ∈ qs → q ∈ D) →
  0 < defaultTTL (reservationCache p) → t2 ≤ t + defaultTTL (reservationCache p) →
  list_queries CacheKey Describe p now t qs acc = (p', Ok rs) →
  ∀ q r, q ∈ D → fetched q = Ok r →
    q ∈ qs ∨ Get (reservationCache p) t2 (CacheKey q) = Some r →
    Get (reservationCache p') t2 (CacheKey q) = Some r.
Proof.
  induction qs as [|q qs IH]; intros p p' now t t2 acc rs Hinj Hsub Httl Ht2; simpl.
  { intros [= <- _] q r _ _ [Hq|Hget]; [by apply elem_of_nil in Hq|done]. }
  destruct (fetch _ []) as [r|e] eqn:E; [|done]. intros Hl q0 r0 Hq0 Hr0 Hcase.
  eapply IH; [done| | | |exact Hl|done|done|]; simpl.
  - intros q' ?. apply Hsub. by right.
  - by rewrite SetDefault_ttl.
  - by rewrite SetDefault_ttl.
  - assert (q0 ∈ qs ∨ q0 = q ∨ Get (reservationCache p) t2 (CacheKey q0) = Some r0)
      as [?|Hcase'] by (destruct Hcase as [[->|?]%elem_of_cons|?]; auto); [by left|right].
    eapply cached_preserved; try done.
    intros. apply Hinj; [done|apply Hsub; by left|done].
Qed.

Lemma resolve_all_cached (p : P) t qs rss :
  Forall2 (λ q r, Get (reservationCache p) t (CacheKey q) = Some r) qs rss →
  resolveCachedQueries CacheKey p t qs = (mjoin rss, []).
Proof.
  revert rss. induction qs as [|q qs IH] using rev_ind; intros rss HF.
  - by apply Forall2_nil_inv_l in HF as ->.
  - apply Forall2_app_inv_l in HF as (l1 & l2 & HF & Hq & ->).
    apply Forall2_cons_inv_l in Hq as (r & l' & Hq & Hnil & ->).
    apply Forall2_nil_inv_l in Hnil as ->.
    unfold resolveCachedQueries in *. rewrite foldl_snoc, (IH _ HF), Hq. simpl.
    by rewrite join_app; simpl; rewrite app_nil_r.
Qed.

(** [List] is cached.  Provided the hash distinguishes the selector's queries, after a
    [List] that described them all, any [List] with the same selector terms until the
    cache lifetime ends calls EC2 for nothing, changes no state, and returns what was
    described, minus the reservations that ended in the meantime. *)
Theorem List_cached (p p' : P) now t terms rs now2 t2 Describe2 :
  (∀ q q', q ∈ QueriesFromSelectorTerms terms → q' ∈ QueriesFromSelectorTerms terms →
     CacheKey q = CacheKey q' → q = q') →
  0 < defaultTTL (reservationCache p) →
  t ≤ t2 ≤ t + defaultTTL (reservationCache p) →
  (∀ q, q ∈ QueriesFromSelectorTerms terms →
     Get (reservationCache p) t (CacheKey q) = None) →
  List_ CacheKey Describe p now t terms = (p', Ok rs) →
  ∃ described, rs = filterReservations now described ∧
    List_ CacheKey Describe2 p' now2 t2 terms
      = (p', Ok (filterReservations now2 described)).
Proof.
  set (qs := QueriesFromSelectorTerms terms). intros Hinj Httl Ht2 Hnone Hl.
  destruct (resolveCached_split p t qs) as [Hq2 Hq1].
  assert (resolveCachedQueries CacheKey p t qs = ([], qs)) as Hres.
  { apply injective_projections; simpl.
    - destruct (resolveCachedQueries _ p t qs).1 as [|r l] eqn:E; [done|].
      exfalso. destruct (proj1 (Hq1 r)) as (q & v & Hq & Hv & _); [by left|].
      rewrite Hnone in Hv; done.
    - rewrite Hq2. apply filter_all. intros x Hx. by apply Hnone. }
  unfold List_ in Hl. fold qs in Hl. rewrite Hres in Hl.
  assert (list_queries CacheKey Describe p now t qs [] = (p', Ok rs)) as Hlq.
  { destruct qs; [|done]. done. }
  destruct (list_queries_ok _ _ _ _ _ _ _ Hlq) as (rss & HF & ->).
  exists (mjoin rss). split; [done|]. unfold List_. fold qs.
  rewrite (resolve_all_cached p' t2 qs rss); [done|].
  eapply Forall2_impl_elem; [exact HF|]. intros q r Hq Hr. simpl in Hr.
  refine (list_queries_cached qs qs p p' now t t2 [] _ Hinj _ Httl _ Hlq q r Hq Hr _);
    [done|lia|by left].
Qed.
End list_properties.

(** ** Witnesses *)

Section witnesses.
Local Abbreviation AC0 := (availabilityCache (RefCache.t positive) (RefCache.t unit)).
Local Abbreviation P0 := (DefaultProvider (RefCache.t positive) (RefCache.t unit)
                            (RefCache.t (list Ec2CapacityReservation))).

Definition w_provider : P0 := NewProvider (New (5 * Minute)) (New CapacityReservationAvailabilityTTL).

Definition w_ac : AC0 :=
  SetAvailableInstanceCount (availability w_provider) 10 10 "cr-1" 3.

Lemma w_inv : ac_inv (availability w_provider).
Proof. by split. Qed.

Lemma w_ac_inv : ac_inv w_ac.
Proof. apply ac_inv_set_entry, w_inv. Qed.

Lemma availability_refinement_witness :
  ac_inv (ac_apply 20 (OpTerminated "cr-1" "i-1") w_ac) ∧
  view (ac_apply 20 (OpTerminated "cr-1" "i-1") w_ac) 30 "cr-1"
    = Some {| count := 4; syncTime := 10 |}.
Proof.
  destruct (availability_refinement w_ac 20 (OpTerminated "cr-1" "i-1") 30 "cr-1") as [Hi Hv].
  - exact w_ac_inv.
  - done.
  - lia.
  - split; [exact Hi|]. rewrite Hv. by vm_compute.
Defined.

Lemma MarkTerminated_once_witness :
  MarkTerminated (MarkTerminated w_ac 20 "cr-1" "i-1") 30 "cr-2" "i-1"
    = MarkTerminated w_ac 20 "cr-1" "i-1".
Proof. by apply (MarkTerminated_once w_ac 20 30 "cr-1" "cr-2" "i-1"). Defined.

Lemma launches_drain_witness :
  GetAvailableInstanceCount (Nat.iter 5 (λ a, MarkLaunched a 12 20 "cr-1") w_ac) 25 "cr-1" = 0.
Proof.
  rewrite (launches_drain w_ac 12 20 25 "cr-1" 3 10 5); [done|exact w_ac_inv|lia|lia|lia|].
  by vm_compute.
Defined.

Definition w_cr (id : string) (e : option Z) : Ec2CapacityReservation :=
  {| CapacityReservationId := id; AvailableInstanceCount := 2; EndDate := e;
     AvailabilityZone := "us-west-2a"; InstanceMatchCriteria := "open";
     InstanceType := "m5.large"; OwnerId := "123456789012"; ReservationType := "default";
     Interruptible := None |}.

Definition w_describe (_ : DescribeInput) :
    list (result error (list Ec2CapacityReservation)) :=
  [Ok [w_cr "cr-1" None; w_cr "cr-2" (Some 5)]; Ok [w_cr "cr-1" None]].

Definition w_terms : list CapacityReservationSelectorTerm :=
  [{| crst_Tags := ∅; crst_ID := "cr-1"; crst_OwnerID := ""; crst_InstanceMatchCriteria := "" |}].

Definition w_list := List_ q_ID w_describe w_provider 10 10 w_terms.

Lemma List_sound_witness : w_list.2 = Ok [w_cr "cr-1" None] ∧ NoDup ["cr-1"].
Proof.
  assert (w_list = (w_list.1, Ok [w_cr "cr-1" None])) as E by by vm_compute.
  split; [by rewrite E|].
  exact (proj1 (List_sound q_ID w_describe w_provider _ 10 10 w_terms _ E)).
Defined.

Lemma List_cached_witness :
  ∃ described, [w_cr "cr-1" None] = filterReservations 10 described ∧
    List_ q_ID (λ _, []) w_list.1 40 40 w_terms
      = (w_list.1, Ok (filterReservations 40 described)).
Proof.
  apply (List_cached q_ID w_describe w_provider w_list.1 10 10 w_terms _ 40 40 (λ _, [])).
  - intros q q' Hq Hq'. vm_compute in Hq, Hq'.
    apply list_elem_of_singleton in Hq as ->. by apply list_elem_of_singleton in Hq' as ->.
  - done.
  - split; by vm_compute.
  - intros q _. apply (Get_New (5 * Minute)).
  - by vm_compute.
Defined.
End witnesses.
