(* ===== verification/Batcher.v ===== *)
(** * [pkg/batcher]: batching of EC2 calls

    [batcher.go].  Callers of [Add] and the batcher's goroutine share a map of pending
    requests (under a mutex) and a trigger channel of capacity one; a flush hands every
    bucket to a bounded pool of workers, which run the batch executor and write each
    result to its requestor's channel.  The interleavings are a step relation; the batch
    executor is a parameter. *)
From S2P Require Import Prelude AwsErrors.

(** [Result[U]] *)
Record Result {U : Type} := { Output : option U; Err_ : option error }.
Arguments Result : clear implicits.

Definition result_err {U} (e : error) : Result U := {| Output := None; Err_ := Some e |}.
Definition result_ok {U} (u : U) : Result U := {| Output := Some u; Err_ := None |}.

Section batcher.
Context {T U : Type}.

(** [request[T, U]]: the identity of the requestor's channel, the bucket and the input. *)
Record request := { req_id : positive; req_hash : Z; req_input : T }.

Record Options := {
  MaxItems : Z;
  MaxRequestWorkers : Z;
  RequestHasher : T → Z;
}.

(** [b.requestWorkers.SetLimit(...)] *)
Definition worker_limit (o : Options) : nat :=
  Z.to_nat (if decide (MaxRequestWorkers o ≠ 0) then MaxRequestWorkers o else 100).

Definition OneBucketHasher (_ : T) : Z := 0.

(** Where the goroutine [run] is: in its [select], in [waitForIdle] with the number of
    triggers counted, or handing out the buckets of a flush. *)
Inductive loop_state :=
  | Select
  | Waiting (count : Z)
  | Dispatching (batches : list (list request)).

Record Batcher := {
  requests : gmap Z (list request);
  trigger : bool;                       (* the channel's one-element buffer *)
  senders : list positive;              (* callers between the unlock and the channel send *)
  loop : loop_state;
  running : list (list request);        (* batches held by workers *)
  answers : gmap positive (Result U);   (* what requestor channels have received *)
}.

Definition NewBatcher : Batcher :=
  {| requests := ∅; trigger := false; senders := []; loop := Select; running := [];
     answers := ∅ |}.

(** [runCalls]: position-wise delivery; requests beyond the results get an error, and a
    result beyond the requests is an index out of range ([None]). *)
Fixpoint runCalls (rs : list request) (results : list (Result U)) :
    option (list (positive * Result U)) :=
  match rs, results with
  | [], [] => Some []
  | [], _ :: _ => None
  | r :: rs', [] => cons (req_id r, result_err (errorf "error making call")) <$> runCalls rs' []
  | r :: rs', x :: results' => cons (req_id r, x) <$> runCalls rs' results'
  end.

(** Whether [waitForIdle]'s loop condition still holds. *)
Definition keep_waiting (o : Options) (count : Z) : bool :=
  bool_decide (MaxItems o = 0) || bool_decide (count < MaxItems o).

Definition add_request (r : request) (b : Batcher) : Batcher :=
  {| requests := <[req_hash r := default [] (requests b !! req_hash r) ++ [r]]> (requests b);
     trigger := trigger b; senders := senders b ++ [req_id r]; loop := loop b;
     running := running b; answers := answers b |}.

Definition set_trigger (t : bool) (ss : list positive) (l : loop_state) (b : Batcher) : Batcher :=
  {| requests := requests b; trigger := t; senders := ss; loop := l;
     running := running b; answers := answers b |}.

(** Take the pending map and reset it, under the mutex. *)
Definition flush (b : Batcher) : Batcher :=
  {| requests := ∅; trigger := trigger b; senders := senders b;
     loop := Dispatching (snd <$> map_to_list (requests b));
     running := running b; answers := answers b |}.

Definition set_running (l : loop_state) (r : list (list request)) (b : Batcher) : Batcher :=
  {| requests := requests b; trigger := trigger b; senders := senders b; loop := l;
     running := r; answers := answers b |}.

Definition deliver (r : list (list request)) (a : list (positive * Result U)) (b : Batcher) : Batcher :=
  {| requests := requests b; trigger := trigger b; senders := senders b; loop := loop b;
     running := r; answers := list_to_map a ∪ answers b |}.

Variable o : Options.
(** The results [BatchExecutor] may produce for a list of inputs. *)
Variable exec : list T → list (Result U) → Prop.

(** The steps of the batcher and of callers already inside [Add]. *)
Inductive internal : Batcher → Batcher → Prop :=
  | int_send b id ss ss' :
      senders b = ss ++ id :: ss' → trigger b = false →
      internal b (set_trigger true (ss ++ ss') (loop b) b)
  | int_start b :
      loop b = Select → trigger b = true →
      internal b (set_trigger false (senders b) (Waiting 1) b)
  | int_count b n :
      loop b = Waiting n → keep_waiting o n = true → trigger b = true →
      internal b (set_trigger false (senders b) (Waiting (n + 1)) b)
  | int_idle b n :
      (* the item limit is reached, or one of the two timers fires *)
      loop b = Waiting n → internal b (flush b)
  | int_dispatch b batch bs :
      loop b = Dispatching (batch :: bs) → (length (running b) < worker_limit o)%nat →
      internal b (set_running (Dispatching bs) (running b ++ [batch]) b)
  | int_dispatched b :
      loop b = Dispatching [] → internal b (set_running Select (running b) b)
  | int_run b batch bs bs' results a :
      running b = bs ++ batch :: bs' →
      exec (req_input <$> batch) results → runCalls batch results = Some a →
      internal b (deliver (bs ++ bs') a b).

(** Executions, with the requests issued so far.  A call of [Add] appends its request under
    the mutex and then sends on the trigger channel ([int_send]); the request ID stands for
    the channel it allocates, so it is fresh. *)
Inductive reach : list request → Batcher → Prop :=
  | reach_new : reach [] NewBatcher
  | reach_add rs b id input :
      reach rs b → id ∉ req_id <$> rs →
      let r := {| req_id := id; req_hash := RequestHasher o input; req_input := input |} in
      reach (rs ++ [r]) (add_request r b)
  | reach_internal rs b b' : reach rs b → internal b b' → reach rs b'.

(** ** Invariant *)

Definition dispatching (b : Batcher) : list (list request) :=
  match loop b with Dispatching bs => bs | _ => [] end.

(** Requests not answered yet: pending, being handed out, or held by a worker. *)
Definition outstanding (b : Batcher) : list request :=
  bucket_elems (requests b) ++ mjoin (dispatching b) ++ mjoin (running b).

(** A batch is a non-empty list of requests of one bucket. *)
Definition good_batch (batch : list request) : Prop :=
  batch ≠ [] ∧ ∃ h, Forall (λ r, req_hash r = h) batch.

(** [x] is what one execution of [r]'s batch assigns to [r]'s position. *)
Definition answers_request (r : request) (x : Result U) : Prop :=
  ∃ batch results i,
    good_batch batch ∧ exec (req_input <$> batch) results ∧ batch !! i = Some r ∧
    (results !! i = Some x ∨
     (results !! i = None ∧ x = result_err (errorf "error making call"))).

Record inv (rs : list request) (b : Batcher) : Prop := {
  inv_nodup : NoDup (req_id <$> rs);
  inv_split : ∃ dn, rs ≡ₚ outstanding b ++ dn ∧
    ∀ id, id ∈ req_id <$> dn ↔ is_Some (answers b !! id);
  inv_buckets : ∀ h l, requests b !! h = Some l → l ≠ [] ∧ Forall (λ r, req_hash r = h) l;
  inv_batches : Forall good_batch (dispatching b ++ running b);
  inv_wakeup : (∀ n, loop b ≠ Waiting n) → requests b ≠ ∅ → trigger b = true ∨ senders b ≠ [];
  inv_hash : Forall (λ r, req_hash r = RequestHasher o (req_input r)) rs;
  inv_answers : ∀ id x, answers b !! id = Some x →
    ∃ r, r ∈ rs ∧ req_id r = id ∧ answers_request r x;
}.

Lemma runCalls_spec batch results a :
  runCalls batch results = Some a →
  a.*1 = req_id <$> batch ∧
  ∀ id x, (id, x) ∈ a → ∃ i r, batch !! i = Some r ∧ req_id r = id ∧
    (results !! i = Some x ∨
     (results !! i = None ∧ x = result_err (errorf "error making call"))).
Proof.
  revert results a. induction batch as [|r batch IH]; intros results a.
  - destruct results; intros [= <-]. split; [done|]. by intros id x ?%elem_of_nil.
  - assert (∀ x rest, runCalls batch (tail results) = Some rest →
        a = (req_id r, x) :: rest →
        (results !! 0%nat = Some x ∨
         (results !! 0%nat = None ∧ x = result_err (errorf "error making call"))) →
        a.*1 = req_id <$> r :: batch ∧
        ∀ id x, (id, x) ∈ a → ∃ i r0, (r :: batch) !! i = Some r0 ∧ req_id r0 = id ∧
          (results !! i = Some x ∨
           (results !! i = None ∧ x = result_err (errorf "error making call")))) as Hcons.
    { intros x rest [Hr1 Hr2]%IH -> Hx. split; [simpl; by f_equal|].
      intros id x' [[= -> ->]|Hin]%elem_of_cons; [by exists 0%nat, r|].
      destruct (Hr2 _ _ Hin) as (i & r0 & ? & ? & Hcase). exists (S i), r0.
      split_and!; [done..|]. by destruct results; [right|]; simpl in *; naive_solver. }
    destruct results as [|x results]; simpl;
      intros (rest & Hrest & ->)%fmap_Some; eapply Hcons; eauto.
Qed.

Lemma runCalls_total batch results :
  (length results ≤ length batch)%nat → is_Some (runCalls batch results).
Proof.
  revert results. induction batch as [|r batch IH]; intros [|x results]; simpl; intros; try lia.
  - done.
  - destruct (IH []) as [a ->]; [simpl; lia|]. done.
  - destruct (IH results) as [a ->]; [lia|]. done.
Qed.

Lemma flush_outstanding b : (∀ bs, loop b ≠ Dispatching bs) → outstanding (flush b) = outstanding b.
Proof.
  intros Hl. unfold outstanding, dispatching, flush; simpl. rewrite bucket_elems_empty.
  destruct (loop b) eqn:E; simpl; [done..|naive_solver].
Qed.

Lemma inv_add rs b id input :
  inv rs b → id ∉ req_id <$> rs →
  let r := {| req_id := id; req_hash := RequestHasher o input; req_input := input |} in
  inv (rs ++ [r]) (add_request r b).
Proof.
  intros [Hnd (dn & Hsp & Hdn) Hbk Hba Hwk Hha Han] Hid r. split; simpl.
  - rewrite fmap_app. apply NoDup_app. split_and!; [done| |apply NoDup_singleton].
    intros x Hx ->%list_elem_of_singleton. done.
  - exists dn. split; [|done]. unfold outstanding; simpl. rewrite bucket_elems_add, Hsp.
    unfold outstanding, dispatching; simpl. solve_Permutation.
  - intros h l. rewrite lookup_insert. case_decide as Hh; [|apply Hbk].
    intros [= <-]. split; [by intros [_ ?]%app_nil|].
    apply Forall_app. split; [|by repeat constructor].
    subst h. destruct (requests b !! _) eqn:E; simpl; [by apply Hbk|done].
  - exact Hba.
  - intros _ _. right. by intros [_ ?]%app_nil.
  - apply Forall_app. split; [done|]. by repeat constructor.
  - intros id' x (r' & ? & ?)%Han. exists r'. split; [|done]. apply elem_of_app. by left.
Qed.

(** Steps that only move the trigger and the position of the loop. *)
Lemma inv_move rs b t ss l :
  inv rs b → dispatching b = match l with Dispatching bs => bs | _ => [] end →
  ((∀ n, l ≠ Waiting n) → requests b ≠ ∅ → t = true ∨ ss ≠ []) →
  inv rs (set_trigger t ss l b).
Proof.
  intros [Hnd Hsp Hbk Hba Hwk Hha Han] Hl Hw. split; simpl; try done.
  - destruct Hsp as (dn & Hsp & Hdn). exists dn. split; [|done]. rewrite Hsp.
    unfold outstanding. rewrite Hl. done.
  - rewrite Hl in Hba. exact Hba.
Qed.

Lemma inv_flush rs b : inv rs b → (∀ bs, loop b ≠ Dispatching bs) → inv rs (flush b).
Proof.
  intros [Hnd Hsp Hbk Hba Hwk Hha Han] Hl. split; try done.
  - destruct Hsp as (dn & Hsp & Hdn). exists dn. by rewrite flush_outstanding.
  - simpl. apply Forall_app in Hba as [_ Hr]. apply Forall_app. split; [|done].
    apply Forall_forall. intros batch ([h l] & -> & Hin)%list_elem_of_fmap.
    apply elem_of_map_to_list, Hbk in Hin as [? ?]. split; [done|]. by exists h.
Qed.

Lemma inv_dispatch rs b l batches :
  inv rs b →
  mjoin match l with Dispatching bs => bs | _ => [] end ++ mjoin batches
    ≡ₚ mjoin (dispatching b) ++ mjoin (running b) →
  Forall good_batch (match l with Dispatching bs => bs | _ => [] end ++ batches) →
  (∀ n, loop b ≠ Waiting n) →
  inv rs (set_running l batches b).
Proof.
  intros [Hnd (dn & Hsp & Hdn) Hbk Hba Hwk Hha Han] Hj Hg Hl. split; simpl; try done.
  - exists dn. split; [|done]. rewrite Hsp. unfold outstanding, dispatching in *; simpl.
    by rewrite Hj.
  - auto.
Qed.

Lemma inv_run rs b batch bs bs' results a :
  inv rs b → running b = bs ++ batch :: bs' →
  exec (req_input <$> batch) results → runCalls batch results = Some a →
  inv rs (deliver (bs ++ bs') a b).
Proof.
  intros [Hnd (dn & Hsp & Hdn) Hbk Hba Hwk Hha Han] Hr Hex Hrun.
  destruct (runCalls_spec _ _ _ Hrun) as [Hids Hvals].
  assert (NoDup a.*1) as Hnda.
  { rewrite Hids. rewrite Hsp, fmap_app in Hnd. apply NoDup_app in Hnd as [Hnd _].
    unfold outstanding in Hnd. rewrite Hr, !fmap_app, join_app in Hnd. simpl in Hnd.
    rewrite !fmap_app in Hnd. apply NoDup_app in Hnd as (_ & _ & Hnd).
    apply NoDup_app in Hnd as (_ & _ & Hnd). apply NoDup_app in Hnd as (_ & _ & Hnd).
    by apply NoDup_app in Hnd as [Hnd _]. }
  rewrite Hr in Hba. apply Forall_app in Hba as [Hd Hba].
  apply Forall_app in Hba as [Hb1 Hba]. apply Forall_cons in Hba as [Hbatch Hb2].
  split; try done; simpl.
  - exists (batch ++ dn). split.
    + rewrite Hsp. unfold outstanding, dispatching, deliver; simpl. rewrite Hr, !join_app. simpl.
      solve_Permutation.
    + intros id. rewrite fmap_app, elem_of_app, Hdn, lookup_union_is_Some, <- Hids.
      rewrite <- (elem_of_dom (D := gset positive) (list_to_map a)).
      by rewrite dom_list_to_map_L, elem_of_list_to_set.
  - apply Forall_app. split; [done|]. by apply Forall_app.
  - intros id x [Hin|[_ Hx]]%lookup_union_Some_raw; [|by apply Han].
    apply elem_of_list_to_map_2 in Hin. destruct (Hvals _ _ Hin) as (i & r & Hi & <- & Hres).
    exists r. split_and!; [|done|by exists batch, results, i].
    rewrite Hsp. unfold outstanding. rewrite Hr, join_app. simpl.
    apply list_elem_of_lookup_2 in Hi. rewrite !elem_of_app. tauto.
Qed.

Lemma inv_internal rs b b' : inv rs b → internal b b' → inv rs b'.
Proof.
  intros Hinv Hint. destruct Hint as
    [b id ss ss' Hs Ht|b Hl Ht|b n Hl Hk Ht|b n Hl|b batch bs Hl Hlt|b Hl
    |b batch bs bs' results a Hr Hex Hrun].
  - apply inv_move; [done..|]. by left.
  - apply inv_move; [done| |by intros Hw; destruct (Hw _ eq_refl)]. unfold dispatching. by rewrite Hl.
  - apply inv_move; [done| |by intros Hw; destruct (Hw _ eq_refl)]. unfold dispatching. by rewrite Hl.
  - apply inv_flush; [done|]. by rewrite Hl.
  - apply inv_dispatch; [done| | |by rewrite Hl].
    + unfold dispatching. rewrite Hl, join_app. simpl. solve_Permutation.
    + pose proof (inv_batches _ _ Hinv) as Hba. unfold dispatching in Hba. rewrite Hl in Hba.
      simpl in Hba. apply Forall_cons in Hba as [? Hba]. rewrite app_assoc.
      apply Forall_app. by rewrite Forall_singleton.
  - apply inv_dispatch; [done| | |by rewrite Hl].
    + unfold dispatching. by rewrite Hl.
    + pose proof (inv_batches _ _ Hinv) as Hba. unfold dispatching in Hba. by rewrite Hl in Hba.
  - by eapply inv_run.
Qed.

Lemma inv_reach rs b : reach rs b → inv rs b.
Proof.
  induction 1; [|by apply inv_add|by eapply inv_internal].
  split; simpl; try done; try (by constructor).
  exists []. split; [done|]. intros id. simpl. rewrite lookup_empty. split; [by intros ?%elem_of_nil|by intros []].
Qed.

(** ** Progress *)

Definition loop_weight (l : loop_state) : nat :=
  match l with
  | Select => 0
  | Waiting _ => 2
  | Dispatching bs => 1 + 2 * length bs
  end.

(** What internal steps consume: a send, a trigger, a flush, a dispatch, a run. *)
Definition measure (b : Batcher) : nat :=
  4 * length (senders b) + (if trigger b then 3 else 0) + loop_weight (loop b)
  + 5 * size (requests b) + length (running b).

Lemma length_map_to_list_snd {K A} `{Countable K} (m : gmap K A) :
  length (snd <$> map_to_list m) = size m.
Proof. by rewrite length_fmap, length_map_to_list. Qed.

Lemma internal_measure b b' : internal b b' → (measure b' < measure b)%nat.
Proof.
  destruct 1 as [b id ss ss' Hs Ht|b Hl Ht|b n Hl Hk Ht|b n Hl|b batch bs Hl Hlt|b Hl
    |b batch bs bs' results a Hr Hex Hrun]; unfold measure; simpl.
  - rewrite Hs, Ht, !length_app. simpl. lia.
  - rewrite Hl, Ht. simpl. lia.
  - rewrite Hl, Ht. simpl. lia.
  - rewrite Hl, length_map_to_list_snd, map_size_empty. simpl. lia.
  - rewrite Hl, length_app. simpl. lia.
  - rewrite Hl. simpl. lia.
  - rewrite Hr, !length_app. simpl. lia.
Qed.

(** A state in which no internal step is possible. *)
Definition stuck (b : Batcher) : Prop := ∀ b', ¬ internal b b'.

(** The executor always produces results, at most one per input ([BatchExecutor]'s
    documented contract). *)
Definition exec_total : Prop :=
  ∀ inputs, ∃ results, exec inputs results ∧ (length results ≤ length inputs)%nat.

Lemma stuck_drained rs b :
  exec_total → (0 < worker_limit o)%nat → inv rs b → stuck b →
  outstanding b = [] ∧ loop b = Select.
Proof.
  intros Hex Hw Hinv Hstuck.
  assert (running b = []) as Hrun.
  { destruct (running b) as [|batch bs] eqn:E; [done|].
    destruct (Hex (req_input <$> batch)) as (results & Hres & Hlen).
    rewrite length_fmap in Hlen. destruct (runCalls_total _ _ Hlen) as [a Ha].
    destruct (Hstuck _ (int_run b batch [] bs results a E Hres Ha)). }
  assert (loop b = Select) as Hl.
  { destruct (loop b) as [|n|[|batch bs]] eqn:E; [done|..]; exfalso.
    - apply (Hstuck _ (int_idle b n E)).
    - apply (Hstuck _ (int_dispatched b E)).
    - refine (Hstuck _ (int_dispatch b batch bs E _)). by rewrite Hrun. }
  assert (trigger b = false) as Ht.
  { destruct (trigger b) eqn:E; [|done]. destruct (Hstuck _ (int_start b Hl E)). }
  assert (senders b = []) as Hs.
  { destruct (senders b) as [|id ss] eqn:E; [done|].
    destruct (Hstuck _ (int_send b id [] ss E Ht)). }
  split; [|done]. unfold outstanding, dispatching. rewrite Hl, Hrun. simpl.
  destruct (decide (requests b = ∅)) as [->|Hne]; [by rewrite bucket_elems_empty|].
  destruct (inv_wakeup _ _ Hinv) as [?|?]; [by rewrite Hl|done|congruence|congruence].
Qed.

(** ** Properties *)

(** C3: every request is answered at most once and by its own batch.  In every reachable
    state the requests issued so far are split, without overlap, into the outstanding ones
    and the answered ones; each answer is what one execution of a batch of requests with
    the same hash assigns to that request's position, or the error for a missing result. *)
Theorem requests_partition rs b :
  reach rs b →
  NoDup (req_id <$> rs) ∧
  (∃ dn, rs ≡ₚ outstanding b ++ dn ∧ ∀ id, id ∈ req_id <$> dn ↔ is_Some (answers b !! id)) ∧
  (∀ id x, answers b !! id = Some x → ∃ r, r ∈ rs ∧ req_id r = id ∧ answers_request r x).
Proof. intros [Hnd Hsp _ _ _ _ Han]%inv_reach. done. Qed.

(** C4: no wake-up is lost.  In every reachable state with pending requests and the batcher
    outside its waiting loop, the trigger is buffered or some caller is still about to send
    it, although the channel holds a single trigger and callers enqueue before they send. *)
Theorem no_lost_wakeup rs b :
  reach rs b → requests b ≠ ∅ → (∀ n, loop b ≠ Waiting n) →
  trigger b = true ∨ senders b ≠ [].
Proof. intros Hr%inv_reach ? ?. by eapply inv_wakeup. Qed.

(** C5: every request is eventually answered.  With a positive worker limit and an executor
    that returns at most one result per input, from any reachable state every sequence of
    internal steps is finite, and when no step is left every request issued has its
    answer and the batcher is back in its select. *)
Theorem batcher_answers_everyone rs b :
  exec_total → (0 < worker_limit o)%nat → reach rs b →
  Acc (λ y x, internal x y) b ∧
  ∀ b', rtc internal b b' → stuck b' →
    loop b' = Select ∧ ∀ r, r ∈ rs → is_Some (answers b' !! req_id r).
Proof.
  intros Hex Hw Hr. split.
  - clear Hr. remember (measure b) as n eqn:Hn. revert b Hn.
    induction n as [n IH] using lt_wf_ind. intros b ->. constructor. intros b' Hb'.
    eapply IH; [by apply internal_measure|done].
  - intros b' Hsteps Hst.
    assert (inv rs b') as Hinv.
    { apply inv_reach in Hr. induction Hsteps; [done|]. apply IHHsteps; [|done].
      by eapply inv_internal. }
    destruct (stuck_drained _ _ Hex Hw Hinv Hst) as [Hout Hl]. split; [done|].
    intros r Hrin. destruct (inv_split _ _ Hinv) as (dn & Hsp & Hdn).
    rewrite Hout in Hsp. simpl in Hsp. apply Hdn, list_elem_of_fmap.
    exists r. split; [done|]. by rewrite <- Hsp.
Qed.
End batcher.

(** ** Witnesses *)

Section witnesses.

Definition w_options : Options (T := Z) :=
  {| MaxItems := 2; MaxRequestWorkers := 0; RequestHasher := OneBucketHasher |}.

Definition w_exec (inputs : list Z) (results : list (Result Z)) : Prop :=
  results = result_ok <$> inputs.

Lemma w_exec_total : exec_total w_exec.
Proof. intros inputs. eexists. split; [done|]. by rewrite length_fmap. Qed.

Definition w_request : request (T := Z) := {| req_id := 1; req_hash := 0; req_input := 42 |}.

Lemma w_reach : reach w_options w_exec [w_request] (add_request w_request NewBatcher).
Proof.
  apply (reach_add w_options w_exec [] NewBatcher 1 42); [constructor|].
  by intros ?%elem_of_nil.
Qed.

Lemma requests_partition_witness :
  NoDup (req_id <$> [w_request]) ∧
  ∃ dn, [w_request] ≡ₚ outstanding (add_request w_request (NewBatcher (U := Z))) ++ dn.
Proof.
  destruct (requests_partition w_options w_exec _ _ w_reach) as (Hnd & (dn & Hdn & _) & _).
  split; [exact Hnd|by exists dn].
Defined.

Lemma no_lost_wakeup_witness :
  trigger (add_request w_request (NewBatcher (U := Z))) = true ∨
  senders (add_request w_request (NewBatcher (U := Z))) ≠ [].
Proof.
  apply (no_lost_wakeup w_options w_exec [w_request]); [exact w_reach|by vm_compute|done].
Defined.

Lemma batcher_answers_everyone_witness :
  Acc (λ y x, internal w_options w_exec x y) (add_request w_request NewBatcher).
Proof.
  apply (batcher_answers_everyone w_options w_exec [w_request] _ w_exec_total); [|exact w_reach].
  by vm_compute; lia.
Defined.

(** One complete execution: the request is flushed on idle, dispatched, run and answered. *)
Lemma w_execution :
  ∃ b, rtc (internal w_options w_exec) (add_request w_request NewBatcher) b ∧
       answers b !! 1%positive = Some (result_ok 42).
Proof.
  eexists. split.
  - eapply rtc_l; [by apply (int_send _ _ _ 1%positive [] [])|].
    eapply rtc_l; [by apply int_start|].
    eapply rtc_l; [by eapply int_idle|].
    eapply rtc_l; [eapply int_dispatch; [by vm_compute|vm_compute; lia]|].
    eapply rtc_l; [by eapply int_dispatched|].
    eapply rtc_l; [by eapply (int_run _ _ _ [w_request] [] [])|]. apply rtc_refl.
  - by vm_compute.
Qed.
End witnesses.
