(* ===== verification/BatchExecutors.v ===== *)
(** * [pkg/batcher]: the three batch executors

    [createfleet.go], [terminateinstances.go] and [describeinstances.go].  Each builds one
    aggregated EC2 request from the inputs of a batch and splits the response back into
    one result per input.  The EC2 calls are parameters; the number of the call is an
    argument, so that repeated calls may answer differently.  The goroutines that retry
    single instances write disjoint positions of the result slice, so their order does not
    matter and the model runs them in the order of [elements]. *)
From S2P Require Import Prelude AwsErrors Batcher.

(** ** CreateFleet *)

Section createfleet.
Context {Body Overrides Meta : Type}.

(** [ec2.CreateFleetInput]: the total target capacity ([None] for a nil
    [TargetCapacitySpecification]) and the rest of the request. *)
Record CreateFleetInput := { TotalTargetCapacity : option Z; cf_body : Body }.

Record CreateFleetInstance := {
  cfi_InstanceIds : list string;
  cfi_InstanceType : string;
  cfi_LaunchTemplateAndOverrides : Overrides;
  cfi_Lifecycle : string;
  cfi_Platform : string;
}.

Record CreateFleetOutput := {
  FleetId : option string;
  Errors : list CreateFleetError;
  Instances : list CreateFleetInstance;
  ResultMetadata : Meta;
}.

Variable CreateFleet : CreateFleetInput → result error CreateFleetOutput.

(** [CreateFleetBatcher.CreateFleet]: the guard before the input is batched. *)
Definition CreateFleet_guard (input : CreateFleetInput) : option error :=
  match TotalTargetCapacity input with
  | Some c => if decide (c ≠ 1) then Some (errorf "expected to receive a single instance only") else None
  | None => None
  end.

(** The output one requestor receives for one instance ID of a fleet reservation. *)
Definition single_instance (output : CreateFleetOutput) (reservation : CreateFleetInstance)
    (instanceID : string) : CreateFleetOutput :=
  {| FleetId := FleetId output; Errors := Errors output;
     Instances := [{| cfi_InstanceIds := [instanceID];
                      cfi_InstanceType := cfi_InstanceType reservation;
                      cfi_LaunchTemplateAndOverrides := cfi_LaunchTemplateAndOverrides reservation;
                      cfi_Lifecycle := cfi_Lifecycle reservation;
                      cfi_Platform := cfi_Platform reservation |}];
     ResultMetadata := ResultMetadata output |}.

(** One iteration of the inner loop over instance IDs: the request index is incremented,
    and an instance beyond the requests is ignored. *)
Definition assign_instance (n : Z) (output : CreateFleetOutput) (reservation : CreateFleetInstance)
    (st : Z * list (Result CreateFleetOutput)) (instanceID : string) :
    Z * list (Result CreateFleetOutput) :=
  let requestIdx := st.1 + 1 in
  if decide (n ≤ requestIdx) then (requestIdx, st.2)
  else (requestIdx, st.2 ++ [result_ok (single_instance output reservation instanceID)]).

Definition too_few : CreateFleetError :=
  {| cfe_ErrorCode := "too few instances returned";
     cfe_ErrorMessage := Some "too few instances returned"; cfe_InstanceType := "";
     cfe_AvailabilityZone := ""; cfe_SubnetId := None; cfe_Lifecycle := "" |}.

(** [execCreateFleetBatch]; [None] is a panic (no input, or a nil target capacity). *)
Definition execCreateFleetBatch (inputs : list CreateFleetInput) :
    option (list (Result CreateFleetOutput)) :=
  match inputs with
  | {| TotalTargetCapacity := Some _; cf_body := body |} :: _ =>
      let n := Z.of_nat (length inputs) in
      Some match CreateFleet {| TotalTargetCapacity := Some (i32 n); cf_body := body |} with
      | Err err => (λ _, result_err err) <$> inputs
      | Ok output =>
          let '(requestIdx, results) :=
            foldl (λ st reservation,
                     foldl (assign_instance n output reservation) st (cfi_InstanceIds reservation))
              (-1, []) (Instances output) in
          if decide (requestIdx ≠ n) then
            let errors := match Errors output with [] => [too_few] | es => es end in
            results ++ replicate (Z.to_nat (n - (requestIdx + 1)))
              (result_ok {| FleetId := None; Errors := errors; Instances := [];
                            ResultMetadata := ResultMetadata output |})
          else results
      end
  | _ => None
  end.

(** *** Properties *)

(** The instances of a response, one entry per instance ID. *)
Definition fleet_instances (output : CreateFleetOutput) : list (CreateFleetInstance * string) :=
  mjoin ((λ r, (λ id, (r, id)) <$> cfi_InstanceIds r) <$> Instances output).

Definition assign_pair (n : Z) (output : CreateFleetOutput)
    (st : Z * list (Result CreateFleetOutput)) (p : CreateFleetInstance * string) :=
  assign_instance n output p.1 st p.2.

Lemma foldl_nested n output rs st :
  foldl (λ st r, foldl (assign_instance n output r) st (cfi_InstanceIds r)) st rs
  = foldl (assign_pair n output) st (mjoin ((λ r, (λ id, (r, id)) <$> cfi_InstanceIds r) <$> rs)).
Proof.
  revert st. induction rs as [|r rs IH]; intros st; simpl; [done|].
  rewrite foldl_app, IH. f_equal. generalize (cfi_InstanceIds r) as ids.
  intros ids. revert st. induction ids as [|id ids IHi]; intros st; simpl; [done|apply IHi].
Qed.

Lemma assign_pairs n output ps :
  0 ≤ n →
  foldl (assign_pair n output) (-1, []) ps =
  (Z.of_nat (length ps) - 1,
   (λ p, result_ok (single_instance output p.1 p.2)) <$> take (Z.to_nat n) ps).
Proof.
  intros Hn. induction ps as [|p ps IH] using rev_ind; [by rewrite take_nil|].
  rewrite foldl_snoc, IH. unfold assign_pair, assign_instance; simpl.
  rewrite length_app. simpl. case_decide as Hle; f_equal; try lia.
  - rewrite take_app_le by lia. done.
  - rewrite (take_ge ps) by lia. rewrite take_ge by (rewrite length_app; simpl; lia).
    by rewrite fmap_app.
Qed.

(** C6: what a batched CreateFleet call delivers.  A batch whose API call succeeds yields
    exactly one result per input, none an error: the first results carry the launched
    instances, one each and in the order of the response, so no instance is given to two
    requestors and none is dropped unless more came back than were asked for; the
    remaining results carry no instance and at least one fleet error.  If the call fails,
    every requestor receives its error. *)
Theorem execCreateFleetBatch_spec inputs results :
  execCreateFleetBatch inputs = Some results →
  ∃ call, TotalTargetCapacity call = Some (i32 (Z.of_nat (length inputs))) ∧
    match CreateFleet call with
    | Err e => results = (λ _, result_err e) <$> inputs
    | Ok output =>
        length results = length inputs ∧
        (∀ i r, results !! i = Some r →
           match fleet_instances output !! i with
           | Some (reservation, id) => r = result_ok (single_instance output reservation id)
           | None => ∃ o, r = result_ok o ∧ Instances o = [] ∧ Errors o ≠ []
           end)
    end.
Proof.
  unfold execCreateFleetBatch. destruct inputs as [|[[c|] body] inputs]; [done| |done].
  set (all := _ :: inputs). set (call := {| TotalTargetCapacity := _; cf_body := body |}).
  intros [= <-]. exists call. split; [done|]. destruct (CreateFleet call) as [output|e]; [|done].
  rewrite foldl_nested, assign_pairs by lia. fold (fleet_instances output).
  set (ps := fleet_instances output). rewrite Nat2Z.id.
  set (rest := result_ok _).
  change (length all) with (S (length inputs)) in *.
  match goal with |- context [if ?d then ?a else ?b] => set (res := if d then a else b) end.
  assert (res = ((λ p, result_ok (single_instance output p.1 p.2)) <$> take (S (length inputs)) ps)
                ++ replicate (S (length inputs) - length ps) rest) as ->.
  { unfold res. case_decide as Hd.
    - f_equal. f_equal. lia.
    - replace (S (length inputs) - length ps)%nat with 0%nat by lia. by rewrite app_nil_r. }
  split; [rewrite length_app, length_fmap, length_take, length_replicate; lia|].
  intros i r Hi. destruct (ps !! i) as [[reservation id]|] eqn:Hp.
  - apply lookup_app_Some in Hi as [Hi|[Hge Hi]].
    + rewrite list_lookup_fmap in Hi. apply fmap_Some in Hi as (p & Hp' & ->).
      apply lookup_take_Some in Hp' as [Hp' _]. by simplify_eq.
    + apply lookup_lt_Some in Hp. apply lookup_replicate in Hi as [_ Hlt].
      rewrite length_fmap, length_take in *. lia.
  - apply lookup_ge_None in Hp. apply lookup_app_Some in Hi as [Hi|[Hge Hi]].
    + apply lookup_lt_Some in Hi. rewrite length_fmap, length_take in Hi. lia.
    + apply lookup_replicate in Hi as [-> _]. eexists. split; [done|]. simpl.
      split; [done|]. by destruct (Errors output).
Qed.
End createfleet.

(** ** Splitting a response by instance ID *)

Section fill.
Context {I U : Type} (ids : I → list string).

(** [inputs[reqID].InstanceIds[0]]; the callers' guard ensures that it exists. *)
Definition requests_instance (iid : string) (input : I) : bool :=
  bool_decide (head (ids input) = Some iid).

(** "Find all indexes where we are requesting this instance and populate with the result" *)
Definition fill (inputs : list I) (iid : string) (r : Result U) (results : list (Result U)) :
    list (Result U) :=
  zip_with (λ input old, if requests_instance iid input then r else old) inputs results.

(** [make([]Result[U], len(inputs))] *)
Definition empty_results (inputs : list I) : list (Result U) :=
  (λ _, {| Output := None; Err_ := None |}) <$> inputs.

Definition fill_all (inputs : list I) (updates : list (string * Result U))
    (results : list (Result U)) : list (Result U) :=
  foldl (λ rs u, fill inputs u.1 u.2 rs) results updates.

Lemma fill_length inputs iid r results :
  length results = length inputs → length (fill inputs iid r results) = length inputs.
Proof. intros. unfold fill. rewrite length_zip_with. lia. Qed.

Lemma fill_all_length inputs updates results :
  length results = length inputs → length (fill_all inputs updates results) = length inputs.
Proof.
  revert results. induction updates as [|u us IH]; intros results Hl; simpl; [done|].
  by apply IH, fill_length.
Qed.

(** The last update for an instance wins. *)
Definition last_update (updates : list (string * Result U)) (iid : string) : option (Result U) :=
  last (snd <$> filter (λ u, u.1 = iid) updates).

Lemma last_update_snoc updates u iid :
  last_update (updates ++ [u]) iid =
  if decide (u.1 = iid) then Some u.2 else last_update updates iid.
Proof.
  unfold last_update. rewrite filter_app, filter_cons, filter_nil.
  case_decide; rewrite fmap_app; simpl; [by rewrite last_snoc|by rewrite app_nil_r].
Qed.

Lemma fill_lookup inputs iid r results i input iid' old :
  inputs !! i = Some input → head (ids input) = Some iid' → results !! i = Some old →
  fill inputs iid r results !! i = Some (if decide (iid = iid') then r else old).
Proof.
  intros Hin Hhd Hold. unfold fill. rewrite lookup_zip_with, Hin, Hold. simpl.
  unfold requests_instance. rewrite Hhd. case_decide; case_bool_decide; naive_solver.
Qed.

Lemma fill_all_lookup inputs updates results i input iid old :
  inputs !! i = Some input → head (ids input) = Some iid → results !! i = Some old →
  fill_all inputs updates results !! i = Some (default old (last_update updates iid)).
Proof.
  intros Hin Hhd Hold. induction updates as [|u us IH] using rev_ind; [done|].
  unfold fill_all in *. rewrite foldl_snoc, last_update_snoc.
  rewrite (fill_lookup _ _ _ _ _ _ _ _ Hin Hhd IH). by case_decide.
Qed.

Lemma last_update_some updates iid r :
  last_update updates iid = Some r → (iid, r) ∈ updates.
Proof.
  unfold last_update. intros Hl%last_Some_elem_of.
  apply list_elem_of_fmap in Hl as ([k r'] & -> & [Hk Hu]%list_elem_of_filter).
  simpl in *. by subst.
Qed.

Lemma last_update_none updates iid :
  last_update updates iid = None ↔ iid ∉ updates.*1.
Proof.
  unfold last_update. rewrite last_None. split.
  - intros Hf%fmap_nil_inv ([k r] & -> & Hin)%list_elem_of_fmap.
    assert ((k, r) ∈ filter (λ u, u.1 = k) updates) as Hx by by apply list_elem_of_filter.
    simpl in Hf. rewrite Hf in Hx. by apply elem_of_nil in Hx.
  - intros Hni. rewrite filter_none; [done|]. intros [k r] Hin Heq. simpl in Heq. subst.
    apply Hni, list_elem_of_fmap. by exists (iid, r).
Qed.
End fill.

(** ** TerminateInstances *)

Section terminate.
Context {Meta : Type}.

Record TerminateInstancesInput := { ti_InstanceIds : list string }.
Record InstanceStateChange := {
  isc_InstanceId : string;
  isc_CurrentState : string;
  isc_PreviousState : string;
}.
Record TerminateInstancesOutput := {
  TerminatingInstances : list InstanceStateChange;
  tio_Metadata : option Meta;
}.

(** The [n]-th call of the API: an output and an error, either of which may be nil. *)
Variable TerminateInstances_api :
  nat → list string → option TerminateInstancesOutput * option error.

Definition single_instance_guard (ids : list string) : option error :=
  if decide (length ids ≠ 1%nat) then Some (errorf "expected to receive a single instance only")
  else None.

Definition terminal_state (s : string) : bool :=
  bool_decide (s ∈ ["shutting-down"; "terminated"]).

Definition change_output (output : TerminateInstancesOutput) (c : InstanceStateChange) :
    Result TerminateInstancesOutput :=
  result_ok {| TerminatingInstances :=
                 [{| isc_InstanceId := isc_InstanceId c; isc_CurrentState := isc_CurrentState c;
                     isc_PreviousState := isc_PreviousState c |}];
               tio_Metadata := tio_Metadata output |}.

(** One iteration over the state changes of the batched response. *)
Definition apply_change (inputs : list TerminateInstancesInput) (output : TerminateInstancesOutput)
    (st : gset string * list (Result TerminateInstancesOutput)) (c : InstanceStateChange) :=
  if terminal_state (isc_CurrentState c) then
    (st.1 ∖ {[isc_InstanceId c]},
     fill ti_InstanceIds inputs (isc_InstanceId c) (change_output output c) st.2)
  else st.

(** The individual retries, numbered from 1 after the batched call 0. *)
Definition retry_updates (stillRunning : gset string) :
    list (string * Result TerminateInstancesOutput) :=
  imap (λ n iid, let '(out, err) := TerminateInstances_api (S n) [iid] in
                 (iid, {| Output := out; Err_ := err |})) (elements stillRunning).

(** [execTerminateInstancesBatch]; [None] is the panic on an empty batch. *)
Definition execTerminateInstancesBatch (inputs : list TerminateInstancesInput) :
    option (list (Result TerminateInstancesOutput)) :=
  match inputs with
  | [] => None
  | firstInput :: rest =>
      let allIds := foldl (λ acc input, acc ++ ti_InstanceIds input) (ti_InstanceIds firstInput) rest in
      (* firstInput is inputs[0]: the aggregation is visible through the slice *)
      let inputs := {| ti_InstanceIds := allIds |} :: rest in
      let output := default {| TerminatingInstances := []; tio_Metadata := None |}
                      (TerminateInstances_api 0 allIds).1 in
      let '(stillRunning, results) :=
        foldl (apply_change inputs output) (list_to_set allIds, empty_results inputs)
          (TerminatingInstances output) in
      Some (fill_all ti_InstanceIds inputs (retry_updates stillRunning) results)
  end.

(** *** Properties *)

Definition change_updates (output : TerminateInstancesOutput) (cs : list InstanceStateChange) :
    list (string * Result TerminateInstancesOutput) :=
  (λ c, (isc_InstanceId c, change_output output c))
    <$> filter (λ c, terminal_state (isc_CurrentState c) = true) cs.

Lemma apply_changes inputs output cs st :
  foldl (apply_change inputs output) st cs =
  (st.1 ∖ list_to_set (change_updates output cs).*1,
   fill_all ti_InstanceIds inputs (change_updates output cs) st.2).
Proof.
  revert st. induction cs as [|c cs IH]; intros [run rs]; simpl.
  - f_equal. set_solver.
  - rewrite IH. unfold apply_change, change_updates. rewrite filter_cons.
    destruct (terminal_state (isc_CurrentState c)) eqn:E; simpl; [|done].
    f_equal. by rewrite difference_difference_l_L.
Qed.

Lemma retry_updates_fst run : (retry_updates run).*1 = elements run.
Proof.
  unfold retry_updates. rewrite fmap_imap. apply list_eq. intros i.
  rewrite list_lookup_imap. destruct (elements run !! i); simpl; [|done].
  by destruct (TerminateInstances_api _ _).
Qed.

Lemma aggregate_ids (rest : list TerminateInstancesInput) acc :
  foldl (λ acc input, acc ++ ti_InstanceIds input) acc rest = acc ++ mjoin (ti_InstanceIds <$> rest).
Proof.
  revert acc. induction rest as [|x rest IH]; intros acc; simpl; [by rewrite app_nil_r|].
  by rewrite IH, app_assoc.
Qed.

Lemma last_change output cs iid :
  last_update (change_updates output cs) iid = change_output output <$>
    last (filter (λ c, isc_InstanceId c = iid ∧ terminal_state (isc_CurrentState c) = true) cs).
Proof.
  unfold change_updates, last_update. rewrite filter_fmap, list_filter_filter.
  rewrite <- list_fmap_compose. apply last_fmap.
Qed.

Lemma retry_updates_last run iid r :
  last_update (retry_updates run) iid = Some r →
  ∃ n out err, TerminateInstances_api (S n) [iid] = (out, err) ∧
               r = {| Output := out; Err_ := err |}.
Proof.
  intros Hr%last_update_some. unfold retry_updates in Hr.
  apply elem_of_lookup_imap in Hr as (n & iid' & Heq & _).
  destruct (TerminateInstances_api (S n) [iid']) as [out err] eqn:E. simplify_eq.
  by exists n, out, err.
Qed.

(** Every TerminateInstances caller gets an answer about its own instance.  In a batch
    of single-instance requests, the result at each position is the last terminal state
    change that the aggregated call (call 0, on the IDs of all inputs) reported for that
    instance, and otherwise the outcome of an individual retry for that instance. *)
Theorem execTerminateInstancesBatch_spec inputs results :
  execTerminateInstancesBatch inputs = Some results →
  let output := default {| TerminatingInstances := []; tio_Metadata := None |}
                  (TerminateInstances_api 0 (mjoin (ti_InstanceIds <$> inputs))).1 in
  length results = length inputs ∧
  ∀ i iid, inputs !! i = Some {| ti_InstanceIds := [iid] |} →
    match last (filter (λ c, isc_InstanceId c = iid ∧ terminal_state (isc_CurrentState c) = true)
                 (TerminatingInstances output)) with
    | Some c => results !! i = Some (change_output output c)
    | None => ∃ n out err, TerminateInstances_api (S n) [iid] = (out, err) ∧
                results !! i = Some {| Output := out; Err_ := err |}
    end.
Proof.
  unfold execTerminateInstancesBatch. destruct inputs as [|first rest]; [done|].
  rewrite aggregate_ids. simpl mjoin. set (allIds := ti_InstanceIds first ++ _).
  set (inputs' := {| ti_InstanceIds := allIds |} :: rest).
  set (output := default _ _). rewrite apply_changes. cbn [fst snd].
  set (ups := change_updates output _). set (run := _ ∖ _). intros [= <-].
  assert (length (empty_results (U := TerminateInstancesOutput) inputs') = length inputs') as Hlen
    by apply length_fmap.
  split; [rewrite fill_all_length; [done|]; by apply fill_all_length|].
  intros i iid Hi.
  assert (∃ input, inputs' !! i = Some input ∧ head (ti_InstanceIds input) = Some iid)
    as (input & Hin & Hhd).
  { destruct i as [|i]; simpl in Hi; [injection Hi as ->|]; by eexists. }
  assert (iid ∈ allIds) as Hall.
  { apply list_elem_of_lookup_2, elem_of_cons in Hi. unfold allIds. apply elem_of_app.
    destruct Hi as [<-|Hi]; [left; by left|right].
    apply list_elem_of_join. exists [iid]. split; [by left|].
    apply list_elem_of_fmap. by exists {| ti_InstanceIds := [iid] |}. }
  assert (empty_results (U := TerminateInstancesOutput) inputs' !! i
          = Some {| Output := None; Err_ := None |}) as Hold.
  { unfold empty_results. by rewrite list_lookup_fmap, Hin. }
  rewrite (fill_all_lookup ti_InstanceIds inputs' _ _ i input iid _ Hin Hhd
    (fill_all_lookup ti_InstanceIds inputs' _ _ i input iid _ Hin Hhd Hold)).
  pose proof (last_change output (TerminatingInstances output) iid) as Hups. fold ups in Hups.
  destruct (last_update (retry_updates run) iid) as [r|] eqn:Hr; simpl.
  - assert (iid ∈ run) as Hrun.
    { apply last_update_some, (list_elem_of_fmap_2 fst) in Hr. rewrite retry_updates_fst in Hr.
      by apply elem_of_elements in Hr. }
    apply elem_of_difference in Hrun as [_ Hrun]. rewrite elem_of_list_to_set in Hrun.
    apply last_update_none in Hrun. rewrite Hrun in Hups. destruct (last _); [done|].
    apply retry_updates_last in Hr as (n & out & err & ? & ->). by exists n, out, err.
  - apply last_update_none in Hr. rewrite retry_updates_fst, elem_of_elements in Hr.
    destruct (last _) as [c|]; simpl in Hups; [by rewrite Hups|]. exfalso.
    apply last_update_none in Hups. apply Hr, elem_of_difference.
    by rewrite !elem_of_list_to_set.
Qed.
End terminate.

(** ** DescribeInstances *)

Section describe.
Context {Filters_ Detail ReservationInfo Meta : Type}.

Record DescribeInstancesInput := { di_Filters : Filters_; di_InstanceIds : list string }.
Record Instance := { in_InstanceId : string; in_Detail : Detail }.
(** A reservation: its owner, requester and reservation IDs, and its instances. *)
Record Reservation := { rs_Info : ReservationInfo; rs_Instances : list Instance }.
Record DescribeInstancesOutput := { dio_Reservations : list Reservation; dio_Metadata : Meta }.

(** The results of the paginator's successive [NextPage] calls, and single calls. *)
Variable DescribeInstances_pages :
  DescribeInstancesInput → list (result error DescribeInstancesOutput).
Variable DescribeInstances_api :
  nat → DescribeInstancesInput → option DescribeInstancesOutput * option error.

Definition prepareAggregatedInput (first : DescribeInstancesInput)
    (rest : list DescribeInstancesInput) : DescribeInstancesInput :=
  {| di_Filters := di_Filters first;
     di_InstanceIds :=
       foldl (λ acc input, acc ++ di_InstanceIds input) (di_InstanceIds first) rest |}.

Definition instance_output (page : DescribeInstancesOutput) (r : Reservation) (inst : Instance) :
    Result DescribeInstancesOutput :=
  result_ok {| dio_Reservations := [{| rs_Info := rs_Info r; rs_Instances := [inst] |}];
               dio_Metadata := dio_Metadata page |}.

Definition apply_instance (inputs : list DescribeInstancesInput) (page : DescribeInstancesOutput)
    (r : Reservation) (st : gset string * list (Result DescribeInstancesOutput)) (inst : Instance) :=
  (st.1 ∖ {[in_InstanceId inst]},
   fill di_InstanceIds inputs (in_InstanceId inst) (instance_output page r inst) st.2).

Definition apply_page (inputs : list DescribeInstancesInput)
    (st : gset string * list (Result DescribeInstancesOutput)) (page : DescribeInstancesOutput) :=
  foldl (λ st r, foldl (apply_instance inputs page r) st (rs_Instances r)) st
    (dio_Reservations page).

(** The paginator loop: an error ends it. *)
Fixpoint apply_pages (inputs : list DescribeInstancesInput)
    (pages : list (result error DescribeInstancesOutput))
    (st : gset string * list (Result DescribeInstancesOutput)) :=
  match pages with
  | Ok page :: pages' => apply_pages inputs pages' (apply_page inputs st page)
  | _ => st
  end.

Definition describe_updates (filters : Filters_) (missing : gset string) :
    list (string * Result DescribeInstancesOutput) :=
  imap (λ n iid,
          let '(out, err) :=
            DescribeInstances_api n {| di_Filters := filters; di_InstanceIds := [iid] |} in
          (iid, {| Output := out; Err_ := err |})) (elements missing).

(** [execDescribeInstancesBatch]; [None] is the panic on an empty batch. *)
Definition execDescribeInstancesBatch (inputs : list DescribeInstancesInput) :
    option (list (Result DescribeInstancesOutput)) :=
  match inputs with
  | [] => None
  | first :: rest =>
      let aggregatedInput := prepareAggregatedInput first rest in
      (* the aggregation mutates inputs[0] *)
      let inputs := aggregatedInput :: rest in
      let '(missing, results) :=
        apply_pages inputs (DescribeInstances_pages aggregatedInput)
          (list_to_set (di_InstanceIds aggregatedInput), empty_results inputs) in
      Some (fill_all di_InstanceIds inputs
              (describe_updates (di_Filters aggregatedInput) missing) results)
  end.

(** *** Properties *)

Definition page_instances (page : DescribeInstancesOutput) :
    list (string * Result DescribeInstancesOutput) :=
  mjoin ((λ r, (λ inst, (in_InstanceId inst, instance_output page r inst)) <$> rs_Instances r)
           <$> dio_Reservations page).

(** What the pages before the first error say, in order. *)
Fixpoint described (pages : list (result error DescribeInstancesOutput)) :
    list (string * Result DescribeInstancesOutput) :=
  match pages with
  | Ok page :: pages' => page_instances page ++ described pages'
  | _ => []
  end.

Lemma fold_updates inputs (us : list (string * Result DescribeInstancesOutput))
    (st : gset string * list (Result DescribeInstancesOutput)) :
  foldl (λ st u, (st.1 ∖ {[u.1]}, fill di_InstanceIds inputs u.1 u.2 st.2)) st us
  = (st.1 ∖ list_to_set us.*1, fill_all di_InstanceIds inputs us st.2).
Proof.
  revert st. induction us as [|u us IH]; intros [run rs]; simpl.
  - f_equal. set_solver.
  - rewrite IH. simpl. f_equal. by rewrite difference_difference_l_L.
Qed.

Lemma apply_page_updates inputs st page :
  apply_page inputs st page
  = foldl (λ st u, (st.1 ∖ {[u.1]}, fill di_InstanceIds inputs u.1 u.2 st.2)) st
      (page_instances page).
Proof.
  unfold apply_page, page_instances. generalize (dio_Reservations page) as rs.
  intros rs. revert st. induction rs as [|r rs IH]; intros st; simpl; [done|].
  rewrite foldl_app, IH. f_equal. generalize (rs_Instances r) as xs.
  intros xs. revert st. induction xs as [|x xs IHi]; intros st; simpl; [done|apply IHi].
Qed.

Lemma apply_pages_updates inputs pages st :
  apply_pages inputs pages st
  = (st.1 ∖ list_to_set (described pages).*1, fill_all di_InstanceIds inputs (described pages) st.2).
Proof.
  rewrite <- fold_updates. revert st. induction pages as [|[page|e] pages IH]; intros st; simpl;
    [done| |done]. by rewrite IH, foldl_app, apply_page_updates.
Qed.

Lemma describe_updates_fst fs missing : (describe_updates fs missing).*1 = elements missing.
Proof.
  unfold describe_updates. rewrite fmap_imap. apply list_eq. intros i.
  rewrite list_lookup_imap. destruct (elements missing !! i); simpl; [|done].
  by destruct (DescribeInstances_api _ _).
Qed.

(** Every DescribeInstances caller gets an answer about its own instance.  In a batch of
    single-instance requests with one filter, the result at each position is the last
    description of that instance in the pages read before the first error, and otherwise
    the outcome of an individual call for that instance with the batch's filters. *)
Theorem execDescribeInstancesBatch_spec first rest results :
  execDescribeInstancesBatch (first :: rest) = Some results →
  let pages := DescribeInstances_pages
    {| di_Filters := di_Filters first;
       di_InstanceIds := mjoin (di_InstanceIds <$> first :: rest) |} in
  length results = length (first :: rest) ∧
  ∀ i input iid, (first :: rest) !! i = Some input → di_InstanceIds input = [iid] →
    match last_update (described pages) iid with
    | Some r => results !! i = Some r
    | None => ∃ n out err,
        DescribeInstances_api n {| di_Filters := di_Filters first; di_InstanceIds := [iid] |}
          = (out, err) ∧
        results !! i = Some {| Output := out; Err_ := err |}
    end.
Proof.
  unfold execDescribeInstancesBatch, prepareAggregatedInput.
  assert (foldl (λ acc input, acc ++ di_InstanceIds input) (di_InstanceIds first) rest
          = mjoin (di_InstanceIds <$> first :: rest)) as ->.
  { simpl. generalize (di_InstanceIds first). induction rest as [|x rest IH]; intros acc; simpl.
    - by rewrite app_nil_r.
    - by rewrite IH, app_assoc. }
  set (agg := {| di_Filters := _; di_InstanceIds := _ |}). set (inputs' := agg :: rest).
  rewrite apply_pages_updates. cbn [fst snd]. set (ups := described _). set (run := _ ∖ _).
  intros [= <-].
  assert (length (empty_results (U := DescribeInstancesOutput) inputs') = length inputs') as Hlen
    by apply length_fmap.
  split; [rewrite fill_all_length; [done|]; by apply fill_all_length|].
  intros i input0 iid Hi Hids.
  assert (∃ input, inputs' !! i = Some input ∧ head (di_InstanceIds input) = Some iid)
    as (input & Hin & Hhd).
  { destruct i as [|i]; simpl in Hi.
    - injection Hi as ->. exists agg. split; [done|]. simpl. by rewrite Hids.
    - exists input0. by rewrite Hids. }
  assert (iid ∈ di_InstanceIds agg) as Hall.
  { apply list_elem_of_lookup_2 in Hi. apply list_elem_of_join. exists [iid].
    split; [by left|]. apply list_elem_of_fmap. by exists input0. }
  assert (empty_results (U := DescribeInstancesOutput) inputs' !! i
          = Some {| Output := None; Err_ := None |}) as Hold.
  { unfold empty_results. by rewrite list_lookup_fmap, Hin. }
  rewrite (fill_all_lookup di_InstanceIds inputs' _ _ i input iid _ Hin Hhd
    (fill_all_lookup di_InstanceIds inputs' _ _ i input iid _ Hin Hhd Hold)).
  destruct (last_update (describe_updates _ run) iid) as [r|] eqn:Hr; simpl.
  - apply last_update_some in Hr. pose proof (list_elem_of_fmap_2 fst _ _ Hr) as Hrun.
    rewrite describe_updates_fst, elem_of_elements in Hrun. simpl in Hrun.
    apply elem_of_difference in Hrun as [_ Hrun]. rewrite elem_of_list_to_set in Hrun.
    apply last_update_none in Hrun. rewrite Hrun. unfold describe_updates in Hr.
    apply elem_of_lookup_imap in Hr as (n & iid' & Heq & _).
    destruct (DescribeInstances_api n _) as [out err] eqn:E. simplify_eq. by exists n, out, err.
  - apply last_update_none in Hr. rewrite describe_updates_fst, elem_of_elements in Hr.
    destruct (last_update ups iid) as [r|] eqn:Hups; [done|]. exfalso.
    apply last_update_none in Hups. apply Hr, elem_of_difference.
    by rewrite !elem_of_list_to_set.
Qed.
End describe.

(** ** Concrete executions *)

Definition w_fleet_call (n : Z) : @CreateFleetInput unit := {| TotalTargetCapacity := Some n; cf_body := () |}.

Definition w_fleet_api (c : @CreateFleetInput unit) : result error (@CreateFleetOutput unit unit) :=
  Ok {| FleetId := Some "fleet-1"; Errors := [];
        Instances := [{| cfi_InstanceIds := ["i-1"; "i-2"]; cfi_InstanceType := "m5.large";
                         cfi_LaunchTemplateAndOverrides := (); cfi_Lifecycle := "on-demand";
                         cfi_Platform := "" |}];
        ResultMetadata := () |}.

Definition w_fleet_results : list (Result (@CreateFleetOutput unit unit)) :=
  default [] (execCreateFleetBatch w_fleet_api (replicate 3 (w_fleet_call 1))).

(** Three requests and two instances: the third requestor is told that too few came back. *)
Example w_fleet_results_shape :
  (λ r : Result (@CreateFleetOutput unit unit),
     from_option (λ o, (mjoin (cfi_InstanceIds <$> Instances o), cfe_ErrorCode <$> Errors o))
       ([], []) (Output r)) <$> w_fleet_results
  = [(["i-1"], []); (["i-2"], []); ([], ["too few instances returned"])].
Proof. reflexivity. Qed.

Lemma execCreateFleetBatch_spec_witness :
  ∃ call, TotalTargetCapacity call = Some (i32 3) ∧
    match w_fleet_api call with
    | Err e => w_fleet_results = (λ _, result_err e) <$> replicate 3 (w_fleet_call 1)
    | Ok output =>
        length w_fleet_results = 3%nat ∧
        (∀ i r, w_fleet_results !! i = Some r →
           match fleet_instances output !! i with
           | Some (reservation, id) => r = result_ok (single_instance output reservation id)
           | None => ∃ o, r = result_ok o ∧ Instances o = [] ∧ Errors o ≠ []
           end)
    end.
Proof.
  exact (execCreateFleetBatch_spec w_fleet_api (replicate 3 (w_fleet_call 1)) w_fleet_results
           eq_refl).
Defined.

Definition w_change (iid state : string) : InstanceStateChange :=
  {| isc_InstanceId := iid; isc_CurrentState := state; isc_PreviousState := "running" |}.

(** The batched call terminates [i-1]; [i-2] is still running and is retried. *)
Definition w_terminate_api (n : nat) (ids : list string) :
    option (@TerminateInstancesOutput unit) * option error :=
  match n with
  | O => (Some {| TerminatingInstances := [w_change "i-1" "shutting-down"; w_change "i-2" "running"];
                  tio_Metadata := Some () |}, None)
  | _ => (None, Some (errorf "throttled"))
  end.

Definition w_terminate_inputs : list TerminateInstancesInput :=
  [{| ti_InstanceIds := ["i-1"] |}; {| ti_InstanceIds := ["i-2"] |}; {| ti_InstanceIds := ["i-1"] |}].

Definition w_terminate_results : list (Result (@TerminateInstancesOutput unit)) :=
  default [] (execTerminateInstancesBatch w_terminate_api w_terminate_inputs).

Lemma execTerminateInstancesBatch_spec_witness :
  length w_terminate_results = 3%nat ∧
  ∀ i iid, w_terminate_inputs !! i = Some {| ti_InstanceIds := [iid] |} →
    match last (filter (λ c, isc_InstanceId c = iid ∧ terminal_state (isc_CurrentState c) = true)
                 [w_change "i-1" "shutting-down"; w_change "i-2" "running"]) with
    | Some c => w_terminate_results !! i = Some (change_output
        {| TerminatingInstances := [w_change "i-1" "shutting-down"; w_change "i-2" "running"];
           tio_Metadata := Some () |} c)
    | None => ∃ n out err, w_terminate_api (S n) [iid] = (out, err) ∧
                w_terminate_results !! i = Some {| Output := out; Err_ := err |}
    end.
Proof.
  exact (execTerminateInstancesBatch_spec w_terminate_api w_terminate_inputs w_terminate_results
           eq_refl).
Defined.

Definition w_describe_input (iid : string) : @DescribeInstancesInput unit :=
  {| di_Filters := (); di_InstanceIds := [iid] |}.

Definition w_instance (iid : string) : @Instance unit := {| in_InstanceId := iid; in_Detail := () |}.

Definition w_page (iids : list string) : @DescribeInstancesOutput unit string unit :=
  {| dio_Reservations := [{| rs_Info := "r-1"; rs_Instances := w_instance <$> iids |}];
     dio_Metadata := () |}.

(** The second page fails, so [i-2] is described by a call of its own. *)
Definition w_describe_pages (_ : @DescribeInstancesInput unit) :
    list (result error (@DescribeInstancesOutput unit string unit)) :=
  [Ok (w_page ["i-1"]); Err (errorf "throttled"); Ok (w_page ["i-2"])].

Definition w_describe_api (_ : nat) (input : @DescribeInstancesInput unit) :
    option (@DescribeInstancesOutput unit string unit) * option error :=
  (Some (w_page (di_InstanceIds input)), None).

Definition w_describe_results : list (Result (@DescribeInstancesOutput unit string unit)) :=
  default [] (execDescribeInstancesBatch w_describe_pages w_describe_api
                [w_describe_input "i-1"; w_describe_input "i-2"]).

Lemma execDescribeInstancesBatch_spec_witness :
  length w_describe_results = 2%nat ∧
  ∀ i input iid,
    [w_describe_input "i-1"; w_describe_input "i-2"] !! i = Some input →
    di_InstanceIds input = [iid] →
    match last_update (described (w_describe_pages input)) iid with
    | Some r => w_describe_results !! i = Some r
    | None => ∃ n out err,
        w_describe_api n {| di_Filters := (); di_InstanceIds := [iid] |} = (out, err) ∧
        w_describe_results !! i = Some {| Output := out; Err_ := err |}
    end.
Proof.
  exact (execDescribeInstancesBatch_spec w_describe_pages w_describe_api (w_describe_input "i-1")
           [w_describe_input "i-2"] w_describe_results eq_refl).
Defined.
