(* ===== verification/Quantities.v ===== *)
(** * Kubernetes quantities

    [resource.Quantity] of k8s.io/apimachinery is third-party code.  A quantity is its
    value, in units of [10^-9], the finest scale it keeps; the parser is an interface, with
    the documented meaning of the formats the provider prints as laws.  [RefParser] is an
    implementation of the interface, for concrete executions. *)
From S2P Require Import Prelude GoStd.

Abbreviation Quantity := Z (only parsing).
Abbreviation ResourceList := (gmap string Z) (only parsing).

(** Resource names of the Kubernetes API. *)
Definition ResourceCPU := "cpu".
Definition ResourceMemory := "memory".
Definition ResourceEphemeralStorage := "ephemeral-storage".
Definition ResourcePods := "pods".

(** [resources.IsZero] of a quantity looked up in a list: a missing entry is zero. *)
Definition IsZero (l : ResourceList) (name : string) : bool :=
  bool_decide (default 0 (l !! name) = 0).

(** [Quantity.Value] and [MilliValue]: rounded up. *)
Definition Value (q : Quantity) : Z := - (- q / 10 ^ 9).
Definition MilliValue (q : Quantity) : Z := - (- q / 10 ^ 6).

(** [n] units, and [NewMilliQuantity]. *)
Definition units (n : Z) : Quantity := n * 10 ^ 9.
Definition NewMilliQuantity (n : Z) : Quantity := n * 10 ^ 6.

Lemma Value_units n : Value (units n) = n.
Proof. unfold Value, units. rewrite <- Z.mul_opp_l, Z.div_mul; lia. Qed.

Lemma MilliValue_units n : MilliValue (units n) = 1000 * n.
Proof.
  unfold MilliValue, units. replace (- (n * 10 ^ 9)) with ((- (1000 * n)) * 10 ^ 6) by lia.
  rewrite Z.div_mul; lia.
Qed.

(** [resource.MustParse], which panics ([None]) on an invalid string, and its composition
    with [fmt.Sprint] on an integral [float64]. *)
Class QuantityParser := {
  MustParse : string → option Quantity;
  MustParseFloat : Z → option Quantity;
}.

(** Decimal integers and the binary suffixes, for values an [int64] holds. *)
Class QuantityParserLaws (P : QuantityParser) := {
  parse_int n : 0 ≤ n < 2 ^ 63 → MustParse (fmt_int n) = Some (units n);
  parse_m n : 0 ≤ n < 2 ^ 63 → MustParse (fmt_int n +:+ "m") = Some (NewMilliQuantity n);
  parse_Mi n : 0 ≤ n → n * 2 ^ 20 < 2 ^ 63 → MustParse (fmt_int n +:+ "Mi") = Some (units (n * 2 ^ 20));
  parse_Gi n : 0 ≤ n → n * 2 ^ 30 < 2 ^ 63 → MustParse (fmt_int n +:+ "Gi") = Some (units (n * 2 ^ 30));
  parse_G n : 0 ≤ n → n * 10 ^ 9 < 2 ^ 63 → MustParse (fmt_int n +:+ "G") = Some (units (n * 10 ^ 9));
  parse_float n : 0 ≤ n < 2 ^ 63 → MustParseFloat n = Some (units n);
}.

(** ** One implementation *)

Definition suffix_scale (s : string) : option Z :=
  if decide (s = "") then Some (10 ^ 9)
  else if decide (s = "m") then Some (10 ^ 6)
  else if decide (s = "G") then Some (10 ^ 18)
  else if decide (s = "Mi") then Some (2 ^ 20 * 10 ^ 9)
  else if decide (s = "Gi") then Some (2 ^ 30 * 10 ^ 9)
  else None.

#[export] Instance RefParser : QuantityParser := {
  MustParse s :=
    match s with
    | String c _ => match digit c with
                    | Some _ => let '(n, rest) := parse_digits 0 s in (λ k, n * k) <$> suffix_scale rest
                    | None => None
                    end
    | EmptyString => None
    end;
  MustParseFloat n := Some (units n);
}.

(** The printed form of a number, followed by a suffix, parses back. *)
Lemma parse_fmt n s :
  0 ≤ n → ¬ starts_digit s →
  MustParse (fmt_int n +:+ s) = (λ k, n * k) <$> suffix_scale s.
Proof.
  intros Hn Hs.
  destruct (parse_digits_fmt n s Hn Hs) as [Hstart Hp].
  cbn [MustParse RefParser]. destruct (fmt_int n +:+ s) as [|c s'] eqn:E; [done|].
  simpl in Hstart. destruct Hstart as [d ->]. by rewrite Hp.
Qed.

#[export] Instance RefParserLaws : QuantityParserLaws RefParser.
Proof.
  split.
  - intros n Hn. rewrite <- (string_app_nil_r (fmt_int n)), parse_fmt by (lia || by intros []). done.
  - intros n Hn. rewrite parse_fmt by (lia || by intros [? ?]). simpl. f_equal.
  - intros n Hn _. rewrite parse_fmt by (done || by intros [? ?]). simpl. f_equal. unfold units. lia.
  - intros n Hn _. rewrite parse_fmt by (done || by intros [? ?]). simpl. f_equal. unfold units. lia.
  - intros n Hn _. rewrite parse_fmt by (done || by intros [? ?]). simpl. f_equal. unfold units. lia.
  - done.
Qed.
