(* ===== verification/Scheduling.v ===== *)
(** * The scheduling library of Karpenter's core

    The provider is a client of [sigs.k8s.io/karpenter]: scheduling requirements, offerings
    and instance types.  That code is not part of the repository, so it is an interface:
    [Scheduling] declares the types and operations the provider calls and [SchedulingLaws]
    the documented behaviour the theorems rely on.  [RefScheduling] is a small
    implementation of the interface (a requirement is the finite set of values it allows),
    used by the concrete executions. *)
From S2P Require Import Prelude.
From S2P Require Export Quantities.

(** ** Labels and capacity types of the core API *)

Definition CapacityTypeLabelKey := "karpenter.sh/capacity-type".
Definition CapacityTypeReserved := "reserved".
Definition CapacityTypeSpot := "spot".
Definition CapacityTypeOnDemand := "on-demand".
Definition LabelTopologyZone := "topology.kubernetes.io/zone".
Definition ReservationIDLabel := "karpenter.k8s.aws/capacity-reservation-id".

Inductive CapacityTypeClass := ClassOnDemand | ClassSpot | ClassReserved.
#[export] Instance CapacityTypeClass_eq_dec : EqDecision CapacityTypeClass.
Proof. solve_decision. Defined.

(** ** Interface *)

Class SchedulingTypes := {
  Requirement : Type;
  Requirements : Type;
}.

(** [cloudprovider.Offering]. *)
Record Offering `{SchedulingTypes} := {
  off_Requirements : Requirements;
  Price : float64;
  Available : bool;
  ReservationCapacity : Z;
}.

(** [cloudprovider.InstanceType]. *)
Record InstanceType `{SchedulingTypes} := {
  Name : string;
  it_Requirements : Requirements;
  Offerings : list Offering;
  Capacity : ResourceList;
}.

(** An entry of [AllocatableOfferingsList]. *)
Record AllocatableOfferings `{SchedulingTypes} := {
  ao_Allocatable : ResourceList;
  ao_Offerings : list Offering;
}.

Class Scheduling `{SchedulingTypes} := {
  (** [Requirement]: [Has], [Any], [Values] *)
  req_Has : Requirement → string → bool;
  req_Any : Requirement → string;
  req_Values : Requirement → list string;
  (** [Requirements]: [Get], [Has] (of a key), [HasMinValues], [IsCompatible] with
      [AllowUndefinedWellKnownLabels], and the assignment
      [requirements[key] = NewRequirement(key, In, values...)] *)
  Get : Requirements → string → Requirement;
  HasKey : Requirements → string → bool;
  HasMinValues : Requirements → bool;
  IsCompatible : Requirements → Requirements → bool;
  SetIn : Requirements → string → list string → Requirements;
  (** [NewRequirements] of [In] requirements (the listed keys) and of [DoesNotExist]
      requirements (the second list) *)
  NewRequirements : list (string * list string) → list string → Requirements;
  (** A copy of the requirements to which an [In] requirement is [Add]ed *)
  AddIn : Requirements → string → list string → Requirements;
  (** [resources.Fits] *)
  Fits : ResourceList → ResourceList → bool;
  (** [Offering]: [CapacityType], [Zone], [ReservationID], [Launchable] *)
  CapacityType : Offering → string;
  Zone : Offering → string;
  ReservationID : Offering → string;
  Launchable : Offering → bool;
  (** [Offerings]: [Compatible], [Available], [Launchable] *)
  ofs_Compatible : list Offering → Requirements → list Offering;
  ofs_Available : list Offering → list Offering;
  ofs_Launchable : list Offering → list Offering;
  (** [InstanceType.AllocatableOfferingsList] *)
  AllocatableOfferingsList : InstanceType → list AllocatableOfferings;
  (** [InstanceTypes.Truncate] *)
  Truncate : list InstanceType → Requirements → Z → option (list InstanceType);
  (** Capacity type classes: [CapacityTypeClassOf], [CapacityTypesOf(on-demand)],
      [HasCapacityTypeClass(req, on-demand)], and the keys of [DefaultCapacityTypeClasses] *)
  CapacityTypeClassOf : string → option CapacityTypeClass;
  OnDemandCapacityTypes : list string;
  HasOnDemandClass : Requirement → bool;
  builtInCapacityType : string → bool;
}.

(** The requirement allows at most one value, the one [Any] returns. *)
Definition single_valued `{Scheduling} (r : Requirement) : Prop :=
  ∀ v, req_Has r v = true → v = req_Any r.

Class SchedulingLaws `(S : Scheduling) := {
  ofs_Compatible_filter ofs r :
    ofs_Compatible ofs r = filter (λ o, IsCompatible r (off_Requirements o) = true) ofs;
  ofs_Available_filter ofs : ofs_Available ofs = filter (λ o, Available o = true) ofs;
  ofs_Launchable_filter ofs : ofs_Launchable ofs = filter (λ o, Launchable o = true) ofs;
  CapacityType_Any o : CapacityType o = req_Any (Get (off_Requirements o) CapacityTypeLabelKey);
  Zone_Any o : Zone o = req_Any (Get (off_Requirements o) LabelTopologyZone);
  (** Launchable: available and, if reserved, with capacity left. *)
  Launchable_spec o :
    Launchable o = true ↔
    Available o = true ∧ (CapacityType o = CapacityTypeReserved → ReservationCapacity o ≠ 0);
  (** Narrowing one key to an allowed value keeps compatibility with the original. *)
  SetIn_widen r k v q :
    req_Has (Get r k) v = true → IsCompatible (SetIn r k [v]) q = true → IsCompatible r q = true;
  (** Compatibility with a single allowed value makes the other side allow it. *)
  SetIn_Has r k v q :
    HasKey q k = true → IsCompatible (SetIn r k [v]) q = true → req_Has (Get q k) v = true;
  (** The allocatable groups partition the offerings. *)
  AllocatableOfferingsList_sub it g o :
    g ∈ AllocatableOfferingsList it → o ∈ ao_Offerings g → o ∈ Offerings it;
  Truncate_sub its r n its' it : Truncate its r n = Some its' → it ∈ its' → it ∈ its;
  spot_not_on_demand : CapacityTypeClassOf CapacityTypeSpot ≠ Some ClassOnDemand;
  OnDemandCapacityTypes_class ct :
    ct ∈ OnDemandCapacityTypes → CapacityTypeClassOf ct = Some ClassOnDemand;
  reserved_not_on_demand : CapacityTypeClassOf CapacityTypeReserved ≠ Some ClassOnDemand;
}.

Section consequences.
Context `{SL : SchedulingLaws}.

(** [lo.Filter] and the methods of [Offerings] as membership. *)
Lemma elem_of_Compatible o ofs r :
  o ∈ ofs_Compatible ofs r ↔ o ∈ ofs ∧ IsCompatible r (off_Requirements o) = true.
Proof. rewrite ofs_Compatible_filter, list_elem_of_filter. tauto. Qed.

Lemma elem_of_Available o ofs : o ∈ ofs_Available ofs ↔ o ∈ ofs ∧ Available o = true.
Proof. rewrite ofs_Available_filter, list_elem_of_filter. tauto. Qed.

Lemma elem_of_Launchable o ofs : o ∈ ofs_Launchable ofs ↔ o ∈ ofs ∧ Launchable o = true.
Proof. rewrite ofs_Launchable_filter, list_elem_of_filter. tauto. Qed.

Lemma Launchable_Available o : Launchable o = true → Available o = true.
Proof. by intros [? _]%Launchable_spec. Qed.
End consequences.

(** ** Reference implementation *)

(** A requirement is [None] (any value) or the list of allowed values; requirements are a
    map, and a [DoesNotExist] requirement allows no value. *)
#[export] Instance RefTypes : SchedulingTypes :=
  {| Requirement := option (list string); Requirements := gmap string (list string) |}.

Definition ref_values (r : option (list string)) : list string := default [] r.

Definition ref_has (r : option (list string)) (v : string) : bool :=
  match r with None => true | Some vs => bool_decide (v ∈ vs) end.

Definition ref_compatible (r q : gmap string (list string)) : bool :=
  forallb (λ kv : string * list string,
             match q !! kv.1 with
             | None => true
             | Some vs => bool_decide (Exists (λ v, v ∈ vs) kv.2)
             end) (map_to_list r).

Definition ref_any (o : Offering) (k : string) : string :=
  default "" (head (ref_values (off_Requirements o !! k))).

Definition ref_launchable (o : Offering) : bool :=
  Available o && (bool_decide (ref_any o CapacityTypeLabelKey ≠ CapacityTypeReserved)
                  || bool_decide (ReservationCapacity o ≠ 0)).

#[export] Instance RefScheduling : Scheduling := {
  req_Has := ref_has;
  req_Any r := default "" (head (ref_values r));
  req_Values := ref_values;
  Get (r : gmap string (list string)) k := r !! k;
  HasKey (r : gmap string (list string)) k := bool_decide (is_Some (r !! k));
  HasMinValues _ := false;
  IsCompatible := ref_compatible;
  SetIn (r : gmap string (list string)) k vs := <[k := vs]> r;
  NewRequirements ins nots := list_to_map (ins ++ ((λ k, (k, [])) <$> nots));
  AddIn (r : gmap string (list string)) k vs := <[k := vs]> r;
  Fits requests allocatable :=
    forallb (λ kv : string * Z, bool_decide (kv.2 ≤ default 0 (allocatable !! kv.1)))
      (map_to_list requests);
  CapacityType o := ref_any o CapacityTypeLabelKey;
  Zone o := ref_any o LabelTopologyZone;
  ReservationID o := ref_any o ReservationIDLabel;
  Launchable := ref_launchable;
  ofs_Compatible ofs r := filter (λ o, ref_compatible r (off_Requirements o) = true) ofs;
  ofs_Available ofs := filter (λ o, Available o = true) ofs;
  ofs_Launchable ofs := filter (λ o, ref_launchable o = true) ofs;
  AllocatableOfferingsList it :=
    [{| ao_Allocatable := Capacity it; ao_Offerings := Offerings it |}];
  Truncate its _ n := Some (take (Z.to_nat n) its);
  CapacityTypeClassOf ct :=
    if decide (ct = CapacityTypeOnDemand) then Some ClassOnDemand
    else if decide (ct = CapacityTypeSpot) then Some ClassSpot
    else if decide (ct = CapacityTypeReserved) then Some ClassReserved else None;
  OnDemandCapacityTypes := [CapacityTypeOnDemand];
  HasOnDemandClass r := ref_has r CapacityTypeOnDemand;
  builtInCapacityType ct :=
    bool_decide (ct ∈ [CapacityTypeOnDemand; CapacityTypeSpot; CapacityTypeReserved]);
}.

Lemma ref_compatible_spec r q :
  ref_compatible r q = true ↔
  ∀ k vs, r !! k = Some vs → ∀ ws, q !! k = Some ws → ∃ v, v ∈ vs ∧ v ∈ ws.
Proof.
  unfold ref_compatible. rewrite forallb_forall. split.
  - intros H k vs Hk ws Hw. specialize (H (k, vs)). simpl in H.
    rewrite Hw, bool_decide_eq_true, Exists_exists in H.
    destruct H as (v & ? & ?); [by apply list_elem_of_In, elem_of_map_to_list|by exists v].
  - intros H [k vs] Hin%list_elem_of_In%elem_of_map_to_list. simpl.
    destruct (q !! k) as [ws|] eqn:Hw; [|done]. apply bool_decide_eq_true, Exists_exists.
    destruct (H k vs Hin ws Hw) as (v & ? & ?). by exists v.
Qed.

#[export] Instance RefSchedulingLaws : SchedulingLaws RefScheduling.
Proof.
  split; try done.
  - intros o. cbn [Launchable CapacityType RefScheduling]. unfold ref_launchable.
    rewrite andb_true_iff, orb_true_iff, !bool_decide_eq_true. split; [naive_solver|].
    intros [? H]. split; [done|]. destruct (decide (ref_any o CapacityTypeLabelKey = CapacityTypeReserved)); auto.
  - intros r k v q Hv. cbn in *. rewrite !ref_compatible_spec. intros H k' vs Hk ws Hw.
    destruct (decide (k' = k)) as [->|Hne].
    + destruct (H k [v] (lookup_insert_eq _ _ _) ws Hw) as (x & ->%list_elem_of_singleton & ?).
      exists v. split; [|done]. unfold ref_has in Hv. rewrite Hk in Hv. by apply bool_decide_eq_true in Hv.
    + apply (H k'); [by rewrite lookup_insert_ne|done].
  - intros r k v q Hq. cbn in *. rewrite ref_compatible_spec. intros H.
    apply bool_decide_eq_true in Hq as [ws Hw].
    destruct (H k [v] (lookup_insert_eq _ _ _) ws Hw) as (x & ->%list_elem_of_singleton & ?).
    rewrite Hw. simpl. by apply bool_decide_eq_true.
  - intros it g o ->%list_elem_of_singleton. done.
  - intros its r n its' it [= <-] Hit. by apply elem_of_take in Hit as (i & Hi%list_elem_of_lookup_2 & _).
  - by intros ct ->%list_elem_of_singleton.
Qed.
