(* ===== verification/Kube.v ===== *)
(** * The Kubernetes API

    The controllers read and write objects of the API server through
    [controller-runtime]'s client, which is third-party.  Here are the objects they use
    ([karpv1.NodeClaim], [karpv1.NodePool] and [corev1.Node], the fields the provider reads
    or writes), the client as a class [KubeAPI] per kind of object, and the laws the
    controllers rely on: a list is current, a deletion without an error leaves an object
    gone or terminating, and a merge patch changes what its two versions differ in.
    [RefKube] is one API server.  The status conditions of a NodeClass are here too. *)
From S2P Require Import Prelude AwsErrors ApiV1 Scheduling.

Create HintDb kube.

(** ** Errors *)

Inductive kube_error :=
  | KubeNotFound (e : error)
  | KubeConflict (e : error)
  | KubeForbidden (e : error)
  | KubeError (e : error).
Definition kube_cause (e : kube_error) : error :=
  match e with KubeNotFound e | KubeConflict e | KubeForbidden e | KubeError e => e end.
Definition wrap_kube (prefix : string) (e : kube_error) : kube_error :=
  match e with
  | KubeNotFound e => KubeNotFound (wrap prefix e)
  | KubeConflict e => KubeConflict (wrap prefix e)
  | KubeForbidden e => KubeForbidden (wrap prefix e)
  | KubeError e => KubeError (wrap prefix e)
  end.
(** [apierrors.IsNotFound], [IsConflict], and [client.IgnoreNotFound]. *)
Definition is_kube_not_found (e : kube_error) : bool := match e with KubeNotFound _ => true | _ => false end.
Definition is_conflict (e : kube_error) : bool := match e with KubeConflict _ => true | _ => false end.
Definition ignore_kube_not_found (e : option kube_error) : option kube_error :=
  match e with Some (KubeNotFound _) => None | e => e end.

(** ** Objects *)

(** [karpv1.NodePool]; the reference is a pointer. *)
Record NodePool := { np_Name : string; np_NodeClassRef : option string }.

(** [karpv1.NodeClaim] *)
Record NodeClaim `{SchedulingTypes} := {
  ncl_Name : string;
  ncl_Labels : gmap string string;
  ncl_Annotations : gmap string string;
  ncl_CreationTimestamp : Z;
  ncl_DeletionTimestamp : option Z;
  ncl_NodeClassRef : option string;
  ncl_Requirements : Requirements;
  ncl_Requests : ResourceList;
  ncl_ProviderID : string;
  ncl_ImageID : string;
  ncl_NodeName : string;
  ncl_Conditions : gmap string ConditionStatus;
  ncl_Capacity : ResourceList;
  ncl_Allocatable : ResourceList;
}.

(** [corev1.Node] *)
Record Node := {
  nd_Name : string;
  nd_Labels : gmap string string;
  nd_Annotations : gmap string string;
  nd_DeletionTimestamp : option Z;
  nd_ProviderID : string;
}.

(** What the client sees of every object. *)
Class Object (O : Type) := {
  obj_Name : O → string;
  obj_Labels : O → gmap string string;
  obj_Annotations : O → gmap string string;
  obj_DeletionTimestamp : O → option Z;
  (** The object with other labels and annotations, and marked as deleted at an instant. *)
  obj_with : gmap string string → gmap string string → O → O;
  obj_deleted : Z → O → O;
}.
#[global] Hint Mode Object ! : typeclass_instances.

#[global] Instance NodeClaim_object `{SchedulingTypes} : Object NodeClaim := {|
  obj_Name := ncl_Name; obj_Labels := ncl_Labels; obj_Annotations := ncl_Annotations;
  obj_DeletionTimestamp := ncl_DeletionTimestamp;
  obj_with ls annotations c :=
    {| ncl_Name := ncl_Name c; ncl_Labels := ls; ncl_Annotations := annotations;
       ncl_CreationTimestamp := ncl_CreationTimestamp c; ncl_DeletionTimestamp := ncl_DeletionTimestamp c;
       ncl_NodeClassRef := ncl_NodeClassRef c; ncl_Requirements := ncl_Requirements c;
       ncl_Requests := ncl_Requests c; ncl_ProviderID := ncl_ProviderID c; ncl_ImageID := ncl_ImageID c;
       ncl_NodeName := ncl_NodeName c; ncl_Conditions := ncl_Conditions c;
       ncl_Capacity := ncl_Capacity c; ncl_Allocatable := ncl_Allocatable c |};
  obj_deleted t c :=
    {| ncl_Name := ncl_Name c; ncl_Labels := ncl_Labels c; ncl_Annotations := ncl_Annotations c;
       ncl_CreationTimestamp := ncl_CreationTimestamp c;
       ncl_DeletionTimestamp := Some (default t (ncl_DeletionTimestamp c));
       ncl_NodeClassRef := ncl_NodeClassRef c; ncl_Requirements := ncl_Requirements c;
       ncl_Requests := ncl_Requests c; ncl_ProviderID := ncl_ProviderID c; ncl_ImageID := ncl_ImageID c;
       ncl_NodeName := ncl_NodeName c; ncl_Conditions := ncl_Conditions c;
       ncl_Capacity := ncl_Capacity c; ncl_Allocatable := ncl_Allocatable c |};
|}.

#[global] Instance Node_object : Object Node := {|
  obj_Name := nd_Name; obj_Labels := nd_Labels; obj_Annotations := nd_Annotations;
  obj_DeletionTimestamp := nd_DeletionTimestamp;
  obj_with ls annotations n :=
    {| nd_Name := nd_Name n; nd_Labels := ls; nd_Annotations := annotations;
       nd_DeletionTimestamp := nd_DeletionTimestamp n; nd_ProviderID := nd_ProviderID n |};
  obj_deleted t n :=
    {| nd_Name := nd_Name n; nd_Labels := nd_Labels n; nd_Annotations := nd_Annotations n;
       nd_DeletionTimestamp := Some (default t (nd_DeletionTimestamp n)); nd_ProviderID := nd_ProviderID n |};
|}.

(** Updating is about labels, annotations and deletion only. *)
Class ObjectLaws (O : Type) `{Object O} := {
  obj_with_Name ls an (o : O) : obj_Name (obj_with ls an o) = obj_Name o;
  obj_with_Labels ls an (o : O) : obj_Labels (obj_with ls an o) = ls;
  obj_with_Annotations ls an (o : O) : obj_Annotations (obj_with ls an o) = an;
  obj_with_Deletion ls an (o : O) : obj_DeletionTimestamp (obj_with ls an o) = obj_DeletionTimestamp o;
  obj_with_same (o : O) : obj_with (obj_Labels o) (obj_Annotations o) o = o;
  obj_with_with ls an ls' an' (o : O) : obj_with ls an (obj_with ls' an' o) = obj_with ls an o;
  obj_deleted_Name t (o : O) : obj_Name (obj_deleted t o) = obj_Name o;
  obj_deleted_Deletion t (o : O) : is_Some (obj_DeletionTimestamp (obj_deleted t o));
}.
#[global] Instance NodeClaim_object_laws `{SchedulingTypes} : ObjectLaws NodeClaim.
Proof. split; intros; (done || by destruct o || by eexists). Qed.
#[global] Instance Node_object_laws : ObjectLaws Node.
Proof. split; intros; (done || by destruct o || by eexists). Qed.

(** ** The client *)

(** A merge patch from [old] to [new] applied to [current]: the entries the two differ in. *)
Definition merge_patch (old new current : gmap string string) : gmap string string :=
  filter (λ kv, old !! kv.1 ≠ new !! kv.1) new ∪ filter (λ kv, old !! kv.1 = new !! kv.1) current.

Class KubeAPI (O K : Type) `{Object O} := {
  stored : K → gmap string O;
  kList : K → result kube_error (list O);
  kDelete : O → K → K * option kube_error;
  (** [Patch(ctx, new, MergeFrom(old))] returns the object as it is stored then. *)
  kPatch : O → O → K → K * result kube_error O;
}.
#[global] Hint Mode KubeAPI ! ! - : typeclass_instances.
Arguments stored O {K _ _} k : rename.
Arguments kList O {K _ _} k : rename.

(** The object is gone or on its way out. *)
Definition leaving {O} `{Object O} (o : option O) : Prop :=
  match o with Some o => is_Some (obj_DeletionTimestamp o) | None => True end.

Class KubeLaws (O K : Type) `{KubeAPI O K} := {
  stored_Name (k : K) n (o : O) : stored O k !! n = Some o → obj_Name o = n;
  kList_current (k : K) l (o : O) : kList O k = Ok l → o ∈ l ↔ stored O k !! obj_Name o = Some o;
  kDelete_frame (o : O) (k : K) n : n ≠ obj_Name o → stored O (kDelete o k).1 !! n = stored O k !! n;
  kDelete_leaving (o : O) (k : K) :
    ignore_kube_not_found (kDelete o k).2 = None → leaving (stored O (kDelete o k).1 !! obj_Name o);
  kDelete_marks (o : O) (k : K) n o' :
    stored O (kDelete o k).1 !! n = Some o' →
    ∃ o0, stored O k !! n = Some o0 ∧ (o' = o0 ∨ ∃ t, o' = obj_deleted t o0);
  kPatch_frame (o o' : O) (k : K) n : n ≠ obj_Name o' → stored O (kPatch o o' k).1 !! n = stored O k !! n;
  kPatch_Ok (o o' : O) (k : K) o'' :
    (kPatch o o' k).2 = Ok o'' →
    ∃ o0, stored O k !! obj_Name o' = Some o0 ∧ stored O (kPatch o o' k).1 !! obj_Name o' = Some o'' ∧
      o'' = obj_with (merge_patch (obj_Labels o) (obj_Labels o') (obj_Labels o0))
              (merge_patch (obj_Annotations o) (obj_Annotations o') (obj_Annotations o0)) o0;
  kPatch_Err (o o' : O) (k : K) e :
    (kPatch o o' k).2 = Err e → stored O (kPatch o o' k).1 !! obj_Name o' = stored O k !! obj_Name o';
  kPatch_NotFound (o o' : O) (k : K) e :
    (kPatch o o' k).2 = Err (KubeNotFound e) → stored O k !! obj_Name o' = None;
}.

Section lemmas.
Implicit Types (m : gmap string string).

Lemma merge_patch_lookup old new current k :
  merge_patch old new current !! k = if decide (old !! k = new !! k) then current !! k else new !! k.
Proof.
  unfold merge_patch. rewrite lookup_union.
  destruct (decide (old !! k = new !! k)) as [E|E].
  - rewrite (map_lookup_filter_None_2 _ new) by (right; intros x Hx Hn; by apply Hn).
    rewrite (left_id_L None _).
    destruct (current !! k) as [x|] eqn:Hc; [by apply map_lookup_filter_Some_2|].
    apply map_lookup_filter_None. by left.
  - rewrite (map_lookup_filter_None_2 _ current) by (right; intros x Hx Hn; by apply E).
    rewrite (right_id_L None _).
    destruct (new !! k) as [x|] eqn:Hc; [apply map_lookup_filter_Some_2; [done|]; simpl; congruence|].
    apply map_lookup_filter_None. by left.
Qed.

(** Nothing changes, or everything, if nobody else wrote. *)
Lemma merge_patch_id m m' : merge_patch m m m' = m'.
Proof. apply map_eq. intros k. rewrite merge_patch_lookup. by rewrite decide_True. Qed.
Lemma merge_patch_current m m' : merge_patch m m' m = m'.
Proof. apply map_eq. intros k. rewrite merge_patch_lookup. by case_decide. Qed.

Lemma ignore_not_found_None e : ignore_kube_not_found e = None ↔ e = None ∨ ∃ e', e = Some (KubeNotFound e').
Proof. destruct e as [[]|]; simpl; naive_solver. Qed.
End lemmas.

Section client.
Context {O K : Type} `{ObjectLaws O} `{!KubeAPI O K} `{!KubeLaws O K}.
Implicit Types (k : K) (o : O).

Lemma kDelete_keeps o k n : leaving (stored O k !! n) → leaving (stored O (kDelete o k).1 !! n).
Proof.
  intros Hl. destruct (stored O (kDelete o k).1 !! n) as [o2|] eqn:E; [|done].
  destruct (kDelete_marks _ _ _ _ E) as (o0 & Ho & Hd). rewrite Ho in Hl. simpl in *.
  destruct Hd as [->|[t ->]]; [done|apply obj_deleted_Deletion].
Qed.

(** A patch never makes an object appear, and never stops its deletion. *)
Lemma kPatch_stored o o' k n o2 :
  stored O (kPatch o o' k).1 !! n = Some o2 →
  ∃ o0, stored O k !! n = Some o0 ∧ obj_DeletionTimestamp o2 = obj_DeletionTimestamp o0.
Proof.
  destruct (decide (n = obj_Name o')) as [->|Hn]; [|rewrite kPatch_frame by done; eauto].
  destruct (kPatch o o' k).2 as [o3|e] eqn:E.
  - destruct (kPatch_Ok _ _ _ _ E) as (o0 & Ho & Hs & ->). rewrite Hs. intros [= <-].
    exists o0. split; [done|]. by rewrite obj_with_Deletion.
  - rewrite (kPatch_Err _ _ _ _ E). eauto.
Qed.

Lemma kPatch_keeps o o' k n : leaving (stored O k !! n) → leaving (stored O (kPatch o o' k).1 !! n).
Proof.
  intros Hl. destruct (stored O (kPatch o o' k).1 !! n) as [o2|] eqn:E; [|done].
  destruct (kPatch_stored _ _ _ _ _ E) as (o0 & Ho & Hd). rewrite Ho in Hl. simpl in *. by rewrite Hd.
Qed.
End client.
#[export] Hint Resolve kDelete_keeps kPatch_keeps : kube.

(** ** Status conditions *)

(** [operatorpkg/status], third-party: setting a condition of a NodeClass.  The condition
    [Ready] is derived from the others. *)
Definition ConditionReady := "Ready".
Class ConditionSet := {
  set_condition : string → Condition → gmap string Condition → gmap string Condition;
  set_condition_eq t c cs : t ≠ ConditionReady → set_condition t c cs !! t = Some c;
  set_condition_ne t c cs t' : t' ≠ t → t' ≠ ConditionReady → set_condition t c cs !! t' = cs !! t';
}.

Definition with_status {Q} (st : EC2NodeClassStatus) (nc : EC2NodeClass Q) : EC2NodeClass Q :=
  {| nc_Name := nc_Name nc; nc_UID := nc_UID nc; nc_Generation := nc_Generation nc;
     nc_DeletionTimestamp := nc_DeletionTimestamp nc; nc_Annotations := nc_Annotations nc;
     Spec := Spec nc; Status := st |}.

Section conditions.
Context `{ConditionSet} {Q : Type}.
Implicit Types nc : EC2NodeClass Q.

Definition with_condition (t : string) (c : ConditionStatus) (reason message : string) nc : EC2NodeClass Q :=
  let st := Status nc in
  with_status {| Subnets := Subnets st; SecurityGroups := SecurityGroups st;
                 CapacityReservations_ := CapacityReservations_ st; AMIs_ := AMIs_ st;
                 InstanceProfile := InstanceProfile st;
                 Conditions := set_condition t {| cond_Status := c; cond_Reason := reason; cond_Message := message;
                                                  cond_ObservedGeneration := nc_Generation nc |} (Conditions st) |} nc.
Definition SetTrue (t : string) nc : EC2NodeClass Q := with_condition t ConditionTrue t "" nc.
Definition SetFalse (t reason message : string) nc : EC2NodeClass Q := with_condition t ConditionFalse reason message nc.
Definition SetUnknownWithReason (t reason message : string) nc : EC2NodeClass Q :=
  with_condition t ConditionUnknown reason message nc.

(** A condition that is not there is unknown. *)
Definition condition (t : string) nc : ConditionStatus :=
  match Conditions (Status nc) !! t with Some c => cond_Status c | None => ConditionUnknown end.

Lemma condition_eq t c r m nc : t ≠ ConditionReady → condition t (with_condition t c r m nc) = c.
Proof. intros Ht. unfold condition. simpl. by rewrite set_condition_eq. Qed.
Lemma condition_ne t t' c r m nc :
  t' ≠ t → t' ≠ ConditionReady → condition t' (with_condition t c r m nc) = condition t' nc.
Proof. intros ??. unfold condition. simpl. by rewrite set_condition_ne. Qed.
Lemma Spec_with_condition t c r m nc : Spec (with_condition t c r m nc) = Spec nc.
Proof. done. Qed.
End conditions.

(** Without the derived condition. *)
#[export] Instance RefConditions : ConditionSet.
Proof.
  refine {| set_condition t c cs := <[t := c]> cs |}; intros; [by rewrite lookup_insert_eq|by rewrite lookup_insert_ne].
Defined.

(** ** One API server *)

Module RefKube.
Section ref.
Context {O : Type} `{ObjectLaws O}.

(** The objects by name; their finalizers are never removed, so a deleted object stays,
    marked. *)
Record t := { objects : gmap string O; named n o : objects !! n = Some o → obj_Name o = n }.

Lemma named_insert (k : t) o n o' : <[obj_Name o := o]> (objects k) !! n = Some o' → obj_Name o' = n.
Proof. rewrite lookup_insert. case_decide; [congruence|apply named]. Qed.
Definition put (o : O) (k : t) : t := {| objects := <[obj_Name o := o]> (objects k); named := named_insert k o |}.

Lemma named_empty n (o : O) : (∅ : gmap string O) !! n = Some o → obj_Name o = n.
Proof. by rewrite lookup_empty. Qed.
Definition empty : t := {| objects := ∅; named := named_empty |}.
Definition of_list (l : list O) : t := foldr put empty l.

#[global] Instance ref_kube : KubeAPI O t := {|
  stored := objects;
  kList k := Ok (map_to_list (objects k)).*2;
  kDelete o k :=
    match objects k !! obj_Name o with
    | Some o0 => (put (obj_deleted 0 o0) k, None)
    | None => (k, Some (KubeNotFound (errorf "not found")))
    end;
  kPatch o o' k :=
    match objects k !! obj_Name o' with
    | Some o0 =>
        let o'' := obj_with (merge_patch (obj_Labels o) (obj_Labels o') (obj_Labels o0))
                     (merge_patch (obj_Annotations o) (obj_Annotations o') (obj_Annotations o0)) o0 in
        (put o'' k, Ok o'')
    | None => (k, Err (KubeNotFound (errorf "not found")))
    end;
|}.

#[global] Instance ref_kube_laws : KubeLaws O t.
Proof.
  split; simpl.
  - intros k n o. apply named.
  - intros k l o [= <-]. rewrite list_elem_of_fmap. split.
    + intros ([n o'] & -> & Hin). apply elem_of_map_to_list in Hin. simpl. by rewrite (named _ _ _ Hin).
    + intros Ho. exists (obj_Name o, o). split; [done|]. by apply elem_of_map_to_list.
  - intros o k n Hn. destruct (objects k !! obj_Name o) as [o0|] eqn:E; simpl; [|done].
    rewrite obj_deleted_Name, (named _ _ _ E), lookup_insert_ne; done.
  - intros o k. destruct (objects k !! obj_Name o) as [o0|] eqn:E; simpl; [|by rewrite E].
    intros _. rewrite obj_deleted_Name, (named _ _ _ E), lookup_insert_eq. apply obj_deleted_Deletion.
  - intros o k n o'. destruct (objects k !! obj_Name o) as [o0|] eqn:E; simpl; [|eauto].
    rewrite obj_deleted_Name, (named _ _ _ E), lookup_insert. case_decide; subst; [|eauto].
    intros [= <-]. exists o0. eauto.
  - intros o o' k n Hn. destruct (objects k !! obj_Name o') as [o0|] eqn:E; simpl; [|done].
    rewrite obj_with_Name, (named _ _ _ E), lookup_insert_ne; done.
  - intros o o' k o''. destruct (objects k !! obj_Name o') as [o0|] eqn:E; simpl; [|done].
    intros [= <-]. exists o0. rewrite obj_with_Name, (named _ _ _ E), lookup_insert_eq. by repeat split.
  - intros o o' k e. destruct (objects k !! obj_Name o') eqn:E; simpl; [done|by rewrite ?E].
  - intros o o' k e. destruct (objects k !! obj_Name o') eqn:E; simpl; [done|by rewrite ?E].
Qed.
End ref.
Arguments t : clear implicits.
Arguments t O {_}.

(** A server as a part of a larger one. *)
Section part.
Context {O K1 K : Type} `{ObjectLaws O} `{!KubeAPI O K1} `{!KubeLaws O K1}.
Variables (get : K → K1) (set : K1 → K → K).
Hypothesis get_set : ∀ a k, get (set a k) = a.

Definition part : KubeAPI O K := {|
  stored k := stored O (get k); kList k := kList O (get k);
  kDelete o k := (set (kDelete o (get k)).1 k, (kDelete o (get k)).2);
  kPatch o o' k := (set (kPatch o o' (get k)).1 k, (kPatch o o' (get k)).2);
|}.

Lemma part_laws : @KubeLaws O K _ part.
Proof.
  split; simpl; intros; rewrite ?get_set in *; eauto using stored_Name, kList_current, kDelete_frame,
    kDelete_leaving, kDelete_marks, kPatch_frame, kPatch_Ok, kPatch_Err, kPatch_NotFound.
Qed.
End part.

(** NodeClaims and Nodes in one server. *)
Section two.
Context `{SchedulingTypes}.
Definition server : Type := t NodeClaim * t Node.
#[global] Instance server_claims : KubeAPI NodeClaim server := part fst (λ a k, (a, k.2)).
#[global] Instance server_nodes : KubeAPI Node server := part snd (λ b k, (k.1, b)).
#[global] Instance server_claims_laws : KubeLaws NodeClaim server.
Proof. by apply part_laws. Qed.
#[global] Instance server_nodes_laws : KubeLaws Node server.
Proof. by apply part_laws. Qed.
End two.
End RefKube.
