(* ===== verification/Filters.v ===== *)
(** * [pkg/providers/instance/filter]: the filters of a launch

    Each filter splits a slice of instance types into kept and rejected ones; four of them
    also assign the [Offerings] slice of instance types through their pointers.  The model
    passes the store of instance types explicitly: a filter takes the store and the list of
    pointers and returns the new store with the kept and the rejected pointers, or [None]
    for a panic.  The iteration order of Go maps is that of [map_to_list]. *)
From S2P Require Import Prelude ApiV1 Scheduling.

Definition LabelCapacityReservationType := "karpenter.k8s.aws/capacity-reservation-type".
Definition LabelCapacityReservationInterruptible :=
  "karpenter.k8s.aws/capacity-reservation-interruptible".
Definition LabelInstanceSize := "karpenter.k8s.aws/instance-size".

(** The resources of the exotic filter's loop. *)
Definition exoticResources : list string :=
  [ResourceAWSNeuron; ResourceAWSNeuronCore; ResourceAMDGPU; ResourceNVIDIAGPU;
   ResourceHabanaGaudi].

Abbreviation ptr := positive (only parsing).
Abbreviation store := (gmap positive InstanceType) (only parsing).

Section filters.
Context `{S : Scheduling}.

#[global] Instance InstanceType_inhabited `{Inhabited Requirements} : Inhabited InstanceType :=
  populate {| Name := ""; it_Requirements := inhabitant; Offerings := []; Capacity := ∅ |}.
Context `{Inhabited Requirements}.

(** What a filter returns. *)
Record filtered := { f_store : store; f_kept : list ptr; f_rejected : list ptr }.

(** [it.Offerings = ofs] *)
Definition set_offerings (it : InstanceType) (ofs : list Offering) : InstanceType :=
  {| Name := Name it; it_Requirements := it_Requirements it; Offerings := ofs;
     Capacity := Capacity it |}.

Definition assign_offerings (st : store) (p : ptr) (ofs : list Offering) : store :=
  <[p := set_offerings (st !!! p) ofs]> st.

Definition keep_all (st : store) (its : list ptr) : filtered :=
  {| f_store := st; f_kept := its; f_rejected := [] |}.

Variable requirements : Requirements.

Definition wants_reserved : bool := req_Has (Get requirements CapacityTypeLabelKey) CapacityTypeReserved.

(** ** CompatibleLaunchableFilter *)

Definition launchable_group (requests : ResourceList) (g : AllocatableOfferings) : bool :=
  Fits requests (ao_Allocatable g) &&
  bool_decide (ofs_Compatible (ofs_Launchable (ao_Offerings g)) requirements ≠ []).

Definition compatibleLaunchable (requests : ResourceList) (it : InstanceType) : bool :=
  IsCompatible requirements (it_Requirements it) &&
  existsb (launchable_group requests) (AllocatableOfferingsList it).

Definition compatibleLaunchableFilter (requests : ResourceList) (st : store) (its : list ptr) :
    option filtered :=
  let '(kept, rejected) := FilterReject (λ p, compatibleLaunchable requests (st !!! p)) its in
  Some {| f_store := st; f_kept := kept; f_rejected := rejected |}.

(** ** CapacityReservationTypeFilter *)

(** [capacityReservation]: a reservation type and whether it is interruptible. *)
Definition capacityReservation : Type := string * bool.

Record capacityReservationTypePartition := {
  cheapestPrice : float64;
  instanceTypes : gmap string ptr;
}.

Definition reservation_of (o : Offering) : capacityReservation :=
  (req_Any (Get (off_Requirements o) LabelCapacityReservationType),
   bool_decide (req_Any (Get (off_Requirements o) LabelCapacityReservationInterruptible) = "true")).

Definition is_reserved (o : Offering) : bool := bool_decide (CapacityType o = CapacityTypeReserved).

(** The empty partitions: there are no interruptible capacity blocks. *)
Definition empty_partitions : gmap capacityReservation capacityReservationTypePartition :=
  list_to_map
    ((λ k, (k, {| cheapestPrice := MaxFloat64; instanceTypes := ∅ |})) <$>
     filter (λ k, k ≠ (CapacityReservationTypeCapacityBlock, true))
       (t ← CapacityReservationType_Values; i ← [true; false]; [(t, i)])).

(** One iteration of the loop over launchable compatible offerings. *)
Definition add_offering (p : ptr) (name : string)
    (parts : option (gmap capacityReservation capacityReservationTypePartition)) (o : Offering) :=
  parts ← parts;
  if is_reserved o then
    match parts !! reservation_of o with
    | None => None
    | Some part =>
        Some (<[reservation_of o :=
                  {| cheapestPrice :=
                       if decide (Price o < cheapestPrice part) then Price o else cheapestPrice part;
                     instanceTypes := <[name := p]> (instanceTypes part) |}]> parts)
    end
  else Some parts.

Definition Partition (st : store) (its : list ptr) :
    option (gmap capacityReservation capacityReservationTypePartition) :=
  foldl (λ parts p,
           foldl (add_offering p (Name (st !!! p))) parts
             (ofs_Launchable (ofs_Compatible (Offerings (st !!! p)) requirements)))
    (Some empty_partitions) its.

(** The priorities that break ties between equal prices; a missing key reads as 0. *)
Definition priorities (k : capacityReservation) : Z :=
  if decide (k = (CapacityReservationTypeDefault, false)) then 0
  else if decide (k = (CapacityReservationTypeCapacityBlock, false)) then 1
  else if decide (k = (CapacityReservationTypeDefault, true)) then 2 else 0.

Definition partition_less (i j : capacityReservation * capacityReservationTypePartition) : bool :=
  if decide (cheapestPrice i.2 ≠ cheapestPrice j.2)
  then bool_decide (cheapestPrice i.2 < cheapestPrice j.2)
  else bool_decide (priorities i.1 < priorities j.1).

(** [lo.MinBy]: the first minimum of a slice. *)
Definition MinBy {A} (less : A → A → bool) (l : list A) : option A :=
  match l with
  | [] => None
  | x :: l' => Some (foldl (λ m y, if less y m then y else m) x l')
  end.

Definition in_partition (k : capacityReservation) (o : Offering) : bool :=
  is_reserved o && bool_decide (reservation_of o = k).

Definition capacityReservationTypeFilter (st : store) (its : list ptr) : option filtered :=
  if negb wants_reserved then Some (keep_all st its)
  else
    parts ← Partition st its;
    '(k, selected) ← MinBy partition_less (map_to_list parts);
    if decide (instanceTypes selected = ∅) then Some (keep_all st its)
    else
      let kept := snd <$> map_to_list (instanceTypes selected) in
      let st' := foldl (λ st p, assign_offerings st p
                          (filter (λ o, in_partition k o = true) (Offerings (st !!! p)))) st kept in
      Some {| f_store := st'; f_kept := kept;
              f_rejected := filter (λ p, instanceTypes selected !! Name (st' !!! p) = None) its |}.

(** ** CapacityBlockFilter *)

(** [shouldFilter]: the first offering with a reservation type decides. *)
Definition shouldFilter (st : store) (its : list ptr) : bool :=
  wants_reserved &&
  match Find (λ o, HasKey (off_Requirements o) LabelCapacityReservationType)
          (p ← its; Offerings (st !!! p)) with
  | Some o => bool_decide ((reservation_of o).1 = CapacityReservationTypeCapacityBlock)
  | None => false
  end.

(** The offerings a capacity block launch may use. *)
Definition block_candidate (o : Offering) : bool :=
  is_reserved o && Launchable o && IsCompatible requirements (off_Requirements o) &&
  bool_decide ((reservation_of o).1 = CapacityReservationTypeCapacityBlock).

Definition cheapest_block (ofs : list Offering) : option Offering :=
  foldl (λ sel o,
           if block_candidate o then
             match sel with
             | None => Some o
             | Some s => if decide (Price o < Price s) then Some o else sel
             end
           else sel) None ofs.

(** One iteration of the loop over instance types: the store and the selected pointer. *)
Definition select_block (acc : store * option ptr) (p : ptr) : option (store * option ptr) :=
  let '(st, sel) := acc in
  match cheapest_block (Offerings (st !!! p)) with
  | None => Some acc
  | Some o =>
      match sel with
      | None => Some (assign_offerings st p [o], Some p)
      | Some s =>
          match Offerings (st !!! s) with
          | [] => None
          | o0 :: _ =>
              if decide (Price o < Price o0) then Some (assign_offerings st p [o], Some p)
              else Some acc
          end
      end
  end.

Definition capacityBlockFilter (st : store) (its : list ptr) : option filtered :=
  if negb (shouldFilter st its) then Some (keep_all st its)
  else
    '(st', sel) ← foldl (λ acc p, acc ← acc; select_block acc p) (Some (st, None)) its;
    match sel with
    | None => Some (keep_all st' its)
    | Some s =>
        Some {| f_store := st'; f_kept := [s];
                f_rejected := filter (λ p, Name (st' !!! p) ≠ Name (st' !!! s)) its |}
    end.

(** ** ReservedOfferingFilter *)

Definition reserved_candidate (o : Offering) : bool :=
  Available o && IsCompatible requirements (off_Requirements o) && is_reserved o &&
  bool_decide (ReservationCapacity o ≠ 0).

Definition zonal_add (zonal : gmap string Offering) (o : Offering) : gmap string Offering :=
  if negb (is_reserved o) then zonal
  else if decide (ReservationCapacity o = 0) then zonal
  else match zonal !! Zone o with
       | None => <[Zone o := o]> zonal
       | Some current =>
           if decide (ReservationCapacity current < ReservationCapacity o)
           then <[Zone o := o]> zonal else zonal
       end.

Definition zonalOfferings (ofs : list Offering) : gmap string Offering :=
  foldl zonal_add ∅ (ofs_Compatible (ofs_Available ofs) requirements).

Definition reserve_one (acc : filtered) (p : ptr) : filtered :=
  let zonal := zonalOfferings (Offerings (f_store acc !!! p)) in
  if decide (zonal = ∅) then
    {| f_store := f_store acc; f_kept := f_kept acc; f_rejected := f_rejected acc ++ [p] |}
  else
    {| f_store := assign_offerings (f_store acc) p (snd <$> map_to_list zonal);
       f_kept := f_kept acc ++ [p]; f_rejected := f_rejected acc |}.

Definition reservedOfferingFilter (st : store) (its : list ptr) : option filtered :=
  if negb wants_reserved then Some (keep_all st its)
  else
    let r := foldl reserve_one {| f_store := st; f_kept := []; f_rejected := [] |} its in
    if decide (f_kept r = []) then Some (keep_all (f_store r) its) else Some r.

(** ** ExoticInstanceTypeFilter *)

Definition generic (it : InstanceType) : bool :=
  negb (existsb (λ size, Contains size "metal") (req_Values (Get (it_Requirements it) LabelInstanceSize)))
  && forallb (IsZero (Capacity it)) exoticResources.

Definition exoticInstanceFilter (st : store) (its : list ptr) : option filtered :=
  if HasMinValues requirements then Some (keep_all st its)
  else
    let '(genericTypes, exoticTypes) := FilterReject (λ p, generic (st !!! p)) its in
    if decide (genericTypes = []) then Some (keep_all st its)
    else Some {| f_store := st; f_kept := genericTypes; f_rejected := exoticTypes |}.

(** ** SpotOfferingFilter *)

Definition isOnDemandClass (capacityType : string) : bool :=
  bool_decide (CapacityTypeClassOf capacityType = Some ClassOnDemand).

Definition offering_capacity_type (o : Offering) : string :=
  req_Any (Get (off_Requirements o) CapacityTypeLabelKey).

(** The price scan: the cheapest on-demand price, and whether on-demand and spot offerings
    were seen. *)
Record scan := { cheapestOnDemand : float64; hasSpotOfferings : bool; hasODOfferings : bool }.

Definition scan_offering (s : scan) (o : Offering) : scan :=
  let ct := offering_capacity_type o in
  if isOnDemandClass ct then
    {| cheapestOnDemand :=
         if decide (Price o < cheapestOnDemand s) then Price o else cheapestOnDemand s;
       hasSpotOfferings := hasSpotOfferings s; hasODOfferings := true |}
  else if decide (ct = CapacityTypeSpot) then
    {| cheapestOnDemand := cheapestOnDemand s; hasSpotOfferings := true;
       hasODOfferings := hasODOfferings s |}
  else s.

Definition scan_all (st : store) (its : list ptr) : scan :=
  foldl (λ s p, foldl scan_offering s
                  (ofs_Available (ofs_Compatible (Offerings (st !!! p)) requirements)))
    {| cheapestOnDemand := MaxFloat64; hasSpotOfferings := false; hasODOfferings := false |} its.

(** [false] for a spot offering above the cheapest on-demand price. *)
Definition affordable (cheapest : float64) (o : Offering) : bool :=
  negb (bool_decide (CapacityType o = CapacityTypeSpot) && bool_decide (cheapest < Price o)).

Definition spot_one (cheapest : float64) (acc : store * list ptr) (p : ptr) : store * list ptr :=
  let '(st, remaining) := acc in
  let filteredOfferings := filter (λ o, affordable cheapest o = true) (Offerings (st !!! p)) in
  if decide (filteredOfferings = []) then acc
  else (assign_offerings st p filteredOfferings, remaining ++ [p]).

Definition spotOfferingFilter (st : store) (its : list ptr) : option filtered :=
  if HasMinValues requirements then Some (keep_all st its)
  else
    let req := Get requirements CapacityTypeLabelKey in
    if negb (HasOnDemandClass req) || negb (req_Has req CapacityTypeSpot) then Some (keep_all st its)
    else
      let s := scan_all st its in
      if negb (hasODOfferings s) || negb (hasSpotOfferings s) then Some (keep_all st its)
      else
        let '(st', remaining) := foldl (spot_one (cheapestOnDemand s)) (st, []) its in
        Some {| f_store := st'; f_kept := remaining;
                f_rejected := filter (λ p, p ∉ remaining) its |}.

(** ** The filters as one type *)

(** The filters of a launch, with the resource requests of the first. *)
Inductive Filter :=
  | CompatibleLaunchableFilter (requests : ResourceList)
  | CapacityReservationTypeFilter
  | CapacityBlockFilter
  | ReservedOfferingFilter
  | ExoticInstanceTypeFilter
  | SpotOfferingFilter.

Definition runFilter (f : Filter) : store → list ptr → option filtered :=
  match f with
  | CompatibleLaunchableFilter requests => compatibleLaunchableFilter requests
  | CapacityReservationTypeFilter => capacityReservationTypeFilter
  | CapacityBlockFilter => capacityBlockFilter
  | ReservedOfferingFilter => reservedOfferingFilter
  | ExoticInstanceTypeFilter => exoticInstanceFilter
  | SpotOfferingFilter => spotOfferingFilter
  end.

Context {SL : SchedulingLaws S}.

(** ** Narrowing *)

(** [it'] is [it] with fewer offerings. *)
Definition narrowed (it it' : InstanceType) : Prop :=
  it' = set_offerings it (Offerings it') ∧ Offerings it' ⊆+ Offerings it.

Definition store_le (st st' : store) : Prop := ∀ p, narrowed (st !!! p) (st' !!! p).

Lemma set_offerings_eta it : it = set_offerings it (Offerings it).
Proof. by destruct it. Qed.

#[export] Instance narrowed_preorder : PreOrder narrowed.
Proof.
  split; [intros it; split; [apply set_offerings_eta|done]|].
  intros a b c [-> ?] [-> ?]. split; [done|]. by etrans.
Qed.

#[export] Instance store_le_preorder : PreOrder store_le.
Proof. split; [intros st p; reflexivity|]. intros a b c Hab Hbc p. etrans; [apply Hab|apply Hbc]. Qed.

Lemma store_le_name st st' p : store_le st st' → Name (st' !!! p) = Name (st !!! p).
Proof. intros Hle. destruct (Hle p) as [-> _]. done. Qed.

Lemma lookup_assign st p ofs q :
  assign_offerings st p ofs !!! q =
  if decide (p = q) then set_offerings (st !!! p) ofs else st !!! q.
Proof.
  unfold assign_offerings. case_decide as Hpq.
  - subst. apply lookup_total_insert_eq.
  - by apply lookup_total_insert_ne.
Qed.

Lemma assign_le st p ofs : ofs ⊆+ Offerings (st !!! p) → store_le st (assign_offerings st p ofs).
Proof.
  intros Hsub q. rewrite lookup_assign. case_decide as Hpq; [|done]. subst. by split.
Qed.

(** The invariant of a slice of instance types: distinct pointers with distinct names. *)
Definition distinct (st : store) (its : list ptr) : Prop :=
  NoDup its ∧ NoDup ((λ p, Name (st !!! p)) <$> its).

Lemma distinct_inj st its p q :
  distinct st its → p ∈ its → q ∈ its → Name (st !!! p) = Name (st !!! q) → p = q.
Proof.
  intros [_ Hnd] (i & Hi)%list_elem_of_lookup (j & Hj)%list_elem_of_lookup Heq.
  assert (i = j) as ->; [|congruence].
  eapply (NoDup_lookup _ i j); [exact Hnd|..]; rewrite list_lookup_fmap.
  - rewrite Hi. simpl. done.
  - rewrite Hj. simpl. by rewrite Heq.
Qed.

Lemma distinct_names st st' its : store_le st st' → distinct st its → distinct st' its.
Proof.
  intros Hle [? Hnd]. split; [done|]. erewrite list_fmap_ext; [exact Hnd|].
  intros. simpl. by apply store_le_name.
Qed.

Lemma distinct_perm st its kept rejected :
  its ≡ₚ kept ++ rejected → distinct st its → distinct st kept.
Proof.
  intros Hp [H1 H2]. rewrite Hp in H1. rewrite Hp, fmap_app in H2. split.
  - by apply NoDup_app in H1 as [? _].
  - by apply NoDup_app in H2 as [? _].
Qed.

(** What every filter does: split the slice and narrow offerings of instance types. *)
Record narrows (st : store) (its : list ptr) (r : filtered) : Prop := {
  nar_perm : its ≡ₚ f_kept r ++ f_rejected r;
  nar_store : store_le st (f_store r);
}.

Lemma keep_all_narrows st st' its : store_le st st' → narrows st its (keep_all st' its).
Proof. split; simpl; [by rewrite app_nil_r|done]. Qed.

(** *** Narrowing each instance type of a slice by one function *)

Definition narrow_one (g : list Offering → list Offering) (acc : filtered) (p : ptr) : filtered :=
  let ofs := g (Offerings (f_store acc !!! p)) in
  if decide (ofs = []) then
    {| f_store := f_store acc; f_kept := f_kept acc; f_rejected := f_rejected acc ++ [p] |}
  else
    {| f_store := assign_offerings (f_store acc) p ofs; f_kept := f_kept acc ++ [p];
       f_rejected := f_rejected acc |}.

Definition narrow_all (g : list Offering → list Offering) (st : store) (its : list ptr) : filtered :=
  foldl (narrow_one g) {| f_store := st; f_kept := []; f_rejected := [] |} its.

Definition nonempty (g : list Offering → list Offering) (st : store) (p : ptr) : bool :=
  bool_decide (g (Offerings (st !!! p)) ≠ []).

Lemma narrow_all_spec g st its :
  NoDup its →
  f_kept (narrow_all g st its) = filter (λ p, nonempty g st p = true) its ∧
  f_rejected (narrow_all g st its) = filter (λ p, nonempty g st p = false) its ∧
  ∀ p, f_store (narrow_all g st its) !!! p =
    if decide (p ∈ its ∧ nonempty g st p = true)
    then set_offerings (st !!! p) (g (Offerings (st !!! p))) else st !!! p.
Proof.
  induction its as [|x its IH] using rev_ind.
  - intros _. split; [done|]. split; [done|]. intros p. rewrite decide_False; [done|].
    by intros [?%elem_of_nil _].
  - intros (Hnd & Hni & _)%NoDup_app. destruct (IH Hnd) as (IHk & IHr & IHs).
    assert (f_store (narrow_all g st its) !!! x = st !!! x) as Hx.
    { rewrite IHs, decide_False; [done|]. intros [Hx _]. by apply (Hni _ Hx), list_elem_of_singleton. }
    unfold narrow_all in *. rewrite foldl_snoc. unfold narrow_one at 1 3 5. rewrite Hx.
    rewrite !filter_app, !filter_cons, !filter_nil.
    case_decide as Hg; simpl; rewrite IHk, IHr.
    + assert (nonempty g st x = false) as E by by apply bool_decide_eq_false; intros []; done.
      rewrite E. simpl. split; [by rewrite app_nil_r|]. split; [done|]. intros p. rewrite IHs.
      destruct (decide (p = x)) as [->|].
      * rewrite !decide_False by (rewrite E; naive_solver). done.
      * erewrite decide_ext; [done|]. rewrite elem_of_app, list_elem_of_singleton. naive_solver.
    + assert (nonempty g st x = true) as E by by apply bool_decide_eq_true.
      rewrite E. simpl. split; [done|]. split; [by rewrite app_nil_r|]. intros p.
      rewrite lookup_assign. case_decide as Hxp.
      * subst p. rewrite Hx, decide_True; [done|]. split; [|done].
        apply elem_of_app. right. by left.
      * rewrite IHs. erewrite decide_ext; [done|].
        rewrite elem_of_app, list_elem_of_singleton. naive_solver.
Qed.

Lemma narrow_all_narrows g st its :
  (∀ ofs, g ofs ⊆+ ofs) → NoDup its → narrows st its (narrow_all g st its).
Proof.
  intros Hg Hnd. destruct (narrow_all_spec g st its Hnd) as (Hk & Hr & Hs). split.
  - rewrite Hk, Hr. apply (FilterReject_perm (nonempty g st)).
  - intros p. rewrite Hs. case_decide; [|done]. split; [done|]. apply Hg.
Qed.

(** *** The spot filter *)

Lemma spot_fold c st its :
  foldl (spot_one c) (st, []) its =
  (f_store (narrow_all (filter (λ o, affordable c o = true)) st its),
   f_kept (narrow_all (filter (λ o, affordable c o = true)) st its)).
Proof.
  unfold narrow_all. induction its as [|x its IH] using rev_ind; [done|].
  rewrite !foldl_snoc, IH. unfold spot_one, narrow_one. simpl. by case_decide.
Qed.

Lemma filter_sub {A} (P : A → Prop) `{∀ x, Decision (P x)} (l : list A) : filter P l ⊆+ l.
Proof. apply sublist_submseteq, sublist_filter. Qed.

Lemma filter_not_in (P : ptr → bool) (its : list ptr) :
  filter (λ p, p ∉ filter (λ p, P p = true) its) its = filter (λ p, P p = false) its.
Proof.
  apply filter_ext_in. intros p Hp. rewrite list_elem_of_filter.
  destruct (P p); naive_solver.
Qed.

Lemma spot_narrows st its r :
  NoDup its → spotOfferingFilter st its = Some r → narrows st its r.
Proof.
  intros Hnd. unfold spotOfferingFilter.
  destruct (HasMinValues _); [intros [= <-]; by apply keep_all_narrows|].
  destruct (negb _ || negb _); [intros [= <-]; by apply keep_all_narrows|].
  destruct (negb _ || negb _); [intros [= <-]; by apply keep_all_narrows|].
  set (c := cheapestOnDemand _). rewrite spot_fold. intros [= <-].
  set (g := filter (λ o, affordable c o = true)).
  destruct (narrow_all_narrows g st its) as [Hp Hs]; [intros ofs; apply filter_sub|done|].
  destruct (narrow_all_spec g st its Hnd) as (Hk & Hr & _).
  split; simpl; [|done]. by rewrite Hk, filter_not_in, <- Hr, <- Hk.
Qed.

(** What the price scan finds: a bound on every on-demand price, attained if one is below
    [MaxFloat64], and whether the two kinds were seen. *)
Record scanned (os : list Offering) (s : scan) : Prop := {
  sc_le : ∀ o, o ∈ os → isOnDemandClass (offering_capacity_type o) = true →
            cheapestOnDemand s ≤ Price o;
  sc_od : hasODOfferings s = true ↔
            ∃ o, o ∈ os ∧ isOnDemandClass (offering_capacity_type o) = true;
  sc_spot : hasSpotOfferings s = true ↔
            ∃ o, o ∈ os ∧ isOnDemandClass (offering_capacity_type o) = false ∧
                 offering_capacity_type o = CapacityTypeSpot;
  sc_attained : cheapestOnDemand s = MaxFloat64 ∨
    ∃ o, o ∈ os ∧ isOnDemandClass (offering_capacity_type o) = true ∧ cheapestOnDemand s = Price o;
}.

Definition scan_list (os : list Offering) : scan :=
  foldl scan_offering
    {| cheapestOnDemand := MaxFloat64; hasSpotOfferings := false; hasODOfferings := false |} os.

Lemma elem_of_snoc_ex {A} (P : A → Prop) (l : list A) x :
  (∃ y, y ∈ l ++ [x] ∧ P y) ↔ (∃ y, y ∈ l ∧ P y) ∨ P x.
Proof.
  split.
  - intros (y & [Hy| ->%list_elem_of_singleton]%elem_of_app & HP); [left; by exists y|by right].
  - intros [(y & Hy & HP)|HP].
    + exists y. split; [by apply elem_of_app; left|done].
    + exists x. split; [apply elem_of_app; right; by left|done].
Qed.

Lemma scanned_on_demand os s o :
  scanned os s → isOnDemandClass (offering_capacity_type o) = true →
  scanned (os ++ [o]) (scan_offering s o).
Proof.
  intros [H1 H2 H3 H4] E. unfold scan_offering. rewrite E. split; simpl; rewrite ?elem_of_snoc_ex.
  - intros o' [Ho| ->%list_elem_of_singleton]%elem_of_app Hc; [specialize (H1 o' Ho Hc)|];
      case_decide; lia.
  - tauto.
  - rewrite H3. intuition congruence.
  - case_decide; [by auto|]. tauto.
Qed.

Lemma scanned_other os s o :
  scanned os s → isOnDemandClass (offering_capacity_type o) = false →
  scanned (os ++ [o]) (scan_offering s o).
Proof.
  intros [H1 H2 H3 H4] E. unfold scan_offering. rewrite E.
  assert (∀ o', o' ∈ os ++ [o] → isOnDemandClass (offering_capacity_type o') = true → o' ∈ os) as Hin.
  { intros o' [?| ->%list_elem_of_singleton]%elem_of_app ?; [done|congruence]. }
  case_decide; split; simpl; rewrite ?elem_of_snoc_ex; eauto; rewrite ?H2, ?H3; intuition congruence.
Qed.

Lemma scan_list_spec os : scanned os (scan_list os).
Proof.
  induction os as [|o os IH] using rev_ind.
  - split; simpl; [by intros o ?%elem_of_nil|split; [done|]..|by left];
      by intros (o & ?%elem_of_nil & _).
  - unfold scan_list in *. rewrite foldl_snoc.
    destruct (isOnDemandClass (offering_capacity_type o)) eqn:E;
      [by apply scanned_on_demand|by apply scanned_other].
Qed.

Lemma foldl_bind {A B C} (f : C → B → C) (g : A → list B) (c : C) (l : list A) :
  foldl (λ c a, foldl f c (g a)) c l = foldl f c (l ≫= g).
Proof.
  revert c. induction l as [|a l IH]; intros c; [done|].
  rewrite bind_cons, foldl_app. simpl. apply IH.
Qed.

Definition scanned_offerings (st : store) (its : list ptr) : list Offering :=
  p ← its; ofs_Available (ofs_Compatible (Offerings (st !!! p)) requirements).

Lemma scan_all_list st its : scan_all st its = scan_list (scanned_offerings st its).
Proof. unfold scan_all, scan_list, scanned_offerings. apply foldl_bind. Qed.

(** *** The reserved offering filter *)

Definition zonal_list (ofs : list Offering) : list Offering :=
  snd <$> map_to_list (zonalOfferings ofs).

Lemma zonal_list_nil ofs : zonal_list ofs = [] ↔ zonalOfferings ofs = ∅.
Proof.
  unfold zonal_list. split.
  - intros Hf%fmap_nil_inv. by apply map_to_list_empty_iff.
  - intros ->. by rewrite map_to_list_empty.
Qed.

Lemma reserve_fold st its :
  foldl reserve_one {| f_store := st; f_kept := []; f_rejected := [] |} its
  = narrow_all zonal_list st its.
Proof.
  unfold narrow_all. induction its as [|x its IH] using rev_ind; [done|].
  rewrite !foldl_snoc, IH. unfold reserve_one, narrow_one.
  destruct (decide (zonalOfferings _ = ∅)) as [Hz|Hz].
  - rewrite decide_True; [done|]. by apply zonal_list_nil.
  - rewrite decide_False; [done|]. by rewrite zonal_list_nil.
Qed.

(** What the zone map holds: per zone, a candidate with the greatest capacity. *)
Definition zonal_ok (os : list Offering) (m : gmap string Offering) : Prop :=
  ∀ z, match m !! z with
       | Some o => (o ∈ os ∧ is_reserved o = true ∧ ReservationCapacity o ≠ 0 ∧ Zone o = z) ∧
                   ∀ o', o' ∈ os → is_reserved o' = true → ReservationCapacity o' ≠ 0 → Zone o' = z →
                     ReservationCapacity o' ≤ ReservationCapacity o
       | None => ∀ o', o' ∈ os → is_reserved o' = true → ReservationCapacity o' ≠ 0 → Zone o' ≠ z
       end.

Lemma zonal_ok_skip os m x :
  zonal_ok os m → is_reserved x = false ∨ ReservationCapacity x = 0 → zonal_ok (os ++ [x]) m.
Proof.
  intros Hok Hx z. specialize (Hok z).
  assert (∀ o', o' ∈ os ++ [x] → is_reserved o' = true → ReservationCapacity o' ≠ 0 → o' ∈ os) as Hin.
  { intros o' [?| ->%list_elem_of_singleton]%elem_of_app ? ?; [done|]. destruct Hx; congruence. }
  destruct (m !! z) as [o|].
  - destruct Hok as [(? & ? & ? & ?) Hmax]. split; [split; [by apply elem_of_app; left|done]|].
    intros o' ? ? ?. by apply Hmax; [apply Hin|..].
  - intros o' ? ? ?. by apply Hok; [apply Hin|..].
Qed.

Lemma zonal_ok_insert os m x :
  zonal_ok os m → is_reserved x = true → ReservationCapacity x ≠ 0 →
  (∀ o, m !! Zone x = Some o → ReservationCapacity o ≤ ReservationCapacity x) →
  zonal_ok (os ++ [x]) (<[Zone x := x]> m).
Proof.
  intros Hok Hr Hc Hle z. destruct (decide (Zone x = z)) as [<-|Hne].
  - rewrite lookup_insert_eq. split; [by split; [apply elem_of_app; right; left|]|].
    intros o' [Ho'| ->%list_elem_of_singleton]%elem_of_app Hr' Hc' Hz; [|done].
    specialize (Hok (Zone x)). destruct (m !! Zone x) as [o|] eqn:E.
    + destruct Hok as [_ Hmax]. specialize (Hmax o' Ho' Hr' Hc' Hz). specialize (Hle o eq_refl). lia.
    + by destruct (Hok o' Ho' Hr' Hc').
  - rewrite lookup_insert_ne by done. specialize (Hok z).
    assert (∀ o', o' ∈ os ++ [x] → Zone o' = z → o' ∈ os) as Hin.
    { intros o' [?| ->%list_elem_of_singleton]%elem_of_app ?; [done|congruence]. }
    destruct (m !! z) as [o|].
    + destruct Hok as [(? & ? & ? & ?) Hmax]. split; [split; [by apply elem_of_app; left|done]|].
      intros o' ? ? ? ?. by apply Hmax; [apply Hin|..].
    + intros o' ? ? ? ?. by apply (Hok o'); [apply Hin|..].
Qed.

Lemma zonal_ok_dominated os m x o :
  zonal_ok os m → m !! Zone x = Some o → ReservationCapacity x ≤ ReservationCapacity o →
  zonal_ok (os ++ [x]) m.
Proof.
  intros Hok Ho Hle z. specialize (Hok z). destruct (m !! z) as [o1|] eqn:E.
  - destruct Hok as [(? & ? & ? & ?) Hmax]. split; [split; [by apply elem_of_app; left|done]|].
    intros o' [?| ->%list_elem_of_singleton]%elem_of_app ? ? Hz; [by apply Hmax|]. congruence.
  - intros o' [?| ->%list_elem_of_singleton]%elem_of_app ? ? Hz; [by apply (Hok o')|]. congruence.
Qed.

Lemma zonal_fold os : zonal_ok os (foldl zonal_add ∅ os).
Proof.
  induction os as [|x os IH] using rev_ind.
  - intros z. simpl. rewrite lookup_empty. by intros o' ?%elem_of_nil.
  - rewrite foldl_snoc. unfold zonal_add at 1.
    destruct (is_reserved x) eqn:Hr; simpl; [|by apply zonal_ok_skip; auto].
    case_decide as Hc; [by apply zonal_ok_skip; auto|].
    destruct (foldl zonal_add ∅ os !! Zone x) as [o|] eqn:E.
    + case_decide.
      * apply zonal_ok_insert; [done..|]. intros ? ?. simplify_eq. lia.
      * eapply zonal_ok_dominated; [done..|lia].
    + apply zonal_ok_insert; [done..|]. congruence.
Qed.

Lemma zonal_candidates os o :
  o ∈ ofs_Compatible (ofs_Available os) requirements ∧ is_reserved o = true ∧
    ReservationCapacity o ≠ 0 ↔ o ∈ os ∧ reserved_candidate o = true.
Proof.
  rewrite elem_of_Compatible, elem_of_Available. unfold reserved_candidate.
  rewrite !andb_true_iff, bool_decide_eq_true. tauto.
Qed.

(** The offerings a reserved launch keeps: candidates, one per zone, none smaller than
    another candidate of its zone, and one for each zone with a candidate. *)
Record zonal_choice (ofs chosen : list Offering) : Prop := {
  zc_candidate o : o ∈ chosen → o ∈ ofs ∧ reserved_candidate o = true;
  zc_zones : NoDup (Zone <$> chosen);
  zc_greatest o o' : o ∈ chosen → o' ∈ ofs → reserved_candidate o' = true → Zone o' = Zone o →
    ReservationCapacity o' ≤ ReservationCapacity o;
  zc_cover o' : o' ∈ ofs → reserved_candidate o' = true → ∃ o, o ∈ chosen ∧ Zone o = Zone o';
}.

Lemma zonal_list_elem ofs o :
  o ∈ zonal_list ofs ↔ zonalOfferings ofs !! Zone o = Some o.
Proof.
  pose proof (zonal_fold (ofs_Compatible (ofs_Available ofs) requirements)) as Hok.
  unfold zonal_list. rewrite list_elem_of_fmap. split.
  - intros ([z o'] & -> & Hin%elem_of_map_to_list). simpl. specialize (Hok z).
    unfold zonalOfferings in *. rewrite Hin in Hok. by destruct Hok as [(_ & _ & _ & ->) _].
  - intros Ho. exists (Zone o, o). split; [done|]. by apply elem_of_map_to_list.
Qed.

Lemma zonal_list_choice ofs : zonal_choice ofs (zonal_list ofs).
Proof.
  pose proof (zonal_fold (ofs_Compatible (ofs_Available ofs) requirements)) as Hok.
  split.
  - intros o Ho%zonal_list_elem. apply zonal_candidates. specialize (Hok (Zone o)).
    unfold zonalOfferings in Ho. rewrite Ho in Hok. tauto.
  - assert (Zone <$> zonal_list ofs = fst <$> map_to_list (zonalOfferings ofs)) as ->;
      [|apply NoDup_fst_map_to_list].
    unfold zonal_list. rewrite <- list_fmap_compose. apply list_fmap_ext. intros i [z o] Hi. simpl.
    apply list_elem_of_lookup_2, elem_of_map_to_list in Hi. specialize (Hok z).
    unfold zonalOfferings in Hi. rewrite Hi in Hok. by destruct Hok as [(_ & _ & _ & ->) _].
  - intros o o' Ho%zonal_list_elem Hin Hcand Hz. specialize (Hok (Zone o)).
    unfold zonalOfferings in Ho. rewrite Ho in Hok. destruct Hok as [_ Hmax].
    destruct (proj2 (zonal_candidates ofs o') (conj Hin Hcand)) as (? & ? & ?). by apply Hmax.
  - intros o' Hin Hcand. destruct (proj2 (zonal_candidates ofs o') (conj Hin Hcand)) as (? & ? & ?).
    specialize (Hok (Zone o')). destruct (foldl _ _ _ !! Zone o') as [o|] eqn:E.
    + destruct Hok as [(? & ? & ? & Hz) _]. exists o. split; [|done].
      apply zonal_list_elem. by rewrite Hz.
    + by destruct (Hok o').
Qed.

Lemma zonal_list_sub ofs : zonal_list ofs ⊆+ ofs.
Proof.
  destruct (zonal_list_choice ofs) as [Hcand Hzones _ _]. apply NoDup_submseteq.
  - by eapply NoDup_fmap_1.
  - intros o Ho. by apply Hcand in Ho as [? _].
Qed.

Lemma reserved_narrows st its r :
  NoDup its → reservedOfferingFilter st its = Some r → narrows st its r.
Proof.
  intros Hnd. unfold reservedOfferingFilter.
  destruct (negb _); [intros [= <-]; by apply keep_all_narrows|].
  rewrite reserve_fold. destruct (narrow_all_narrows zonal_list st its zonal_list_sub Hnd) as [? ?].
  case_decide; intros [= <-]; [by apply keep_all_narrows|done].
Qed.

(** *** The capacity block filter *)

Definition block_ok (ofs : list Offering) (sel : option Offering) : Prop :=
  match sel with
  | Some o => o ∈ ofs ∧ block_candidate o = true ∧
              ∀ o', o' ∈ ofs → block_candidate o' = true → Price o ≤ Price o'
  | None => ∀ o', o' ∈ ofs → block_candidate o' = false
  end.

Lemma cheapest_block_ok ofs : block_ok ofs (cheapest_block ofs).
Proof.
  unfold cheapest_block. induction ofs as [|x ofs IH] using rev_ind.
  - by intros o' ?%elem_of_nil.
  - rewrite foldl_snoc. destruct (block_candidate x) eqn:E.
    + destruct (foldl _ None ofs) as [s|]; [case_decide|]; simpl in IH |- *; rewrite ?elem_of_app.
      * split; [right; by left|]. split; [done|].
        intros o' [Ho'| ->%list_elem_of_singleton]%elem_of_app ?; [|done].
        destruct IH as (_ & _ & IH). specialize (IH o' Ho'). lia || (specialize (IH ltac:(done)); lia).
      * destruct IH as (? & ? & IH). split; [by left|]. split; [done|].
        intros o' [Ho'| ->%list_elem_of_singleton]%elem_of_app ?; [by apply IH|lia].
      * split; [right; by left|]. split; [done|].
        intros o' [Ho'| ->%list_elem_of_singleton]%elem_of_app ?; [|done].
        specialize (IH o' Ho'). congruence.
    + destruct (foldl _ None ofs) as [s|]; simpl in IH |- *; rewrite ?elem_of_app.
      * destruct IH as (? & ? & IH). split; [by left|]. split; [done|].
        intros o' [Ho'| ->%list_elem_of_singleton]%elem_of_app ?; [by apply IH|congruence].
      * intros o' [Ho'| ->%list_elem_of_singleton]%elem_of_app; [by apply IH|done].
Qed.

(** The loop over instance types, on the prefix [done_] it has visited. *)
Record selecting (st : store) (done_ : list ptr) (st' : store) (sel : option ptr) : Prop := {
  se_le : store_le st st';
  se_rest p : p ∉ done_ → st' !!! p = st !!! p;
  se_none : sel = None → st' = st ∧
    ∀ p o, p ∈ done_ → o ∈ Offerings (st !!! p) → block_candidate o = false;
  se_some s : sel = Some s → s ∈ done_ ∧
    ∃ o, Offerings (st' !!! s) = [o] ∧ o ∈ Offerings (st !!! s) ∧ block_candidate o = true ∧
      ∀ p o', p ∈ done_ → o' ∈ Offerings (st !!! p) → block_candidate o' = true → Price o ≤ Price o';
}.

Lemma selecting_replace st done_ st' sel p o :
  selecting st done_ st' sel → p ∉ done_ → block_ok (Offerings (st !!! p)) (Some o) →
  (∀ s o0, sel = Some s → Offerings (st' !!! s) = [o0] → Price o < Price o0) →
  selecting st (done_ ++ [p]) (assign_offerings st' p [o]) (Some p).
Proof.
  intros [Hle Hrest Hnone Hsome] Hp (Hin & Hc & Hmin) Hlt. split.
  - etrans; [by apply Hle|]. apply assign_le. rewrite Hrest by done.
    by apply singleton_submseteq_l.
  - intros q Hq. rewrite lookup_assign, decide_False.
    + apply Hrest. intros ?. apply Hq, elem_of_app. by left.
    + intros ->. apply Hq, elem_of_app. right. by left.
  - done.
  - intros ? [= <-]. split; [apply elem_of_app; right; by left|]. exists o.
    rewrite lookup_assign, decide_True by done. split; [done|]. split; [done|]. split; [done|].
    intros q o' [Hq| ->%list_elem_of_singleton]%elem_of_app Ho' Hc'; [|by apply Hmin].
    destruct sel as [s|].
    + destruct (Hsome s eq_refl) as (_ & o0 & Ho0 & _ & _ & Hall).
      specialize (Hlt s o0 eq_refl Ho0). specialize (Hall q o' Hq Ho' Hc'). lia.
    + destruct (Hnone eq_refl) as [_ Hall]. specialize (Hall q o' Hq Ho'). congruence.
Qed.

Lemma selecting_keep st done_ st' sel p :
  selecting st done_ st' sel → p ∉ done_ →
  (∀ o', o' ∈ Offerings (st !!! p) → block_candidate o' = true →
     ∃ s o0, sel = Some s ∧ Offerings (st' !!! s) = [o0] ∧ Price o0 ≤ Price o') →
  selecting st (done_ ++ [p]) st' sel.
Proof.
  intros [Hle Hrest Hnone Hsome] Hp Hge. split; [done|..].
  - intros q Hq. apply Hrest. intros ?. apply Hq, elem_of_app. by left.
  - intros ->. destruct (Hnone eq_refl) as [-> Hall]. split; [done|].
    intros q o' [Hq| ->%list_elem_of_singleton]%elem_of_app Ho'; [by eapply Hall|].
    destruct (block_candidate o') eqn:E; [|done]. by destruct (Hge o' Ho' E) as (? & ? & ? & _).
  - intros s ->. destruct (Hsome s eq_refl) as (Hs & o1 & Ho1 & ? & ? & Hall).
    split; [by apply elem_of_app; left|]. exists o1. split; [done|]. split; [done|]. split; [done|].
    intros q o' [Hq| ->%list_elem_of_singleton]%elem_of_app Ho' Hc'; [by eapply Hall|].
    destruct (Hge o' Ho' Hc') as (s' & o0 & ? & Ho0 & ?). simplify_eq. rewrite Ho0 in Ho1.
    by simplify_eq.
Qed.

Lemma select_block_step st done_ st' sel p :
  selecting st done_ st' sel → p ∉ done_ →
  ∃ st'' sel', select_block (st', sel) p = Some (st'', sel') ∧
    selecting st (done_ ++ [p]) st'' sel'.
Proof.
  intros Hse Hp. unfold select_block. rewrite (se_rest _ _ _ _ Hse p Hp).
  pose proof (cheapest_block_ok (Offerings (st !!! p))) as Hb.
  destruct (cheapest_block _) as [o|].
  - destruct sel as [s|].
    + destruct (se_some _ _ _ _ Hse s eq_refl) as (Hs & o0 & Ho0 & _). rewrite Ho0.
      case_decide; eexists _, _; (split; [done|]).
      * apply (selecting_replace _ _ _ (Some s)); [done..|]. intros ? ? [= <-] ?. congruence.
      * apply selecting_keep; [done..|]. intros o' Ho' Hc'. exists s, o0.
        destruct Hb as (_ & _ & Hmin). specialize (Hmin o' Ho' Hc'). repeat split; [done|lia].
    + eexists _, _. split; [done|]. by apply (selecting_replace _ _ _ None).
  - eexists _, _. split; [done|]. apply selecting_keep; [done..|].
    intros o' Ho' Hc'. specialize (Hb o' Ho'). congruence.
Qed.

Lemma select_blocks st its :
  NoDup its →
  ∃ st' sel, foldl (λ acc p, acc ← acc; select_block acc p) (Some (st, None)) its
               = Some (st', sel) ∧ selecting st its st' sel.
Proof.
  induction its as [|p its IH] using rev_ind; intros Hnd.
  - exists st, None. split; [done|]. split; [done|done| |done].
    split; [done|]. by intros ? ? ?%elem_of_nil.
  - apply NoDup_app in Hnd as (Hnd & Hni & _). destruct (IH Hnd) as (st' & sel & Hf & Hse).
    rewrite foldl_snoc, Hf. apply select_block_step; [done|].
    intros Hp. by apply (Hni p Hp), list_elem_of_singleton.
Qed.

(** Rejecting by name is rejecting the other pointers, as names are distinct. *)
Lemma reject_other st its s :
  distinct st its → s ∈ its → its ≡ₚ [s] ++ filter (λ p, Name (st !!! p) ≠ Name (st !!! s)) its.
Proof.
  intros Hd Hs. apply NoDup_Permutation; [apply Hd| |].
  - apply NoDup_app. split; [apply NoDup_singleton|].
    split; [|apply NoDup_filter, Hd]. intros p ->%list_elem_of_singleton. rewrite list_elem_of_filter. tauto.
  - intros p. rewrite elem_of_app, list_elem_of_singleton, list_elem_of_filter. split.
    + intros Hp. destruct (decide (p = s)) as [|Hne]; [by left|]. right. split; [|done].
      intros Heq. by apply Hne, (distinct_inj st its).
    + by intros [->|[_ ?]].
Qed.

Lemma block_narrows st its r :
  distinct st its → capacityBlockFilter st its = Some r → narrows st its r.
Proof.
  intros Hd. unfold capacityBlockFilter.
  destruct (negb _); [intros [= <-]; by apply keep_all_narrows|].
  destruct (select_blocks st its (proj1 Hd)) as (st' & sel & -> & [Hle _ _ Hsome]). simpl.
  destruct sel as [s|]; intros [= <-]; [|by apply keep_all_narrows].
  split; [|done]. simpl. apply reject_other; [by eapply distinct_names|]. by destruct (Hsome s).
Qed.

Lemma launchable_narrows requests st its r :
  compatibleLaunchableFilter requests st its = Some r → narrows st its r.
Proof. intros [= <-]. split; simpl; [|done]. apply (FilterReject_perm (λ p, _ (st !!! p))). Qed.

Lemma exotic_narrows st its r : exoticInstanceFilter st its = Some r → narrows st its r.
Proof.
  unfold exoticInstanceFilter. destruct (HasMinValues _); [intros [= <-]; by apply keep_all_narrows|].
  simpl. case_decide; intros [= <-]; [by apply keep_all_narrows|].
  split; simpl; [|done]. apply (FilterReject_perm (λ p, generic (st !!! p))).
Qed.

(** *** The capacity reservation type filter *)

(** The compatible launchable offerings of a slice, with their instance types. *)
Definition offered (st : store) (its : list ptr) : list (ptr * Offering) :=
  p ← its; pair p <$> ofs_Launchable (ofs_Compatible (Offerings (st !!! p)) requirements).

Lemma elem_of_offered st its p o :
  (p, o) ∈ offered st its ↔
  p ∈ its ∧ o ∈ Offerings (st !!! p) ∧ IsCompatible requirements (off_Requirements o) = true ∧
  Launchable o = true.
Proof.
  unfold offered. rewrite list_elem_of_bind. setoid_rewrite list_elem_of_fmap.
  setoid_rewrite elem_of_Launchable. setoid_rewrite elem_of_Compatible. naive_solver.
Qed.

Definition visit (st : store) (parts : option (gmap capacityReservation capacityReservationTypePartition))
    (po : ptr * Offering) :=
  add_offering po.1 (Name (st !!! po.1)) parts po.2.

Lemma foldl_fmap_arg {A B C} (f : C → B → C) (g : A → B) (c : C) (l : list A) :
  foldl f c (g <$> l) = foldl (λ c a, f c (g a)) c l.
Proof. revert c. induction l as [|a l IH]; intros c; [done|apply IH]. Qed.

Lemma Partition_offered st its :
  Partition st its = foldl (visit st) (Some empty_partitions) (offered st its).
Proof.
  unfold Partition, offered. rewrite <- foldl_bind. generalize (Some empty_partitions) as c.
  induction its as [|p its IH]; intros c; [done|]. simpl. rewrite IH. f_equal.
  by rewrite foldl_fmap_arg.
Qed.

(** The kinds of reservation that have a partition. *)
Definition valid_kind (k : capacityReservation) : Prop := is_Some (empty_partitions !! k).

Record part_ok (st : store) (os : list (ptr * Offering)) (k : capacityReservation)
    (part : capacityReservationTypePartition) : Prop := {
  po_types n p : instanceTypes part !! n = Some p →
    Name (st !!! p) = n ∧ ∃ o, (p, o) ∈ os ∧ in_partition k o = true;
  po_cover p o : (p, o) ∈ os → in_partition k o = true →
    is_Some (instanceTypes part !! Name (st !!! p)) ∧ cheapestPrice part ≤ Price o;
  po_attained : cheapestPrice part = MaxFloat64 ∨
    ∃ p o, (p, o) ∈ os ∧ in_partition k o = true ∧ cheapestPrice part = Price o;
}.

Definition parted (st : store) (os : list (ptr * Offering))
    (parts : gmap capacityReservation capacityReservationTypePartition) : Prop :=
  (∀ k, is_Some (parts !! k) ↔ valid_kind k) ∧
  ∀ k part, parts !! k = Some part → part_ok st os k part.

Lemma part_ok_skip st os k part p o :
  part_ok st os k part → in_partition k o = false → part_ok st (os ++ [(p, o)]) k part.
Proof.
  intros [H1 H2 H3] Hno. split.
  - intros n q Hn. destruct (H1 n q Hn) as (? & o' & ? & ?). split; [done|].
    exists o'. split; [by apply elem_of_app; left|done].
  - intros q o' [?|[= -> ->]%list_elem_of_singleton]%elem_of_app Hin; [by apply H2|congruence].
  - destruct H3 as [?|(q & o' & ? & ?)]; [by left|]. right. exists q, o'.
    split; [by apply elem_of_app; left|done].
Qed.

Lemma part_ok_add st os k part p o :
  part_ok st os k part → in_partition k o = true →
  part_ok st (os ++ [(p, o)]) k
    {| cheapestPrice := if decide (Price o < cheapestPrice part) then Price o else cheapestPrice part;
       instanceTypes := <[Name (st !!! p) := p]> (instanceTypes part) |}.
Proof.
  intros [H1 H2 H3] Hin. split; simpl.
  - intros n q. rewrite lookup_insert_Some. intros [[<- <-]|[_ Hn]].
    + split; [done|]. exists o. split; [apply elem_of_app; right; by left|done].
    + destruct (H1 n q Hn) as (? & o' & ? & ?). split; [done|].
      exists o'. split; [by apply elem_of_app; left|done].
  - intros q o' [Ho'|[= -> ->]%list_elem_of_singleton]%elem_of_app Hin'.
    + destruct (H2 q o' Ho' Hin') as [Hs Hle]. split.
      * destruct (decide (Name (st !!! p) = Name (st !!! q))) as [->|];
          [by rewrite lookup_insert_eq|by rewrite lookup_insert_ne].
      * case_decide; lia.
    + split; [by rewrite lookup_insert_eq|]. case_decide; lia.
  - case_decide.
    + right. exists p, o. split; [apply elem_of_app; right; by left|done].
    + destruct H3 as [?|(q & o' & ? & ?)]; [by left|]. right. exists q, o'.
      split; [by apply elem_of_app; left|done].
Qed.

Lemma parted_visit st os parts p o :
  parted st os parts → (is_reserved o = true → valid_kind (reservation_of o)) →
  ∃ parts', visit st (Some parts) (p, o) = Some parts' ∧ parted st (os ++ [(p, o)]) parts'.
Proof.
  intros [Hdom Hok] Hv. unfold visit, add_offering. simpl. destruct (is_reserved o) eqn:Hr.
  - destruct (proj2 (Hdom _) (Hv eq_refl)) as [part Hpart]. rewrite Hpart.
    eexists. split; [done|]. split.
    + intros k. rewrite lookup_insert_is_Some', Hdom. split; [|by right].
      intros [<-|?]; [by apply Hv|done].
    + intros k part'. rewrite lookup_insert_Some. intros [[<- <-]|[Hne Hk]].
      * apply part_ok_add; [by apply Hok|]. unfold in_partition. rewrite Hr. by apply bool_decide_eq_true.
      * apply part_ok_skip; [by apply Hok|]. unfold in_partition.
        rewrite Hr. by apply bool_decide_eq_false.
  - eexists. split; [done|]. split; [done|]. intros k part Hk. apply part_ok_skip; [by apply Hok|].
    unfold in_partition. by rewrite Hr.
Qed.

Lemma empty_partitions_ok st : parted st [] empty_partitions.
Proof.
  split; [done|]. intros k part Hk. apply elem_of_list_to_map_2 in Hk.
  apply list_elem_of_fmap in Hk as (k' & [= -> ->] & _). split; simpl.
  - intros n p Hn. by rewrite lookup_empty in Hn.
  - by intros p o ?%elem_of_nil.
  - by left.
Qed.

Lemma parted_fold st os :
  (∀ p o, (p, o) ∈ os → is_reserved o = true → valid_kind (reservation_of o)) →
  ∃ parts, foldl (visit st) (Some empty_partitions) os = Some parts ∧ parted st os parts.
Proof.
  induction os as [|[p o] os IH] using rev_ind; intros Hv.
  - exists empty_partitions. split; [done|apply empty_partitions_ok].
  - destruct IH as (parts & Hf & Hp).
    { intros q o' Hq. apply (Hv q). by apply elem_of_app; left. }
    rewrite foldl_snoc, Hf. apply parted_visit; [done|].
    apply (Hv p). apply elem_of_app. right. by left.
Qed.

Lemma MinBy_rank {A} (less : A → A → bool) (rank : A → Z) (l : list A) :
  l ≠ [] → (∀ x y, x ∈ l → y ∈ l → less x y = bool_decide (rank x < rank y)) →
  ∃ m, MinBy less l = Some m ∧ m ∈ l ∧ ∀ y, y ∈ l → rank m ≤ rank y.
Proof.
  destruct l as [|x l]; [done|]. intros _ Hless. unfold MinBy.
  induction l as [|y l IH] using rev_ind; simpl foldl.
  - exists x. split; [done|]. split; [by left|]. by intros y ->%list_elem_of_singleton.
  - destruct IH as (m & [= Hm] & Hin & Hmin).
    { intros a b Ha Hb. apply Hless; rewrite app_comm_cons; by apply elem_of_app; left. }
    rewrite foldl_snoc, Hm. rewrite app_comm_cons in *.
    assert (y ∈ (x :: l) ++ [y]) as Hy by (apply elem_of_app; right; by left).
    assert (m ∈ (x :: l) ++ [y]) as Hm' by by apply elem_of_app; left.
    rewrite Hless by done. case_bool_decide; eexists; (split; [done|]);
      (split; [done|]); intros z [Hz| ->%list_elem_of_singleton]%elem_of_app; try lia;
      specialize (Hmin z Hz); lia.
Qed.

(** Prices first, then priorities: one integer. *)
Definition rank (i : capacityReservation * capacityReservationTypePartition) : Z :=
  3 * cheapestPrice i.2 + priorities i.1.

Lemma partition_less_rank i j : partition_less i j = bool_decide (rank i < rank j).
Proof.
  unfold partition_less, rank.
  assert (∀ k, 0 ≤ priorities k ≤ 2) as Hp by (intros k; unfold priorities; repeat case_decide; lia).
  pose proof (Hp i.1). pose proof (Hp j.1).
  case_decide; apply bool_decide_ext; lia.
Qed.

Lemma assign_fold (g : list Offering → list Offering) st l p :
  NoDup l →
  foldl (λ st p, assign_offerings st p (g (Offerings (st !!! p)))) st l !!! p =
  if decide (p ∈ l) then set_offerings (st !!! p) (g (Offerings (st !!! p))) else st !!! p.
Proof.
  revert p. induction l as [|x l IH] using rev_ind; intros p.
  - intros _. rewrite decide_False; [done|]. by intros ?%elem_of_nil.
  - intros (Hnd & Hni & _)%NoDup_app. rewrite foldl_snoc, lookup_assign, !IH by done.
    assert (x ∉ l) as Hx by (intros Hx; by apply (Hni x Hx), list_elem_of_singleton).
    rewrite (decide_False (P := x ∈ l)) by done. case_decide as Hxp.
    + subst. rewrite decide_True; [done|]. apply elem_of_app. right. by left.
    + apply decide_ext. rewrite elem_of_app, list_elem_of_singleton. naive_solver.
Qed.

(** Every reserved offering that may be launched has one of the three kinds. *)
Definition valid_reservations (st : store) (its : list ptr) : Prop :=
  ∀ p o, (p, o) ∈ offered st its → is_reserved o = true → valid_kind (reservation_of o).

Lemma selected_partition st its :
  valid_reservations st its →
  ∃ parts k sel, Partition st its = Some parts ∧
    MinBy partition_less (map_to_list parts) = Some (k, sel) ∧
    part_ok st (offered st its) k sel ∧
    ∀ k', valid_kind k' → ∃ part, part_ok st (offered st its) k' part ∧
                                   cheapestPrice sel ≤ cheapestPrice part.
Proof.
  intros Hv. rewrite Partition_offered.
  destruct (parted_fold st (offered st its) Hv) as (parts & -> & Hdom & Hok).
  destruct (MinBy_rank partition_less rank (map_to_list parts)) as ([k sel] & Hm & Hin & Hmin).
  - intros Hnil%map_to_list_empty_iff.
    assert (is_Some (parts !! (CapacityReservationTypeDefault, false))) as [? Hs]
      by by apply Hdom; eexists.
    by rewrite Hnil, lookup_empty in Hs.
  - intros. apply partition_less_rank.
  - exists parts, k, sel. split; [done|]. split; [done|].
    split; [by apply Hok, elem_of_map_to_list|]. intros k' [part Hk]%Hdom.
    exists part. split; [by apply Hok|]. specialize (Hmin (k', part)).
    rewrite elem_of_map_to_list in Hmin. specialize (Hmin Hk). unfold rank in Hmin. simpl in Hmin.
    assert (∀ k, 0 ≤ priorities k ≤ 2) as Hp by (intros k0; unfold priorities; repeat case_decide; lia).
    pose proof (Hp k). pose proof (Hp k'). lia.
Qed.

Definition partition_ptrs (sel : capacityReservationTypePartition) : list ptr :=
  snd <$> map_to_list (instanceTypes sel).

Lemma partition_ptrs_spec st its k sel :
  distinct st its → part_ok st (offered st its) k sel →
  NoDup (partition_ptrs sel) ∧
  (∀ p, p ∈ partition_ptrs sel ↔
     p ∈ its ∧ ∃ o, (p, o) ∈ offered st its ∧ in_partition k o = true) ∧
  its ≡ₚ partition_ptrs sel ++ filter (λ p, instanceTypes sel !! Name (st !!! p) = None) its.
Proof.
  intros Hd [Htypes Hcover _].
  assert (∀ p, p ∈ partition_ptrs sel ↔ instanceTypes sel !! Name (st !!! p) = Some p) as Hin.
  { intros p. unfold partition_ptrs. rewrite list_elem_of_fmap. split.
    - intros ([n q] & -> & Hn%elem_of_map_to_list). simpl. by destruct (Htypes n q Hn) as [-> _].
    - intros Hn. exists (Name (st !!! p), p). split; [done|]. by apply elem_of_map_to_list. }
  assert (∀ n p, instanceTypes sel !! n = Some p → p ∈ its) as Hits.
  { intros n p Hn. destruct (Htypes n p Hn) as (_ & o & Ho & _). by apply elem_of_offered in Ho as [? _]. }
  assert (NoDup (partition_ptrs sel)) as Hnd.
  { unfold partition_ptrs. apply NoDup_fmap_2_strong; [|apply NoDup_map_to_list].
    intros [n p] [m q] Hn%elem_of_map_to_list Hm%elem_of_map_to_list. simpl. intros <-.
    destruct (Htypes n p Hn) as [<- _]. by destruct (Htypes m p Hm) as [<- _]. }
  split; [done|]. split.
  - intros p. rewrite Hin. split.
    + intros Hn. split; [by eapply Hits|]. by destruct (Htypes _ _ Hn) as [_ ?].
    + intros (Hp & o & Ho & Hk). destruct (Hcover p o Ho Hk) as [[q Hq] _]. rewrite Hq. f_equal.
      destruct (Htypes _ _ Hq) as [Hname _]. by apply (distinct_inj st its); [|eapply Hits|..].
  - apply NoDup_Permutation; [apply Hd| |].
    + apply NoDup_app. split; [done|]. split; [|apply NoDup_filter, Hd].
      intros p Hp%Hin [Hn _]%list_elem_of_filter. congruence.
    + intros p. rewrite elem_of_app, list_elem_of_filter, Hin. split.
      * intros Hp. destruct (instanceTypes sel !! Name (st !!! p)) as [q|] eqn:E; [left|by right].
        f_equal. destruct (Htypes _ _ E) as [? _]. by apply (distinct_inj st its); [|eapply Hits|..].
      * intros [Hp|[_ ?]]; [by eapply Hits|done].
Qed.

(** What the filter returns, for the partition it selects. *)
Definition selected_result (st : store) (its : list ptr) (k : capacityReservation) (r : filtered) : Prop :=
  narrows st its r ∧
  (∀ p, p ∈ f_kept r ↔ p ∈ its ∧ ∃ o, (p, o) ∈ offered st its ∧ in_partition k o = true) ∧
  ∀ p, Offerings (f_store r !!! p) =
    if decide (p ∈ f_kept r) then filter (λ o, in_partition k o = true) (Offerings (st !!! p))
    else Offerings (st !!! p).

Lemma reservation_filter_run st its :
  distinct st its → wants_reserved = true → valid_reservations st its →
  ∃ parts k sel r, Partition st its = Some parts ∧ part_ok st (offered st its) k sel ∧
    (∀ k', valid_kind k' → ∃ part, part_ok st (offered st its) k' part ∧
                                    cheapestPrice sel ≤ cheapestPrice part) ∧
    capacityReservationTypeFilter st its = Some r ∧
    (r = keep_all st its ∧ instanceTypes sel = ∅ ∨ selected_result st its k r).
Proof.
  intros Hd Hw Hv. destruct (selected_partition st its Hv) as (parts & k & sel & HP & HM & Hok & Hmin).
  exists parts, k, sel. unfold capacityReservationTypeFilter. rewrite Hw, HP. simpl.
  rewrite HM. simpl. case_decide as Hempty.
  { eexists. split; [done|]. split; [done|]. split; [done|]. split; [done|]. by left. }
  destruct (partition_ptrs_spec st its k sel Hd Hok) as (Hnd & Hkept & Hperm).
  fold (partition_ptrs sel). set (st' := foldl _ st _). eexists. split; [done|]. split; [done|].
  split; [done|]. split; [done|]. right.
  pose proof (λ p, assign_fold (filter (λ o, in_partition k o = true)) st (partition_ptrs sel) p Hnd)
    as Hst. fold st' in Hst.
  assert (store_le st st') as Hle.
  { intros p. rewrite Hst. case_decide; [|done]. split; [done|]. apply filter_sub. }
  split; [|split]; simpl; [|done|].
  - split; simpl; [|done].
    rewrite (filter_ext_in _ (λ p, instanceTypes sel !! Name (st !!! p) = None)); [done|].
    intros p _. by rewrite (store_le_name _ _ _ Hle).
  - intros p. rewrite Hst. by case_decide.
Qed.

Lemma reservation_narrows st its r :
  distinct st its → valid_reservations st its →
  capacityReservationTypeFilter st its = Some r → narrows st its r.
Proof.
  intros Hd Hv. destruct (wants_reserved) eqn:Hw.
  - destruct (reservation_filter_run st its Hd Hw Hv) as (_ & k & sel & r' & _ & _ & _ & -> & Hr).
    intros [= <-]. destruct Hr as [[-> _]|[? _]]; [by apply keep_all_narrows|done].
  - unfold capacityReservationTypeFilter. rewrite Hw. intros [= <-]. by apply keep_all_narrows.
Qed.

(** ** Runs *)

Lemma valid_reservations_narrow st st' its kept :
  store_le st st' → kept ⊆ its → valid_reservations st its → valid_reservations st' kept.
Proof.
  intros Hle Hsub Hv p o (Hp & Ho & ? & ?)%elem_of_offered. apply (Hv p), elem_of_offered.
  split; [by apply Hsub|]. split; [|done]. destruct (Hle p) as [_ Hofs]. by eapply elem_of_submseteq.
Qed.

Lemma spot_affordable st its p o :
  o ∈ Offerings (st !!! p) → isOnDemandClass (offering_capacity_type o) = true →
  affordable (cheapestOnDemand (scan_all st its)) o = true.
Proof.
  intros _ Hod. unfold affordable. rewrite CapacityType_Any. fold (offering_capacity_type o).
  rewrite bool_decide_eq_false_2; [done|]. intros Hspot. apply bool_decide_eq_true in Hod.
  rewrite Hspot in Hod. by apply spot_not_on_demand.
Qed.

Lemma elem_of_scanned st its o :
  o ∈ scanned_offerings st its ↔ ∃ p, p ∈ its ∧ o ∈ Offerings (st !!! p) ∧
    IsCompatible requirements (off_Requirements o) = true ∧ Available o = true.
Proof.
  unfold scanned_offerings. rewrite list_elem_of_bind. setoid_rewrite elem_of_Available.
  setoid_rewrite elem_of_Compatible. naive_solver.
Qed.

(** The spot filter on a slice with both kinds of offering. *)
Lemma spot_run st its :
  NoDup its → HasMinValues requirements = false →
  HasOnDemandClass (Get requirements CapacityTypeLabelKey) = true →
  req_Has (Get requirements CapacityTypeLabelKey) CapacityTypeSpot = true →
  hasODOfferings (scan_all st its) = true → hasSpotOfferings (scan_all st its) = true →
  let g := filter (λ o, affordable (cheapestOnDemand (scan_all st its)) o = true) in
  ∃ r, spotOfferingFilter st its = Some r ∧ f_kept r ≠ [] ∧
    f_store r = f_store (narrow_all g st its) ∧ f_kept r = f_kept (narrow_all g st its).
Proof.
  intros Hnd Hmin Hodc Hspot Hod Hsp g. unfold spotOfferingFilter.
  rewrite Hmin, Hodc, Hspot, Hod, Hsp. simpl negb. cbn [orb]. rewrite spot_fold. fold g.
  eexists. split; [done|]. split; [|done]. simpl.
  destruct (narrow_all_spec g st its Hnd) as (-> & _ & _).
  rewrite scan_all_list in Hod. apply (sc_od _ _ (scan_list_spec _)) in Hod as (o & Ho & Hc).
  apply elem_of_scanned in Ho as (p & Hp & Ho & _).
  assert (p ∈ filter (λ p, nonempty g st p = true) its) as Hin.
  { apply list_elem_of_filter. split; [|done]. apply bool_decide_eq_true. intros Hnil.
    assert (o ∈ g (Offerings (st !!! p))) as Hx.
    { apply list_elem_of_filter. split; [by apply (spot_affordable st its p)|done]. }
    rewrite Hnil in Hx. by apply elem_of_nil in Hx. }
  intros Hnil. rewrite Hnil in Hin. by apply elem_of_nil in Hin.
Qed.

Lemma spot_total st its :
  NoDup its → its ≠ [] → ∃ r, spotOfferingFilter st its = Some r ∧ f_kept r ≠ [].
Proof.
  intros Hnd Hne.
  destruct (HasMinValues requirements) eqn:E1; [unfold spotOfferingFilter; rewrite E1; by eexists|].
  destruct (HasOnDemandClass (Get requirements CapacityTypeLabelKey)) eqn:E2;
    [|unfold spotOfferingFilter; rewrite E1, E2; by eexists].
  destruct (req_Has (Get requirements CapacityTypeLabelKey) CapacityTypeSpot) eqn:E3;
    [|unfold spotOfferingFilter; rewrite E1, E2, E3; by eexists].
  destruct (hasODOfferings (scan_all st its)) eqn:E4;
    [|unfold spotOfferingFilter; rewrite E1, E2, E3, E4; by eexists].
  destruct (hasSpotOfferings (scan_all st its)) eqn:E5;
    [|unfold spotOfferingFilter; rewrite E1, E2, E3, E4, E5; by eexists].
  destruct (spot_run st its) as (r & Hr & ? & _); [done..|]. by exists r.
Qed.

Lemma block_total st its :
  NoDup its → its ≠ [] → ∃ r, capacityBlockFilter st its = Some r ∧ f_kept r ≠ [].
Proof.
  intros Hnd Hne. unfold capacityBlockFilter. destruct (negb _); [by eexists|].
  destruct (select_blocks st its Hnd) as (st' & sel & -> & _). simpl. destruct sel; by eexists.
Qed.

Lemma reservation_total st its :
  distinct st its → valid_reservations st its → its ≠ [] →
  ∃ r, capacityReservationTypeFilter st its = Some r ∧ f_kept r ≠ [].
Proof.
  intros Hd Hv Hne. destruct (wants_reserved) eqn:Hw;
    [|unfold capacityReservationTypeFilter; rewrite Hw; by eexists].
  destruct (selected_partition st its Hv) as (parts & k & sel & HP & HM & _).
  unfold capacityReservationTypeFilter. rewrite Hw, HP. simpl. rewrite HM. simpl.
  case_decide as He; [by eexists|]. eexists. split; [done|]. simpl.
  intros Hnil%fmap_nil_inv. by apply map_to_list_empty_iff in Hnil.
Qed.

Lemma reserved_total st its : its ≠ [] → ∃ r, reservedOfferingFilter st its = Some r ∧ f_kept r ≠ [].
Proof.
  intros Hne. unfold reservedOfferingFilter. destruct (negb _); [by eexists|].
  case_decide; by eexists.
Qed.

Lemma exotic_total st its : its ≠ [] → ∃ r, exoticInstanceFilter st its = Some r ∧ f_kept r ≠ [].
Proof.
  intros Hne. unfold exoticInstanceFilter. destruct (HasMinValues _); [by eexists|]. simpl.
  case_decide; by eexists.
Qed.

(** Every filter runs without a panic, splits its input and narrows offerings, and all but
    the first keep something. *)
Lemma runFilter_run f st its :
  distinct st its → valid_reservations st its →
  ∃ r, runFilter f st its = Some r ∧ narrows st its r ∧
    ((∀ requests, f ≠ CompatibleLaunchableFilter requests) → its ≠ [] → f_kept r ≠ []).
Proof.
  intros Hd Hv. destruct f as [requests| | | | |]; simpl runFilter.
  - eexists. split; [done|]. split; [by eapply launchable_narrows|]. intros Hf. by destruct (Hf requests).
  - destruct (decide (its = [])) as [->|Hne].
    + destruct (capacityReservationTypeFilter st []) as [r|] eqn:E.
      * exists r. split; [done|]. by split; [eapply reservation_narrows|].
      * exfalso. destruct (wants_reserved) eqn:Hw;
          [|by unfold capacityReservationTypeFilter in E; rewrite Hw in E].
        destruct (reservation_filter_run st [] Hd Hw Hv) as (_ & _ & _ & r & _ & _ & _ & ? & _). congruence.
    + destruct (reservation_total st its Hd Hv Hne) as (r & Hr & ?). exists r.
      split; [done|]. by split; [eapply reservation_narrows|].
  - destruct (capacityBlockFilter st its) as [r|] eqn:E.
    + exists r. split; [done|]. split; [by eapply block_narrows|]. intros _ Hne.
      destruct (block_total st its (proj1 Hd) Hne) as (r' & Hr' & ?). by simplify_eq.
    + exfalso. unfold capacityBlockFilter in E. destruct (negb _); [done|].
      destruct (select_blocks st its (proj1 Hd)) as (st' & [s|] & Hf & _); by rewrite Hf in E.
  - destruct (reservedOfferingFilter st its) as [r|] eqn:E.
    + exists r. split; [done|]. split; [by eapply reserved_narrows; [apply Hd|]|]. intros _ Hne.
      destruct (reserved_total st its Hne) as (r' & Hr' & ?). by simplify_eq.
    + exfalso. unfold reservedOfferingFilter in E. destruct (negb _); [done|]. by case_decide.
  - destruct (exoticInstanceFilter st its) as [r|] eqn:E.
    + exists r. split; [done|]. split; [by eapply exotic_narrows|]. intros _ Hne.
      destruct (exotic_total st its Hne) as (r' & Hr' & ?). by simplify_eq.
    + exfalso. unfold exoticInstanceFilter in E. destruct (HasMinValues _); [done|]. simpl in E.
      by case_decide.
  - destruct (spotOfferingFilter st its) as [r|] eqn:E.
    + exists r. split; [done|]. split; [by eapply spot_narrows; [apply Hd|]|]. intros _ Hne.
      destruct (spot_total st its (proj1 Hd) Hne) as (r' & Hr' & ?). by simplify_eq.
    + exfalso. unfold spotOfferingFilter in E. destruct (HasMinValues _); [done|].
      destruct (negb _ || negb _); [done|]. destruct (negb _ || negb _); [done|].
      by destruct (foldl _ _ its).
Qed.

(** The reserved offering filter on a slice with a candidate. *)
Lemma reserved_filter_selects st its :
  distinct st its → wants_reserved = true →
  (∃ p o, p ∈ its ∧ o ∈ Offerings (st !!! p) ∧ reserved_candidate o = true) →
  ∃ r, reservedOfferingFilter st its = Some r ∧
    (∀ p, p ∈ f_kept r ↔
       p ∈ its ∧ ∃ o, o ∈ Offerings (st !!! p) ∧ reserved_candidate o = true) ∧
    ∀ p, p ∈ f_kept r → zonal_choice (Offerings (st !!! p)) (Offerings (f_store r !!! p)).
Proof.
  intros [Hnd _] Hw (p0 & o0 & Hp0 & Ho0 & Hc0). unfold reservedOfferingFilter. rewrite Hw.
  simpl negb. rewrite reserve_fold.
  destruct (narrow_all_spec zonal_list st its Hnd) as (Hk & _ & Hst).
  assert (∀ p, nonempty zonal_list st p = true ↔
    ∃ o, o ∈ Offerings (st !!! p) ∧ reserved_candidate o = true) as Hne.
  { intros p. unfold nonempty. rewrite bool_decide_eq_true.
    destruct (zonal_list_choice (Offerings (st !!! p))) as [Hcand _ _ Hcov]. split.
    - intros Hx. destruct (zonal_list _) as [|o l]; [done|]. exists o. apply Hcand. by left.
    - intros (o & Ho & Hc) Hnil. destruct (Hcov o Ho Hc) as (o' & Ho' & _).
      rewrite Hnil in Ho'. by apply elem_of_nil in Ho'. }
  assert (∀ p, p ∈ f_kept (narrow_all zonal_list st its) ↔
    p ∈ its ∧ ∃ o, o ∈ Offerings (st !!! p) ∧ reserved_candidate o = true) as Hkept.
  { intros p. rewrite Hk, list_elem_of_filter, Hne. tauto. }
  rewrite decide_False.
  - eexists. split; [done|]. split; [done|]. intros p Hp%Hkept. rewrite Hst, decide_True.
    + apply zonal_list_choice.
    + by rewrite Hne.
  - intros Hnil. assert (p0 ∈ f_kept (narrow_all zonal_list st its)) as Hin.
    { apply Hkept. split; [done|]. by exists o0. }
    rewrite Hnil in Hin. by apply elem_of_nil in Hin.
Qed.

(** The reservation type filter, by whether a reserved offering may be launched. *)
Lemma reservation_filter_selects st its :
  distinct st its → wants_reserved = true → valid_reservations st its →
  (∀ p o, (p, o) ∈ offered st its → Price o < MaxFloat64) →
  ∃ r, capacityReservationTypeFilter st its = Some r ∧
    ((∀ p o, (p, o) ∈ offered st its → is_reserved o = false) → r = keep_all st its) ∧
    ((∃ p o, (p, o) ∈ offered st its ∧ is_reserved o = true) →
     ∃ k, selected_result st its k r ∧
       ∃ p o, (p, o) ∈ offered st its ∧ in_partition k o = true ∧
         ∀ p' o', (p', o') ∈ offered st its → is_reserved o' = true → Price o ≤ Price o').
Proof.
  intros Hd Hw Hv Hmax.
  destruct (reservation_filter_run st its Hd Hw Hv) as (parts & k & sel & r & HP & Hok & Hmin & Hf & Hr).
  exists r. split; [done|].
  assert (∀ p' o', (p', o') ∈ offered st its → is_reserved o' = true → cheapestPrice sel ≤ Price o') as Hle.
  { intros p' o' Ho' Hres. destruct (Hmin (reservation_of o')) as (part & Hpart & Hcmp); [by eapply Hv|].
    destruct (po_cover _ _ _ _ Hpart p' o' Ho') as [_ ?]; [|lia].
    unfold in_partition. rewrite Hres. by apply bool_decide_eq_true. }
  split.
  - intros Hnone. destruct Hr as [[-> _]|(_ & Hkept & _)]; [done|].
    unfold capacityReservationTypeFilter in Hf. destruct (negb wants_reserved); [congruence|].
    rewrite HP in Hf. simpl in Hf. destruct (MinBy _ _) as [[k' sel']|]; [|done]. simpl in Hf.
    case_decide as He; [congruence|]. exfalso.
    apply map_choose in He as (n & p & Hn). simplify_eq. simpl in Hkept.
    assert (p ∈ snd <$> map_to_list (instanceTypes sel')) as Hp.
    { apply list_elem_of_fmap. exists (n, p). split; [done|]. by apply elem_of_map_to_list. }
    apply Hkept in Hp as (_ & o & Ho & Hin). unfold in_partition in Hin.
    by rewrite (Hnone p o Ho) in Hin.
  - intros (p0 & o0 & Ho0 & Hres0). specialize (Hle p0 o0 Ho0 Hres0) as Hle0.
    specialize (Hmax p0 o0 Ho0).
    destruct (po_attained _ _ _ _ Hok) as [He|(p & o & Ho & Hin & Heq)]; [lia|].
    destruct Hr as [[-> Hempty]|Hsel].
    + destruct (po_cover _ _ _ _ Hok p o Ho Hin) as [[q Hq] _]. by rewrite Hempty, lookup_empty in Hq.
    + exists k. split; [done|]. exists p, o. split; [done|]. split; [done|].
      intros p' o' Ho' Hres'. specialize (Hle p' o' Ho' Hres'). lia.
Qed.

(** ** Properties *)

(** No filter loses an instance type or invents an offering.  On instance types with
    distinct names and valid reservation kinds, each of the six filters returns (it does
    not panic); the kept and rejected pointers together are a permutation of its input;
    the only change to any instance type is that some of its offerings are dropped; and
    every filter but the first keeps at least one instance type of a nonempty input. *)
Theorem filters_narrow f st its :
  distinct st its → valid_reservations st its →
  ∃ r, runFilter f st its = Some r ∧
    its ≡ₚ f_kept r ++ f_rejected r ∧
    (∀ p, f_store r !!! p = set_offerings (st !!! p) (Offerings (f_store r !!! p)) ∧
          Offerings (f_store r !!! p) ⊆+ Offerings (st !!! p)) ∧
    ((∀ requests, f ≠ CompatibleLaunchableFilter requests) → its ≠ [] → f_kept r ≠ []).
Proof.
  intros Hd Hv. destruct (runFilter_run f st its Hd Hv) as (r & Hr & [Hp Hle] & Hne).
  exists r. split; [done|]. split; [done|]. split; [|done]. intros p. apply Hle.
Qed.

(** A reserved launch is restricted to one kind of reservation, the cheapest.  If no
    launchable compatible offering is reserved the filter changes nothing; otherwise it
    selects one pair of reservation type and interruptibility that has a launchable
    compatible offering no dearer than any other, keeps exactly the instance types with
    such an offering, and leaves them only their reserved offerings of that pair. *)
Theorem capacityReservationTypeFilter_spec st its :
  distinct st its → wants_reserved = true → valid_reservations st its →
  (∀ p o, (p, o) ∈ offered st its → Price o < MaxFloat64) →
  ∃ r, capacityReservationTypeFilter st its = Some r ∧
    ((∀ p o, (p, o) ∈ offered st its → is_reserved o = false) → r = keep_all st its) ∧
    ((∃ p o, (p, o) ∈ offered st its ∧ is_reserved o = true) →
     ∃ k, selected_result st its k r ∧
       ∃ p o, (p, o) ∈ offered st its ∧ in_partition k o = true ∧
         ∀ p' o', (p', o') ∈ offered st its → is_reserved o' = true → Price o ≤ Price o').
Proof. exact (reservation_filter_selects st its). Qed.

(** A capacity block launch uses one capacity block, the cheapest.  When the filter
    applies and some launchable compatible capacity block is offered, a single instance
    type is kept, its offerings are reduced to one capacity block of its own, and that
    block is at most as expensive as every candidate of every instance type; when there
    is no candidate the instance types pass through unchanged. *)
Theorem capacityBlockFilter_spec st its :
  distinct st its → shouldFilter st its = true →
  ∃ r, capacityBlockFilter st its = Some r ∧
    ((∀ p o, p ∈ its → o ∈ Offerings (st !!! p) → block_candidate o = false) → r = keep_all st its) ∧
    ((∃ p o, p ∈ its ∧ o ∈ Offerings (st !!! p) ∧ block_candidate o = true) →
     ∃ s o, f_kept r = [s] ∧ s ∈ its ∧ Offerings (f_store r !!! s) = [o] ∧
       o ∈ Offerings (st !!! s) ∧ block_candidate o = true ∧
       ∀ p o', p ∈ its → o' ∈ Offerings (st !!! p) → block_candidate o' = true → Price o ≤ Price o').
Proof.
  intros Hd Hs. unfold capacityBlockFilter. rewrite Hs. simpl negb. cbn [mbind option_bind].
  destruct (select_blocks st its (proj1 Hd)) as (st' & sel & -> & [_ _ Hnone Hsome]). simpl.
  destruct sel as [s|].
  - destruct (Hsome s eq_refl) as (Hin & o & Ho & Ho' & Hc & Hmin). eexists. split; [done|]. split.
    + intros H'. by rewrite (H' s o Hin Ho') in Hc.
    + intros _. by exists s, o.
  - destruct (Hnone eq_refl) as [-> Hno]. eexists. split; [done|]. split; [done|].
    intros (p & o & Hp & Ho & Hc). by rewrite (Hno p o Hp Ho) in Hc.
Qed.

(** A reserved launch has one reservation per zone, the largest.  When some instance
    type has an available compatible reserved offering with capacity, exactly the instance
    types with such an offering are kept, and the offerings of each are candidates of its
    own in distinct zones, one for every zone with a candidate, none with less capacity
    than another candidate of its zone. *)
Theorem reservedOfferingFilter_spec st its :
  distinct st its → wants_reserved = true →
  (∃ p o, p ∈ its ∧ o ∈ Offerings (st !!! p) ∧ reserved_candidate o = true) →
  ∃ r, reservedOfferingFilter st its = Some r ∧
    (∀ p, p ∈ f_kept r ↔
       p ∈ its ∧ ∃ o, o ∈ Offerings (st !!! p) ∧ reserved_candidate o = true) ∧
    ∀ p, p ∈ f_kept r → zonal_choice (Offerings (st !!! p)) (Offerings (f_store r !!! p)).
Proof. exact (reserved_filter_selects st its). Qed.

Lemma affordable_spec c o : affordable c o = true ↔ ¬ (CapacityType o = CapacityTypeSpot ∧ c < Price o).
Proof.
  unfold affordable. rewrite negb_true_iff, andb_false_iff, !bool_decide_eq_false.
  destruct (decide (CapacityType o = CapacityTypeSpot)); tauto.
Qed.

(** A mixed launch never buys spot above the on-demand price.  When the requirements
    allow both and both kinds are offered, there is a price [c], at most every available
    compatible on-demand price, such that the filter keeps exactly the instance types that
    have some offering other than spot above [c], drops from them exactly the spot
    offerings above [c], and keeps at least one instance type. *)
Theorem spotOfferingFilter_spec st its :
  distinct st its → HasMinValues requirements = false →
  HasOnDemandClass (Get requirements CapacityTypeLabelKey) = true →
  req_Has (Get requirements CapacityTypeLabelKey) CapacityTypeSpot = true →
  hasODOfferings (scan_all st its) = true → hasSpotOfferings (scan_all st its) = true →
  ∃ r c, spotOfferingFilter st its = Some r ∧ f_kept r ≠ [] ∧
    (∀ o, o ∈ scanned_offerings st its → isOnDemandClass (offering_capacity_type o) = true →
       c ≤ Price o) ∧
    (c = MaxFloat64 ∨ ∃ o, o ∈ scanned_offerings st its ∧
       isOnDemandClass (offering_capacity_type o) = true ∧ c = Price o) ∧
    (∀ p, p ∈ f_kept r ↔ p ∈ its ∧ ∃ o, o ∈ Offerings (st !!! p) ∧
       ¬ (CapacityType o = CapacityTypeSpot ∧ c < Price o)) ∧
    ∀ p, p ∈ f_kept r →
      Offerings (f_store r !!! p) = 
        filter (λ o, ¬ (CapacityType o = CapacityTypeSpot ∧ c < Price o)) (Offerings (st !!! p)).
Proof.
  intros [Hnd _] Hmin Hodc Hspot Hod Hsp.
  destruct (spot_run st its Hnd Hmin Hodc Hspot Hod Hsp) as (r & Hr & Hne & Hrs & Hrk).
  set (c := cheapestOnDemand (scan_all st its)) in *. exists r, c.
  set (g := filter (λ o, affordable c o = true)) in *.
  destruct (narrow_all_spec g st its Hnd) as (Hk & _ & Hst).
  pose proof (scan_list_spec (scanned_offerings st its)) as Hscan. rewrite <- scan_all_list in Hscan.
  assert (∀ p, nonempty g st p = true ↔
    ∃ o, o ∈ Offerings (st !!! p) ∧ ¬ (CapacityType o = CapacityTypeSpot ∧ c < Price o)) as Hnon.
  { intros p. unfold nonempty, g. rewrite bool_decide_eq_true, filter_nonempty.
    by setoid_rewrite affordable_spec. }
  split; [done|]. split; [done|]. split; [apply (sc_le _ _ Hscan)|].
  split; [apply (sc_attained _ _ Hscan)|]. split.
  - intros p. rewrite Hrk, Hk, list_elem_of_filter, Hnon. tauto.
  - intros p Hp. rewrite Hrs, Hst. rewrite Hrk, Hk in Hp. apply list_elem_of_filter in Hp as [? ?].
    rewrite decide_True by done. apply filter_ext_in. intros o _. apply affordable_spec.
Qed.
End filters.

(** ** A concrete launch *)

#[export] Instance RefRequirements_inhabited : Inhabited (@Requirements RefTypes) := populate ∅.

Definition w_reservation (zone id type : string) (price capacity : Z) : Offering :=
  {| off_Requirements := list_to_map
       [(CapacityTypeLabelKey, [CapacityTypeReserved]); (LabelTopologyZone, [zone]);
        (ReservationIDLabel, [id]); (LabelCapacityReservationType, [type]);
        (LabelCapacityReservationInterruptible, ["false"])];
     Price := price; Available := true; ReservationCapacity := capacity |}.

Definition w_market (ct zone : string) (price : Z) : Offering :=
  {| off_Requirements := list_to_map [(CapacityTypeLabelKey, [ct]); (LabelTopologyZone, [zone])];
     Price := price; Available := true; ReservationCapacity := 0 |}.

(** [m5.large] with two reservations in zone [a] and one in zone [b], spot and on-demand,
    and [p5.48xlarge] with a capacity block. *)
Definition w_store : store := list_to_map
  [(1%positive, {| Name := "m5.large"; it_Requirements := list_to_map [(LabelInstanceSize, ["large"])];
      Offerings := [w_reservation "a" "cr-1" "default" 2 3; w_reservation "a" "cr-2" "default" 2 7;
                    w_reservation "b" "cr-3" "default" 2 1; w_market "spot" "a" 30;
                    w_market "spot" "b" 10; w_market "on-demand" "a" 20]; Capacity := ∅ |});
   (2%positive, {| Name := "p5.48xlarge"; it_Requirements := list_to_map [(LabelInstanceSize, ["48xlarge"])];
      Offerings := [w_reservation "a" "cr-4" "capacity-block" 5 1]; Capacity := ∅ |})].

Definition w_types : list ptr := [1%positive; 2%positive].

Definition w_requirements : Requirements := list_to_map
  [(CapacityTypeLabelKey, [CapacityTypeReserved; CapacityTypeSpot; CapacityTypeOnDemand])].

Lemma w_distinct : distinct w_store w_types.
Proof. split; apply (bool_decide_unpack _); by vm_compute. Qed.

Lemma w_valid : valid_reservations w_requirements w_store w_types.
Proof.
  assert (forallb (λ po : ptr * Offering, negb (is_reserved po.2) ||
            bool_decide (is_Some (empty_partitions !! reservation_of po.2)))
            (offered w_requirements w_store w_types) = true) as Hall by by vm_compute.
  rewrite forallb_forall in Hall. intros p o Ho%list_elem_of_In Hr.
  specialize (Hall (p, o) Ho). cbn [snd] in Hall. rewrite Hr in Hall.
  by apply bool_decide_eq_true in Hall.
Qed.

(** A slice computed by the model, as a pointer list with the offerings that are left. *)
Definition w_result (r : option filtered) : option (list (string * list (string * string * Z))) :=
  (λ r, (λ p, (Name (f_store r !!! p),
               (λ o, (CapacityType o, Zone o, Price o)) <$> Offerings (f_store r !!! p)))
          <$> f_kept r) <$> r.

Example w_reservation_type :
  w_result (capacityReservationTypeFilter w_requirements w_store w_types)
  = Some [("m5.large", [("reserved", "a", 2); ("reserved", "a", 2); ("reserved", "b", 2)])].
Proof. by vm_compute. Qed.

Example w_spot :
  w_result (spotOfferingFilter w_requirements w_store w_types)
  = Some [("m5.large", [("reserved", "a", 2); ("reserved", "a", 2); ("reserved", "b", 2);
                        ("spot", "b", 10); ("on-demand", "a", 20)]);
          ("p5.48xlarge", [("reserved", "a", 5)])].
Proof. by vm_compute. Qed.

Lemma filters_narrow_witness :
  ∃ r, runFilter w_requirements SpotOfferingFilter w_store w_types = Some r ∧
    w_types ≡ₚ f_kept r ++ f_rejected r ∧
    (∀ p, f_store r !!! p = set_offerings (w_store !!! p) (Offerings (f_store r !!! p)) ∧
          Offerings (f_store r !!! p) ⊆+ Offerings (w_store !!! p)) ∧
    ((∀ requests, SpotOfferingFilter ≠ CompatibleLaunchableFilter requests) →
     w_types ≠ [] → f_kept r ≠ []).
Proof. exact (filters_narrow w_requirements SpotOfferingFilter w_store w_types w_distinct w_valid). Defined.

Lemma capacityReservationTypeFilter_spec_witness :
  ∃ r, capacityReservationTypeFilter w_requirements w_store w_types = Some r ∧
    ((∀ p o, (p, o) ∈ offered w_requirements w_store w_types → is_reserved o = false) →
     r = keep_all w_store w_types) ∧
    ((∃ p o, (p, o) ∈ offered w_requirements w_store w_types ∧ is_reserved o = true) →
     ∃ k, selected_result w_requirements w_store w_types k r ∧
       ∃ p o, (p, o) ∈ offered w_requirements w_store w_types ∧ in_partition k o = true ∧
         ∀ p' o', (p', o') ∈ offered w_requirements w_store w_types → is_reserved o' = true →
           Price o ≤ Price o').
Proof.
  apply (capacityReservationTypeFilter_spec w_requirements w_store w_types w_distinct).
  - by vm_compute.
  - apply w_valid.
  - assert (forallb (λ po : ptr * Offering, bool_decide (Price po.2 < MaxFloat64))
              (offered w_requirements w_store w_types) = true) as Hall by by vm_compute.
    rewrite forallb_forall in Hall. intros p o Ho%list_elem_of_In.
    apply (bool_decide_eq_true_1 _ (Hall (p, o) Ho)).
Defined.

(** Requirements that only allow the reserved capacity type, and the capacity block alone. *)
Definition w_reserved_only : Requirements := list_to_map [(CapacityTypeLabelKey, [CapacityTypeReserved])].

Lemma w_distinct_block : distinct w_store [2%positive].
Proof. split; apply (bool_decide_unpack _); by vm_compute. Qed.

Lemma capacityBlockFilter_spec_witness :
  ∃ r, capacityBlockFilter w_reserved_only w_store [2%positive] = Some r ∧
    ((∀ p o, p ∈ [2%positive] → o ∈ Offerings (w_store !!! p) →
        block_candidate w_reserved_only o = false) → r = keep_all w_store [2%positive]) ∧
    ((∃ p o, p ∈ [2%positive] ∧ o ∈ Offerings (w_store !!! p) ∧ block_candidate w_reserved_only o = true) →
     ∃ s o, f_kept r = [s] ∧ s ∈ [2%positive] ∧ Offerings (f_store r !!! s) = [o] ∧
       o ∈ Offerings (w_store !!! s) ∧ block_candidate w_reserved_only o = true ∧
       ∀ p o', p ∈ [2%positive] → o' ∈ Offerings (w_store !!! p) →
         block_candidate w_reserved_only o' = true → Price o ≤ Price o').
Proof.
  apply (capacityBlockFilter_spec w_reserved_only w_store [2%positive] w_distinct_block).
  by vm_compute.
Defined.

Lemma reservedOfferingFilter_spec_witness :
  ∃ r, reservedOfferingFilter w_requirements w_store w_types = Some r ∧
    (∀ p, p ∈ f_kept r ↔
       p ∈ w_types ∧ ∃ o, o ∈ Offerings (w_store !!! p) ∧ reserved_candidate w_requirements o = true) ∧
    ∀ p, p ∈ f_kept r →
      zonal_choice w_requirements (Offerings (w_store !!! p)) (Offerings (f_store r !!! p)).
Proof.
  apply (reservedOfferingFilter_spec w_requirements w_store w_types w_distinct).
  - by vm_compute.
  - exists 1%positive, (w_reservation "a" "cr-1" "default" 2 3).
    split; [by left|]. split; [by left|by vm_compute].
Defined.

Lemma spotOfferingFilter_spec_witness :
  ∃ r c, spotOfferingFilter w_requirements w_store w_types = Some r ∧ f_kept r ≠ [] ∧
    (∀ o, o ∈ scanned_offerings w_requirements w_store w_types →
       isOnDemandClass (offering_capacity_type o) = true → c ≤ Price o) ∧
    (c = MaxFloat64 ∨ ∃ o, o ∈ scanned_offerings w_requirements w_store w_types ∧
       isOnDemandClass (offering_capacity_type o) = true ∧ c = Price o) ∧
    (∀ p, p ∈ f_kept r ↔
       p ∈ w_types ∧ ∃ o, o ∈ Offerings (w_store !!! p) ∧
         ¬ (CapacityType o = CapacityTypeSpot ∧ c < Price o)) ∧
    ∀ p, p ∈ f_kept r →
      Offerings (f_store r !!! p) = 
        filter (λ o, ¬ (CapacityType o = CapacityTypeSpot ∧ c < Price o)) (Offerings (w_store !!! p)).
Proof.
  apply (spotOfferingFilter_spec w_requirements w_store w_types w_distinct); by vm_compute.
Defined.
