(* ===== verification/Launch.v ===== *)
(** * [pkg/providers/instance]: creating an instance

    The launch path of [instance.go] and [types.go]: [Create] filters the instance types,
    chooses capacity type and tenancy, builds the launch template configurations and the
    fleet request, calls CreateFleet once (twice if a launch template had disappeared) and
    feeds the fleet errors back into the ICE cache and the capacity reservation counts.
    After the filters instance types are only read, so they are passed by value.  The
    subnet provider, the launch template provider and the batched EC2 call are parameters
    indexed by the attempt; calls whose only effect is outside the modelled state are
    recorded in a trace, in the order they are made.  Metrics and logging are left out. *)
From S2P Require Import Prelude GoCache AwsErrors ApiV1 UnavailableOfferings.
From S2P Require Import CapacityReservation BatchExecutors Scheduling Filters.

Definition instanceTypeFlexibilityThreshold : Z := 5.
Definition maxInstanceTypes : Z := 60.
Definition LabelInstanceTenancy := "karpenter.k8s.aws/instance-tenancy".
Definition TenancyDefault := "default".
Definition TenancyDedicated := "dedicated".

(** ** Errors of the cloud provider interface *)

(** [cloudprovider.NewInsufficientCapacityError], [NewCreateError], ...; the error they
    wrap stays visible to [errors.As]. *)
Inductive cp_error :=
  | InsufficientCapacityError (e : error)
  | CreateError (e : error) (reason message : string)
  | NodeClaimNotFoundError (e : error)
  | NodeRebootFailedError (e : error)
  | OtherError (e : error).

Definition cp_cause (e : cp_error) : error :=
  match e with
  | InsufficientCapacityError e | CreateError e _ _ | NodeClaimNotFoundError e
  | NodeRebootFailedError e | OtherError e => e
  end.

(** ** Requests *)

(** The subnets of a launch, by zone. *)
Record LaunchSubnet := { ls_ID : string; ls_Zone : string; ls_ZoneID : string }.

Record FleetOverrides := {
  ov_InstanceType : string;
  ov_SubnetId : option string;
  ov_ImageId : string;
  ov_AvailabilityZone : string;
  ov_Priority : float64;
}.

(** [FleetLaunchTemplateConfigRequest], with version ["$Latest"]. *)
Record LaunchTemplateConfig := {
  lc_LaunchTemplateName : string;
  lc_Version : string;
  lc_Overrides : list FleetOverrides;
}.

Section create.
Context `{S : Scheduling} `{Inhabited Requirements}.

(** [launchtemplate.LaunchTemplate] *)
Record LaunchTemplate := {
  lt_Name : string;
  lt_InstanceTypes : list InstanceType;
  lt_ImageID : string;
  lt_CapacityReservationID : string;
  lt_Zone : string;
}.

(** ** Filtering *)

(** The filters in the order [filterInstanceTypes] runs them. *)
Definition launch_filters (requests : ResourceList) : list Filter :=
  [CompatibleLaunchableFilter requests; CapacityReservationTypeFilter; CapacityBlockFilter;
   ReservedOfferingFilter; ExoticInstanceTypeFilter; SpotOfferingFilter].

Definition errUnavailable : cp_error :=
  InsufficientCapacityError (errorf "all requested instance types were unavailable during launch").

(** [None] is a panic. *)
Fixpoint run_filters (reqs : Requirements) (fs : list Filter) (st : store) (its : list ptr) :
    option (result cp_error (store * list ptr)) :=
  match fs with
  | [] => Some (Ok (st, its))
  | f :: fs' =>
      r ← runFilter reqs f st its;
      if decide (f_kept r = []) then Some (Err errUnavailable)
      else run_filters reqs fs' (f_store r) (f_kept r)
  end.

Definition filterInstanceTypes (reqs : Requirements) (requests : ResourceList)
    (st : store) (its : list ptr) : option (result cp_error (list InstanceType)) :=
  r ← run_filters reqs (launch_filters requests) st its;
  Some match r with
       | Err e => Err e
       | Ok (st', remaining) =>
           match Truncate ((λ p, st' !!! p) <$> remaining) reqs maxInstanceTypes with
           | Some its' => Ok its'
           | None => Err (InsufficientCapacityError
               (errorf "truncating instance types based on the passed-in requirements"))
           end
       end.

(** ** Capacity type and tenancy *)

Definition additionalOnDemand : list string :=
  filter (λ ct, ct ≠ CapacityTypeOnDemand) OnDemandCapacityTypes.

(** Some instance type has a launchable offering of capacity type [ct]. *)
Definition launchable_as (reqs : Requirements) (its : list InstanceType) (ct : string) : bool :=
  req_Has (Get reqs CapacityTypeLabelKey) ct &&
  existsb (λ it, bool_decide
    (ofs_Launchable (ofs_Compatible (Offerings it) (SetIn reqs CapacityTypeLabelKey [ct])) ≠ [])) its.

Definition getCapacityType (reqs : Requirements) (its : list InstanceType) : string :=
  let allowed := Get reqs CapacityTypeLabelKey in
  match Find (launchable_as reqs its)
          ([CapacityTypeReserved; CapacityTypeSpot] ++ additionalOnDemand) with
  | Some ct => ct
  | None =>
      if negb (req_Has allowed CapacityTypeOnDemand) then
        match Find (req_Has allowed) additionalOnDemand with
        | Some ct => ct
        | None => CapacityTypeOnDemand
        end
      else CapacityTypeOnDemand
  end.

(** [None] for a requirement that is nil. *)
Definition getTenancyType (requirement : option Requirement) : string :=
  match requirement with
  | None => TenancyDefault
  | Some r => default TenancyDefault (Find (req_Has r) [TenancyDefault; TenancyDedicated])
  end.

Definition getCapacityReservationType (its : list InstanceType) : option string :=
  (λ o, req_Any (Get (off_Requirements o) LabelCapacityReservationType)) <$>
    Find (λ o, HasKey (off_Requirements o) LabelCapacityReservationType) (its ≫= Offerings).

Definition getCapacityReservationInterruptible (its : list InstanceType) : bool :=
  match Find (λ o, HasKey (off_Requirements o) LabelCapacityReservationInterruptible)
          (its ≫= Offerings) with
  | Some o => bool_decide
      (req_Any (Get (off_Requirements o) LabelCapacityReservationInterruptible) = "true")
  | None => false
  end.

(** ** Launch template configurations *)

(** The offerings of a launch template: compatible, launchable and, for a template of one
    reservation, of that reservation. *)
Definition override_offerings (reqs : Requirements) (capacityReservationID : string)
    (it : InstanceType) : list Offering :=
  let ofs := ofs_Launchable (ofs_Compatible (Offerings it) reqs) in
  if decide (capacityReservationID ≠ "")
  then ofs_Compatible ofs (NewRequirements [(ReservationIDLabel, [capacityReservationID])] [])
  else ofs.

Definition override_key (io : InstanceType * Offering) : string :=
  Name io.1 +:+ "/" +:+ Zone io.2.

Definition make_override (zonalSubnets : gmap string LaunchSubnet) (image : string)
    (skipSubnet : bool) (io : InstanceType * Offering) : option FleetOverrides :=
  (λ subnet,
     {| ov_InstanceType := Name io.1;
        ov_SubnetId := if skipSubnet then None else Some (ls_ID subnet);
        ov_ImageId := image; ov_AvailabilityZone := ls_Zone subnet; ov_Priority := Price io.2 |})
    <$> zonalSubnets !! Zone io.2.

Definition getOverrides (its : list InstanceType) (zonalSubnets : gmap string LaunchSubnet)
    (reqs : Requirements) (image capacityReservationID : string) (skipSubnet : bool) :
    list FleetOverrides :=
  omap (make_override zonalSubnets image skipSubnet)
    (UniqBy override_key
       (it ← its; pair it <$> override_offerings reqs capacityReservationID it)).

(** The subnets a template may use: a zone-scoped template only its zone's; [None] skips
    the template. *)
Definition effective_subnets (zonalSubnets : gmap string LaunchSubnet) (lt : LaunchTemplate) :
    option (gmap string LaunchSubnet) :=
  if decide (lt_Zone lt ≠ "") then
    (λ s, {[lt_Zone lt := s]}) <$> zonalSubnets !! lt_Zone lt
  else Some zonalSubnets.

Definition launch_template_config (reqs : Requirements) (zonalSubnets : gmap string LaunchSubnet)
    (lt : LaunchTemplate) : option LaunchTemplateConfig :=
  subnets ← effective_subnets zonalSubnets lt;
  let overrides := getOverrides (lt_InstanceTypes lt) subnets reqs (lt_ImageID lt)
                     (lt_CapacityReservationID lt) (bool_decide (lt_Zone lt ≠ "")) in
  if decide (overrides = []) then None
  else Some {| lc_LaunchTemplateName := lt_Name lt; lc_Version := "$Latest";
               lc_Overrides := overrides |}.

Definition getLaunchTemplateConfigs (reqs : Requirements) (capacityType : string)
    (zonalSubnets : gmap string LaunchSubnet) (launchTemplates : result error (list LaunchTemplate)) :
    result error (list LaunchTemplateConfig) :=
  match launchTemplates with
  | Err e => Err (wrap "getting launch templates" e)
  | Ok lts =>
      match omap (launch_template_config (SetIn reqs CapacityTypeLabelKey [capacityType])
                    zonalSubnets) lts with
      | [] => Err (errorf "no capacity offerings are currently available given the constraints")
      | configs => Ok configs
      end
  end.

(** ** The fleet request *)

(** [CreateFleetInputBuilder] *)
Record CreateFleetInputBuilder := {
  cb_capacityType : string;
  cb_tags : gmap string string;
  cb_launchTemplateConfigs : list LaunchTemplateConfig;
  cb_contextID : option string;
  cb_capacityReservationType : string;
  cb_capacityReservationInterruptible : bool;
  cb_overlay : bool;
}.

Definition NewCreateFleetInputBuilder (capacityType : string) (tags : gmap string string)
    (configs : list LaunchTemplateConfig) : CreateFleetInputBuilder :=
  {| cb_capacityType := capacityType; cb_tags := tags; cb_launchTemplateConfigs := configs;
     cb_contextID := None; cb_capacityReservationType := "";
     cb_capacityReservationInterruptible := false; cb_overlay := false |}.

Definition WithContextID (id : string) (b : CreateFleetInputBuilder) : CreateFleetInputBuilder :=
  {| cb_capacityType := cb_capacityType b; cb_tags := cb_tags b;
     cb_launchTemplateConfigs := cb_launchTemplateConfigs b; cb_contextID := Some id;
     cb_capacityReservationType := cb_capacityReservationType b;
     cb_capacityReservationInterruptible := cb_capacityReservationInterruptible b;
     cb_overlay := cb_overlay b |}.

Definition WithOverlay (b : CreateFleetInputBuilder) : CreateFleetInputBuilder :=
  {| cb_capacityType := cb_capacityType b; cb_tags := cb_tags b;
     cb_launchTemplateConfigs := cb_launchTemplateConfigs b; cb_contextID := cb_contextID b;
     cb_capacityReservationType := cb_capacityReservationType b;
     cb_capacityReservationInterruptible := cb_capacityReservationInterruptible b;
     cb_overlay := true |}.

Definition WithCapacityReservationType (crt : string) (interruptible : bool)
    (b : CreateFleetInputBuilder) : option CreateFleetInputBuilder :=
  if decide (cb_capacityType b ≠ CapacityTypeReserved) then None
  else Some
    {| cb_capacityType := cb_capacityType b; cb_tags := cb_tags b;
       cb_launchTemplateConfigs := cb_launchTemplateConfigs b; cb_contextID := cb_contextID b;
       cb_capacityReservationType := crt; cb_capacityReservationInterruptible := interruptible;
       cb_overlay := cb_overlay b |}.

Definition defaultTargetCapacityType (b : CreateFleetInputBuilder) : option string :=
  if decide (cb_capacityType b = CapacityTypeReserved) then
    if decide (cb_capacityReservationType b = CapacityReservationTypeCapacityBlock)
    then Some "capacity-block"
    else if cb_capacityReservationInterruptible b then Some "reserved-capacity"
    else Some "on-demand"
  else if decide (cb_capacityType b = CapacityTypeOnDemand ∨ cb_capacityType b = CapacityTypeSpot)
  then Some (cb_capacityType b)
  else if isOnDemandClass (cb_capacityType b) then Some "on-demand"
  else None.

(** [DefaultAllocationStrategyProvider] *)
Definition OnDemandAllocationStrategy (overlay : bool) : string :=
  if overlay then "prioritized" else "lowest-price".
Definition SpotAllocationStrategy (overlay : bool) : string :=
  if overlay then "capacity-optimized-prioritized" else "price-capacity-optimized".

(** The market options of a fleet request; at most one of them is set. *)
Inductive MarketOptions :=
  | SpotOptions (strategy : string)
  | ReservedCapacityOptions (types : list string)
  | OnDemandOptions (strategy : string)
  | NoOptions.

Record FleetRequest := {
  fr_Type : string;
  fr_Context : option string;
  fr_LaunchTemplateConfigs : list LaunchTemplateConfig;
  fr_DefaultTargetCapacityType : string;
  fr_MarketOptions : MarketOptions;
  fr_Tags : gmap string string;           (* on the instance, its volumes and the fleet *)
}.

Definition market_options (b : CreateFleetInputBuilder) : MarketOptions :=
  if decide (cb_capacityType b = CapacityTypeSpot) then
    SpotOptions (SpotAllocationStrategy (cb_overlay b))
  else if cb_capacityReservationInterruptible b then
    ReservedCapacityOptions ["interruptible-capacity-reservation"]
  else if decide (cb_capacityReservationType b ≠ CapacityReservationTypeCapacityBlock) then
    OnDemandOptions (OnDemandAllocationStrategy (cb_overlay b))
  else NoOptions.

Definition Build (b : CreateFleetInputBuilder) : option (CreateFleetInput (Body := FleetRequest)) :=
  target ← defaultTargetCapacityType b;
  Some {| TotalTargetCapacity := Some 1;
          cf_body := {| fr_Type := "instant"; fr_Context := cb_contextID b;
                        fr_LaunchTemplateConfigs := cb_launchTemplateConfigs b;
                        fr_DefaultTargetCapacityType := target;
                        fr_MarketOptions := market_options b; fr_Tags := cb_tags b |} |}.
End create.

(** ** Fleet errors *)

(** [fmt.Sprintf("%s: %s", code, message)] *)
Definition fleet_error_text (err : CreateFleetError) : string :=
  cfe_ErrorCode err +:+ ": " +:+ default "" (cfe_ErrorMessage err).

(** The text of a [multierr]: the texts of its errors, separated by ["; "]. *)
Fixpoint join_errors (l : list string) : string :=
  match l with
  | [] => ""
  | [s] => s
  | s :: l' => s +:+ "; " +:+ join_errors l'
  end.

Definition is_ice (err : CreateFleetError) : bool :=
  IsUnfulfillableCapacity err || IsServiceLinkedRoleCreationNotPermitted err.

Definition combineFleetErrors (fleetErrs : list CreateFleetError) : cp_error :=
  let unique : gset string := list_to_set (fleet_error_text <$> fleetErrs) in
  let errs := errorf (join_errors (elements unique)) in
  let iceErrorCount := length (filter (λ err, is_ice err = true) fleetErrs) in
  if decide (iceErrorCount = length fleetErrs)
  then InsufficientCapacityError (wrap "with fleet error(s)" errs)
  else let '(reason, message) := ToReasonMessage errs in CreateError errs reason message.

(** ** Launching *)

(** Calls to other components, in order. *)
Inductive event :=
  | EvCreateFleet (attempt : nat)
  | EvUpdateInflightIPs (attempt : nat)
  | EvInvalidateLaunchTemplate (name : string)
  | EvUpdateICEdSubnet (subnet : string)
  | EvSpotServiceLinkedRoleCreationFailure.

Section launch.
Context `{S : Scheduling} `{Inhabited Requirements}.
Context {CU CL CT : Type} `{GoCache unit CU, GoCache positive CL, GoCache unit CT}.

(** The ICE cache, the reservation availability cache, and the calls made so far. *)
Record LaunchState := {
  st_offerings : UnavailableOfferings CU;
  st_reservations : availabilityCache CL CT;
  st_trace : list event;
}.

Definition emit (e : event) (s : LaunchState) : LaunchState :=
  {| st_offerings := st_offerings s; st_reservations := st_reservations s;
     st_trace := st_trace s ++ [e] |}.
Definition on_offerings (f : UnavailableOfferings CU → UnavailableOfferings CU) (s : LaunchState) :=
  {| st_offerings := f (st_offerings s); st_reservations := st_reservations s;
     st_trace := st_trace s |}.
Definition on_reservations (f : availabilityCache CL CT → availabilityCache CL CT) (s : LaunchState) :=
  {| st_offerings := st_offerings s; st_reservations := f (st_reservations s);
     st_trace := st_trace s |}.

Variable now : Z.

Definition reservedOfferingID (instanceType zone : string) (its : list InstanceType) : string :=
  match Find (λ o, is_reserved o && bool_decide (Zone o = zone))
          (it ← filter (λ it, Name it = instanceType) its; Offerings it) with
  | Some o => ReservationID o
  | None => ""
  end.

(** The loop over all errors: a subnet without free addresses becomes unavailable. *)
Definition update_subnet (s : LaunchState) (err : CreateFleetError) : LaunchState :=
  let subnet := default "" (cfe_SubnetId err) in
  if IsInsufficientFreeAddressesInSubnet err && bool_decide (subnet ≠ "") then
    emit (EvUpdateICEdSubnet subnet) (on_offerings (λ u, MarkSubnetUnavailable u now subnet) s)
  else s.

(** One error of a launch that is not reserved. *)
Definition update_market (capacityType : string) (its : list InstanceType) (pgID : string)
    (pgOpts : list UnavailableOfferingsOption) (s : LaunchState) (err : CreateFleetError) :
    LaunchState :=
  let zone := cfe_AvailabilityZone err in
  let publish_slr s :=
    if IsServiceLinkedRoleCreationNotPermitted err then
      emit EvSpotServiceLinkedRoleCreationFailure
        (on_offerings (λ u, MarkCapacityTypeUnavailable u now CapacityTypeSpot) s)
    else s in
  if IsUnfulfillableCapacity err then
    if IsSpreadPlacementGroupLimitError err && bool_decide (pgID ≠ "") then
      foldl (λ s it, on_offerings (λ u, MarkUnavailable u now (Name it) zone capacityType
                                          [WithPlacementGroup pgID]) s) s its
    else
      publish_slr (on_offerings (λ u, MarkUnavailable u now (cfe_InstanceType err) zone
                                        capacityType pgOpts) s)
  else publish_slr s.

(** One error of a reserved launch. *)
Definition update_reserved (its : list InstanceType) (s : LaunchState) (err : CreateFleetError) :
    LaunchState :=
  if negb (IsUnfulfillableCapacity err) then s
  else if IsSpreadPlacementGroupLimitError err then s
  else
    let resID := reservedOfferingID (cfe_InstanceType err) (cfe_AvailabilityZone err) its in
    if IsReservationCapacityExceeded err then
      if decide (resID ≠ "")
      then on_reservations (λ a, SetAvailableInstanceCount a now now resID 0) s
      else s
    else
      on_offerings (λ u, MarkUnavailable u now (cfe_InstanceType err) (cfe_AvailabilityZone err)
        CapacityTypeReserved (if decide (resID ≠ "") then [WithReservationID resID] else [])) s.

Definition updateUnavailableOfferingsCache (errs : list CreateFleetError) (capacityType : string)
    (its : list InstanceType) (pgID : string) (pgOpts : list UnavailableOfferingsOption)
    (s : LaunchState) : LaunchState :=
  let s := foldl update_subnet s errs in
  if decide (capacityType ≠ CapacityTypeReserved)
  then foldl (update_market capacityType its pgID pgOpts) s errs
  else foldl (update_reserved its) s errs.

(** *** The collaborators, by attempt *)

(** The NodeClaim and NodeClass of a launch, as far as it reads them. *)
Record LaunchSpec := {
  sp_requirements : Requirements;
  sp_requests : ResourceList;
  sp_tags : gmap string string;
  sp_overlay : bool;                     (* the price overlay annotation is present *)
  sp_context : option string;            (* Spec.Context *)
  sp_minValuesRelaxed : bool;            (* the min-values-relaxed annotation is "true" *)
  sp_tenancy : option Requirement;
}.

Variable ZonalSubnetsForLaunch :
  nat → list InstanceType → string → result error (gmap string LaunchSubnet).
Variable EnsureAll : nat → list InstanceType → string → string → result error (list LaunchTemplate).
Variable CreateFleet :
  nat → CreateFleetInput (Body := FleetRequest) →
  result error (CreateFleetOutput (Overrides := FleetOverrides) (Meta := unit)).
(** The placement group the NodeClass resolves to after the fleet call, and the values the
    NodeClaim allows for its partition. *)
Variable placementGroupID : nat → option string.
Variable partitionValues : Requirements → list string.
(** [sort.Strings] and [values[0]] *)
Variable lowest : list string → string.

Definition pg_options (attempt : nat) (spec : LaunchSpec) : string * list UnavailableOfferingsOption :=
  match placementGroupID attempt with
  | None => ("", [])
  | Some id =>
      (id, WithPlacementGroup id ::
           match partitionValues (sp_requirements spec) with
           | [] => []
           | vs => [WithPlacementGroupPartition (lowest vs)]
           end)
  end.

(** The fleet request of a launch; [None] is a panic. *)
Definition fleet_input (spec : LaunchSpec) (capacityType : string) (its : list InstanceType)
    (configs : list LaunchTemplateConfig) : option (CreateFleetInput (Body := FleetRequest)) :=
  let b := NewCreateFleetInputBuilder capacityType (sp_tags spec) configs in
  let b := if sp_overlay spec then WithOverlay b else b in
  let b := match sp_context spec with
           | Some id => if sp_minValuesRelaxed spec then b else WithContextID id b
           | None => b
           end in
  b ← (if decide (capacityType = CapacityTypeReserved) then
         crt ← getCapacityReservationType its;
         WithCapacityReservationType crt (getCapacityReservationInterruptible its) b
       else Some b);
  Build b.

Definition launched_instance (output : CreateFleetOutput (Overrides := FleetOverrides) (Meta := unit)) :
    result cp_error (CreateFleetInstance (Overrides := FleetOverrides)) :=
  match Instances output with
  | i :: _ => match cfi_InstanceIds i with
              | [] => Err (combineFleetErrors (Errors output))
              | _ => Ok i
              end
  | [] => Err (combineFleetErrors (Errors output))
  end.

(** [launchInstance]; [None] is a panic. *)
Definition launchInstance (attempt : nat) (spec : LaunchSpec) (capacityType : string)
    (its : list InstanceType) (tenancy : string) (s : LaunchState) :
    option (LaunchState * result cp_error (CreateFleetInstance (Overrides := FleetOverrides))) :=
  match ZonalSubnetsForLaunch attempt its capacityType with
  | Err e => Some (s, Err (CreateError (wrap "getting subnets" e) "SubnetResolutionFailed"
                             "Error getting subnets"))
  | Ok zonalSubnets =>
      match getLaunchTemplateConfigs (sp_requirements spec) capacityType zonalSubnets
              (EnsureAll attempt its capacityType tenancy) with
      | Err e =>
          let '(reason, message) := ToReasonMessage e in
          Some (s, Err (CreateError (wrap "getting launch template configs" e) reason
                          ("Error getting launch template configs: " +:+ message)))
      | Ok configs =>
          input ← fleet_input spec capacityType its configs;
          let s := emit (EvUpdateInflightIPs attempt) (emit (EvCreateFleet attempt) s) in
          Some match CreateFleet attempt input with
               | Err e =>
                   let '(reason, message) := ToReasonMessage e in
                   if IsLaunchTemplateNotFound (Some e) then
                     (foldl (λ s c, emit (EvInvalidateLaunchTemplate (lc_LaunchTemplateName c)) s)
                        s configs,
                      Err (CreateError (wrap "launch templates not found when creating fleet request" e)
                             reason ("Launch templates not found when creating fleet request: "
                                     +:+ message)))
                   else
                     (s, Err (CreateError (wrap "creating fleet request" e) reason
                                ("Error creating fleet request: " +:+ message)))
               | Ok output =>
                   let '(pgID, pgOpts) := pg_options attempt spec in
                   (updateUnavailableOfferingsCache (Errors output) capacityType its pgID pgOpts s,
                    launched_instance output)
               end
      end
  end.

(** *** Create *)

Record CapacityReservationDetails := {
  crd_ID : string;
  crd_Type : string;
  crd_Interruptible : bool;
}.

(** [instance.Instance] *)
Record Instance_ := {
  LaunchTime : Z;
  inst_State : string;
  inst_ID : string;
  inst_ImageID : string;
  inst_Type : string;
  inst_Zone : string;
  inst_ZoneID : string;
  inst_CapacityType : string;
  inst_SecurityGroupIDs : list string;
  inst_SubnetID : string;
  inst_Tags : gmap string string;
  inst_EFACount : Z;
  inst_CapacityReservationDetails : option CapacityReservationDetails;
  inst_Tenancy : string;
  inst_PartitionNumber : option Z;
}.

(** [NewInstanceFromFleet] with the options [WithCapacityReservationDetails] and
    [WithEFACount]. *)
Definition NewInstanceFromFleet (out : CreateFleetInstance (Overrides := FleetOverrides))
    (capacityType : string) (tags : gmap string string) (tenancy : string)
    (details : option CapacityReservationDetails) (efaCount : Z) : Instance_ :=
  {| LaunchTime := now; inst_State := "pending"; inst_ID := default "" (head (cfi_InstanceIds out));
     inst_ImageID := ov_ImageId (cfi_LaunchTemplateAndOverrides out);
     inst_Type := cfi_InstanceType out;
     inst_Zone := ov_AvailabilityZone (cfi_LaunchTemplateAndOverrides out); inst_ZoneID := "";
     inst_CapacityType := capacityType; inst_SecurityGroupIDs := [];
     inst_SubnetID := default "" (ov_SubnetId (cfi_LaunchTemplateAndOverrides out));
     inst_Tags := tags; inst_EFACount := efaCount; inst_CapacityReservationDetails := details;
     inst_Tenancy := tenancy; inst_PartitionNumber := None |}.

(** [None] is the panic of a reserved launch without a matching reservation. *)
Definition getCapacityReservationDetailsForInstance (instance zone : string)
    (its : list InstanceType) : option CapacityReservationDetails :=
  (λ o, {| crd_ID := ReservationID o; crd_Type := (reservation_of o).1;
           crd_Interruptible := (reservation_of o).2 |}) <$>
    Find (λ o, is_reserved o && bool_decide (Zone o = zone))
      (it ← filter (λ it, Name it = instance) its; Offerings it).

(** [None] is the panic for an instance type that is not in the list. *)
Definition getEFACountForInstance (enabled : bool) (instanceType : string)
    (its : list InstanceType) : option Z :=
  if negb enabled then Some 0
  else (λ it, if IsZero (Capacity it) ResourceEFA then 0
              else i64 (Value (default 0 (Capacity it !! ResourceEFA)))) <$>
         Find (λ it, bool_decide (Name it = instanceType)) its.

(** Whether the NodeClass or the NodeClaim ask for EFA interfaces. *)
Variable efaEnabled : bool.

(** [Create]; [None] is a panic. *)
Definition Create (spec : LaunchSpec) (st : store) (its : list ptr) (s : LaunchState) :
    option (LaunchState * result cp_error Instance_) :=
  filtered ← filterInstanceTypes (sp_requirements spec) (sp_requests spec) st its;
  match filtered with
  | Err e => Some (s, Err e)
  | Ok its =>
      let capacityType := getCapacityType (sp_requirements spec) its in
      let tenancyType := getTenancyType (sp_tenancy spec) in
      '(s, r) ← launchInstance 0 spec capacityType its tenancyType s;
      '(s, r) ← (match r with
                 | Err e => if IsLaunchTemplateNotFound (Some (cp_cause e))
                            then launchInstance 1 spec capacityType its tenancyType s
                            else Some (s, r)
                 | Ok _ => Some (s, r)
                 end);
      match r with
      | Err e => Some (s, Err e)
      | Ok fleetInstance =>
          details ← (if decide (capacityType = CapacityTypeReserved) then
                       Some <$> getCapacityReservationDetailsForInstance
                         (cfi_InstanceType fleetInstance)
                         (ov_AvailabilityZone (cfi_LaunchTemplateAndOverrides fleetInstance)) its
                     else Some None);
          efaCount ← getEFACountForInstance efaEnabled (cfi_InstanceType fleetInstance) its;
          Some (s, Ok (NewInstanceFromFleet fleetInstance capacityType (sp_tags spec) tenancyType
                         details (if decide (0 < efaCount) then efaCount else 0)))
      end
  end.
End launch.

(** ** Properties of the filter chain *)

Section chain.
Context `{SL : SchedulingLaws} `{Inhabited Requirements}.
Variable reqs : Requirements.

(** What a run of filters preserves. *)
Record chain_inv (st : store) (its : list ptr) (st' : store) (its' : list ptr) : Prop := {
  ch_le : store_le st st';
  ch_sub : its' ⊆ its;
  ch_distinct : distinct st' its';
  ch_valid : valid_reservations reqs st' its';
}.

Lemma chain_step f st its st1 its1 r :
  chain_inv st its st1 its1 → runFilter reqs f st1 its1 = Some r →
  chain_inv st its (f_store r) (f_kept r).
Proof.
  intros [Hle Hsub Hd Hv] Hr. destruct (runFilter_run reqs f st1 its1 Hd Hv) as (r' & Hr' & [Hp Hs] & _).
  rewrite Hr' in Hr. simplify_eq.
  assert (f_kept r ⊆ its1) as Hk by (intros p Hp'; rewrite Hp; by apply elem_of_app; left).
  split.
  - by etrans.
  - by etrans.
  - eapply distinct_names; [done|]. by eapply distinct_perm.
  - by eapply valid_reservations_narrow.
Qed.

Lemma run_filters_chain fs st its st1 its1 :
  chain_inv st its st1 its1 → its1 ≠ [] →
  (∀ requests, CompatibleLaunchableFilter requests ∉ fs) →
  ∃ st' its', run_filters reqs fs st1 its1 = Some (Ok (st', its')) ∧ its' ≠ [] ∧
    chain_inv st its st' its'.
Proof.
  revert st1 its1. induction fs as [|f fs IH]; intros st1 its1 Hch Hne Hfs; simpl.
  - by exists st1, its1.
  - destruct (runFilter_run reqs f st1 its1 (ch_distinct _ _ _ _ Hch) (ch_valid _ _ _ _ Hch))
      as (r & Hr & _ & Hkept).
    rewrite Hr. simpl. rewrite decide_False.
    + apply IH; [by eapply chain_step| |].
      * apply Hkept; [|done]. intros requests ->. by apply (Hfs requests); left.
      * intros requests ?. apply (Hfs requests). by right.
    + apply Hkept; [|done]. intros requests ->. by apply (Hfs requests); left.
Qed.

Lemma chain_start st its : distinct st its → valid_reservations reqs st its → chain_inv st its st its.
Proof. by split. Qed.

Lemma run_filters_cons f fs st its r :
  run_filters reqs (f :: fs) st its = Some (Ok r) →
  ∃ r1, runFilter reqs f st its = Some r1 ∧ run_filters reqs fs (f_store r1) (f_kept r1) = Some (Ok r).
Proof.
  simpl. intros (r1 & Hr1 & Hrest)%bind_Some. exists r1. split; [done|].
  by case_decide; simplify_eq.
Qed.

Lemma run_filters_inv fs st its st1 its1 st' its' :
  chain_inv st its st1 its1 → run_filters reqs fs st1 its1 = Some (Ok (st', its')) →
  chain_inv st its st' its'.
Proof.
  revert st1 its1. induction fs as [|f fs IH]; intros st1 its1 Hch.
  - intros Hr. cbn in Hr. by simplify_eq.
  - intros (r1 & Hr1 & Hrest)%run_filters_cons. eapply IH; [|done]. by eapply chain_step.
Qed.

(** An offering left at the end was there, in the same instance type, before. *)
Lemma chain_elem st its st' its' p o :
  chain_inv st its st' its' → p ∈ its' → o ∈ Offerings (st' !!! p) →
  p ∈ its ∧ o ∈ Offerings (st !!! p).
Proof.
  intros [Hle Hsub _ _] Hp Ho. split; [by apply Hsub|].
  destruct (Hle p) as [_ Hofs]. by eapply elem_of_submseteq.
Qed.

Lemma filterInstanceTypes_ok requests st its its' :
  filterInstanceTypes reqs requests st its = Some (Ok its') →
  ∃ st' remaining, run_filters reqs (launch_filters requests) st its = Some (Ok (st', remaining)) ∧
    ∀ it, it ∈ its' → ∃ p, p ∈ remaining ∧ it = st' !!! p.
Proof.
  unfold filterInstanceTypes. intros ([[st' remaining]|e] & Hr & Hf)%bind_Some; [|by simplify_eq].
  exists st', remaining. split; [done|]. intros it Hit.
  destruct (Truncate _ _ _) as [its''|] eqn:E; simplify_eq.
  eapply Truncate_sub in Hit; [|exact E]. apply list_elem_of_fmap in Hit as (p & -> & Hp). by exists p.
Qed.

(** *** The capacity type of the launch *)

(** The shape the offering resolvers give an offering: one capacity type, and the type and
    interruptibility labels on reserved ones. *)
Record offering_wf (o : Offering) : Prop := {
  ow_key : HasKey (off_Requirements o) CapacityTypeLabelKey = true;
  ow_single : single_valued (Get (off_Requirements o) CapacityTypeLabelKey);
  ow_type : CapacityType o = CapacityTypeReserved →
    HasKey (off_Requirements o) LabelCapacityReservationType = true;
  ow_interruptible : CapacityType o = CapacityTypeReserved →
    HasKey (off_Requirements o) LabelCapacityReservationInterruptible = true;
}.

Lemma launchable_as_elem its ct :
  launchable_as reqs its ct = true →
  req_Has (Get reqs CapacityTypeLabelKey) ct = true ∧
  ∃ it o, it ∈ its ∧ o ∈ Offerings it ∧ Launchable o = true ∧
    IsCompatible (SetIn reqs CapacityTypeLabelKey [ct]) (off_Requirements o) = true.
Proof.
  unfold launchable_as. rewrite andb_true_iff, existsb_exists. intros [Hhas (it & Hit & Hne)].
  split; [done|]. apply bool_decide_eq_true in Hne. rewrite ofs_Launchable_filter in Hne.
  apply filter_nonempty in Hne as (o & [Ho Hc]%elem_of_Compatible & Hl).
  exists it, o. split; [by apply list_elem_of_In|]. done.
Qed.

Lemma launchable_as_capacity_type its ct :
  (∀ it o, it ∈ its → o ∈ Offerings it → offering_wf o) → launchable_as reqs its ct = true →
  ∃ it o, it ∈ its ∧ o ∈ Offerings it ∧ Launchable o = true ∧ CapacityType o = ct ∧
    IsCompatible reqs (off_Requirements o) = true.
Proof.
  intros Hwf (Hhas & it & o & Hit & Ho & Hl & Hc)%launchable_as_elem. exists it, o.
  destruct (Hwf it o Hit Ho) as [Hk Hsv _ _]. split; [done|]. split; [done|]. split; [done|].
  split; [|by eapply SetIn_widen]. rewrite CapacityType_Any. symmetry. apply Hsv.
  by eapply SetIn_Has.
Qed.

Lemma getCapacityType_reserved its :
  getCapacityType reqs its = CapacityTypeReserved →
  launchable_as reqs its CapacityTypeReserved = true.
Proof.
  unfold getCapacityType. destruct (Find _ _) as [ct|] eqn:E.
  - intros ->. by apply Find_Some in E as [_ ?].
  - destruct (negb _); [|done]. destruct (Find _ additionalOnDemand) as [ct|] eqn:E2; [|done].
    intros ->. apply Find_Some in E2 as [Hin _]. apply list_elem_of_filter in Hin as [_ Hin].
    exfalso. by eapply reserved_not_on_demand, OnDemandCapacityTypes_class.
Qed.

(** The states between the filters that restrict a reserved launch. *)
Lemma reserved_restricted requests st its st' remaining p0 o0 :
  distinct st its → valid_reservations reqs st its →
  (∀ p o, p ∈ its → o ∈ Offerings (st !!! p) → Price o < MaxFloat64) →
  run_filters reqs (launch_filters requests) st its = Some (Ok (st', remaining)) →
  wants_reserved reqs = true →
  p0 ∈ remaining → o0 ∈ Offerings (st' !!! p0) → Launchable o0 = true → is_reserved o0 = true →
  IsCompatible reqs (off_Requirements o0) = true →
  ∃ k, ∀ p, p ∈ remaining → NoDup (Zone <$> Offerings (st' !!! p)) ∧
    ∀ o, o ∈ Offerings (st' !!! p) → in_partition k o = true.
Proof.
  intros Hd Hv Hmax Hrun Hw Hp0 Ho0 Hl0 Hr0 Hc0. unfold launch_filters in Hrun.
  apply run_filters_cons in Hrun as (r1 & Hf1 & Hrun).
  pose proof (chain_step _ _ _ _ _ _ (chain_start st its Hd Hv) Hf1) as C1.
  apply run_filters_cons in Hrun as (r2 & Hf2 & Hrun).
  pose proof (chain_start _ _ (ch_distinct _ _ _ _ C1) (ch_valid _ _ _ _ C1)) as D1.
  pose proof (chain_step _ _ _ _ _ _ D1 Hf2) as C2.
  pose proof (chain_start _ _ (ch_distinct _ _ _ _ C2) (ch_valid _ _ _ _ C2)) as D2.
  pose proof (run_filters_inv _ _ _ _ _ _ _ D2 Hrun) as C26.
  pose proof (run_filters_inv _ _ _ _ _ _ _ C2 Hrun) as C16.
  apply run_filters_cons in Hrun as (r3 & Hf3 & Hrun).
  pose proof (chain_step _ _ _ _ _ _ D2 Hf3) as C3.
  pose proof (chain_start _ _ (ch_distinct _ _ _ _ C3) (ch_valid _ _ _ _ C3)) as D3.
  pose proof (run_filters_inv _ _ _ _ _ _ _ D3 Hrun) as C36.
  apply run_filters_cons in Hrun as (r4 & Hf4 & Hrun).
  pose proof (chain_step _ _ _ _ _ _ D3 Hf4) as C4.
  pose proof (chain_start _ _ (ch_distinct _ _ _ _ C4) (ch_valid _ _ _ _ C4)) as D4.
  pose proof (run_filters_inv _ _ _ _ _ _ _ D4 Hrun) as C46. clear Hrun.
  destruct (chain_elem _ _ _ _ _ _ C16 Hp0 Ho0) as [Hp1 Ho1].
  destruct (chain_elem _ _ _ _ _ _ C36 Hp0 Ho0) as [Hp3 Ho3].
  assert ((p0, o0) ∈ offered reqs (f_store r1) (f_kept r1)) as Hoff by by apply elem_of_offered.
  destruct (reservation_filter_selects reqs (f_store r1) (f_kept r1)) as (r2' & Hf2' & _ & Hsel);
    [apply C1|done|apply C1| |].
  { intros p o Hpo. apply (elem_of_offered reqs (SL := SL)) in Hpo. destruct Hpo as (Hp & Ho & _).
    destruct (chain_elem _ _ _ _ _ _ C1 Hp Ho) as [? ?]. by eapply Hmax. }
  simpl in Hf2. rewrite Hf2' in Hf2. simplify_eq.
  destruct Hsel as (k & (_ & _ & Hofs2) & _); [by exists p0, o0|].
  destruct (reserved_filter_selects reqs (f_store r3) (f_kept r3)) as (r4' & Hf4' & _ & Hchoice);
    [apply C3|done| |].
  { exists p0, o0. split; [done|]. split; [done|]. unfold reserved_candidate.
    apply Launchable_spec in Hl0 as [-> Hcap]. rewrite Hc0, Hr0. simpl. apply bool_decide_eq_true.
    by apply Hcap, (bool_decide_eq_true_1 _ Hr0). }
  simpl in Hf4. rewrite Hf4' in Hf4. simplify_eq.
  exists k. intros p Hp. split.
  - assert (p ∈ f_kept r4) as Hp4 by by apply (ch_sub _ _ _ _ C46).
    destruct (Hchoice p Hp4) as [_ Hnd _ _]. destruct (ch_le _ _ _ _ C46 p) as [_ Hsub].
    eapply submseteq_NoDup; [|exact Hnd]. by apply fmap_submseteq.
  - intros o Ho. destruct (chain_elem _ _ _ _ _ _ C26 Hp Ho) as [Hp2 Ho2].
    rewrite Hofs2, decide_True in Ho2 by done. by apply list_elem_of_filter in Ho2 as [? _].
Qed.

(** *** Properties *)


End chain.

(** ** Properties of the fleet request *)

Section overrides.
Context `{SL : SchedulingLaws} `{Inhabited Requirements}.

Lemma UniqBy_omap_NoDup {A B} (f : A → option B) (ka : A → string) (kb : B → string) l :
  (∀ a b, f a = Some b → kb b = ka a) → NoDup (kb <$> omap f (UniqBy ka l)).
Proof.
  intros Hk. pose proof (UniqBy_NoDup ka l) as Hnd. induction (UniqBy ka l) as [|a k IH]; [constructor|].
  simpl in *. apply NoDup_cons in Hnd as [Hni Hnd]. destruct (f a) as [b|] eqn:E; [|by apply IH].
  simpl. constructor; [|by apply IH]. rewrite (Hk a b E). intros (b' & Hb & Hin)%list_elem_of_fmap.
  apply Hni. apply list_elem_of_omap in Hin as (a' & Ha' & Hf). apply list_elem_of_fmap.
  exists a'. split; [|done]. by rewrite Hb, (Hk _ _ Hf).
Qed.

(** An offering a template may launch. *)
Definition usable (reqs : Requirements) (resID : string) (it : InstanceType) (o : Offering) : Prop :=
  o ∈ Offerings it ∧ IsCompatible reqs (off_Requirements o) = true ∧ Launchable o = true ∧
  (resID ≠ "" → IsCompatible (NewRequirements [(ReservationIDLabel, [resID])] [])
                  (off_Requirements o) = true).

Lemma elem_of_override_offerings reqs resID it o :
  o ∈ override_offerings reqs resID it ↔ usable reqs resID it o.
Proof.
  unfold override_offerings, usable. case_decide as Hr;
    rewrite ?elem_of_Compatible, elem_of_Launchable, elem_of_Compatible; naive_solver.
Qed.

(** The overrides of a launch template.  Each override comes from a usable (compatible,
    launchable and, for the template of one reservation, matching) offering of one of its
    instance types, in a zone that has a subnet, with that subnet and the offering's
    price; no two overrides have the same instance type and zone, so the partition copies
    of an offering are sent once; and no usable pair of instance type and zone is lost. *)
Theorem getOverrides_spec its zonalSubnets reqs image resID skipSubnet :
  (∀ z s, zonalSubnets !! z = Some s → ls_Zone s = z) →
  let overrides := getOverrides its zonalSubnets reqs image resID skipSubnet in
  let pool ov := ov_InstanceType ov +:+ "/" +:+ ov_AvailabilityZone ov in
  NoDup (pool <$> overrides) ∧
  (∀ ov, ov ∈ overrides → ∃ it o s, it ∈ its ∧ usable reqs resID it o ∧
     zonalSubnets !! Zone o = Some s ∧
     ov = {| ov_InstanceType := Name it;
             ov_SubnetId := if skipSubnet then None else Some (ls_ID s);
             ov_ImageId := image; ov_AvailabilityZone := Zone o; ov_Priority := Price o |}) ∧
  (∀ it o, it ∈ its → usable reqs resID it o → is_Some (zonalSubnets !! Zone o) →
     (∀ it', it' ∈ its → free_of "/"%char (Name it')) →
     ∃ ov, ov ∈ overrides ∧ ov_InstanceType ov = Name it ∧ ov_AvailabilityZone ov = Zone o).
Proof.
  intros Hz overrides pool. set (l := it ← its; pair it <$> override_offerings reqs resID it).
  assert (∀ it o, (it, o) ∈ l ↔ it ∈ its ∧ usable reqs resID it o) as Hl.
  { intros it o. unfold l. rewrite list_elem_of_bind. setoid_rewrite list_elem_of_fmap.
    setoid_rewrite elem_of_override_offerings. naive_solver. }
  split; [|split].
  - apply UniqBy_omap_NoDup. intros [it o] ov (s & Hs & ->)%fmap_Some. unfold pool, override_key.
    simpl. by rewrite (Hz _ _ Hs).
  - intros ov ([it o] & Hin%UniqBy_elem & Hm)%list_elem_of_omap.
    apply Hl in Hin as [? ?]. apply fmap_Some in Hm as (s & Hs & ->). simpl in *.
    exists it, o, s. by rewrite (Hz _ _ Hs).
  - intros it o Hit Hu [s Hs] Hfrees.
    destruct (UniqBy_cover override_key l (it, o)) as ([it' o'] & Hin & Hkey); [by apply Hl|].
    pose proof (UniqBy_elem _ _ _ Hin) as [Hit' _]%Hl.
    assert (Name it' = Name it ∧ Zone o' = Zone o) as [Hn Hzone].
    { unfold override_key in Hkey. simpl in Hkey.
      assert (∀ a b c d : string, free_of "/"%char a → free_of "/"%char c →
                a +:+ "/" +:+ b = c +:+ "/" +:+ d → a = c ∧ b = d) as Hinj.
      { clear. induction a as [|x a IH]; intros b [|y c] d Ha Hc Heq; simpl in *.
        - by injection Heq.
        - injection Heq as <- _. by destruct Hc.
        - injection Heq as -> _. by destruct Ha.
        - injection Heq as -> Heq. destruct (IH b c d) as [-> ->]; tauto. }
      apply Hinj; [by apply Hfrees|by apply Hfrees|done]. }
    eexists. split; [apply list_elem_of_omap; exists (it', o'); split; [exact Hin|]|].
    { unfold make_override. simpl. rewrite Hzone, Hs. done. }
    split; [done|]. simpl. by apply Hz.
Qed.
End overrides.

(** ** Properties of the feedback *)

Section feedback.
Context `{S : Scheduling} `{Inhabited Requirements}.
Context {CU CL CT : Type} `{GoCacheLaws unit CU, GoCacheLaws positive CL, GoCacheLaws unit CT}.
Implicit Types (s : LaunchState (CU := CU) (CL := CL) (CT := CT)).

(** What the loops over fleet errors keep: the cache's lifetime, and entries that live at
    [t]. *)
Definition keeps (t : Z) s s' : Prop :=
  defaultTTL (offeringCache (st_offerings s')) = defaultTTL (offeringCache (st_offerings s)) ∧
  ∀ k, found (offeringCache (st_offerings s)) t k = true →
       found (offeringCache (st_offerings s')) t k = true.

#[local] Instance keeps_preorder t : PreOrder (keeps t).
Proof.
  split; [by intros s|]. intros a b c [E1 F1] [E2 F2]. split; [congruence|]. auto.
Qed.

Lemma foldl_keeps {A} t (f : LaunchState → A → LaunchState) (l : list A) s :
  (∀ s a, defaultTTL (offeringCache (st_offerings s)) = UnavailableOfferingsTTL → keeps t s (f s a)) →
  defaultTTL (offeringCache (st_offerings s)) = UnavailableOfferingsTTL → keeps t s (foldl f s l).
Proof.
  intros Hf. revert s. induction l as [|a l IH]; intros s Hs; simpl; [done|].
  pose proof (Hf s a Hs) as Hk. etrans; [exact Hk|]. apply IH. destruct Hk as [-> _]. done.
Qed.

Lemma found_SetDefault (c : CU) now t k k' :
  defaultTTL c = UnavailableOfferingsTTL → now ≤ t ≤ now + UnavailableOfferingsTTL →
  found (SetDefault c now k ()) t k' = bool_decide (k = k') || found c t k'.
Proof.
  intros Hc Ht. unfold found. destruct (decide (k = k')) as [->|Hne].
  - rewrite Get_SetDefault_eq, Hc by (by rewrite Hc). rewrite decide_True by lia.
    by rewrite (bool_decide_eq_true_2 (k' = k')).
  - rewrite Get_SetDefault_ne by done. by rewrite (bool_decide_eq_false_2 (k = k')).
Qed.

Lemma keeps_mark now t s it z ct opts :
  now ≤ t ≤ now + UnavailableOfferingsTTL →
  defaultTTL (offeringCache (st_offerings s)) = UnavailableOfferingsTTL →
  keeps t s (on_offerings (λ u, MarkUnavailable u now it z ct opts) s).
Proof.
  intros Ht Hs. split; simpl; [apply SetDefault_ttl|]. intros k Hk.
  rewrite found_SetDefault by done. rewrite Hk. apply orb_true_r.
Qed.

Lemma keeps_update_market now t ct its pgID pgOpts s err :
  now ≤ t ≤ now + UnavailableOfferingsTTL →
  defaultTTL (offeringCache (st_offerings s)) = UnavailableOfferingsTTL →
  keeps t s (update_market now ct its pgID pgOpts s err).
Proof.
  intros Ht Hs. unfold update_market.
  destruct (IsUnfulfillableCapacity err); [destruct (_ && _)|].
  - apply foldl_keeps; [|done]. intros. by apply keeps_mark.
  - destruct (IsServiceLinkedRoleCreationNotPermitted err); [|by apply keeps_mark].
    etrans; [by apply (keeps_mark now)|]. done.
  - by destruct (IsServiceLinkedRoleCreationNotPermitted err).
Qed.

Lemma update_subnet_keeps now t s err : keeps t s (update_subnet now s err).
Proof. unfold update_subnet. by destruct (_ && _). Qed.

(** A capacity error makes its offering unavailable.  After the feedback of a launch
    that is not reserved, whatever the other errors are, the instance type and zone of
    each unfulfillable-capacity error (other than the spread limit of the launch's
    placement group) read unavailable for the launch's capacity type and placement group
    scope during the three minutes that follow. *)
Theorem market_feedback now t ct its pgID pgOpts errs s err subs :
  defaultTTL (offeringCache (st_offerings s)) = UnavailableOfferingsTTL →
  ct ≠ CapacityTypeReserved → err ∈ errs → IsUnfulfillableCapacity err = true →
  (IsSpreadPlacementGroupLimitError err = false ∨ pgID = "") →
  now ≤ t ≤ now + 3 * Minute →
  IsUnavailable (st_offerings (updateUnavailableOfferingsCache now errs ct its pgID pgOpts s)) t
    (cfe_InstanceType err) (cfe_AvailabilityZone err) subs ct pgOpts = true.
Proof.
  intros Httl Hct Herr Hice Hspread Ht. unfold updateUnavailableOfferingsCache.
  rewrite decide_True by done. set (s0 := foldl (update_subnet now) s errs).
  assert (defaultTTL (offeringCache (st_offerings s0)) = UnavailableOfferingsTTL) as Hs0.
  { unfold s0. destruct (foldl_keeps t (update_subnet now) errs s) as [-> _]; [|done|done].
    intros. apply update_subnet_keeps. }
  clearbody s0. apply list_elem_of_split in Herr as (l1 & l2 & ->).
  rewrite foldl_app. simpl. set (s1 := foldl _ s0 l1).
  assert (∀ s a, defaultTTL (offeringCache (st_offerings s)) = UnavailableOfferingsTTL →
                 keeps t s (update_market now ct its pgID pgOpts s a)) as Hkeep.
  { intros. by apply keeps_update_market. }
  assert (defaultTTL (offeringCache (st_offerings s1)) = UnavailableOfferingsTTL) as Hs1.
  { unfold s1. by destruct (foldl_keeps t _ l1 s0 Hkeep Hs0) as [-> _]. }
  destruct (foldl_keeps t _ l2 (update_market now ct its pgID pgOpts s1 err) Hkeep) as [_ Hlast].
  { by destruct (Hkeep s1 err Hs1) as [-> _]. }
  unfold IsUnavailable. rewrite Hlast; [done|]. unfold update_market. rewrite Hice.
  replace (IsSpreadPlacementGroupLimitError err && bool_decide (pgID ≠ "")) with false.
  - destruct (IsServiceLinkedRoleCreationNotPermitted err); simpl;
      (rewrite found_SetDefault; [|done|done]); by rewrite bool_decide_eq_true_2.
  - symmetry. apply andb_false_iff. destruct Hspread as [->| ->]; [by left|right].
    apply bool_decide_eq_false_2. intros Hne. by apply Hne.
Qed.

(** Zeroing a list of reservations: what stays true of the availability cache, and the
    counts of those zeroed. *)
Definition zero_one now s (resID : string) : LaunchState :=
  if decide (resID ≠ "")
  then on_reservations (λ a, SetAvailableInstanceCount a now now resID 0) s else s.

Definition reservations_ok s : Prop :=
  ac_inv (st_reservations s) ∧
  defaultTTL (availabilityCache_ (st_reservations s)) = CapacityReservationAvailabilityTTL.

Lemma zero_one_spec now t s r r' :
  reservations_ok s → t ≤ now + CapacityReservationAvailabilityTTL →
  reservations_ok (zero_one now s r) ∧
  (r' = r ∧ r ≠ "" ∨ GetAvailableInstanceCount (st_reservations s) t r' = 0 →
   GetAvailableInstanceCount (st_reservations (zero_one now s r)) t r' = 0).
Proof.
  intros [Ha Httl] Ht. unfold zero_one. case_decide as Hr; simpl; [|by split; [split|intros [[-> ?]|?]]].
  split; [split; simpl; [by apply ac_inv_set_entry|by rewrite SetDefault_ttl]|].
  assert (0 < defaultTTL (availabilityCache_ (st_reservations s))) as Hpos by (rewrite Httl; done).
  unfold SetAvailableInstanceCount. rewrite !count_view, (view_set_entry _ _ _ _ _ _ Ha Hpos), Httl.
  destruct (decide (r' = r)); [by rewrite decide_True|]. naive_solver.
Qed.

Lemma zero_all_spec now t s rs :
  reservations_ok s → t ≤ now + CapacityReservationAvailabilityTTL →
  reservations_ok (foldl (zero_one now) s rs) ∧
  ∀ r, r ∈ rs → r ≠ "" → GetAvailableInstanceCount (st_reservations (foldl (zero_one now) s rs)) t r = 0.
Proof.
  intros Hs Ht. induction rs as [|x rs [IHok IH]] using rev_ind.
  - split; [done|]. by intros r ?%elem_of_nil.
  - rewrite foldl_snoc. split; [by apply (zero_one_spec now t _ x x)|].
    intros r [Hr| ->%list_elem_of_singleton]%elem_of_app Hne.
    + apply (zero_one_spec now t _ x r IHok Ht). right. by apply IH.
    + apply (zero_one_spec now t _ x x IHok Ht). by left.
Qed.

Lemma zero_all_offerings now s rs : st_offerings (foldl (zero_one now) s rs) = st_offerings s.
Proof.
  revert s. induction rs as [|x rs IH]; intros s; [done|]. simpl. rewrite IH. unfold zero_one.
  by case_decide.
Qed.

(** The errors of a reserved launch that only report full reservations. *)
Definition full_only (err : CreateFleetError) : Prop :=
  IsReservationCapacityExceeded err = true ∧ IsSpreadPlacementGroupLimitError err = false.

Lemma full_only_feedback now its errs pgID pgOpts s :
  Forall full_only errs →
  updateUnavailableOfferingsCache now errs CapacityTypeReserved its pgID pgOpts s =
  foldl (zero_one now) s
    ((λ e, reservedOfferingID (cfe_InstanceType e) (cfe_AvailabilityZone e) its) <$> errs).
Proof.
  intros Hall. unfold updateUnavailableOfferingsCache. rewrite decide_False by auto.
  assert (foldl (update_subnet now) s errs = s) as ->.
  { induction Hall as [|e errs [He _] Hall IH]; [done|]. simpl. unfold update_subnet at 2.
    replace (IsInsufficientFreeAddressesInSubnet e) with false; [done|].
    symmetry. unfold IsReservationCapacityExceeded in He.
    apply bool_decide_eq_true in He. apply bool_decide_eq_false. by rewrite He. }
  rewrite foldl_fmap_arg. revert s. induction Hall as [|e errs [He Hsp] Hall IH]; intros s; [done|].
  simpl. rewrite IH. f_equal. unfold update_reserved.
  rewrite capacity_subclasses by by left. by rewrite Hsp, He.
Qed.

(** A full reservation is not an unhealthy one.  If every error of a reserved launch is
    a capacity-exceeded error, the ICE cache is left exactly as it was, and every
    reservation an error is about has no available capacity afterwards. *)
Theorem reserved_feedback now t its errs pgID pgOpts s err :
  reservations_ok s → Forall full_only errs → err ∈ errs → t ≤ now + 24 * Hour →
  let s' := updateUnavailableOfferingsCache now errs CapacityTypeReserved its pgID pgOpts s in
  let resID := reservedOfferingID (cfe_InstanceType err) (cfe_AvailabilityZone err) its in
  st_offerings s' = st_offerings s ∧
  (resID ≠ "" → GetAvailableInstanceCount (st_reservations s') t resID = 0).
Proof.
  intros Hs Hall Herr Ht. simpl. rewrite full_only_feedback by done.
  split; [apply zero_all_offerings|]. intros Hne.
  apply (zero_all_spec now t); [done|done| |done].
  apply list_elem_of_fmap. by exists err.
Qed.

(** The classification of a failed launch.  A fleet response without an instance is an
    insufficient-capacity error exactly when every fleet error is a capacity error or the
    missing spot role, and otherwise a create error with the reason of its text. *)
Theorem launched_instance_classified output :
  launched_instance output =
  match Instances output with
  | i :: _ => if decide (cfi_InstanceIds i = []) then Err (combineFleetErrors (Errors output)) else Ok i
  | [] => Err (combineFleetErrors (Errors output))
  end ∧
  ((∃ e, combineFleetErrors (Errors output) = InsufficientCapacityError e) ↔
   Forall (λ err, IsUnfulfillableCapacity err = true ∨
                  IsServiceLinkedRoleCreationNotPermitted err = true) (Errors output)) ∧
  (¬ Forall (λ err, is_ice err = true) (Errors output) → ∃ e, combineFleetErrors (Errors output) =
     CreateError e (ToReasonMessage e).1 (ToReasonMessage e).2).
Proof.
  unfold launched_instance, combineFleetErrors.
  assert (length (filter (λ err, is_ice err = true) (Errors output)) = length (Errors output) ↔
          Forall (λ err, is_ice err = true) (Errors output)) as Hlen.
  { split.
    - intros Hl. apply Forall_forall. intros x Hx.
      destruct (decide (is_ice x = true)) as [|Hno]; [done|]. exfalso.
      pose proof (length_filter_lt (λ err, is_ice err = true) _ _ Hx Hno). lia.
    - intros Hall. f_equal. apply filter_all.
      by apply Forall_forall. }
  split; [|split].
  - destruct (Instances output) as [|i l]; [done|]. by destruct (cfi_InstanceIds i).
  - assert (Forall (λ err, IsUnfulfillableCapacity err = true ∨
              IsServiceLinkedRoleCreationNotPermitted err = true) (Errors output)
            ↔ Forall (λ err, is_ice err = true) (Errors output)) as ->.
    { apply Forall_iff. intros err. unfold is_ice. by rewrite orb_true_iff. }
    rewrite <- Hlen. case_decide; [naive_solver|]. destruct (ToReasonMessage _). naive_solver.
  - rewrite <- Hlen. intros Hne. rewrite decide_False by done.
    eexists. destruct (ToReasonMessage _) as [r m] eqn:E. by rewrite E.
Qed.
End feedback.

(** ** Properties of Create *)

Section attempts.
Context `{S : Scheduling} `{Inhabited Requirements}.
Context {CU CL CT : Type} `{GoCache unit CU, GoCache positive CL, GoCache unit CT}.
Implicit Types (s : LaunchState (CU := CU) (CL := CL) (CT := CT)).

(** The CreateFleet calls of a trace. *)
Definition fleet_calls (evs : list event) : list nat :=
  omap (λ ev, match ev with EvCreateFleet n => Some n | _ => None end) evs.

(** Between the two states the calls [ns] of CreateFleet were made. *)
Definition calls (ns : list nat) s s' : Prop :=
  ∃ evs, st_trace s' = st_trace s ++ evs ∧ fleet_calls evs = ns.

Lemma calls_refl s : calls [] s s.
Proof. exists []. by rewrite app_nil_r. Qed.

Lemma calls_trans ns ms s1 s2 s3 : calls ns s1 s2 → calls ms s2 s3 → calls (ns ++ ms) s1 s3.
Proof.
  intros (e1 & E1 & <-) (e2 & E2 & <-). exists (e1 ++ e2).
  rewrite E2, E1, app_assoc. split; [done|]. apply omap_app.
Qed.

Lemma calls_emit ev s : calls (fleet_calls [ev]) s (emit ev s).
Proof. by exists [ev]. Qed.

Lemma calls_foldl {A} (f : LaunchState → A → LaunchState) (l : list A) s :
  (∀ s a, calls [] s (f s a)) → calls [] s (foldl f s l).
Proof.
  intros Hf. revert s. induction l as [|a l IH]; intros s; simpl; [apply calls_refl|].
  by apply (calls_trans [] [] s (f s a)).
Qed.

Lemma calls_feedback now errs ct its pgID pgOpts s :
  calls [] s (updateUnavailableOfferingsCache now errs ct its pgID pgOpts s).
Proof.
  assert (∀ f s, calls [] s (on_offerings f s)) as Hoff by (intros f s'; by apply (calls_refl s')).
  assert (∀ f s, calls [] s (on_reservations f s)) as Hres by (intros f s'; by apply (calls_refl s')).
  unfold updateUnavailableOfferingsCache. apply (calls_trans [] []  _ (foldl (update_subnet now) s errs)).
  - apply calls_foldl. intros s' e. unfold update_subnet. destruct (_ && _); [|apply calls_refl].
    eapply (calls_trans [] []); [apply Hoff|]. apply (calls_emit (EvUpdateICEdSubnet _)).
  - case_decide; apply calls_foldl; intros s' e.
    + unfold update_market.
      assert (∀ s, calls [] s (if IsServiceLinkedRoleCreationNotPermitted e then
        emit EvSpotServiceLinkedRoleCreationFailure
          (on_offerings (λ u, MarkCapacityTypeUnavailable u now CapacityTypeSpot) s) else s)) as Hslr.
      { intros s1. destruct (IsServiceLinkedRoleCreationNotPermitted e); [|apply calls_refl].
        eapply (calls_trans [] []); [apply Hoff|]. apply (calls_emit EvSpotServiceLinkedRoleCreationFailure). }
      destruct (IsUnfulfillableCapacity e); [destruct (_ && _)|apply Hslr].
      * apply calls_foldl. intros. apply Hoff.
      * eapply (calls_trans [] []); [apply Hoff|]. apply Hslr.
    + unfold update_reserved. destruct (negb _); [apply calls_refl|].
      destruct (IsSpreadPlacementGroupLimitError e); [apply calls_refl|].
      destruct (IsReservationCapacityExceeded e); [case_decide; [apply Hres|apply calls_refl]|apply Hoff].
Qed.

Variable now : Z.
Variable subnets : nat → list InstanceType → string → result error (gmap string LaunchSubnet).
Variable ensure : nat → list InstanceType → string → string → result error (list LaunchTemplate).
Variable fleet : nat → CreateFleetInput (Body := FleetRequest) →
  result error (CreateFleetOutput (Overrides := FleetOverrides) (Meta := unit)).
Variable pgID : nat → option string.
Variable partitions : Requirements → list string.
Variable lowest : list string → string.

Lemma launchInstance_calls n spec ct its tenancy s s' r :
  launchInstance now subnets ensure fleet pgID partitions lowest n spec ct its tenancy s = Some (s', r) →
  calls [] s s' ∨ calls [n] s s'.
Proof.
  unfold launchInstance. destruct (subnets n its ct) as [zs|e]; [|intros [= <- _]; left; apply calls_refl].
  destruct (getLaunchTemplateConfigs _ _ _ _) as [configs|e].
  2: { destruct (ToReasonMessage e). intros [= <- _]. left. apply calls_refl. }
  destruct (fleet_input spec ct its configs) as [input|]; [|done]. cbn [mbind option_bind].
  set (s1 := emit (EvUpdateInflightIPs n) (emit (EvCreateFleet n) s)).
  assert (calls [n] s s1) as Hs1.
  { exists [EvCreateFleet n; EvUpdateInflightIPs n]. split; [|done]. simpl. by rewrite <- app_assoc. }
  intros Hr. right. rewrite <- (app_nil_r [n]). eapply calls_trans; [exact Hs1|]. clearbody s1.
  destruct (fleet n input) as [output|e].
  - destruct (pg_options _ _ _ _ _) as [g opts]. injection Hr as <- _. apply calls_feedback.
  - destruct (ToReasonMessage e). destruct (IsLaunchTemplateNotFound _); injection Hr as <- _;
      [|apply calls_refl]. apply calls_foldl. intros s3 c. apply (calls_emit (EvInvalidateLaunchTemplate _)).
Qed.

(** C9: CreateFleet is retried at most once.  Every [Create] that does not panic makes at
    most one CreateFleet call per attempt and at most two attempts, in order; and the
    second attempt is made only if the first launch failed because a launch template was
    not found. *)
Theorem Create_attempts efa spec st its s s' r :
  Create now subnets ensure fleet pgID partitions lowest efa spec st its s = Some (s', r) →
  ∃ evs, st_trace s' = st_trace s ++ evs ∧ fleet_calls evs ∈ [[]; [0]; [1]; [0; 1]]%nat ∧
    (1%nat ∈ fleet_calls evs → ∃ its' s1 e,
       filterInstanceTypes (sp_requirements spec) (sp_requests spec) st its = Some (Ok its') ∧
       launchInstance now subnets ensure fleet pgID partitions lowest 0 spec
         (getCapacityType (sp_requirements spec) its') its' (getTenancyType (sp_tenancy spec)) s
         = Some (s1, Err e) ∧
       IsLaunchTemplateNotFound (Some (cp_cause e)) = true).
Proof.
  unfold Create. intros ([its'|e] & Hf & Hc)%bind_Some.
  2: { simplify_eq. exists []. rewrite app_nil_r. split; [done|]. split; [by left|]. by intros ?%elem_of_nil. }
  apply bind_Some in Hc as ([s1 r1] & Hl & Hc). apply bind_Some in Hc as ([s2 r2] & Hretry & Hc).
  assert (s' = s2) as ->.
  { destruct r2 as [out|e]; [|by simplify_eq].
    apply bind_Some in Hc as (d & _ & Hc). apply bind_Some in Hc as (n & _ & Hc). by simplify_eq. }
  clear Hc. pose proof (launchInstance_calls _ _ _ _ _ _ _ _ Hl) as H1'.
  destruct (match r1 with Err e => IsLaunchTemplateNotFound (Some (cp_cause e)) | Ok _ => false end) eqn:Eb.
  - destruct r1 as [|e]; [done|]. rewrite Eb in Hretry.
    apply launchInstance_calls in Hretry as H2'.
    assert (∃ ns, calls ns s s2 ∧ ns ∈ [[]; [0]; [1]; [0; 1]]%nat) as (ns & (evs & ? & <-) & ?).
    { destruct H1' as [C1|C1], H2' as [C2|C2]; eexists;
        (split; [eapply calls_trans; [exact C1|exact C2]|]); by apply (bool_decide_unpack _). }
    exists evs. split; [done|]. split; [done|]. intros _. by exists its', s1, e.
  - assert (s1 = s2) as ->.
    { destruct r1 as [|e]; [by simplify_eq|]. rewrite Eb in Hretry. by simplify_eq. }
    destruct H1' as [(evs & ? & E)|(evs & ? & E)]; exists evs; rewrite E;
      (split; [done|]; split; [by apply (bool_decide_unpack _)|]);
      intros Hin; exfalso; by apply (bool_decide_unpack _) in Hin || set_solver.
Qed.
End attempts.

(** ** Concrete launches *)

(** The fixture of [Filters] with no resource requests. *)
Definition w_filtered : list InstanceType :=
  match filterInstanceTypes w_requirements ∅ w_store w_types with Some (Ok its) => its | _ => [] end.

Example w_filtered_reserved :
  (λ it, (Name it, ReservationID <$> Offerings it)) <$> w_filtered
  = [("m5.large", ["cr-2"; "cr-3"])] ∧
  getCapacityType w_requirements w_filtered = "reserved".
Proof. by vm_compute. Qed.


Definition offering_ok (o : Offering) : bool :=
  bool_decide (is_Some (off_Requirements o !! CapacityTypeLabelKey)) &&
  bool_decide (length (ref_values (off_Requirements o !! CapacityTypeLabelKey)) = 1%nat) &&
  (negb (is_reserved o) ||
   (bool_decide (is_Some (off_Requirements o !! LabelCapacityReservationType)) &&
    bool_decide (is_Some (off_Requirements o !! LabelCapacityReservationInterruptible)))) &&
  bool_decide (Price o < MaxFloat64).

Lemma offering_ok_wf o : offering_ok o = true → offering_wf o ∧ Price o < MaxFloat64.
Proof.
  unfold offering_ok. rewrite !andb_true_iff, !bool_decide_eq_true, orb_true_iff, negb_true_iff.
  intros (((Hk & Hone) & Hres) & Hp). split; [|done].
  assert (CapacityType o = CapacityTypeReserved → is_reserved o = true) as Hr
    by by intros; apply bool_decide_eq_true.
  rewrite andb_true_iff in Hres. split.
  - by apply bool_decide_eq_true.
  - intros v. destruct Hk as [vs Hvs]. cbn in *. rewrite Hvs in *. simpl in *.
    rewrite bool_decide_eq_true. destruct vs as [|x [|]]; simpl in Hone; try lia.
    by intros ->%list_elem_of_singleton.
  - intros Hc%Hr. destruct Hres as [|[? _]]; [congruence|done].
  - intros Hc%Hr. destruct Hres as [|[_ ?]]; [congruence|done].
Qed.


Definition w_subnets : gmap string LaunchSubnet :=
  {["a" := {| ls_ID := "subnet-1"; ls_Zone := "a"; ls_ZoneID := "use1-az1" |}]}.

Lemma getOverrides_spec_witness :
  let overrides := getOverrides w_filtered w_subnets w_requirements "ami-1" "" false in
  let pool ov := ov_InstanceType ov +:+ "/" +:+ ov_AvailabilityZone ov in
  NoDup (pool <$> overrides) ∧
  (∀ ov, ov ∈ overrides → ∃ it o s, it ∈ w_filtered ∧ usable w_requirements "" it o ∧
     w_subnets !! Zone o = Some s ∧
     ov = {| ov_InstanceType := Name it; ov_SubnetId := Some (ls_ID s);
             ov_ImageId := "ami-1"; ov_AvailabilityZone := Zone o; ov_Priority := Price o |}) ∧
  (∀ it o, it ∈ w_filtered → usable w_requirements "" it o → is_Some (w_subnets !! Zone o) →
     (∀ it', it' ∈ w_filtered → free_of "/"%char (Name it')) →
     ∃ ov, ov ∈ overrides ∧ ov_InstanceType ov = Name it ∧ ov_AvailabilityZone ov = Zone o).
Proof.
  apply (getOverrides_spec w_filtered w_subnets w_requirements "ami-1" "" false).
  intros z s Hz. unfold w_subnets in Hz. by apply lookup_singleton_Some in Hz as [<- <-].
Defined.

Definition w_fleet_error (code : string) (zone : string) : CreateFleetError :=
  {| cfe_ErrorCode := code; cfe_ErrorMessage := None; cfe_InstanceType := "m5.large";
     cfe_AvailabilityZone := zone; cfe_SubnetId := None; cfe_Lifecycle := "spot" |}.

Definition w_state :
    LaunchState (CU := RefCache.t unit) (CL := RefCache.t positive) (CT := RefCache.t unit) :=
  {| st_offerings := NewUnavailableOfferings; st_reservations := w_ac; st_trace := [] |}.

Lemma market_feedback_witness :
  IsUnavailable (st_offerings (updateUnavailableOfferingsCache 5
      [w_fleet_error "UnfulfillableCapacity" "a"; w_fleet_error "RequestLimitExceeded" "b"]
      "spot" w_filtered "" [] w_state)) (5 + Minute) "m5.large" "a" [] "spot" [] = true.
Proof.
  apply (market_feedback 5 (5 + Minute) "spot" w_filtered "" []
    [w_fleet_error "UnfulfillableCapacity" "a"; w_fleet_error "RequestLimitExceeded" "b"] w_state
    (w_fleet_error "UnfulfillableCapacity" "a") []).
  - by vm_compute.
  - done.
  - by left.
  - by vm_compute.
  - by left.
  - by vm_compute.
Defined.

Lemma w_state_ok : reservations_ok w_state.
Proof. split; [apply w_ac_inv|by vm_compute]. Qed.

Lemma reserved_feedback_witness :
  let err := w_fleet_error "ReservationCapacityExceeded" "a" in
  let s' := updateUnavailableOfferingsCache 5 [err] CapacityTypeReserved w_filtered "" [] w_state in
  st_offerings s' = st_offerings w_state ∧
  (reservedOfferingID "m5.large" "a" w_filtered ≠ "" →
   GetAvailableInstanceCount (st_reservations s') 9 (reservedOfferingID "m5.large" "a" w_filtered) = 0).
Proof.
  apply (reserved_feedback 5 9 w_filtered [w_fleet_error "ReservationCapacityExceeded" "a"] "" [] w_state
           (w_fleet_error "ReservationCapacityExceeded" "a")).
  - apply w_state_ok.
  - constructor; [by vm_compute|constructor].
  - by left.
  - by vm_compute.
Defined.

(** The launch template has disappeared at the first attempt only. *)
Definition w_spec : LaunchSpec :=
  {| sp_requirements := w_requirements; sp_requests := ∅; sp_tags := ∅; sp_overlay := false;
     sp_context := None; sp_minValuesRelaxed := false; sp_tenancy := None |}.

Definition w_lt : LaunchTemplate :=
  {| lt_Name := "lt-1"; lt_InstanceTypes := w_filtered; lt_ImageID := "ami-1";
     lt_CapacityReservationID := ""; lt_Zone := "" |}.

Definition w_lt_missing : error :=
  {| Error := "not found";
     asAPIError := Some {| ErrorCode := launchTemplateNameNotFoundCode; ErrorMessage := "";
                           ErrorFault := FaultClient |} |}.

Definition w_fleet (n : nat) (_ : CreateFleetInput (Body := FleetRequest)) :
    result error (CreateFleetOutput (Overrides := FleetOverrides) (Meta := unit)) :=
  match n with
  | O => Err w_lt_missing
  | _ => Ok {| FleetId := None; Errors := [];
               Instances := [{| cfi_InstanceIds := ["i-1"]; cfi_InstanceType := "m5.large";
                                cfi_LaunchTemplateAndOverrides :=
                                  {| ov_InstanceType := "m5.large"; ov_SubnetId := Some "subnet-1";
                                     ov_ImageId := "ami-1"; ov_AvailabilityZone := "a";
                                     ov_Priority := 2 |};
                                cfi_Lifecycle := "on-demand"; cfi_Platform := "" |}];
               ResultMetadata := () |}
  end.

Definition w_create :=
  Create 5 (λ _ _ _, Ok w_subnets) (λ _ _ _ _, Ok [w_lt]) w_fleet (λ _, None) (λ _, [])
    (λ _, "") false w_spec w_store w_types w_state.

Example w_create_result :
  match w_create with
  | Some (s, Ok i) =>
      Some (st_trace s, (inst_ID i, inst_CapacityType i,
                         option_map crd_ID (inst_CapacityReservationDetails i)))
  | _ => None
  end
  = Some ([EvCreateFleet 0; EvUpdateInflightIPs 0; EvInvalidateLaunchTemplate "lt-1";
           EvCreateFleet 1; EvUpdateInflightIPs 1],
          ("i-1", "reserved", Some "cr-2")).
Proof. by vm_compute. Qed.

Definition w_create_state := from_option fst w_state w_create.

Lemma Create_attempts_witness :
  ∃ evs, st_trace w_create_state = st_trace w_state ++ evs ∧ fleet_calls evs ∈ [[]; [0]; [1]; [0; 1]]%nat.
Proof.
  assert (match w_create with Some _ => true | None => false end = true) as Hok by by vm_compute.
  unfold w_create_state. destruct w_create as [[s' r]|] eqn:E; [|discriminate Hok].
  destruct (Create_attempts 5 (λ _ _ _, Ok w_subnets) (λ _ _ _ _, Ok [w_lt]) w_fleet (λ _, None)
              (λ _, []) (λ _, "") false w_spec w_store w_types w_state s' r E) as (evs & H1 & H2 & _).
  exists evs. split; [exact H1|exact H2].
Defined.
