(* ===== verification/Instances.v ===== *)
(** * [pkg/providers/instance]: reading and changing instances

    The rest of [instance.go] and the conversions of [types.go]: [Get], [List], [Delete],
    [Reboot] and [CreateTags] with the instance cache and the zonal-shift guards.  The
    cache is used through [GoCache]; the EC2 calls are parameters, and the calls made are
    recorded in a trace. *)
From S2P Require Import Prelude GoCache AwsErrors ApiV1 Scheduling Launch.

Definition CapacityReservationsOnly := "capacity-reservations-only".

(** [ec2types.Instance], as far as the provider reads it; [None] for a nil pointer. *)
Record ec2_Instance := {
  ei_LaunchTime : Z;
  ei_State : string;
  ei_InstanceId : string;
  ei_ImageId : string;
  ei_InstanceType : string;
  ei_AvailabilityZone : string;
  ei_AvailabilityZoneId : string;
  ei_Tenancy : string;
  ei_PartitionNumber : option Z;
  ei_SpotInstanceRequestId : option string;
  ei_CapacityReservationId : option string;
  ei_CapacityReservationPreference : string;
  ei_InstanceLifecycle : string;
  ei_SecurityGroups : list string;
  ei_SubnetId : string;
  ei_Tags : list (string * string);
  ei_InterfaceTypes : list (option string);
}.

(** ** Conversions *)

Definition partitionNumberFromInstance (i : ec2_Instance) : option Z :=
  match ei_PartitionNumber i with
  | Some n => if decide (n ≠ 0) then Some n else None
  | None => None
  end.

Definition tenancyFromInstance (i : ec2_Instance) : string :=
  if decide (ei_Tenancy i = "") then TenancyDefault else ei_Tenancy i.

Definition capacityTypeFromInstance (reservedCapacity : bool) (i : ec2_Instance) : string :=
  if decide (is_Some (ei_SpotInstanceRequestId i)) then CapacityTypeSpot
  else if reservedCapacity && bool_decide (is_Some (ei_CapacityReservationId i)) &&
          bool_decide (ei_CapacityReservationPreference i = CapacityReservationsOnly)
  then CapacityTypeReserved
  else CapacityTypeOnDemand.

(** An EFA interface, counted by [EFACount]. *)
Definition is_efa (t : option string) : bool := bool_decide (t = Some "efa" ∨ t = Some "efa-only").

Definition reservation_details (capacityType : string) (i : ec2_Instance) :
    option CapacityReservationDetails :=
  if decide (capacityType ≠ CapacityTypeReserved) then None
  else Some
    {| crd_ID := default "" (ei_CapacityReservationId i);
       crd_Type := if decide (ei_InstanceLifecycle i = "capacity-block")
                   then CapacityReservationTypeCapacityBlock else CapacityReservationTypeDefault;
       crd_Interruptible :=
         bool_decide (ei_InstanceLifecycle i = "interruptible-capacity-reservation") |}.

Definition NewInstance (reservedCapacity : bool) (i : ec2_Instance) : Instance_ :=
  let capacityType := capacityTypeFromInstance reservedCapacity i in
  {| LaunchTime := ei_LaunchTime i; inst_State := ei_State i; inst_ID := ei_InstanceId i;
     inst_ImageID := ei_ImageId i; inst_Type := ei_InstanceType i;
     inst_Zone := ei_AvailabilityZone i; inst_ZoneID := ei_AvailabilityZoneId i;
     inst_CapacityType := capacityType; inst_SecurityGroupIDs := ei_SecurityGroups i;
     inst_SubnetID := ei_SubnetId i;
     inst_Tags := foldl (λ m t, <[t.1 := t.2]> m) ∅ (ei_Tags i);
     inst_EFACount := Z.of_nat (length (filter (λ t, is_efa t = true) (ei_InterfaceTypes i)));
     inst_CapacityReservationDetails := reservation_details capacityType i;
     inst_Tenancy := tenancyFromInstance i;
     inst_PartitionNumber := partitionNumberFromInstance i |}.

(** [instancesFromOutput] on the reservations of a response: a map by instance ID, the last
    instance of an ID winning. *)
Definition instancesFromOutput (reservedCapacity : bool) (reservations : list (list ec2_Instance)) :
    result cp_error (gmap string Instance_) :=
  match mjoin reservations with
  | [] => Err (NodeClaimNotFoundError (errorf "instance not found"))
  | insts => Ok (foldl (λ m i, <[ei_InstanceId i := NewInstance reservedCapacity i]> m) ∅ insts)
  end.

(** ** The provider *)

Inductive call :=
  | CallDescribe (id : string)
  | CallList
  | CallTerminate (id : string)
  | CallReboot (id : string)
  | CallCreateTags (id : string).

Section provider.
(** The cache holds instance pointers; [None] is a nil pointer, which dereferencing code
    panics on. *)
Context {C : Type} `{GoCache (option Instance_) C}.

Record InstanceProvider := {
  instanceCache : C;
  api_calls : list call;
}.

Definition with_cache (c : C) (p : InstanceProvider) : InstanceProvider :=
  {| instanceCache := c; api_calls := api_calls p |}.
Definition record (ev : call) (p : InstanceProvider) : InstanceProvider :=
  {| instanceCache := instanceCache p; api_calls := api_calls p ++ [ev] |}.

Variable now : Z.
Variable reservedCapacity : bool.
Variable IsZonalShifted : string → bool.

(** The EC2 API: described reservations, and errors or success of the other calls. *)
Variable DescribeInstances : string → result error (list (list ec2_Instance)).
Variable DescribeInstances_list : list (result error (list (list ec2_Instance))).
Variable TerminateInstances : string → option error.
Variable RebootInstances : string → option error.
Variable CreateTags_api : string → gmap string string → option error.

(** The zone of the instance is known and shifted away. *)
Definition shifted (i : Instance_) : bool :=
  bool_decide (inst_ZoneID i ≠ "") && IsZonalShifted (inst_ZoneID i).

Definition describe_one (id : string) (p : InstanceProvider) :
    InstanceProvider * result cp_error (option Instance_) :=
  let p := record (CallDescribe id) p in
  match DescribeInstances id with
  | Err e =>
      if IsNotFound (Some e)
      then (with_cache (Delete (instanceCache p) id).1 p, Err (NodeClaimNotFoundError e))
      else (p, Err (OtherError (wrap "failed to describe ec2 instances" e)))
  | Ok out =>
      match instancesFromOutput reservedCapacity out with
      | Err e => (p, Err (OtherError (wrap "getting instances from output" (cp_cause e))))
      | Ok instances =>
          if decide (size instances ≠ 1%nat)
          then (p, Err (OtherError (errorf "expected a single instance, %!w(<nil>)")))
          else
            (* instances[id], which is nil if EC2 described another instance *)
            (with_cache (SetDefault (instanceCache p) now id (instances !! id)) p,
             Ok (instances !! id))
      end
  end.

(** [Get]; the inner [None] is a nil result, the outer one a panic. *)
Definition Get_ (id : string) (skipCache : bool) (p : InstanceProvider) :
    option (InstanceProvider * result cp_error (option Instance_)) :=
  match GoCache.Get (instanceCache p) now id with
  | Some None => None
  | Some (Some inst) =>
      Some (if shifted inst then (p, Ok (Some inst))
            else if negb skipCache then (p, Ok (Some inst))
            else describe_one id p)
  | None => Some (describe_one id p)
  end.

(** The paginator loop of [List]; an error ends it. *)
Fixpoint list_pages (pages : list (result error (list (list ec2_Instance))))
    (acc : list (list ec2_Instance)) : result error (list (list ec2_Instance)) :=
  match pages with
  | [] => Ok acc
  | Ok page :: pages' => list_pages pages' (acc ++ page)
  | Err e :: _ => Err (wrap "describing ec2 instances" e)
  end.

(** One iteration of the eviction loop; [None] is the dereference of a nil instance. *)
Definition evict_one (instances : gmap string Instance_) (c : option C)
    (it : string * option Instance_) : option C :=
  c ← c;
  if decide (is_Some (instances !! it.1)) then Some c
  else match it.2 with
       | None => None
       | Some inst => Some (if shifted inst then c else (Delete c it.1).1)
       end.

(** [Items]: the entries that have not expired. *)
Definition live_items (c : C) : list (string * option Instance_) :=
  omap (λ kv : string * (option Instance_ * option Z),
          (λ v, (kv.1, v)) <$> live_value now kv.2) (map_to_list (items c)).

(** [for id, it := range instances { SetDefault(id, it) }] *)
Definition store_all (instances : gmap string Instance_) (c : C) : C :=
  foldl (λ c kv, SetDefault c now kv.1 (Some kv.2)) c (map_to_list instances).

(** [List]; [None] is a panic. *)
Definition List_ (p : InstanceProvider) :
    option (InstanceProvider * result cp_error (list Instance_)) :=
  let p := record CallList p in
  match list_pages DescribeInstances_list [] with
  | Err e => Some (p, Err (OtherError e))
  | Ok out =>
      let '(instances, err) :=
        match instancesFromOutput reservedCapacity out with
        | Ok m => (m, None)
        | Err e => (∅, Some e)
        end in
      let c := store_all instances (instanceCache p) in
      c ← foldl (evict_one instances) (Some c) (live_items c);
      Some (with_cache c p,
            match err with
            | None | Some (NodeClaimNotFoundError _) => Ok (snd <$> map_to_list instances)
            | Some e => Err e
            end)
  end.

Definition shifted_error (i : Instance_) : cp_error :=
  OtherError (errorf ("instance " +:+ inst_ID i +:+ " is in zonally shifted availability zone")).

(** [Delete] and [Reboot]; [None] is the dereference of a nil instance. *)
Definition Delete_ (id : string) (p : InstanceProvider) : option (InstanceProvider * option cp_error) :=
  '(p, out) ← Get_ id true p;
  match out with
  | Err e => Some (p, Some e)
  | Ok None => None
  | Ok (Some i) =>
      Some (if shifted i then (p, Some (shifted_error i))
            else if decide (inst_State i ≠ "shutting-down") then
              (record (CallTerminate id) p, OtherError <$> TerminateInstances id)
            else (p, None))
  end.

Definition Reboot (id : string) (p : InstanceProvider) : option (InstanceProvider * option cp_error) :=
  '(p, out) ← Get_ id false p;
  match out with
  | Err e => Some (p, Some e)
  | Ok None => None
  | Ok (Some i) =>
      Some (if shifted i then (p, Some (shifted_error i))
            else
              (record (CallReboot id) p,
               (λ e, if IsNotFound (Some e) then NodeClaimNotFoundError (wrap "rebooting instance" e)
                     else if IsUnauthorizedOperationError (Some e)
                     then NodeRebootFailedError (wrap "rebooting instance" e)
                     else OtherError (wrap "rebooting instance" e)) <$> RebootInstances id))
  end.

Definition CreateTags (id : string) (tags : gmap string string) (p : InstanceProvider) :
    option (InstanceProvider * option cp_error) :=
  let tag :=
    (record (CallCreateTags id) p,
     (λ e, if IsNotFound (Some e) then NodeClaimNotFoundError (wrap "tagging instance" e)
           else OtherError (wrap "tagging instance" e)) <$> CreateTags_api id tags) in
  match GoCache.Get (instanceCache p) now id with
  | Some None => None
  | Some (Some i) => Some (if shifted i then (p, Some (shifted_error i)) else tag)
  | None => Some tag
  end.
End provider.
Arguments InstanceProvider : clear implicits.

(** ** Properties *)

Section properties.
Context {C : Type} `{GoCacheLaws (option Instance_) C}.
Variable now : Z.
Variable reservedCapacity : bool.
Variable IsZonalShifted : string → bool.
Variable DescribeInstances : string → result error (list (list ec2_Instance)).
Variable TerminateInstances : string → option error.
Variable RebootInstances : string → option error.
Variable CreateTags_api : string → gmap string string → option error.

Abbreviation get := (Get_ now reservedCapacity IsZonalShifted DescribeInstances).
Abbreviation del := (Delete_ now reservedCapacity IsZonalShifted DescribeInstances TerminateInstances).
Abbreviation reboot := (Reboot now reservedCapacity IsZonalShifted DescribeInstances RebootInstances).
Abbreviation tag := (CreateTags now IsZonalShifted CreateTags_api).

(** C10: an instance known to be in a shifted zone is left alone.  If the cached instance is
    in a zonally shifted zone, [Get] answers from the cache even when told to skip it, and
    [Get], [Delete], [Reboot] and [CreateTags] make no EC2 call and change nothing; the
    last three report an error. *)
Theorem zonal_shift_guard (p : InstanceProvider C) id i skip tags :
  GoCache.Get (instanceCache p) now id = Some (Some i) → shifted IsZonalShifted i = true →
  get id skip p = Some (p, Ok (Some i)) ∧
  del id p = Some (p, Some (shifted_error i)) ∧
  reboot id p = Some (p, Some (shifted_error i)) ∧
  tag id tags p = Some (p, Some (shifted_error i)).
Proof.
  intros Hg Hs. unfold Delete_, Reboot, CreateTags, Get_. rewrite Hg, Hs. simpl. rewrite Hs. done.
Qed.

Lemma describe_calls id (p : InstanceProvider C) :
  api_calls (describe_one now reservedCapacity DescribeInstances id p).1
  = api_calls p ++ [CallDescribe id].
Proof.
  unfold describe_one. destruct (DescribeInstances id) as [out|e].
  - destruct (instancesFromOutput _ _); [|done]. by case_decide.
  - by destruct (IsNotFound _).
Qed.

Lemma get_calls id skip (p p' : InstanceProvider C) r :
  get id skip p = Some (p', r) → api_calls p' = api_calls p ∨ api_calls p' = api_calls p ++ [CallDescribe id].
Proof.
  unfold Get_. pose proof (describe_calls id p) as Hc.
  destruct (describe_one _ _ _ _ _) as [p1 r1].
  destruct (GoCache.Get _ _ _) as [[i|]|]; [destruct (shifted _ i); [|destruct skip; simpl]|done|];
    intros Hp; simplify_eq; simpl in *; first [by left|by right].
Qed.

(** [Delete] terminates only what it should.  [Delete] issues at most one termination,
    for the given instance, and only if [Get] returned that instance, outside every
    shifted zone and not already shutting down. *)
Theorem Delete_terminates (p p' : InstanceProvider C) id e :
  del id p = Some (p', e) →
  ∃ p1 r, get id true p = Some (p1, r) ∧
    match r with
    | Ok (Some i) =>
        if shifted IsZonalShifted i || bool_decide (inst_State i = "shutting-down")
        then api_calls p' = api_calls p1
        else api_calls p' = api_calls p1 ++ [CallTerminate id]
    | _ => api_calls p' = api_calls p1
    end ∧
    (∀ x, CallTerminate x ∉ api_calls p → CallTerminate x ∉ api_calls p1).
Proof.
  unfold Delete_. intros ([p1 r] & Hg & Hd)%bind_Some. exists p1, r. split; [done|]. split.
  - destruct r as [[i|]|err]; simplify_eq; [|done].
    destruct (shifted _ i); [by simplify_eq|]. simpl.
    case_decide; case_bool_decide; by simplify_eq.
  - intros x Hx. destruct (get_calls _ _ _ _ _ Hg) as [->| ->]; [done|].
    rewrite elem_of_app. intros [|Hin%list_elem_of_singleton]; done.
Qed.

End properties.

(** *** List *)

Section list_properties.
Context {C : Type} `{GoCacheLaws (option Instance_) C}.
Variable now : Z.
Variable reservedCapacity : bool.
Variable IsZonalShifted : string → bool.
Variable pages : list (result error (list (list ec2_Instance))).

(** A cache without nil entries whose entries never expire. *)
Definition permanent (c : C) : Prop :=
  defaultTTL c < 1 ∧ ∀ k v e, items c !! k = Some (v, e) → is_Some v ∧ e = None.

Lemma SetDefault_permanent (c : C) t k i :
  permanent c → items (SetDefault c t k (Some i)) = <[k := (Some i, None)]> (items c) ∧
                permanent (SetDefault c t k (Some i)).
Proof.
  intros [Httl Hc]. assert (items (SetDefault c t k (Some i)) = <[k := (Some i, None)]> (items c)) as E.
  { rewrite SetDefault_items. unfold expiry. by rewrite decide_False by lia. }
  split; [done|]. split; [by rewrite SetDefault_ttl|]. intros k' v e. rewrite E, lookup_insert.
  case_decide; [intros [= <- <-]; by eexists|apply Hc].
Qed.

Lemma store_all_items (instances : gmap string Instance_) (c : C) :
  permanent c →
  permanent (store_all now instances c) ∧
  ∀ k, items (store_all now instances c) !! k =
    match instances !! k with Some i => Some (Some i, None) | None => items c !! k end.
Proof.
  intros Hc. unfold store_all.
  assert (∀ l : list (string * Instance_), NoDup l.*1 → ∀ c, permanent c →
    let c' := foldl (λ c kv, SetDefault c now kv.1 (Some kv.2)) c l in
    permanent c' ∧ ∀ k, items c' !! k =
      match (list_to_map l : gmap string Instance_) !! k with
      | Some i => Some (Some i, None) | None => items c !! k end) as Hl.
  { clear c Hc. induction l as [|[k i] l IH]; intros Hnd c Hc; [done|]. simpl in *.
    apply NoDup_cons in Hnd as [Hk Hnd].
    destruct (SetDefault_permanent c now k i Hc) as [E Hc']. destruct (IH Hnd _ Hc') as [Hp IHk].
    split; [done|]. intros k'. rewrite IHk, E. destruct (decide (k = k')) as [->|Hne].
    - rewrite !lookup_insert_eq. by rewrite not_elem_of_list_to_map_1.
    - by rewrite !lookup_insert_ne. }
  specialize (Hl (map_to_list instances) (NoDup_fst_map_to_list _) c Hc).
  by rewrite list_to_map_to_list in Hl.
Qed.

(** The loop evicts the entry of [k] when it visits it. *)
Definition evicts (instances : gmap string Instance_) (k : string)
    (kv : string * option Instance_) : bool :=
  bool_decide (kv.1 = k) && bool_decide (instances !! k = None) &&
  match kv.2 with Some i => negb (shifted IsZonalShifted i) | None => false end.

Lemma evict_step (instances : gmap string Instance_) (c : C) k0 i :
  permanent c →
  ∃ c', evict_one IsZonalShifted instances (Some c) (k0, Some i) = Some c' ∧ permanent c' ∧
    ∀ k, items c' !! k = if evicts instances k (k0, Some i) then None else items c !! k.
Proof.
  intros Hc. unfold evict_one, evicts. cbn [mbind option_bind fst snd].
  case_decide as Hin; [|destruct (shifted IsZonalShifted i) eqn:Hs].
  - exists c. split; [done|]. split; [done|]. intros k. case_bool_decide; [subst|done].
    destruct Hin as [x Hx]. by rewrite Hx.
  - exists c. split; [done|]. split; [done|]. intros k. by rewrite andb_false_r.
  - exists (Delete c k0).1. split; [done|]. split.
    + destruct Hc as [Httl Hc]. split; [by rewrite Delete_ttl|]. intros k' v' e.
      rewrite Delete_items. intros [_ Hk]%lookup_delete_Some. by eapply Hc.
    + intros k. rewrite Delete_items, lookup_delete. apply eq_None_not_Some in Hin.
      case_decide; case_bool_decide; simplify_eq; [|done].
      by rewrite bool_decide_eq_true_2.
Qed.

Lemma evict_all (instances : gmap string Instance_) (l : list (string * option Instance_)) (c : C) :
  permanent c → (∀ k v, (k, v) ∈ l → is_Some v) →
  ∃ c', foldl (evict_one IsZonalShifted instances) (Some c) l = Some c' ∧
    ∀ k, items c' !! k = if existsb (evicts instances k) l then None else items c !! k.
Proof.
  revert c. induction l as [|[k0 v] l IH]; intros c Hc Hsome; [by exists c|].
  destruct (Hsome k0 v) as [i ->]; [by left|].
  destruct (evict_step instances c k0 i Hc) as (c1 & E & Hc1 & Hk1).
  destruct (IH c1 Hc1) as (c' & Hf & Hk); [intros k v Hin; apply (Hsome k); by right|].
  exists c'. cbn [foldl]. rewrite E. split; [done|]. intros k. rewrite Hk, Hk1. simpl.
  destruct (evicts _ _ _); [by destruct (existsb _ _)|done].
Qed.

Lemma elem_of_live_items (c : C) k v :
  permanent c → (k, v) ∈ live_items now c ↔ items c !! k = Some (v, None).
Proof.
  intros [_ Hc]. unfold live_items. rewrite list_elem_of_omap. split.
  - intros ([k' [v' e]] & Hin%elem_of_map_to_list & Hf). simpl in Hf.
    destruct (Hc _ _ _ Hin) as [_ ->]. by injection Hf as -> ->.
  - intros Hin. exists (k, (v, None)). split; [by apply elem_of_map_to_list|done].
Qed.

(** C11: [List] synchronises the cache.  With a cache whose entries never expire, a [List]
    whose pages all succeed returns the described instances, an empty response included,
    and leaves the cache with exactly those instances and, of the others, the ones in
    zonally shifted zones. *)
Theorem List_synchronises (p : InstanceProvider C) out :
  permanent (instanceCache p) → list_pages pages [] = Ok out →
  let instances := match instancesFromOutput reservedCapacity out with Ok m => m | Err _ => ∅ end in
  ∃ p', List_ now reservedCapacity IsZonalShifted pages p
          = Some (p', Ok (snd <$> map_to_list instances)) ∧
    ∀ id, items (instanceCache p') !! id =
      match instances !! id with
      | Some i => Some (Some i, None)
      | None =>
          match items (instanceCache p) !! id with
          | Some (Some i, e) => if shifted IsZonalShifted i then Some (Some i, e) else None
          | _ => None
          end
      end.
Proof.
  intros Hc Hpages instances. unfold List_. rewrite Hpages. cbn [instanceCache record].
  assert (∃ err, match instancesFromOutput reservedCapacity out with
                 | Ok m => (m, None) | Err e => (∅, Some e) end = (instances, err) ∧
                 (err = None ∨ ∃ e, err = Some (NodeClaimNotFoundError e))) as (err & -> & Herr).
  { unfold instances, instancesFromOutput. destruct (mjoin out); eexists; (split; [done|]);
      [right; by eexists|by left]. }
  destruct (store_all_items instances (instanceCache p) Hc) as [Hc1 Hk1].
  set (c1 := store_all now instances (instanceCache p)) in *.
  destruct (evict_all instances (live_items now c1) c1 Hc1) as (c2 & -> & Hk2).
  { intros k v Hin%elem_of_live_items; [|done]. by apply Hc1 in Hin as [? _]. }
  eexists. split; [by destruct Herr as [->|[e ->]]|]. intros id. cbn [instanceCache with_cache].
  rewrite Hk2. destruct (instances !! id) as [i|] eqn:Hi.
  - rewrite Hk1, Hi. destruct (existsb _ _) eqn:E; [|done]. apply existsb_exists in E as (kv & _ & E).
    unfold evicts in E. rewrite Hi, !andb_true_iff, !bool_decide_eq_true in E. naive_solver.
  - rewrite Hk1, Hi. destruct (items (instanceCache p) !! id) as [[v e]|] eqn:Hp.
    + destruct Hc as [_ Hc]. destruct (Hc _ _ _ Hp) as [[i ->] ->].
      assert ((id, Some i) ∈ live_items now c1) as Hin by (apply elem_of_live_items; by rewrite ?Hk1, ?Hi).
      destruct (shifted IsZonalShifted i) eqn:Hs.
      * destruct (existsb _ _) eqn:E; [|done]. apply existsb_exists in E as ([k v] & Hkv%list_elem_of_In & E).
        unfold evicts in E. rewrite !andb_true_iff, !bool_decide_eq_true in E.
        destruct E as [[Ek _] E]. simpl in Ek, E. subst k. apply elem_of_live_items in Hkv; [|done].
        rewrite Hk1, Hi, Hp in Hkv. injection Hkv as <-. by rewrite Hs in E.
      * destruct (existsb _ _) eqn:E; [done|]. exfalso.
        assert (existsb (evicts instances id) (live_items now c1) = true) as E'; [|congruence].
        apply existsb_exists. exists (id, Some i). split; [by apply list_elem_of_In|].
        unfold evicts. simpl. rewrite Hs, Hi, !bool_decide_eq_true_2 by done. done.
    + by destruct (existsb _ _).
Qed.
End list_properties.

(** ** Concrete executions *)

Definition w_ec2 (id zone : string) : ec2_Instance :=
  {| ei_LaunchTime := 0; ei_State := "running"; ei_InstanceId := id; ei_ImageId := "ami-1";
     ei_InstanceType := "m5.large"; ei_AvailabilityZone := zone; ei_AvailabilityZoneId := zone;
     ei_Tenancy := ""; ei_PartitionNumber := None; ei_SpotInstanceRequestId := None;
     ei_CapacityReservationId := None; ei_CapacityReservationPreference := "";
     ei_InstanceLifecycle := ""; ei_SecurityGroups := []; ei_SubnetId := "subnet-1";
     ei_Tags := []; ei_InterfaceTypes := [] |}.

Definition w_inst (id zone : string) : Instance_ := NewInstance true (w_ec2 id zone).

(** The cache knows [i-1] and [i-2] in zone [z1], which is shifted, and [i-3] in [z2]. *)
Definition w_instances : InstanceProvider (RefCache.t (option Instance_)) :=
  {| instanceCache :=
       SetDefault (SetDefault (SetDefault (New (-1)) 0 "i-1" (Some (w_inst "i-1" "z1")))
         0 "i-2" (Some (w_inst "i-2" "z1"))) 0 "i-3" (Some (w_inst "i-3" "z2"));
     api_calls := [] |}.

Definition w_shifted (zone : string) : bool := bool_decide (zone = "z1").

Lemma zonal_shift_guard_witness :
  Delete_ 5 true w_shifted (λ _, Ok []) (λ _, None) "i-1" w_instances
  = Some (w_instances, Some (shifted_error (w_inst "i-1" "z1"))).
Proof.
  apply (zonal_shift_guard 5 true w_shifted (λ _, Ok []) (λ _, None) (λ _, None) (λ _ _, None)
           w_instances "i-1" (w_inst "i-1" "z1") true ∅); reflexivity.
Defined.

Definition w_delete :=
  Delete_ 5 true w_shifted (λ id, Ok [[w_ec2 id "z2"]]) (λ _, None) "i-3" w_instances.

Example w_delete_calls :
  from_option (λ x, api_calls x.1) [] w_delete = [CallDescribe "i-3"; CallTerminate "i-3"].
Proof. by vm_compute. Qed.

Lemma Delete_terminates_witness :
  ∃ p1 r, Get_ 5 true w_shifted (λ id, Ok [[w_ec2 id "z2"]]) "i-3" true w_instances = Some (p1, r) ∧
    (∀ x, CallTerminate x ∉ [] → CallTerminate x ∉ api_calls p1).
Proof.
  assert (match w_delete with Some _ => true | None => false end = true) as Hok by by vm_compute.
  unfold w_delete in Hok. destruct (Delete_ _ _ _ _ _ _ _) as [[p' e]|] eqn:E; [|discriminate Hok].
  destruct (Delete_terminates 5 true w_shifted (λ id, Ok [[w_ec2 id "z2"]]) (λ _, None) w_instances
    p' "i-3" e E) as (p1 & r & Hg & _ & Hx).
  exists p1, r. split; [exact Hg|exact Hx].
Defined.

Lemma w_instances_permanent : permanent (instanceCache w_instances).
Proof.
  unfold w_instances. cbn [instanceCache].
  do 3 (apply SetDefault_permanent). split; [by vm_compute|].
  intros k v e Hk. rewrite New_items in Hk. by rewrite lookup_empty in Hk.
Qed.

Lemma List_synchronises_witness :
  let instances : gmap string Instance_ :=
    match instancesFromOutput true [[w_ec2 "i-1" "z1"]] with Ok m => m | Err _ => ∅ end in
  ∃ p', List_ 5 true w_shifted [Ok [[w_ec2 "i-1" "z1"]]] w_instances
          = Some (p', Ok (snd <$> map_to_list instances)) ∧
    ∀ id, items (instanceCache p') !! id =
      match instances !! id with
      | Some i => Some (Some i, None)
      | None =>
          match items (instanceCache w_instances) !! id with
          | Some (Some i, e) => if shifted w_shifted i then Some (Some i, e) else None
          | _ => None
          end
      end.
Proof.
  apply (List_synchronises 5 true w_shifted [Ok [[w_ec2 "i-1" "z1"]]] w_instances
           [[w_ec2 "i-1" "z1"]] w_instances_permanent). reflexivity.
Defined.
