(* ===== verification/Compatibility.v ===== *)
(** * [pkg/providers/instancetype/compatibility]: which instance types a NodeClass can use

    [compatibility.go], with [ResolveNetworkInterfaces] of [pkg/providers/amifamily] and the
    placement groups of [pkg/providers/placementgroup/types.go].  An instance type that
    fails a check still gets offerings, but unavailable ones. *)
From S2P Require Import Prelude ApiV1.

(** ** Data *)

(** [ec2types.NetworkCardInfo]. *)
Record NetworkCardInfo := {
  card_NetworkCardIndex : option Z;
  card_MaximumNetworkInterfaces : option Z;
}.

(** [ec2types.NetworkInfo]; [EfaInfo] is nil, or its maximum, itself possibly nil. *)
Record NetworkInfo := {
  NetworkCards : list NetworkCardInfo;
  DefaultNetworkCardIndex : option Z;
  EnaSupport : string;
  Ipv4AddressesPerInterface : option Z;
  EfaInfo : option (option Z);
  EncryptionInTransitSupported : option bool;
}.

(** [ec2types.ProcessorInfo], [GpuDeviceInfo] and [NeuronDeviceInfo]. *)
Record ProcessorInfo := {
  pi_SupportedArchitectures : list string;
  pi_SupportedFeatures : list string;
  pi_Manufacturer : option string;
  pi_SustainedClockSpeedInGhz : option float64;
}.
Record GpuDeviceInfo := {
  gpu_Manufacturer : option string;
  gpu_Count : option Z;
  gpu_Name : option string;
  gpu_MemoryInfo : option (option Z);              (* its SizeInMiB *)
}.
Record NeuronDeviceInfo := {
  neuron_Count : option Z;
  neuron_CoreCount : option Z;
  neuron_Name : option string;
}.
(** [ec2types.InferenceDeviceInfo] *)
Record InferenceDeviceInfo := {
  acc_Name : option string;
  acc_Manufacturer : option string;
  acc_Count : option Z;
}.

(** [ec2types.InstanceTypeInfo], as far as the provider's arithmetic and checks read it.
    EC2 reports a [PlacementGroupInfo] for every instance type; the nil pointer, on which
    the code would panic, is not represented. *)
Record InstanceTypeInfo := {
  info_InstanceType : string;
  info_NetworkInfo : option NetworkInfo;
  info_ProcessorInfo : option ProcessorInfo;
  info_NitroEnclavesSupport : string;
  info_SupportedStrategies : list string;          (* PlacementGroupInfo *)
  info_Hypervisor : string;
  info_VCpuInfo : option (option Z);               (* its DefaultVCpus *)
  info_SizeInMiB : option Z;                       (* MemoryInfo *)
  info_TotalSizeInGB : option Z;                   (* InstanceStorageInfo *)
  info_Gpus : list GpuDeviceInfo;                  (* GpuInfo; none if it is nil *)
  info_NeuronDevices : option (list NeuronDeviceInfo);   (* NeuronInfo *)
  info_MaximumEbsAttachments : option Z;           (* EbsInfo *)
  info_EbsOptimizedSupport : string;
  info_EbsOptimizedInfo : option (option Z);       (* its MaximumBandwidthInMbps *)
  info_SupportedUsageClasses : list string;
  info_NvmeSupport : string;                       (* InstanceStorageInfo *)
  info_Accelerators : list InferenceDeviceInfo;    (* InferenceAcceleratorInfo; none if it is nil *)
}.

Definition info_SupportedFeatures (info : InstanceTypeInfo) : option (list string) :=
  pi_SupportedFeatures <$> info_ProcessorInfo info.

(** Nil pointers read as 0. *)
Definition card_index (card : NetworkCardInfo) : Z := default 0 (card_NetworkCardIndex card).
Definition card_interfaces (card : NetworkCardInfo) : Z :=
  default 0 (card_MaximumNetworkInterfaces card).

Definition EnaSupportUnsupported := "unsupported".
Definition NestedVirtualization_feature := "nested-virtualization".
Definition NitroEnclavesSupported := "supported".

(** [amifamily.ResolvedNetworkInterface]. *)
Record ResolvedNetworkInterface := {
  rni_NetworkCardIndex : Z;
  rni_DeviceIndex : Z;
  rni_InterfaceType : string;
  rni_SecondaryIPCount : option Z;
  rni_SecondaryIPPrefixCount : option Z;
  rni_SecondaryENISecurityGroups : list SecurityGroup;
  rni_SubnetID : string;
}.

(** [None] for a nil slice. *)
Definition ResolveNetworkInterfaces (nis : option (list NetworkInterface)) :
    option (list ResolvedNetworkInterface) :=
  option_map (fmap (M := list) (λ ni, {| rni_NetworkCardIndex := ni_NetworkCardIndex ni;
                 rni_DeviceIndex := ni_DeviceIndex ni;
                 rni_InterfaceType := ni_InterfaceType ni;
                 rni_SecondaryIPCount := None; rni_SecondaryIPPrefixCount := None;
                 rni_SecondaryENISecurityGroups := []; rni_SubnetID := "" |})) nis.

(** [placementgroup.PlacementGroup]. *)
Record PlacementGroup := {
  pg_ID : string;
  pg_Name : string;
  pg_PartitionCount : Z;
  pg_SpreadLevel : string;
  pg_Strategy : string;
}.
Definition StrategyCluster := "cluster".
Definition StrategyPartition := "partition".
Definition StrategySpread := "spread".

(** The NodeClass methods of the [NodeClass] interface. *)
Record NodeClassView := {
  nv_NetworkInterfaces : option (list NetworkInterface);
  nv_AMIFamily : string;
  nv_ConnectionTracking : bool;           (* the options are not nil *)
  nv_NestedVirtualization : option string;
  nv_EnclavesEnabled : bool;
}.

(** ** The checks *)

Definition amiFamilyCheck (amiFamily : string) (info : InstanceTypeInfo) : bool :=
  negb (bool_decide (amiFamily = AMIFamilyAL2023) && HasPrefix (info_InstanceType info) "a1.").

(** The checks on one configured network interface. *)
Definition interface_fits (net : NetworkInfo) (ni : ResolvedNetworkInterface) : bool :=
  let nci := rni_NetworkCardIndex ni in
  let secondaryIPsConfigured :=
    Z.max (default 0 (rni_SecondaryIPPrefixCount ni)) (default 0 (rni_SecondaryIPCount ni)) in
  negb (bool_decide (Z.of_nat (length (NetworkCards net)) ≤ nci)) &&
  match Find (λ card, bool_decide (card_index card = nci)) (NetworkCards net) with
  | None => false
  | Some card => negb (bool_decide (card_interfaces card ≤ rni_DeviceIndex ni))
  end &&
  negb (bool_decide (0 < secondaryIPsConfigured) &&
        bool_decide (default 0 (Ipv4AddressesPerInterface net) < i32 (secondaryIPsConfigured + 1))).

Definition efa_count (nis : list ResolvedNetworkInterface) : Z :=
  Z.of_nat (length (filter (λ ni, rni_InterfaceType ni = InterfaceTypeEFAOnly) nis)).

(** The check on the number of EFA-only interfaces. *)
Definition efa_fits (net : NetworkInfo) (numEfas : Z) : bool :=
  if decide (0 < numEfas) then
    match EfaInfo net with
    | Some (Some max) => negb (bool_decide (max < numEfas))
    | _ => false
    end
  else true.

Definition networkInterfaceCheck (nis : option (list ResolvedNetworkInterface))
    (info : InstanceTypeInfo) : bool :=
  match nis, info_NetworkInfo info with
  | None, _ => true
  | Some _, None => false
  | Some nis, Some net =>
      if decide (NetworkCards net = []) then false
      else if decide (EnaSupport net = EnaSupportUnsupported) then false
      else if negb (forallb (interface_fits net) nis) then false
      else efa_fits net (efa_count nis)
  end.

Definition nestedVirtualizationCheck (nested : option string) (info : InstanceTypeInfo) : bool :=
  if decide (nested ≠ Some "enabled") then true
  else match info_SupportedFeatures info with
       | None => false
       | Some features => bool_decide (NestedVirtualization_feature ∈ features)
       end.

Definition nitroEnclavesCheck (enabled : bool) (info : InstanceTypeInfo) : bool :=
  if negb enabled then true
  else bool_decide (info_NitroEnclavesSupport info = NitroEnclavesSupported).

(** [PlacementGroupStrategyToEC2]: the EC2 strategy of the same name, or the empty one. *)
Definition PlacementGroupStrategyToEC2 (strategy : string) : string :=
  default "" (Find (λ s, bool_decide (s = strategy)) [StrategyCluster; StrategyPartition; StrategySpread]).

Definition placementGroupCheck (pg : option PlacementGroup) (info : InstanceTypeInfo) : bool :=
  match pg with
  | None => true
  | Some pg => bool_decide (PlacementGroupStrategyToEC2 (pg_Strategy pg) ∈ info_SupportedStrategies info)
  end.

Definition connectionTrackingCheck (hasConnectionTracking : bool) (info : InstanceTypeInfo) : bool :=
  if negb hasConnectionTracking then true else bool_decide (info_Hypervisor info = "nitro").

Definition IsCompatibleWithNodeClass (info : InstanceTypeInfo) (nc : NodeClassView)
    (pg : option PlacementGroup) : bool :=
  forallb (λ check : InstanceTypeInfo → bool, check info)
    [networkInterfaceCheck (ResolveNetworkInterfaces (nv_NetworkInterfaces nc));
     amiFamilyCheck (nv_AMIFamily nc);
     nestedVirtualizationCheck (nv_NestedVirtualization nc);
     nitroEnclavesCheck (nv_EnclavesEnabled nc);
     placementGroupCheck pg;
     connectionTrackingCheck (nv_ConnectionTracking nc)].

(** ** Properties *)

(** A network interface of a NodeClass that the instance type can attach. *)
Definition attachable (net : NetworkInfo) (ni : NetworkInterface) : Prop :=
  ni_NetworkCardIndex ni < Z.of_nat (length (NetworkCards net)) ∧
  ∃ card, card ∈ NetworkCards net ∧ card_index card = ni_NetworkCardIndex ni ∧
          ni_DeviceIndex ni < card_interfaces card.

Lemma Find_unique {A} (p : A → bool) (l : list A) x :
  x ∈ l → p x = true → (∀ y, y ∈ l → p y = true → y = x) → Find p l = Some x.
Proof.
  intros Hx Hp Huniq. destruct (Find p l) as [y|] eqn:E.
  - apply Find_Some in E as [Hy Hpy]. by rewrite (Huniq y Hy Hpy).
  - by rewrite (Find_None _ _ _ E Hx) in Hp.
Qed.

Lemma interface_fits_attachable net ni :
  NoDup (card_index <$> NetworkCards net) →
  interface_fits net {| rni_NetworkCardIndex := ni_NetworkCardIndex ni;
    rni_DeviceIndex := ni_DeviceIndex ni; rni_InterfaceType := ni_InterfaceType ni;
    rni_SecondaryIPCount := None; rni_SecondaryIPPrefixCount := None;
                 rni_SecondaryENISecurityGroups := []; rni_SubnetID := "" |} = true ↔ attachable net ni.
Proof.
  intros Hnd. unfold interface_fits, attachable. simpl. rewrite !andb_true_iff, !negb_true_iff.
  rewrite bool_decide_eq_false. split.
  - intros [[Hlen Hcard] _]. split; [lia|]. destruct (Find _ _) as [card|] eqn:E; [|done].
    apply Find_Some in E as [Hin Hidx]. exists card. split; [done|].
    apply bool_decide_eq_true in Hidx. split; [done|].
    apply negb_true_iff, bool_decide_eq_false in Hcard. lia.
  - intros (Hlen & card & Hin & Hidx & Hdev). split; [|done]. split; [lia|].
    rewrite (Find_unique _ _ card); [apply negb_true_iff, bool_decide_eq_false; lia|done|..].
    + by apply bool_decide_eq_true.
    + intros y Hy Hyi%bool_decide_eq_true.
      apply list_elem_of_lookup in Hin as [i Hi]. apply list_elem_of_lookup in Hy as [j Hj].
      assert (i = j) as ->; [|congruence].
      eapply (NoDup_lookup _ i j); [exact Hnd|..]; rewrite list_lookup_fmap.
      * by rewrite Hi.
      * rewrite Hj. simpl. by rewrite Hyi, Hidx.
Qed.

Lemma efa_fits_spec net (efas : list NetworkInterface) :
  efa_fits net (Z.of_nat (length efas)) = true ↔
  (efas ≠ [] → ∃ max, EfaInfo net = Some (Some max) ∧ Z.of_nat (length efas) ≤ max).
Proof.
  unfold efa_fits. destruct efas as [|x efas]; [done|].
  rewrite decide_True by (simpl; lia). destruct (EfaInfo net) as [[max|]|].
  - rewrite negb_true_iff, bool_decide_eq_false. split.
    + intros Hle _. exists max. split; [done|lia].
    + intros Hm. destruct (Hm ltac:(done)) as (m & [= <-] & ?). lia.
  - split; [done|]. intros Hm. by destruct (Hm ltac:(done)) as (m & ? & _).
  - split; [done|]. intros Hm. by destruct (Hm ltac:(done)) as (m & ? & _).
Qed.

(** The configured interfaces fit the instance type's network. *)
Definition network_fits (info : InstanceTypeInfo) (nis : list NetworkInterface) : Prop :=
  ∃ net, info_NetworkInfo info = Some net ∧
    NetworkCards net ≠ [] ∧ EnaSupport net ≠ "unsupported" ∧
    (∀ ni, ni ∈ nis → attachable net ni) ∧
    (let efas := filter (λ ni, ni_InterfaceType ni = "efa-only") nis in
     efas ≠ [] → ∃ max, EfaInfo net = Some (Some max) ∧ Z.of_nat (length efas) ≤ max).

Lemma networkInterfaceCheck_spec nis info :
  (∀ net, info_NetworkInfo info = Some net → NoDup (card_index <$> NetworkCards net)) →
  networkInterfaceCheck (ResolveNetworkInterfaces nis) info = true ↔
  ∀ nis', nis = Some nis' → network_fits info nis'.
Proof.
  intros Hnd. destruct nis as [nis|]; [|done].
  transitivity (network_fits info nis); [|split; [by intros ? ? [= <-]|by intros Hx; apply Hx]].
  unfold ResolveNetworkInterfaces, networkInterfaceCheck, network_fits. simpl option_map.
  set (res := fmap _ nis). destruct (info_NetworkInfo info) as [net|]; [|naive_solver].
  assert (forallb (interface_fits net) res = true ↔ ∀ ni, ni ∈ nis → attachable net ni) as Hfit.
  { unfold res. rewrite forallb_forall. setoid_rewrite <- list_elem_of_In.
    setoid_rewrite list_elem_of_fmap. specialize (Hnd net eq_refl). split.
    - intros Hall ni Hni. apply (interface_fits_attachable net ni Hnd), Hall. by exists ni.
    - intros Hall x (ni & -> & Hni). by apply (interface_fits_attachable net ni Hnd), Hall. }
  assert (efa_count res = Z.of_nat (length (filter (λ ni, ni_InterfaceType ni = "efa-only") nis)))
    as -> by (unfold efa_count, res; by rewrite filter_fmap, length_fmap).
  case_decide as Hc; [naive_solver|].
  case_decide as He; [naive_solver|]. unfold EnaSupportUnsupported in He.
  destruct (forallb _ res); simpl; [|naive_solver].
  setoid_rewrite <- efa_fits_spec. split.
  - intros Hfits. exists net. repeat (split; [done|]). split; [by apply Hfit|done].
  - by intros (net' & [= <-] & _ & _ & _ & ?).
Qed.

(** What compatibility with a NodeClass means.  For an instance type with network cards of
    distinct indexes, it is compatible exactly when: it has ENA network cards that can
    attach every configured network interface and enough EFA interfaces for the EFA-only
    ones (if interfaces are configured); it is not an [a1] type under AL2023; it supports
    nested virtualization, Nitro enclaves and the placement strategy when they are asked
    for; and it is on Nitro when connection tracking is configured. *)
Theorem IsCompatibleWithNodeClass_spec info nc pg :
  (∀ net, info_NetworkInfo info = Some net → NoDup (card_index <$> NetworkCards net)) →
  IsCompatibleWithNodeClass info nc pg = true ↔
  (∀ nis, nv_NetworkInterfaces nc = Some nis → network_fits info nis) ∧
  ¬ (nv_AMIFamily nc = "AL2023" ∧ HasPrefix (info_InstanceType info) "a1." = true) ∧
  (nv_NestedVirtualization nc = Some "enabled" →
     ∃ fs, info_SupportedFeatures info = Some fs ∧ "nested-virtualization" ∈ fs) ∧
  (nv_EnclavesEnabled nc = true → info_NitroEnclavesSupport info = "supported") ∧
  (∀ g, pg = Some g → PlacementGroupStrategyToEC2 (pg_Strategy g) ∈ info_SupportedStrategies info) ∧
  (nv_ConnectionTracking nc = true → info_Hypervisor info = "nitro").
Proof.
  intros Hnd. unfold IsCompatibleWithNodeClass. simpl.
  rewrite !andb_true_iff, (networkInterfaceCheck_spec _ _ Hnd).
  unfold amiFamilyCheck, nestedVirtualizationCheck, nitroEnclavesCheck, placementGroupCheck,
    connectionTrackingCheck.
  rewrite negb_true_iff, andb_false_iff, bool_decide_eq_false.
  assert (∀ b : bool, b = false ↔ ¬ b = true) as -> by (by intros []).
  assert (((if decide (nv_NestedVirtualization nc ≠ Some "enabled") then true
            else match info_SupportedFeatures info with
                 | Some features => bool_decide (NestedVirtualization_feature ∈ features)
                 | None => false end) = true) ↔
          (nv_NestedVirtualization nc = Some "enabled" →
           ∃ fs, info_SupportedFeatures info = Some fs ∧ "nested-virtualization" ∈ fs)) as ->.
  { case_decide; [naive_solver|]. destruct (info_SupportedFeatures info);
      [rewrite bool_decide_eq_true|]; naive_solver. }
  assert (nv_AMIFamily nc ≠ AMIFamilyAL2023 ∨ HasPrefix (info_InstanceType info) "a1." ≠ true ↔
          ¬ (nv_AMIFamily nc = "AL2023" ∧ HasPrefix (info_InstanceType info) "a1." = true)) as ->.
  { destruct (decide (nv_AMIFamily nc = AMIFamilyAL2023)); naive_solver. }
  assert (∀ (b : bool) (P : Prop) `{Decision P},
    (if negb b then true else bool_decide P) = true ↔ (b = true → P)) as Hif.
  { intros [] P ?; simpl; [rewrite bool_decide_eq_true|]; naive_solver. }
  rewrite !Hif.
  assert (match pg with None => true
          | Some pg => bool_decide (PlacementGroupStrategyToEC2 (pg_Strategy pg)
                                      ∈ info_SupportedStrategies info) end = true ↔
          ∀ g, pg = Some g → PlacementGroupStrategyToEC2 (pg_Strategy g) ∈ info_SupportedStrategies info)
    as ->.
  { destruct pg; [rewrite bool_decide_eq_true|]; naive_solver. }
  unfold NitroEnclavesSupported. tauto.
Qed.

(** ** A concrete instance type *)

Definition w_info : InstanceTypeInfo :=
  {| info_InstanceType := "p5.48xlarge";
     info_NetworkInfo := Some
       {| NetworkCards := [{| card_NetworkCardIndex := Some 0; card_MaximumNetworkInterfaces := Some 2 |};
                           {| card_NetworkCardIndex := Some 1; card_MaximumNetworkInterfaces := Some 2 |}];
          DefaultNetworkCardIndex := Some 0; EnaSupport := "required";
          Ipv4AddressesPerInterface := Some 50; EfaInfo := Some (Some 2);
          EncryptionInTransitSupported := Some true |};
     info_ProcessorInfo := None; info_NitroEnclavesSupport := "supported";
     info_SupportedStrategies := ["cluster"]; info_Hypervisor := "nitro";
     info_VCpuInfo := Some (Some 192); info_SizeInMiB := Some 2097152; info_TotalSizeInGB := Some 30400;
     info_Gpus := [{| gpu_Manufacturer := Some "NVIDIA"; gpu_Count := Some 8; gpu_Name := Some "H100";
                    gpu_MemoryInfo := Some (Some 81920) |}];
     info_NeuronDevices := None; info_MaximumEbsAttachments := None;
     info_EbsOptimizedSupport := "default"; info_EbsOptimizedInfo := None;
     info_SupportedUsageClasses := ["on-demand"; "spot"]; info_NvmeSupport := "unsupported"; info_Accelerators := [] |}.

Definition w_view : NodeClassView :=
  {| nv_NetworkInterfaces := Some
       [{| ni_NetworkCardIndex := 0; ni_DeviceIndex := 0; ni_InterfaceType := "interface" |};
        {| ni_NetworkCardIndex := 1; ni_DeviceIndex := 1; ni_InterfaceType := "efa-only" |}];
     nv_AMIFamily := "AL2023"; nv_ConnectionTracking := true; nv_NestedVirtualization := None;
     nv_EnclavesEnabled := true |}.

Lemma IsCompatibleWithNodeClass_spec_witness : info_NitroEnclavesSupport w_info = "supported".
Proof.
  refine (proj1 (proj2 (proj2 (proj2 (proj1 (IsCompatibleWithNodeClass_spec w_info w_view None _) _)))) _).
  - intros net [= <-]. apply (bool_decide_unpack _). by vm_compute.
  - by vm_compute.
  - done.
Defined.
