(* ===== verification/InstanceTypes.v ===== *)
(** * [pkg/providers/instancetype/types.go]: capacity and overhead of instance types

    The arithmetic that turns EC2's description of an instance type into the resources of a
    node: capacity, kube-reserved, system-reserved and eviction thresholds, with the kubelet
    settings of the NodeClass and the AMI family's feature flags
    ([pkg/providers/amifamily]).  [None] is a panic (a nil pointer, an index out of range or
    an invalid quantity).  The parser of quantities is the interface [QuantityParser]; CEL
    evaluation, [strconv.ParseFloat], the approximate value of a quantity and the generated
    table of VPC limits are parameters.  Requirements (labels) are left out. *)
From S2P Require Import Prelude Quantities ApiV1 Scheduling Compatibility.

(** ** AMI families *)

Inductive Family :=
  | FamilyAL2
  | FamilyAL2023
  | FamilyBottlerocket
  | FamilyWindows
  | FamilyCustom.
#[export] Instance Family_eq_dec : EqDecision Family.
Proof. solve_decision. Defined.

Definition GetAMIFamily (amiFamily : string) : Family :=
  if decide (amiFamily = AMIFamilyBottlerocket) then FamilyBottlerocket
  else if decide (amiFamily = AMIFamilyWindows2019) then FamilyWindows
  else if decide (amiFamily = AMIFamilyWindows2022) then FamilyWindows
  else if decide (amiFamily = AMIFamilyWindows2025) then FamilyWindows
  else if decide (amiFamily = AMIFamilyCustom) then FamilyCustom
  else if decide (amiFamily = AMIFamilyAL2023) then FamilyAL2023
  else FamilyAL2.

Record FeatureFlags := {
  UsesENILimitedMemoryOverhead : bool;
  PodsPerCoreEnabled : bool;
  SupportsENILimitedPodDensity : bool;
  SupportsArbitraryKubeletConfig : bool;
}.

Definition DefaultFamily_FeatureFlags : FeatureFlags :=
  {| UsesENILimitedMemoryOverhead := true; PodsPerCoreEnabled := true;
     SupportsENILimitedPodDensity := true; SupportsArbitraryKubeletConfig := false |}.

Definition family_flags (f : Family) : FeatureFlags :=
  match f with
  | FamilyAL2 | FamilyCustom => DefaultFamily_FeatureFlags
  | FamilyAL2023 =>
      {| UsesENILimitedMemoryOverhead := true; PodsPerCoreEnabled := true;
         SupportsENILimitedPodDensity := true; SupportsArbitraryKubeletConfig := true |}
  | FamilyBottlerocket =>
      {| UsesENILimitedMemoryOverhead := false; PodsPerCoreEnabled := false;
         SupportsENILimitedPodDensity := true; SupportsArbitraryKubeletConfig := false |}
  | FamilyWindows =>
      {| UsesENILimitedMemoryOverhead := false; PodsPerCoreEnabled := true;
         SupportsENILimitedPodDensity := false; SupportsArbitraryKubeletConfig := false |}
  end.

Definition EphemeralBlockDevice (f : Family) : option string :=
  match f with
  | FamilyAL2 | FamilyAL2023 => Some "/dev/xvda"
  | FamilyBottlerocket => Some "/dev/xvdb"
  | FamilyWindows => Some "/dev/sda1"
  | FamilyCustom => None
  end.

Definition gi (n : Z) : Quantity := units (n * 2 ^ 30).

(** [amifamily.DefaultEBS]; the volumes of [DefaultBlockDeviceMappings] differ in size only. *)
Definition ebs_of_size (size : Quantity) : BlockDevice Quantity :=
  {| DeleteOnTermination := None; Encrypted := Some true; IOPS := None; KMSKeyID := None;
     SnapshotID := None; Throughput := None; VolumeInitializationRate := None;
     VolumeSize := Some size; VolumeType := Some "gp3" |}.
Definition DefaultEBS_VolumeSize : Quantity := gi 20.

Definition DefaultBlockDeviceMappings (f : Family) : list (BlockDeviceMapping Quantity) :=
  let bdm dev size := {| DeviceName := dev; EBS := Some (ebs_of_size size); RootVolume := false |} in
  match f with
  | FamilyAL2 | FamilyAL2023 => [bdm (EphemeralBlockDevice f) DefaultEBS_VolumeSize]
  | FamilyBottlerocket =>
      [bdm (Some "/dev/xvda") (gi 6); bdm (EphemeralBlockDevice f) DefaultEBS_VolumeSize]
  | FamilyWindows => [bdm (EphemeralBlockDevice f) (gi 50)]
  | FamilyCustom => []
  end.

(** ** Settings *)

(** The process options the arithmetic reads. *)
Record Options_ := {
  opt_VMMemoryOverheadPercent : float64;
  opt_ReservedENIs : Z;
  opt_NodeClassCEL : bool;
}.

Definition MemoryAvailable := "memory.available".
Definition NodeFSAvailable := "nodefs.available".

(** An entry of the generated [Limits] table. *)
Record VPCLimits := { IsTrunkingCompatible : bool; BranchInterface : Z; IPv4PerInterface : Z }.

Section arithmetic.
Context `{QuantityParser}.

(** ** Processors and memory *)

Definition cpu (info : InstanceTypeInfo) : option Quantity :=
  n ← mjoin (info_VCpuInfo info); MustParse (fmt_int n).

(** [float64(v) * percent / 1024 / 1024], rounded up. *)
Definition vm_overhead (bytes : Z) (percent : float64) : Z :=
  float64_ceil (float64_div (float64_div (float64_mul (float64_of_int bytes) percent) 1024) 1024).

Definition is_arm64 (p : ProcessorInfo) : bool :=
  bool_decide (head (pi_SupportedArchitectures p) = Some "arm64").

Definition memory (opts : Options_) (info : InstanceTypeInfo) : option Quantity :=
  size ← info_SizeInMiB info;
  processor ← info_ProcessorInfo info;
  let size := if is_arm64 processor then i64 (size - 64) else size in
  mem ← MustParse (fmt_int size +:+ "Mi");
  overhead ← MustParse (fmt_int (vm_overhead (Value mem) (opt_VMMemoryOverheadPercent opts)) +:+ "Mi");
  Some (mem - overhead).

(** ** Ephemeral storage *)

(** [lo.Find] by device name: a mapping without one is a nil dereference. *)
Fixpoint find_device (device : string) (bdms : list (BlockDeviceMapping Quantity)) :
    option (option (BlockDeviceMapping Quantity)) :=
  match bdms with
  | [] => Some None
  | bdm :: rest =>
      name ← DeviceName bdm;
      if decide (name = device) then Some (Some bdm) else find_device device rest
  end.

(** [bdm.EBS.VolumeSize]: the outer [None] is the nil [EBS]. *)
Definition volume_size (bdm : BlockDeviceMapping Quantity) : option (option Quantity) :=
  VolumeSize <$> EBS bdm.

(** The size a configured mapping gives, if it was found. *)
Definition found_size (found : option (BlockDeviceMapping Quantity)) : option (option Quantity) :=
  match found with
  | None => Some None
  | Some bdm => volume_size bdm
  end.

(** The device of the AMI, [lo.FromPtr]-dereferenced by the code. *)
Definition default_storage (f : Family) : option Quantity :=
  match DefaultBlockDeviceMappings f with
  | [] => Some DefaultEBS_VolumeSize
  | defaults =>
      device ← EphemeralBlockDevice f;
      found ← find_device device defaults;
      match found with
      | Some bdm => mjoin (volume_size bdm)
      | None => Some DefaultEBS_VolumeSize
      end
  end.

(** The mapping that decides, when there are some and the root volume does not. *)
Definition configured_storage (f : Family) (bdms : list (BlockDeviceMapping Quantity)) :
    option (option Quantity) :=
  if decide (f = FamilyCustom) then
    bdm ← last bdms;
    size ← volume_size bdm;
    Some (Some (default DefaultEBS_VolumeSize size))
  else
    device ← EphemeralBlockDevice f;
    found ← find_device device bdms;
    found_size found.

Definition ephemeralStorage (info : InstanceTypeInfo) (f : Family)
    (bdms : list (BlockDeviceMapping Quantity)) (instanceStorePolicy : option string) : option Quantity :=
  let from_mappings :=
    if decide (bdms = []) then default_storage f
    else
      root ← found_size (Find RootVolume bdms);
      match root with
      | Some size => Some size
      | None =>
          configured ← configured_storage f bdms;
          match configured with
          | Some size => Some size
          | None => default_storage f
          end
      end in
  if decide (default "" instanceStorePolicy = InstanceStorePolicyRAID0) then
    match info_TotalSizeInGB info with
    | Some gb => MustParse (fmt_int gb +:+ "G")
    | None => from_mappings
    end
  else from_mappings.

Definition volumeAttachmentLimits (info : InstanceTypeInfo) : gmap string Z :=
  match info_MaximumEbsAttachments info with
  | None => ∅
  | Some n => {["ebs.csi.aws.com" := n - 1]}
  end.

(** ** Network interfaces and pods *)

Section network.
Variable Limits : string → option VPCLimits.

Definition awsPodENI (instanceTypeName : string) : option Quantity :=
  match Limits instanceTypeName with
  | Some l => if IsTrunkingCompatible l then MustParse (fmt_int (BranchInterface l)) else MustParse "0"
  | None => MustParse "0"
  end.

Definition privateIPv4Address (instanceTypeName : string) : option Quantity :=
  match Limits instanceTypeName with
  | Some l => MustParse (fmt_int (IPv4PerInterface l - 1))
  | None => MustParse "0"
  end.
End network.

(** The network card of an index; out of range is a panic. *)
Definition network_card (net : NetworkInfo) (index : Z) : option NetworkCardInfo :=
  if decide (index < 0) then None else NetworkCards net !! Z.to_nat index.

Definition numEFAOnly (nis : list NetworkInterface) : Z :=
  Z.of_nat (length (filter (λ n, ni_NetworkCardIndex n = 0 ∧ ni_InterfaceType n = "efa-only") nis)).

Definition ENILimitedPods (info : InstanceTypeInfo) (reservedENIs : Z) (nis : list NetworkInterface) :
    option Quantity :=
  net ← info_NetworkInfo info;
  index ← DefaultNetworkCardIndex net;
  card ← network_card net index;
  interfaces ← card_MaximumNetworkInterfaces card;
  let usable := Z.max (i64 (interfaces - reservedENIs - numEFAOnly nis)) 0 in
  if decide (usable = 0) then Some 0
  else
    addresses ← Ipv4AddressesPerInterface net;
    MustParse (fmt_int (i64 (usable * (addresses - 1) + 2))).

Definition pods (opts : Options_) (info : InstanceTypeInfo) (f : Family) (maxPods podsPerCore : option Z)
    (nis : list NetworkInterface) : option Quantity :=
  count ← (match maxPods with
           | Some n => Some n
           | None =>
               if SupportsENILimitedPodDensity (family_flags f)
               then Value <$> ENILimitedPods info (opt_ReservedENIs opts) nis
               else Some 110
           end);
  count ← (if bool_decide (0 < default 0 podsPerCore) && PodsPerCoreEnabled (family_flags f) then
             vcpus ← info_VCpuInfo info;
             Some (Z.min (i64 (default 0 podsPerCore * default 0 vcpus)) count)
           else Some count);
  MustParse (fmt_int count).

(** ** Devices *)

(** [count += *gpu.Count] over the GPUs of a manufacturer, in [int32]. *)
Fixpoint count_gpus (manufacturer : string) (gpus : list GpuDeviceInfo) (count : Z) : option Z :=
  match gpus with
  | [] => Some count
  | gpu :: rest =>
      m ← gpu_Manufacturer gpu;
      if decide (m = manufacturer) then
        n ← gpu_Count gpu;
        count_gpus manufacturer rest (i32 (count + n))
      else count_gpus manufacturer rest count
  end.

Definition nvidiaGPUs (info : InstanceTypeInfo) : option Quantity :=
  count ← count_gpus "NVIDIA" (info_Gpus info) 0; MustParse (fmt_int count).
Definition amdGPUs (info : InstanceTypeInfo) : option Quantity :=
  count ← count_gpus "AMD" (info_Gpus info) 0; MustParse (fmt_int count).
Definition habanaGaudis (info : InstanceTypeInfo) : option Quantity :=
  count ← count_gpus "Habana" (info_Gpus info) 0; MustParse (fmt_int count).

Definition awsNeuronCores (info : InstanceTypeInfo) : option Quantity :=
  count ← (match info_NeuronDevices info with
           | None => Some 0
           | Some devices =>
               device ← head devices;
               cores ← neuron_CoreCount device;
               n ← neuron_Count device;
               Some (i32 (n * cores))
           end);
  MustParse (fmt_int count).

Fixpoint count_devices (devices : list NeuronDeviceInfo) (count : Z) : option Z :=
  match devices with
  | [] => Some count
  | d :: rest => n ← neuron_Count d; count_devices rest (i32 (count + n))
  end.

Definition awsNeuronDevices (info : InstanceTypeInfo) : option Quantity :=
  count ← count_devices (default [] (info_NeuronDevices info)) 0; MustParse (fmt_int count).

Definition efas (info : InstanceTypeInfo) (nis : option (list NetworkInterface)) : option Quantity :=
  MustParse (fmt_int
    (match nis with
     | Some nis => Z.of_nat (length (filter (λ n, ni_InterfaceType n = InterfaceTypeEFAOnly) nis))
     | None => default 0 (net ← info_NetworkInfo info; mjoin (EfaInfo net))
     end)).

(** ** Capacity *)

Definition computeCapacity (Limits : string → option VPCLimits) (opts : Options_)
    (info : InstanceTypeInfo) (f : Family) (bdms : list (BlockDeviceMapping Quantity))
    (instanceStorePolicy : option string) (nis : option (list NetworkInterface))
    (maxPods podsPerCore : option Z) : option ResourceList :=
  c ← cpu info;
  m ← memory opts info;
  s ← ephemeralStorage info f bdms instanceStorePolicy;
  p ← pods opts info f maxPods podsPerCore (default [] nis);
  eni ← awsPodENI Limits (info_InstanceType info);
  nvidia ← nvidiaGPUs info;
  amd ← amdGPUs info;
  neuron ← awsNeuronDevices info;
  cores ← awsNeuronCores info;
  gaudi ← habanaGaudis info;
  efa ← efas info nis;
  Some (list_to_map
    [(ResourceCPU, c); (ResourceMemory, m); (ResourceEphemeralStorage, s); (ResourcePods, p);
     (ResourceAWSPodENI, eni); (ResourceNVIDIAGPU, nvidia); (ResourceAMDGPU, amd);
     (ResourceAWSNeuron, neuron); (ResourceAWSNeuronCore, cores); (ResourceHabanaGaudi, gaudi);
     (ResourceEFA, efa)]).

(** ** Reserved resources *)

(** [lo.MapEntries] with [resource.MustParse] on the values. *)
Definition parse_entries (m : gmap string string) : option ResourceList :=
  list_to_map <$> mapM (λ kv, pair kv.1 <$> MustParse kv.2) (map_to_list m).

Definition systemReservedResources (systemReserved : gmap string string) : option ResourceList :=
  parse_entries systemReserved.

(** A range of millicores and the share of it that is reserved, as a ratio. *)
Record CpuRange := { range_start : Z; range_end : Z; range_num : Z; range_den : Z }.

Definition cpuRanges : list CpuRange :=
  [{| range_start := 0; range_end := 1000; range_num := 6; range_den := 100 |};
   {| range_start := 1000; range_end := 2000; range_num := 1; range_den := 100 |};
   {| range_start := 2000; range_end := 4000; range_num := 5; range_den := 1000 |};
   {| range_start := 4000; range_end := 2 ^ 31; range_num := 25; range_den := 10000 |}].

(** [int64(r * percentage)], in floating point. *)
Definition range_share (range : CpuRange) (r : Z) : Z :=
  float64_trunc (float64_mul (float64_of_int r) (float64_lit (range_num range) (range_den range))).

Definition add_range (cpus : Quantity) (reserved : ResourceList) (range : CpuRange) : ResourceList :=
  let cpu := MilliValue cpus in
  if decide (range_start range ≤ cpu) then
    let r := if decide (cpu < range_end range) then cpu - range_start range
             else range_end range - range_start range in
    <[ResourceCPU := default 0 (reserved !! ResourceCPU) + NewMilliQuantity (range_share range r)]> reserved
  else reserved.

Definition kubeReservedResources (cpus pods : Quantity) (kubeReserved : gmap string string) :
    option ResourceList :=
  mem ← MustParse (fmt_int (i64 (11 * Value pods + 255)) +:+ "Mi");
  storage ← MustParse "1Gi";
  let resources := list_to_map [(ResourceMemory, mem); (ResourceEphemeralStorage, storage)] in
  let resources := foldl (add_range cpus) resources cpuRanges in
  overrides ← parse_entries kubeReserved;
  Some (overrides ∪ resources).

(** ** Eviction thresholds *)

Section eviction.
Variable ParseFloat : string → option float64.
Variable AsApproximateFloat64 : Quantity → float64.

(** [strings.Trim(v, "%")] and [strings.HasSuffix(v, "%")]. *)
Fixpoint trim_left (c : ascii) (s : string) : string :=
  match s with
  | String a s' => if decide (a = c) then trim_left c s' else s
  | EmptyString => ""
  end.
Fixpoint trim_right (c : ascii) (s : string) : string :=
  match s with
  | String a s' =>
      match trim_right c s' with
      | EmptyString => if decide (a = c) then "" else String a ""
      | t => String a t
      end
  | EmptyString => ""
  end.
Definition percent_sign : ascii := "%"%char.
Fixpoint ends_with (c : ascii) (s : string) : bool :=
  match s with
  | EmptyString => false
  | String a EmptyString => bool_decide (a = c)
  | String _ s' => ends_with c s'
  end.

(** A percentage of 100 disables the threshold. *)
Definition mustParsePercentage (v : string) : option float64 :=
  p ← ParseFloat (trim_right percent_sign (trim_left percent_sign v));
  Some (if decide (p = float64_of_int 100) then 0 else p).

Definition computeEvictionSignal (capacity : Quantity) (signalValue : string) : option Quantity :=
  if ends_with percent_sign signalValue then
    p ← mustParsePercentage signalValue;
    MustParseFloat (float64_ceil (float64_mul (float64_div (AsApproximateFloat64 capacity) 100) p))
  else MustParse signalValue.

(** The override of one signal, if it is configured. *)
Definition eviction_override (evictionHard : gmap string string) (signal : string)
    (capacity : Quantity) : option (option Quantity) :=
  match evictionHard !! signal with
  | None => Some None
  | Some v => Some <$> computeEvictionSignal capacity v
  end.

Definition evictionThreshold (memory storage : Quantity) (evictionHard : gmap string string) :
    option ResourceList :=
  default_memory ← MustParse "100Mi";
  default_storage ← MustParseFloat
    (float64_ceil (float64_mul (float64_div (float64_of_int (Value storage)) 100) (float64_of_int 10)));
  memory_override ← eviction_override evictionHard MemoryAvailable memory;
  storage_override ← eviction_override evictionHard NodeFSAvailable storage;
  Some (list_to_map [(ResourceMemory, default default_memory memory_override);
                     (ResourceEphemeralStorage, default default_storage storage_override)]).

(** ** The instance type *)

(** [cloudprovider.InstanceTypeOverhead] *)
Record Overhead := {
  KubeReserved : ResourceList;
  SystemReserved : ResourceList;
  EvictionThreshold : ResourceList;
}.

(** The kubelet settings, after expressions have been resolved. *)
Record KubeletSettings := {
  ks_maxPods : option Z;
  ks_podsPerCore : option Z;
  ks_kubeReserved : gmap string string;
  ks_systemReserved : gmap string string;
  ks_evictionHard : gmap string string;
}.

Definition instance_overhead (opts : Options_) (info : InstanceTypeInfo) (f : Family)
    (bdms : list (BlockDeviceMapping Quantity)) (instanceStorePolicy : option string)
    (nis : option (list NetworkInterface)) (ks : KubeletSettings) : option Overhead :=
  c ← cpu info;
  eni ← ENILimitedPods info 0 (default [] nis);
  p ← pods opts info f (ks_maxPods ks) (ks_podsPerCore ks) (default [] nis);
  kube ← kubeReservedResources c (if UsesENILimitedMemoryOverhead (family_flags f) then eni else p)
           (ks_kubeReserved ks);
  system ← systemReservedResources (ks_systemReserved ks);
  m ← memory opts info;
  s ← ephemeralStorage info f bdms instanceStorePolicy;
  eviction ← evictionThreshold m s (ks_evictionHard ks);
  Some {| KubeReserved := kube; SystemReserved := system; EvictionThreshold := eviction |}.
End eviction.

(** ** Kubelet expressions *)

(** [intstr.IntOrString]; the type is a string or anything else. *)
Inductive IntOrString :=
  | IntVal (n : Z)
  | StrVal (s : string).

(** [cel.InstanceTypeVars] *)
Record InstanceTypeVars := {
  VCPUs : Z;
  MemoryMiB : Z;
  DefaultENIs : Z;
  IPsPerENI : Z;
  MaxPods : Z;
  InstanceType_ : string;
}.

Section expressions.
Context {E : Type}.
(** [celEnv.EvaluateExpression] *)
Variable EvaluateExpression : string → InstanceTypeVars → result E Z.

Definition extractENILimits (info : InstanceTypeInfo) : option (Z * Z) :=
  match info_NetworkInfo info with
  | None => Some (0, 0)
  | Some net =>
      enis ← (match NetworkCards net, DefaultNetworkCardIndex net with
              | [], _ | _, None => Some 0
              | _, Some index => card_interfaces <$> network_card net index
              end);
      Some (enis, default 0 (Ipv4AddressesPerInterface net))
  end.

Definition buildCELVars (opts : Options_) (info : InstanceTypeInfo) (f : Family)
    (maxPods podsPerCore : option Z) (nis : list NetworkInterface) : option InstanceTypeVars :=
  '(enis, ips) ← extractENILimits info;
  p ← pods opts info f maxPods podsPerCore nis;
  vcpus ← info_VCpuInfo info;
  Some {| VCPUs := default 0 vcpus; MemoryMiB := default 0 (info_SizeInMiB info); DefaultENIs := enis;
          IPsPerENI := ips; MaxPods := Value p; InstanceType_ := info_InstanceType info |}.

(** Errors of the resolution. *)
Inductive expression_error :=
  | EvaluationFailed (e : E)
  | OutOfRange (n : Z).

Definition resolveMaxPods (opts : Options_) (info : InstanceTypeInfo) (maxPods : option IntOrString)
    (f : Family) (podsPerCore : option Z) (nis : list NetworkInterface) :
    option (result expression_error (option Z)) :=
  match maxPods with
  | None => Some (Ok None)
  | Some (IntVal n) => Some (Ok (Some n))
  | Some (StrVal expression) =>
      if negb (opt_NodeClassCEL opts) then Some (Ok None)
      else
        vars ← buildCELVars opts info f None podsPerCore nis;
        Some match EvaluateExpression expression vars with
             | Err e => Err (EvaluationFailed e)
             | Ok n => if decide (n < 0 ∨ 2 ^ 31 - 1 < n) then Err (OutOfRange n) else Ok (Some (i32 n))
             end
  end.

(** [evaluateResourceExpressions]: the maps are visited in some order; the first failing
    entry is returned. *)
Fixpoint evaluate_entries (vars : InstanceTypeVars) (entries : list (string * string)) :
    option expression_error :=
  match entries with
  | [] => None
  | (_, v) :: rest =>
      if decide (is_Some (MustParse v)) then evaluate_entries vars rest
      else match EvaluateExpression v vars with
           | Err e => Some (EvaluationFailed e)
           | Ok n => if decide (n < 0) then Some (OutOfRange n) else evaluate_entries vars rest
           end
  end.

Definition evaluateResourceExpressions (vars : InstanceTypeVars)
    (kubeReserved systemReserved : gmap string string) : option expression_error :=
  evaluate_entries vars (map_to_list kubeReserved ++ map_to_list systemReserved).
End expressions.
End arithmetic.

(** ** Properties *)

(** *** The reserved share of a range of processors *)

(** How far a literal may be from its ratio for the floating-point share to be the exact
    one: [literal_error num den] is [den] times the error, in units of [2^-1074]. *)
Definition literal_error (num den : Z) : Z := den * float64_lit num den - num * float64_one.

Definition literal_fits (num den : Z) : bool :=
  bool_decide (0 < num ≤ den) && bool_decide (den ≤ 2 ^ 14) &&
  bool_decide (Z.abs (literal_error num den) * 2 ^ 33 ≤ float64_one) &&
  bool_decide (- literal_error num den * 2 ^ 54 ≤ den * float64_lit num den) &&
  bool_decide (2 ^ 60 ≤ float64_lit num den).

(** The product of an integer and such a literal truncates to the exact quotient. *)
Lemma share_exact num den r :
  literal_fits num den = true → 0 ≤ r ≤ 2 ^ 31 →
  float64_trunc (float64_mul (float64_of_int r) (float64_lit num den)) = (r * num) / den.
Proof.
  unfold literal_fits. rewrite !andb_true_iff, !bool_decide_eq_true.
  intros ((((Hnum & Hden) & Herr) & Hneg) & HP) Hr.
  pose proof float64_one_pos as HU. set (P := float64_lit num den) in *.
  assert (den * P = num * float64_one + literal_error num den) as HdP by (unfold literal_error, P; lia).
  set (err := literal_error num den) in *. set (U := float64_one) in *.
  unfold float64_mul. fold U.
  replace r with (r * 2 ^ 0) at 1 by lia. rewrite float64_of_int_exact by lia. fold U.
  replace (r * 2 ^ 0 * U * P) with (r * P * U) by lia.
  set (q := (r * num) / den). pose proof (Z.div_mod (r * num) den ltac:(lia)) as Hdm. fold q in Hdm.
  pose proof (Z.mod_pos_bound (r * num) den ltac:(lia)) as Hs. set (s := (r * num) mod den) in *.
  assert (0 ≤ q) as Hq by (apply Z.div_pos; nia).
  assert (q ≤ 2 ^ 31) as Hq' by nia.
  assert (den * (r * P) = den * q * U + s * U + r * err) as HN by nia.
  assert (0 ≤ r * P * U) as Hpos by nia.
  assert (- U ≤ 2 * (r * err) ≤ U) as Hrerr by nia.
  assert (U = 2 ^ 1074) as HU' by done. clearbody U. clear HdP.
  enough (q * U ≤ round53 (r * P * U) U < (q + 1) * U) as [Hlo Hhi].
  { unfold float64_trunc. fold float64_one. change float64_one with (2 ^ 1074). rewrite <- HU'.
    symmetry. apply (Z.div_unique_pos _ _ _ (round53 (r * P * U) U - q * U)); lia. }
  split.
  - destruct (Z.le_gt_cases (q * U) (r * P)) as [Hge|Hlt].
    + rewrite HU' at 1. apply round53_ge; [lia..|]. rewrite <- HU'. nia.
    + (* only when the quotient is exact and the literal is below its ratio *)
      assert (s = 0) as Hs0 by nia. rewrite Hs0 in HN.
      assert (0 < r) as Hr0 by nia.
      assert (0 < exponent53 (r * P * U) U) as He.
      { unfold exponent53. rewrite Z.div_mul by lia.
        assert (60 ≤ Z.log2 (r * P)) by (apply Z.log2_le_pow2; nia). lia. }
      destruct (exponent53_spec (r * P * U) U Hpos HU He) as [Hlo Hhi].
      rewrite HU' at 1. apply round53_reach; [lia..| |]; rewrite <- ?HU'; set (e := exponent53 _ _) in *.
      * apply Z.nlt_ge. intros He'.
        assert (2 ^ 1074 * 2 ^ 52 ≤ 2 ^ (e + 52)) as Hpow
          by (rewrite <- Z.pow_add_r by lia; apply Z.pow_le_mono_r; lia).
        rewrite <- HU' in Hpow.
        assert (2 ^ (e + 52) ≤ r * P) by (apply (Z.mul_le_mono_pos_r _ _ U HU); exact Hlo).
        assert (q * U ≤ 2 ^ 31 * U) by (apply Z.mul_le_mono_nonneg_r; lia).
        lia.
      * assert (- (r * err) * 2 ^ 54 ≤ den * (r * P)) by nia.
        assert (r * P < 2 ^ (e + 53)) by nia. rewrite Z.pow_add_r in * by lia.
        assert (den * (r * P) < den * (2 ^ e * 2 ^ 53)) by nia.
        assert (2 * (q * U) - 2 * (r * P) < 2 ^ e) by nia. nia.
  - apply Z.le_lt_trans with (((q + 1) * 2 ^ 20 - 1) * 2 ^ 1054).
    + assert (U = 2 ^ 20 * 2 ^ 1054) as HU20 by (rewrite <- Z.pow_add_r by lia; exact HU').
      apply round53_le; [lia|lia|nia|lia|]. apply Z.mul_le_mono_nonneg_r; [lia|].
      pose proof (pow2_pos 1054 ltac:(lia)). clear HU' Hpos Hneg HP.
      set (v := 2 ^ 1054) in *. clearbody v. nia.
    + rewrite HU'. replace (2 ^ 1074) with (2 ^ 20 * 2 ^ 1054) by (rewrite <- Z.pow_add_r by lia; done).
      pose proof (pow2_pos 1054 ltac:(lia)). set (v := 2 ^ 1054) in *. clearbody v. nia.
Qed.

(** *** Kube-reserved *)

(** The reserved millicores of a processor count in millicores, in exact arithmetic: of
    each range, its share of the part below the count, rounded down. *)
Definition exact_share (millis : Z) (range : CpuRange) : Z :=
  Z.max 0 (Z.min millis (range_end range) - range_start range) * range_num range / range_den range.
Definition reserved_millis (millis : Z) : Z := foldr (λ range acc, exact_share millis range + acc) 0 cpuRanges.

Lemma cpuRanges_fit range : range ∈ cpuRanges → literal_fits (range_num range) (range_den range) = true.
Proof.
  intros Hin. assert (forallb (λ c, literal_fits (range_num c) (range_den c)) cpuRanges = true) as Hall
    by by vm_compute.
  rewrite forallb_forall in Hall. by apply Hall, list_elem_of_In.
Qed.

Lemma cpuRanges_bounds range : range ∈ cpuRanges → (0 ≤ range_start range < range_end range) ∧ range_end range ≤ 2 ^ 31.
Proof.
  intros Hin. repeat (apply elem_of_cons in Hin as [->|Hin]; [by vm_compute|]). by apply elem_of_nil in Hin.
Qed.

Lemma add_range_lookup cores reserved range k :
  range ∈ cpuRanges → 0 ≤ cores →
  default 0 (add_range (units cores) reserved range !! k) =
  default 0 (reserved !! k) +
    (if decide (k = ResourceCPU) then NewMilliQuantity (exact_share (1000 * cores) range) else 0).
Proof.
  intros Hin Hc. unfold add_range. rewrite MilliValue_units. cbv zeta.
  pose proof (cpuRanges_bounds _ Hin) as Hb. pose proof (cpuRanges_fit _ Hin) as Hfit.
  assert (range_start range ≤ 1000 * cores →
    range_share range (if decide (1000 * cores < range_end range) then 1000 * cores - range_start range
                       else range_end range - range_start range) = exact_share (1000 * cores) range) as Hshare.
  { intros Hle. unfold range_share, exact_share. rewrite share_exact by (try done; case_decide; lia).
    f_equal. f_equal. case_decide; lia. }
  destruct (decide (range_start range ≤ 1000 * cores)) as [Hle|Hle]; [rewrite Hshare by done|];
    (destruct (decide (k = ResourceCPU)) as [->|Hk]; [|rewrite ?lookup_insert_ne by done; lia]).
  - by rewrite lookup_insert_eq.
  - unfold exact_share. rewrite Z.max_l by lia. rewrite Z.mul_0_l, Zdiv_0_l.
    unfold NewMilliQuantity. lia.
Qed.

Lemma add_ranges_lookup cores reserved ranges k :
  ranges ⊆ cpuRanges → 0 ≤ cores →
  default 0 (foldl (add_range (units cores)) reserved ranges !! k) =
  default 0 (reserved !! k) +
    (if decide (k = ResourceCPU)
     then NewMilliQuantity (foldr (λ range acc, exact_share (1000 * cores) range + acc) 0 ranges) else 0).
Proof.
  revert reserved. induction ranges as [|range ranges IH]; intros reserved Hsub Hc; simpl.
  - case_decide; unfold NewMilliQuantity; lia.
  - rewrite IH, add_range_lookup by set_solver. case_decide; unfold NewMilliQuantity; lia.
Qed.

(** A share is at most the first range's. *)
Lemma exact_share_bound millis : 0 ≤ millis → 0 ≤ reserved_millis millis ≤ 6 * millis / 100.
Proof.
  intros Hm. unfold reserved_millis, exact_share, cpuRanges. simpl foldr.
  cbn [range_start range_end range_num range_den].
  Z.to_euclidean_division_equations. lia.
Qed.

(** *** The VM memory overhead *)

(** Between the exact product rounded down and rounded up to MiB. *)
Lemma vm_overhead_bounds mib percent :
  0 ≤ mib < 2 ^ 33 → 0 ≤ percent ≤ float64_one →
  mib * percent / float64_one ≤ vm_overhead (mib * 2 ^ 20) percent ≤ - (- (mib * percent) / float64_one).
Proof.
  intros Hm Hp. unfold vm_overhead, float64_ceil, float64_div, float64_mul.
  rewrite float64_of_int_exact by lia. pose proof float64_one_pos as HU.
  pose proof (Z.div_mod (mib * percent) float64_one ltac:(lia)) as Hlo.
  pose proof (Z.mod_pos_bound (mib * percent) float64_one HU) as Hlo'.
  pose proof (Z.div_mod (- (mib * percent)) float64_one ltac:(lia)) as Hhi.
  pose proof (Z.mod_pos_bound (- (mib * percent)) float64_one HU) as Hhi'.
  set (k := mib * percent / float64_one) in *. set (k' := - (mib * percent) / float64_one) in *.
  assert (0 ≤ mib * percent ≤ mib * float64_one) as Hprod by nia.
  assert (0 ≤ k) as Hk by (apply Z.div_pos; lia).
  assert (- k' ≤ mib) as Hk' by nia. assert (k ≤ - k') as Hkk by nia.
  set (y1 := round53 (mib * 2 ^ 20 * float64_one * percent) float64_one).
  set (y2 := round53 y1 1024). set (y3 := round53 y2 1024).
  assert (0 ≤ mib * 2 ^ 20 * float64_one * percent) as Hn1 by nia.
  assert (0 ≤ y1) as Hn2 by (by apply round53_nonneg). assert (0 ≤ y2) as Hn3 by (by apply round53_nonneg).
  assert (k * 2 ^ 20 * float64_one ≤ y1 ≤ - k' * 2 ^ 20 * float64_one) as [? ?].
  { split; [apply round53_ge_one|apply round53_le_one]; nia. }
  assert (k * 2 ^ 10 * float64_one ≤ y2 ≤ - k' * 2 ^ 10 * float64_one) as [? ?].
  { split; [apply round53_ge_one|apply round53_le_one]; nia. }
  assert (k * 2 ^ 0 * float64_one ≤ y3 ≤ - k' * 2 ^ 0 * float64_one) as [? ?].
  { split; [apply round53_ge_one|apply round53_le_one]; nia. }
  pose proof (Z.div_mod (- y3) float64_one ltac:(lia)). pose proof (Z.mod_pos_bound (- y3) float64_one HU).
  split; nia.
Qed.

Section properties.
Context `{QuantityParserLaws}.

(** The memory of a node.  Of the memory EC2 reports (less 64 MiB on arm64) the VM
    overhead is taken off in whole MiB; despite the four floating-point roundings the
    overhead is the configured share rounded down or up, so the result is never negative
    and never above the share that remains, rounded up. *)
Theorem memory_bounds opts info size processor usable :
  info_SizeInMiB info = Some size → info_ProcessorInfo info = Some processor →
  usable = (if is_arm64 processor then size - 64 else size) →
  0 ≤ usable < 2 ^ 33 → 0 ≤ opt_VMMemoryOverheadPercent opts ≤ float64_one →
  let share := usable * opt_VMMemoryOverheadPercent opts in
  ∃ overhead, memory opts info = Some (units ((usable - overhead) * 2 ^ 20)) ∧
    share / float64_one ≤ overhead ≤ - (- share / float64_one) ∧
    0 ≤ usable - overhead ≤ usable.
Proof.
  intros Hsize Hproc Husable Hrange Hp share. unfold memory. rewrite Hsize, Hproc. cbn [mbind option_bind].
  replace (if is_arm64 processor then i64 (size - 64) else size) with usable
    by (subst; case_match; [rewrite i64_small; lia|done]).
  rewrite parse_Mi by lia. cbn [mbind option_bind]. rewrite Value_units.
  pose proof (vm_overhead_bounds usable (opt_VMMemoryOverheadPercent opts) Hrange Hp) as Hb.
  fold share in Hb. set (overhead := vm_overhead _ _) in *.
  pose proof float64_one_pos as HU. assert (0 ≤ share ≤ usable * float64_one) as Hs by (unfold share; nia).
  assert (0 ≤ share / float64_one) by (apply Z.div_pos; lia).
  assert (- (- share / float64_one) ≤ usable).
  { assert (- usable ≤ - share / float64_one); [|lia]. apply Z.div_le_lower_bound; lia. }
  exists overhead. rewrite parse_Mi by lia. cbn [mbind option_bind]. split; [|lia].
  f_equal. unfold units. lia.
Qed.

(** C16: kube-reserved.  For a machine of [cores] processors and [p] pods, memory is
    [11 p + 255] MiB, ephemeral storage 1 GiB and CPU the graduated share of the millicores
    (6%, 1%, 0.5%, 0.25%): the floating-point sum is the exact one, each share rounded
    down, and at most 6%; and every entry the user sets overrides its default. *)
Theorem kubeReservedResources_spec cores p kubeReserved overrides :
  0 ≤ cores → 0 ≤ p < 2 ^ 38 → parse_entries kubeReserved = Some overrides →
  ∃ reserved, kubeReservedResources (units cores) (units p) kubeReserved = Some reserved ∧
    (∀ k q, overrides !! k = Some q → reserved !! k = Some q) ∧
    (∀ k, overrides !! k = None →
       default 0 (reserved !! k) =
         if decide (k = ResourceCPU) then NewMilliQuantity (reserved_millis (1000 * cores))
         else if decide (k = ResourceMemory) then units ((11 * p + 255) * 2 ^ 20)
         else if decide (k = ResourceEphemeralStorage) then units (2 ^ 30) else 0) ∧
    0 ≤ reserved_millis (1000 * cores) ≤ 60 * cores.
Proof.
  intros Hc Hp Hov. unfold kubeReservedResources. rewrite Value_units, i64_small by lia.
  rewrite parse_Mi by lia. cbn [mbind option_bind].
  change "1Gi" with (fmt_int 1 +:+ "Gi"). rewrite parse_Gi by lia. cbn [mbind option_bind].
  rewrite Hov. cbn [mbind option_bind]. eexists. split; [done|]. split; [|split].
  - intros k q Hk. by apply lookup_union_Some_l.
  - intros k Hk. rewrite lookup_union_r by done. rewrite add_ranges_lookup by done.
    unfold reserved_millis. destruct (decide (k = ResourceCPU)) as [->|Hcpu]; [done|].
    simpl. unfold ResourceMemory, ResourceEphemeralStorage. rewrite Z.add_0_r.
    destruct (decide (k = "memory")) as [->|]; [by rewrite lookup_insert_eq|].
    rewrite lookup_insert_ne by done.
    destruct (decide (k = "ephemeral-storage")) as [->|]; [by rewrite lookup_insert_eq|].
    by rewrite lookup_insert_ne.
  - pose proof (exact_share_bound (1000 * cores) ltac:(lia)) as Hb.
    replace (6 * (1000 * cores)) with (60 * cores * 100) in Hb by lia. rewrite Z.div_mul in Hb; lia.
Qed.

(** *** Pods *)

(** An [int32] that is not negative. *)
Definition int32_nat (n : Z) : Prop := 0 ≤ n < 2 ^ 31.

(** What EC2 reports of the network and the processors. *)
Record reported (info : InstanceTypeInfo) (interfaces addresses vcpus : Z) : Prop := {
  rep_network : ∃ net index card, info_NetworkInfo info = Some net ∧
    DefaultNetworkCardIndex net = Some index ∧ network_card net index = Some card ∧
    card_MaximumNetworkInterfaces card = Some interfaces ∧
    Ipv4AddressesPerInterface net = Some addresses;
  rep_vcpus : info_VCpuInfo info = Some (Some vcpus);
  rep_range : int32_nat interfaces ∧ int32_nat (addresses - 1) ∧ int32_nat vcpus;
}.

(** The pods the VPC CNI can address: the primary address of each usable interface is not
    for pods, and two host-network pods need none. *)
Definition eni_pods (interfaces reservedENIs efaOnly addresses : Z) : Z :=
  let usable := Z.max (interfaces - reservedENIs - efaOnly) 0 in
  if decide (usable = 0) then 0 else usable * (addresses - 1) + 2.

Lemma eni_pods_range interfaces reservedENIs efaOnly addresses :
  int32_nat interfaces → 0 ≤ reservedENIs → 0 ≤ efaOnly → int32_nat (addresses - 1) →
  0 ≤ eni_pods interfaces reservedENIs efaOnly addresses < 2 ^ 63.
Proof. unfold int32_nat, eni_pods. intros. case_decide; [lia|]. nia. Qed.

Lemma ENILimitedPods_spec info interfaces addresses vcpus reservedENIs nis :
  reported info interfaces addresses vcpus → int32_nat reservedENIs → numEFAOnly nis < 2 ^ 31 →
  ENILimitedPods info reservedENIs nis
  = Some (units (eni_pods interfaces reservedENIs (numEFAOnly nis) addresses)).
Proof.
  intros [(net & index & card & Hnet & Hidx & Hcard & Hmax & Haddr) _ (Hi & Ha & _)] Hr Hefa.
  assert (0 ≤ numEFAOnly nis) as Hefa0 by (unfold numEFAOnly; lia).
  pose proof (eni_pods_range _ _ _ _ Hi (proj1 Hr) Hefa0 Ha) as Hrange.
  unfold ENILimitedPods, int32_nat in *. rewrite Hnet. cbn [mbind option_bind].
  rewrite Hidx. cbn [mbind option_bind]. rewrite Hcard. cbn [mbind option_bind].
  rewrite Hmax. cbn [mbind option_bind]. unfold eni_pods in *.
  rewrite (i64_small (interfaces - reservedENIs - numEFAOnly nis)) by lia.
  case_decide as Hu; [done|]. rewrite Haddr. cbn [mbind option_bind].
  rewrite i64_small by lia. apply parse_int. lia.
Qed.

(** The pod limit in exact arithmetic: the user's, or the network's, or 110; and no more
    than the user's pods per core where the family honours it. *)
Definition base_pods (f : Family) (maxPods : option Z) (eni : Z) : Z :=
  match maxPods with
  | Some n => n
  | None => if SupportsENILimitedPodDensity (family_flags f) then eni else 110
  end.
Definition pod_limit (f : Family) (maxPods podsPerCore : option Z) (eni vcpus : Z) : Z :=
  if decide (0 < default 0 podsPerCore ∧ PodsPerCoreEnabled (family_flags f) = true)
  then Z.min (default 0 podsPerCore * vcpus) (base_pods f maxPods eni)
  else base_pods f maxPods eni.

(** C17: the pods of a node.  Whatever [int32] settings and counts, the computation neither
    panics nor overflows: the pod capacity is the exact limit, not negative, at most
    [maxPods] when that is set, and reserving more interfaces never raises it. *)
Theorem pods_spec opts info f maxPods podsPerCore nis interfaces addresses vcpus :
  reported info interfaces addresses vcpus →
  int32_nat (opt_ReservedENIs opts) → numEFAOnly nis < 2 ^ 31 →
  (∀ n, maxPods = Some n → int32_nat n) → (∀ n, podsPerCore = Some n → int32_nat n) →
  let limit reserved :=
    pod_limit f maxPods podsPerCore (eni_pods interfaces reserved (numEFAOnly nis) addresses) vcpus in
  pods opts info f maxPods podsPerCore nis = Some (units (limit (opt_ReservedENIs opts))) ∧
  0 ≤ limit (opt_ReservedENIs opts) ∧
  (∀ n, maxPods = Some n → limit (opt_ReservedENIs opts) ≤ n) ∧
  (∀ more, opt_ReservedENIs opts ≤ more → limit more ≤ limit (opt_ReservedENIs opts)).
Proof.
  intros Hrep Hr Hefa Hmax Hppc limit. pose proof Hrep as [_ Hvcpus (Hi & Ha & Hv)].
  assert (0 ≤ numEFAOnly nis) as Hefa0 by (unfold numEFAOnly; lia).
  pose proof (eni_pods_range _ _ _ _ Hi (proj1 Hr) Hefa0 Ha) as Heni.
  assert (0 ≤ base_pods f maxPods (eni_pods interfaces (opt_ReservedENIs opts) (numEFAOnly nis) addresses)
          < 2 ^ 63) as Hbase.
  { unfold base_pods, int32_nat in *. destruct maxPods as [n|]; [specialize (Hmax n eq_refl); lia|].
    case_match; lia. }
  assert (0 ≤ default 0 podsPerCore < 2 ^ 31) as Hp.
  { destruct podsPerCore as [n|]; [by apply Hppc|simpl; lia]. }
  unfold int32_nat in *. split; [|split; [|split]].
  - unfold pods. assert ((match maxPods with Some n => Some n | None => _ end) =
      Some (base_pods f maxPods (eni_pods interfaces (opt_ReservedENIs opts) (numEFAOnly nis) addresses)))
      as ->.
    { unfold base_pods. destruct maxPods; [done|]. case_match; [|done].
      rewrite (ENILimitedPods_spec _ _ _ _ _ _ Hrep Hr Hefa). simpl. by rewrite Value_units. }
    cbn [mbind option_bind]. rewrite Hvcpus. cbn [mbind option_bind default].
    unfold limit, pod_limit. rewrite i64_small by (simpl; nia).
    case_decide as Hc.
    + rewrite bool_decide_eq_true_2 by tauto. destruct Hc as [_ ->]. cbn [andb mbind option_bind].
      apply parse_int. simpl. nia.
    + replace (bool_decide (0 < default 0 podsPerCore) && PodsPerCoreEnabled (family_flags f)) with false.
      * cbn [mbind option_bind]. by apply parse_int.
      * symmetry. apply andb_false_iff. rewrite bool_decide_eq_false.
        destruct (PodsPerCoreEnabled _); tauto.
  - unfold limit, pod_limit. case_decide; nia.
  - intros n ->. unfold limit, pod_limit, base_pods. case_decide; lia.
  - intros more Hmore. unfold limit, pod_limit, base_pods, eni_pods.
    destruct maxPods; repeat case_decide; try case_match; nia.
Qed.
End properties.

(** ** A concrete instance type *)

Section concrete.

(** An arm64 machine with 4 processors, 16 GiB and 4 interfaces of 15 addresses. *)
Definition w_arm : InstanceTypeInfo :=
  {| info_InstanceType := "m7g.xlarge";
     info_NetworkInfo := Some
       {| NetworkCards := [{| card_NetworkCardIndex := Some 0; card_MaximumNetworkInterfaces := Some 4 |}];
          DefaultNetworkCardIndex := Some 0; EnaSupport := "required";
          Ipv4AddressesPerInterface := Some 15; EfaInfo := None;
          EncryptionInTransitSupported := Some true |};
     info_ProcessorInfo := Some
       {| pi_SupportedArchitectures := ["arm64"]; pi_SupportedFeatures := []; pi_Manufacturer := Some "AWS";
          pi_SustainedClockSpeedInGhz := Some (float64_lit 26 10) |};
     info_NitroEnclavesSupport := "supported"; info_SupportedStrategies := []; info_Hypervisor := "nitro";
     info_VCpuInfo := Some (Some 4); info_SizeInMiB := Some 16384; info_TotalSizeInGB := None;
     info_Gpus := []; info_NeuronDevices := None; info_MaximumEbsAttachments := Some 27;
     info_EbsOptimizedSupport := "default"; info_EbsOptimizedInfo := None;
     info_SupportedUsageClasses := ["on-demand"; "spot"]; info_NvmeSupport := "unsupported"; info_Accelerators := [] |}.

Definition w_opts : Options_ :=
  {| opt_VMMemoryOverheadPercent := float64_lit 75 1000; opt_ReservedENIs := 1; opt_NodeClassCEL := true |}.

(** 3 usable interfaces of 14 pod addresses, and two host-network pods. *)
Lemma pods_spec_witness :
  pods w_opts w_arm FamilyAL2023 None (Some 20) [] = Some (units (Z.min (20 * 4) (3 * 14 + 2))).
Proof.
  refine (proj1 (pods_spec w_opts w_arm FamilyAL2023 None (Some 20) [] 4 15 4 _ _ _ _ _)).
  - split; [|done|unfold int32_nat; lia]. by eexists _, _, _.
  - unfold int32_nat. simpl. lia.
  - by vm_compute.
  - done.
  - intros n [= <-]. unfold int32_nat. lia.
Defined.

(** 7.5% of 16320 MiB is 1224 MiB; the literal is slightly below 7.5%. *)
Lemma memory_bounds_witness :
  ∃ overhead, memory w_opts w_arm = Some (units ((16320 - overhead) * 2 ^ 20)) ∧ 1223 ≤ overhead ≤ 1224.
Proof.
  destruct (memory_bounds w_opts w_arm 16384
    {| pi_SupportedArchitectures := ["arm64"]; pi_SupportedFeatures := []; pi_Manufacturer := Some "AWS";
       pi_SustainedClockSpeedInGhz := Some (float64_lit 26 10) |} 16320)
    as (overhead & Hmem & Hshare & _);
    [done|done|by vm_compute|lia|by apply (bool_decide_unpack _); vm_compute|].
  exists overhead. split; [exact Hmem|].
  assert (16320 * float64_lit 75 1000 / float64_one = 1223) as Hlo by by vm_compute.
  assert (- (- (16320 * float64_lit 75 1000) / float64_one) = 1224) as Hhi by by vm_compute.
  cbn [w_opts opt_VMMemoryOverheadPercent] in Hshare. rewrite Hlo, Hhi in Hshare. exact Hshare.
Defined.

(** 60 + 10 + 10 millicores of 4 processors, and the user's memory. *)
Lemma kubeReservedResources_spec_witness :
  ∃ reserved, kubeReservedResources (units 4) (units 58) {["memory" := "1Gi"]} = Some reserved ∧
    reserved !! "memory" = Some (units (2 ^ 30)) ∧
    default 0 (reserved !! "cpu") = NewMilliQuantity 80.
Proof.
  destruct (kubeReservedResources_spec 4 58 {["memory" := "1Gi"]} {["memory" := units (2 ^ 30)]})
    as (reserved & Hr & Hover & Hdefault & _); [lia|lia|reflexivity|].
  exists reserved. split; [exact Hr|]. split; [by apply Hover|].
  rewrite (Hdefault "cpu") by done. by vm_compute.
Defined.
End concrete.
