(* ===== verification/AmiFamily.v ===== *)
(** * [pkg/providers/ssm] and [pkg/providers/amifamily]: images

    [ssm/provider.go] and [types.go]: the parameter cache.  [amifamily/ami.go], [types.go]
    and the [DescribeImageQuery] methods of the families: the images a NodeClass selects,
    the best one per set of requirements, and the image of each instance type.
    [controllers/providers/ssm/invalidation]: dropping cached parameters that name
    deprecated images.  EC2, SSM, the scheduling requirements and the hash of a set of
    requirements are parameters.  Go's map iteration order is that of the literal for the
    parameter paths of an alias, and of [map_to_list] elsewhere.  A [None] result is a
    panic. *)
From stdpp Require Import sorting.
From S2P Require Import Prelude GoStd GoCache AwsErrors ApiV1 CapacityReservation Scheduling InstanceTypes.

(** ** SSM parameters *)

Definition CustomParameterType := "custom".

Record Parameter_ := { pm_Name : string; pm_Type : string; pm_IsMutable : bool }.
Definition CacheKey (p : Parameter_) : string := pm_Name p.
Definition GetCacheDuration (p : Parameter_) : Z :=
  if decide (pm_Type p = CustomParameterType) then 5 * Minute else 24 * Hour.
Record CacheEntry := { ce_Parameter : Parameter_; ce_Value : string }.

Section ssm.
Context {C : Type} `{GoCache CacheEntry C}.
Variable now : Z.
(** The value of a parameter in the SSM API, a nil pointer being the empty string. *)
Variable GetParameter : string → result error string.

Definition ssm_Get (parameter : Parameter_) (c : C) : C * result error string :=
  match GoCache.Get c now (CacheKey parameter) with
  | Some entry => (c, Ok (ce_Value entry))
  | None =>
      match GetParameter (pm_Name parameter) with
      | Err e => (c, Err (wrap "getting ssm parameter" e))
      | Ok v =>
          (Set_ c now (CacheKey parameter) {| ce_Parameter := parameter; ce_Value := v |}
             (GetCacheDuration parameter), Ok v)
      end
  end.
End ssm.

(** ** Requirements of images *)

(** What the provider uses of [scheduling] for images: requirements built from a list of
    node selector requirements, [Requirements.Compatible] (no error), and
    [hashstructure.Hash] of the requirements. *)
Class ImageRequirements `{Scheduling} := {
  NewNodeSelectorRequirements : list NodeSelectorRequirement → Requirements;
  StrictlyCompatible : Requirements → Requirements → bool;
  RequirementsHash : Requirements → Z;
}.

Inductive Variant := VariantStandard | VariantNvidia | VariantNeuron.
#[export] Instance Variant_eq_dec : EqDecision Variant.
Proof. solve_decision. Defined.
Definition Variant_string (v : Variant) : string :=
  match v with VariantStandard => "standard" | VariantNvidia => "nvidia" | VariantNeuron => "neuron" end.

Definition NewVariant (v : string) : result error Variant :=
  match Find (λ w, bool_decide (Variant_string w = v)) [VariantStandard; VariantNvidia; VariantNeuron] with
  | Some w => Ok w
  | None => Err (errorf "variant is not well-known")
  end.

Definition NewRequirement (key op : string) (values : list string) : NodeSelectorRequirement :=
  {| nsr_Key := key; nsr_Operator := op; nsr_Values := values |}.
Definition LabelInstanceAcceleratorCount := "karpenter.k8s.aws/instance-accelerator-count".
Definition LabelInstanceGPUCount := "karpenter.k8s.aws/instance-gpu-count".
Definition LabelArchStable := "kubernetes.io/arch".
Definition LabelOSStable := "kubernetes.io/os".
Definition LabelWindowsBuild := "node.kubernetes.io/windows-build".

Definition AWSToKubeArchitectures : gmap string string :=
  list_to_map [("x86_64", "amd64"); ("arm64", "arm64")].

(** ** Image queries *)

Section images.
Context `{IR : ImageRequirements}.

Definition Variant_Requirements (v : Variant) : Requirements :=
  NewNodeSelectorRequirements
    match v with
    | VariantStandard => [NewRequirement LabelInstanceAcceleratorCount "DoesNotExist" [];
                          NewRequirement LabelInstanceGPUCount "DoesNotExist" []]
    | VariantNvidia => [NewRequirement LabelInstanceGPUCount "Exists" []]
    | VariantNeuron => [NewRequirement LabelInstanceAcceleratorCount "Exists" []]
    end.

Record DescribeImageQuery := {
  diq_Filters : list Filter;
  diq_Owners : list string;
  KnownRequirements : gmap string (list Requirements);
}.

Record DescribeImagesInput_ := { dii_Filters : list Filter; dii_Owners : list string }.
Definition DescribeImagesInput (q : DescribeImageQuery) : DescribeImagesInput_ :=
  {| dii_Filters := diq_Filters q ++ [{| f_Name := "state"; f_Values := ["available"] |}];
     dii_Owners := diq_Owners q |}.

(** [r.Add] narrows the shared requirements; an image has one architecture, so adding it
    again for the same image changes nothing. *)
Definition RequirementsForImageWithArchitecture (q : DescribeImageQuery) (image arch : string) :
    list Requirements :=
  match KnownRequirements q !! image with
  | Some known => (λ r, AddIn r LabelArchStable [arch]) <$> known
  | None => [NewNodeSelectorRequirements [NewRequirement LabelArchStable "In" [arch]]]
  end.

(** *** Aliases *)

Inductive ami_error :=
  | AL2DeprecationError (e : error)
  | WS2025UnsupportedVersionError (e : error)
  | ImageError (e : error).

Context {CS : Type} `{GoCache CacheEntry CS}.
Variable now : Z.
Variable GetParameter : string → result error string.
Variable kubernetesVersion : string.

Abbreviation ssm_get := (ssm_Get now GetParameter).

(** The loop over the parameter paths of an alias: paths that do not resolve are skipped. *)
Definition resolve_paths (mutable : bool) (paths : list (string * list Variant)) (c : CS) :
    CS * gmap string (list Variant) :=
  foldl (λ st pv,
    match ssm_get {| pm_Name := pv.1; pm_Type := ""; pm_IsMutable := mutable |} st.1 with
    | (c, Ok imageID) => (c, <[imageID := pv.2]> st.2)
    | (c, Err _) => (c, st.2)
    end) (c, ∅) paths.

Definition alias_error (family version : string) : ami_error :=
  ImageError (errorf ("failed to discover any AMIs for alias, alias=" +:+ family +:+ "@" +:+ version)).

Definition image_id_filter (ids : list string) : Filter := {| f_Name := "image-id"; f_Values := ids |}.

(** The query for resolved image IDs and their variants. *)
Definition query_of_ids (family version : string) (ids : gmap string (list Variant)) :
    result ami_error DescribeImageQuery :=
  if decide (ids = ∅) then Err (alias_error family version)
  else Ok {| diq_Filters := [image_id_filter (map_to_list ids).*1]; diq_Owners := [];
             KnownRequirements := (λ vs : list Variant, Variant_Requirements <$> vs) <$> ids |}.

Definition eks_path (k8s ami path : string) : string :=
  "/aws/service/eks/optimized-ami/" +:+ k8s +:+ "/" +:+ ami +:+ "/" +:+ path +:+ "/image_id".

Definition al2_paths (k8s version : string) : list (string * list Variant) :=
  let name prefix := if decide (version = AliasVersionLatest) then "recommended"
                     else prefix +:+ "-" +:+ k8s +:+ "-" +:+ version in
  [(eks_path k8s "amazon-linux-2" (name "amazon-eks-node"), [VariantStandard]);
   (eks_path k8s "amazon-linux-2-arm64" (name "amazon-eks-arm64-node"), [VariantStandard]);
   (eks_path k8s "amazon-linux-2-gpu" (name "amazon-eks-gpu-node"), [VariantNeuron; VariantNvidia])].

Definition resolvePath (arch variant k8s version : string) : string :=
  let name := if decide (version = AliasVersionLatest) then "recommended"
              else "amazon-eks-node-al2023-" +:+ arch +:+ "-" +:+ variant +:+ "-" +:+ k8s +:+ "-" +:+ version in
  "/aws/service/eks/optimized-ami/" +:+ k8s +:+ "/amazon-linux-2023/" +:+ arch +:+ "/" +:+ variant
    +:+ "/" +:+ name +:+ "/image_id".

Definition al2023_paths (k8s version : string) : list (string * list Variant) :=
  (λ av : string * Variant, (resolvePath av.1 (Variant_string av.2) k8s version, [av.2])) <$>
    [("x86_64", VariantStandard); ("x86_64", VariantNvidia); ("x86_64", VariantNeuron);
     ("arm64", VariantStandard); ("arm64", VariantNvidia)].

Definition bottlerocket_paths (k8s version : string) : list (string * list Variant) :=
  let path suffix arch :=
    "/aws/service/bottlerocket/aws-k8s-" +:+ k8s +:+ suffix +:+ "/" +:+ arch +:+ "/"
      +:+ TrimLeft version "v" +:+ "/image_id" in
  [(path "" "x86_64", [VariantStandard; VariantNeuron]); (path "" "arm64", [VariantStandard]);
   (path "-nvidia" "x86_64", [VariantNvidia]); (path "-nvidia" "arm64", [VariantNvidia])].

(** Version and build of a Windows family ([GetAMIFamily]). *)
Definition windows_release (amiFamily : string) : string * string :=
  if decide (amiFamily = AMIFamilyWindows2019) then ("2019", "10.0.17763")
  else if decide (amiFamily = AMIFamilyWindows2022) then ("2022", "10.0.20348")
  else ("2025", "10.0.26100").

Definition windows_query (amiFamily k8s version : string) (c : CS) :
    CS * result ami_error DescribeImageQuery :=
  let '(release, build) := windows_release amiFamily in
  match ssm_get {| pm_Name := "/aws/service/ami-windows-latest/Windows_Server-" +:+ release
                              +:+ "-English-Core-EKS_Optimized-" +:+ k8s +:+ "/image_id";
                   pm_Type := ""; pm_IsMutable := true |} c with
  | (c, Err _) => (c, Err (alias_error ("windows" +:+ release) version))
  | (c, Ok imageID) =>
      (c, Ok {| diq_Filters := [image_id_filter [imageID]]; diq_Owners := [];
                KnownRequirements :=
                  {[ imageID := [NewNodeSelectorRequirements
                                   [NewRequirement LabelOSStable "In" ["windows"];
                                    NewRequirement LabelWindowsBuild "In" [build]]] ]} |})
  end.

(** [AMIFamily.DescribeImageQuery] *)
Definition family_query (amiFamily version : string) (c : CS) :
    CS * result ami_error DescribeImageQuery :=
  let mutable := bool_decide (version = AliasVersionLatest) in
  let of_paths family paths :=
    let '(c, ids) := resolve_paths mutable (paths kubernetesVersion version) c in
    (c, query_of_ids family version ids) in
  match GetAMIFamily amiFamily with
  | FamilyAL2 => of_paths "al2" al2_paths
  | FamilyAL2023 => of_paths "al2023" al2023_paths
  | FamilyBottlerocket => of_paths "bottlerocket" bottlerocket_paths
  | FamilyWindows => windows_query amiFamily kubernetesVersion version c
  | FamilyCustom => (c, Ok {| diq_Filters := []; diq_Owners := []; KnownRequirements := ∅ |})
  end.

(** [strings.Split(kubernetesVersion, ".")[1]] and [strconv.Atoi]; the outer [None] is an
    index out of range. *)
Definition minor_version : option (option Z) := Atoi <$> Split kubernetesVersion "." !! 1%nat.

Definition alias_query (alias : Alias_) (c : CS) : option (CS * result ami_error (list DescribeImageQuery)) :=
  minor ← (if decide (ApiV1.Family alias = AMIFamilyAL2 ∨ ApiV1.Family alias = AMIFamilyWindows2025)
           then minor_version else Some None);
  Some (if bool_decide (ApiV1.Family alias = AMIFamilyAL2) && bool_decide (33 ≤ default 0 minor) then
          (c, Err (AL2DeprecationError (errorf "AL2 aliases are no longer supported on EKS 1.33+")))
        else if bool_decide (ApiV1.Family alias = AMIFamilyWindows2025) && bool_decide (default 35 minor < 35) then
          (c, Err (WS2025UnsupportedVersionError
                     (errorf "Windows Server 2025 requires EKS version 1.35 or higher")))
        else let '(c, r) := family_query (ApiV1.Family alias) (Version alias) c in
             (c, (λ q, [q]) <$> r)).

Definition wrap_ami (prefix : string) (e : ami_error) : ami_error :=
  match e with
  | AL2DeprecationError e => AL2DeprecationError (wrap prefix e)
  | WS2025UnsupportedVersionError e => WS2025UnsupportedVersionError (wrap prefix e)
  | ImageError e => ImageError (wrap prefix e)
  end.

(** *** Selector terms *)

Definition term_query (term : AMISelectorTerm) : DescribeImageQuery :=
  let name_filter := {| f_Name := "name"; f_Values := [ast_Name term] |} in
  {| diq_Filters := (if decide (ast_Name term = "") then [] else [name_filter])
                    ++ (tag_filter <$> map_to_list (ast_Tags term));
     diq_Owners := if decide (ast_Owner term ≠ "") then [ast_Owner term]
                   else if decide (ast_Name term ≠ "") then ["self"; "amazon"] else [];
     KnownRequirements := ∅ |}.

(** One selector term: the image IDs and the queries collected so far grow. *)
Definition add_ami_term (term : AMISelectorTerm) (ids : list string) (queries : list DescribeImageQuery)
    (c : CS) : CS * result ami_error (list string * list DescribeImageQuery) :=
  if decide (ast_ID term ≠ "") then (c, Ok (ids ++ [ast_ID term], queries))
  else if decide (ast_SSMParameter term ≠ "") then
    match ssm_get {| pm_Name := ast_SSMParameter term; pm_Type := CustomParameterType;
                     pm_IsMutable := false |} c with
    | (c, Err e) => (c, if IsNotFound (Some e) then Ok (ids, queries)
                        else Err (ImageError (wrap "resolving ssm parameter" e)))
    | (c, Ok imageID) =>
        (c, Ok (if HasPrefix imageID "ami-" then ids ++ [imageID] else ids, queries))
    end
  else (c, Ok (ids, queries ++ [term_query term])).

Fixpoint add_ami_terms (terms : list AMISelectorTerm) (ids : list string) (queries : list DescribeImageQuery)
    (c : CS) : CS * result ami_error (list string * list DescribeImageQuery) :=
  match terms with
  | [] => (c, Ok (ids, queries))
  | term :: terms' =>
      match add_ami_term term ids queries c with
      | (c, Ok (ids, queries)) => add_ami_terms terms' ids queries c
      | (c, Err e) => (c, Err e)
      end
  end.

Definition DescribeImageQueries {Quantity} (nc : EC2NodeClass Quantity) (c : CS) :
    option (CS * result ami_error (list DescribeImageQuery)) :=
  alias ← Alias nc;
  match alias with
  | Some a => alias_query a c
  | None =>
      Some match add_ami_terms (AMISelectorTerms (Spec nc)) [] [] c with
           | (c, Err e) => (c, Err e)
           | (c, Ok (ids, queries)) =>
               (c, Ok (if decide (ids = []) then queries
                       else queries ++ [{| diq_Filters := [image_id_filter ids]; diq_Owners := [];
                                           KnownRequirements := ∅ |}]))
           end
  end.
End images.
Arguments DescribeImageQuery {_}.

(** ** Images *)

Section provider.
Context `{IR : ImageRequirements}.

(** [amifamily.AMI] *)
Record Image := {
  im_Name : string;
  im_AmiID : string;
  im_CreationDate : string;
  im_Deprecated : bool;
  im_Requirements : Requirements;
}.

(** [ec2types.Image], a nil pointer being the empty string. *)
Record EC2Image := {
  img_ImageId : string;
  img_Name : string;
  img_CreationDate : string;
  img_DeprecationTime : string;
  img_Architecture : string;
}.

(** Seconds of [maxTime] and [minTime]. *)
Definition maxTime : Z := 2 ^ 63 - 1.
Definition minTime : Z := - 2 ^ 63.

Definition parseTimeWithDefault (dateStr : string) (defaultTime : Z) : option Z :=
  if decide (dateStr = "") then Some defaultTime else ParseRFC3339 dateStr.

(** The seconds of the creation date. *)
Definition created (a : Image) : option Z := parseTimeWithDefault (im_CreationDate a) minTime.

Definition compareAMI (i j : Image) : option Z :=
  iCreationDate ← created i;
  jCreationDate ← created j;
  Some (if decide (im_Deprecated i ≠ im_Deprecated j) then if im_Deprecated i then 1 else -1
        else if decide (iCreationDate ≠ jCreationDate)
        then if decide (jCreationDate < iCreationDate) then -1 else 1
        else if decide (im_Name i ≠ im_Name j)
        then if (im_Name j <? im_Name i)%string then -1 else 1
        else 0).

(** [AMIs.Sort]: newest first, then by ID.  The order of [sort.Slice] is fixed up to
    entries with equal date and ID; one image is never compared, so its date is not read. *)
Definition sorts_before (x y : Z * Image) : Prop :=
  if decide (x.1 ≠ y.1) then y.1 < x.1 else String.le (im_AmiID x.2) (im_AmiID y.2).
#[export] Instance sorts_before_dec : RelDecision sorts_before.
Proof. intros x y. unfold sorts_before. case_decide; apply _. Defined.

Definition Sort (amis : list Image) : option (list Image) :=
  if decide (length amis ≤ 1)%nat then Some amis
  else
    keyed ← mapM (λ a, t ← created a; Some (t, a)) amis;
    Some (merge_sort sorts_before keyed).*2.

(** *** Discovery *)

(** One candidate: an image with one of its sets of requirements. *)
Definition candidate (nowUnix : Z) (image : EC2Image) (reqs : Requirements) : option Image :=
  deprecation ← parseTimeWithDefault (img_DeprecationTime image) maxTime;
  Some {| im_Name := img_Name image; im_AmiID := img_ImageId image;
          im_CreationDate := img_CreationDate image;
          im_Deprecated := bool_decide (deprecation ≤ nowUnix);
          im_Requirements := reqs |}.

Definition consider (nowUnix : Z) (image : EC2Image) (images : option (gmap Z Image))
    (reqs : Requirements) : option (gmap Z Image) :=
  images ← images;
  ami ← candidate nowUnix image reqs;
  match images !! RequirementsHash reqs with
  | Some v => cmp ← compareAMI v ami;
              if decide (cmp ≤ 0) then Some images else Some (<[RequirementsHash reqs := ami]> images)
  | None => Some (<[RequirementsHash reqs := ami]> images)
  end.

Definition consider_image (nowUnix : Z) (q : DescribeImageQuery) (images : option (gmap Z Image))
    (image : EC2Image) : option (gmap Z Image) :=
  match AWSToKubeArchitectures !! img_Architecture image with
  | None => images
  | Some arch =>
      foldl (consider nowUnix image) images
        (RequirementsForImageWithArchitecture q (img_ImageId image) arch)
  end.

Section discovery.
(** The pages of a describe call. *)
Variable DescribeImages : DescribeImagesInput_ → list (result error (list EC2Image)).

Fixpoint consider_pages (nowUnix : Z) (q : DescribeImageQuery) (pages : list (result error (list EC2Image)))
    (images : option (gmap Z Image)) : option (result error (gmap Z Image)) :=
  match pages with
  | [] => Ok <$> images
  | Err e :: _ => _ ← images; Some (Err (wrap "describing images" e))
  | Ok page :: pages' => consider_pages nowUnix q pages' (foldl (consider_image nowUnix q) images page)
  end.

Fixpoint consider_queries (nowUnix : Z) (queries : list DescribeImageQuery) (images : gmap Z Image) :
    option (result error (gmap Z Image)) :=
  match queries with
  | [] => Some (Ok images)
  | q :: queries' =>
      r ← consider_pages nowUnix q (DescribeImages (DescribeImagesInput q)) (Some images);
      match r with
      | Ok images => consider_queries nowUnix queries' images
      | Err e => Some (Err e)
      end
  end.

(** *** The provider *)

Context {CA CS : Type} `{GoCache (list Image) CA} `{GoCache CacheEntry CS}.
Variable now : Z.
Variable GetParameter : string → result error string.
Variable kubernetesVersion : string.

Definition GetNodeClassHash {Quantity} (nc : EC2NodeClass Quantity) : string :=
  nc_UID nc +:+ "-" +:+ fmt_int (nc_Generation nc).

(** The image cache and the parameter cache. *)
Record AMIProvider := { ap_cache : CA; ap_ssm : CS }.

(** The images of the queries, from the cache entry [hash] or EC2. *)
Definition images_of_queries (hash : string) (queries : list DescribeImageQuery) (p : AMIProvider) :
    option (AMIProvider * result ami_error (list Image)) :=
  match GoCache.Get (ap_cache p) now hash with
  | Some images => Some (p, Ok images)
  | None =>
      r ← consider_queries (now / Second) queries ∅;
      match r with
      | Err e => Some (p, Err (ImageError e))
      | Ok images =>
          let values := (map_to_list images).*2 in
          Some ({| ap_cache := SetDefault (ap_cache p) now hash values; ap_ssm := ap_ssm p |}, Ok values)
      end
  end.

Definition amis {Quantity} (nc : EC2NodeClass Quantity) (p : AMIProvider) :
    option (AMIProvider * result ami_error (list Image)) :=
  '(ssm, queries) ← DescribeImageQueries now GetParameter kubernetesVersion nc (ap_ssm p);
  let p' := {| ap_cache := ap_cache p; ap_ssm := ssm |} in
  match queries with
  | Err e => Some (p', Err (wrap_ami "getting AMI queries" e))
  | Ok queries => images_of_queries (GetNodeClassHash nc) queries p'
  end.

Definition List_ {Quantity} (nc : EC2NodeClass Quantity) (p : AMIProvider) :
    option (AMIProvider * result ami_error (list Image)) :=
  '(p, r) ← amis nc p;
  match r with
  | Err e => Some (p, Err e)
  | Ok images => sorted ← Sort images; Some (p, Ok sorted)
  end.

(** *** Invalidation of parameters that name deprecated images *)

(** The NodeClass the controller makes up to look at one image; [uid] is fresh. *)
Definition invalidation_nodeclass (uid amiID : string) : EC2NodeClass Z :=
  {| nc_Name := ""; nc_UID := uid; nc_Generation := 0; nc_DeletionTimestamp := None;
     nc_Annotations := ∅;
     Spec :=
       {| SubnetSelectorTerms := []; SecurityGroupSelectorTerms := [];
          CapacityReservationSelectorTerms := []; PlacementGroupSelector_ := None;
          AssociatePublicIPAddress := None; IPPrefixCount := None;
          AMISelectorTerms :=
            [{| ast_Alias := ""; ast_Tags := ∅; ast_ID := amiID; ast_Name := ""; ast_Owner := "";
                ast_SSMParameter := "" |}];
          AMIFamily_ := None; UserData := None; Role := ""; InstanceProfile_ := None; Tags := ∅;
          Kubelet := ∅; BlockDeviceMappings_ := []; InstanceStorePolicy_ := None;
          NetworkInterfaces_ := []; DetailedMonitoring := None; MetadataOptions_ := None;
          EnclaveOptions_ := None; ConnectionTracking_ := None; Context_ := None;
          CPUOptions_ := None |};
     Status := {| Subnets := []; SecurityGroups := []; CapacityReservations_ := []; AMIs_ := [];
                  InstanceProfile := ""; Conditions := ∅ |} |}.

(** The mutable parameters that are cached, by the image they name. *)
Definition mutable_parameters (ssm : CS) : gmap string Parameter_ :=
  foldl (λ m (kv : string * (CacheEntry * option Z)),
    match live_value now kv.2 with
    | Some entry => if pm_IsMutable (ce_Parameter entry)
                    then <[ce_Value entry := ce_Parameter entry]> m else m
    | None => m
    end) ∅ (map_to_list (items ssm)).

(** The images of each ID; [uids] supplies the identities. *)
Fixpoint lookup_images (uids : nat → string) (i : nat) (amiIDs : list string) (p : AMIProvider) :
    option (AMIProvider * result ami_error (list Image)) :=
  match amiIDs with
  | [] => Some (p, Ok [])
  | amiID :: amiIDs' =>
      '(p, r) ← List_ (invalidation_nodeclass (uids i) amiID) p;
      match r with
      | Err e => Some (p, Err e)
      | Ok images =>
          '(p, r) ← lookup_images uids (S i) amiIDs' p;
          Some (p, match r with Ok images' => Ok (images ++ images') | Err e => Err e end)
      end
  end.

(** [parameter := amiIDsToParameters[ami.AmiID]] is the zero value for a missing key. *)
Definition invalidate_one (parameters : gmap string Parameter_) (ssm : CS) (ami : Image) : CS :=
  if im_Deprecated ami then
    (Delete ssm (default "" (CacheKey <$> parameters !! im_AmiID ami))).1
  else ssm.

Definition Reconcile_invalidation (uids : nat → string) (p : AMIProvider) :
    option (AMIProvider * option ami_error) :=
  let parameters := mutable_parameters (ap_ssm p) in
  '(p, r) ← lookup_images uids 0 (map_to_list parameters).*1 p;
  Some match r with
       | Err e => (p, Some e)
       | Ok images =>
           ({| ap_cache := ap_cache p;
               ap_ssm := foldl (invalidate_one parameters) (ap_ssm p) images |}, None)
       end.
End discovery.

(** ** Images of instance types *)

(** The inner loop: the first image the instance type's requirements are compatible with. *)
Fixpoint add_instance_type (amis : list AMI) (it : InstanceType)
    (amiIDs : gmap string (list InstanceType)) : gmap string (list InstanceType) :=
  match amis with
  | [] => amiIDs
  | ami :: amis' =>
      if StrictlyCompatible (it_Requirements it) (NewNodeSelectorRequirements (ami_Requirements ami))
      then <[ami_ID ami := default [] (amiIDs !! ami_ID ami) ++ [it]]> amiIDs
      else add_instance_type amis' it amiIDs
  end.

Definition MapToInstanceTypes (its : list InstanceType) (amis : list AMI) : gmap string (list InstanceType) :=
  foldl (λ m it, add_instance_type amis it m) ∅ its.
End provider.
Arguments AMIProvider : clear implicits.

(** ** Properties *)

Section selection.
Context `{IR : ImageRequirements}.
Variable nowUnix : Z.

(** The order of [compareAMI] on images whose dates parse: not deprecated first, then the
    newest, then the greatest name. *)
Definition beats (a b : Image) : Prop :=
  ∃ ta tb, created a = Some ta ∧ created b = Some tb ∧
    (im_Deprecated a = true → im_Deprecated b = true) ∧
    (im_Deprecated a = im_Deprecated b →
       tb ≤ ta ∧ (ta = tb → String.le (im_Name b) (im_Name a))).

Lemma string_ltb_leb (s t : string) : (s <? t)%string = negb (t <=? s)%string.
Proof.
  unfold String.ltb, String.leb. rewrite (String.compare_antisym s t).
  by destruct (String.compare t s).
Qed.

(** [beats] on images with known dates. *)
Lemma beats_dated a b ta tb :
  created a = Some ta → created b = Some tb →
  beats a b ↔
  (im_Deprecated a = true → im_Deprecated b = true) ∧
  (im_Deprecated a = im_Deprecated b → tb ≤ ta ∧ (ta = tb → String.le (im_Name b) (im_Name a))).
Proof.
  intros Ha Hb. unfold beats. rewrite Ha, Hb. split; [naive_solver|]. intros. by exists ta, tb.
Qed.

Lemma compareAMI_beats a b c : compareAMI a b = Some c → c ≤ 0 ↔ beats a b.
Proof.
  unfold compareAMI. intros (ta & Ha & (tb & Hb & Hc)%bind_Some)%bind_Some. injection Hc as <-.
  rewrite (beats_dated a b ta tb) by done. case_decide as Hd.
  { destruct (im_Deprecated a), (im_Deprecated b); split; intros; naive_solver lia. }
  rewrite Hd. case_decide as Ht.
  { case_decide; split; intros Hb'; try lia; [|destruct (proj2 Hb' eq_refl); lia].
    split; [done|]. intros _. split; [lia|]. lia. }
  subst tb. case_decide as Hn.
  - rewrite string_ltb_leb. pose proof (String.leb_total (im_Name a) (im_Name b)) as Htot.
    pose proof (String.leb_antisym (im_Name a) (im_Name b)). unfold String.le.
    destruct (im_Name a <=? im_Name b)%string eqn:E1, (im_Name b <=? im_Name a)%string eqn:E2;
      simpl; split; intros; try lia; naive_solver.
  - rewrite Hn. split; [|done]. intros _. split; [done|].
    intros _. split; [done|]. by intros.
Qed.

Lemma compareAMI_dated a b :
  is_Some (created a) → is_Some (created b) → is_Some (compareAMI a b).
Proof. unfold compareAMI. intros [? ->] [? ->]. by eexists. Qed.

#[local] Instance beats_trans : Transitive beats.
Proof.
  intros a b c (ta & tb & Ha & Hb & Hab & Htab) (tb' & tc & Hb' & Hc & Hbc & Htbc). simplify_eq.
  exists ta, tc. split_and!; [done|done|auto|]. intros Hd.
  assert (im_Deprecated a = im_Deprecated b) as Heq
    by (destruct (im_Deprecated a), (im_Deprecated b), (im_Deprecated c); naive_solver).
  destruct (Htab Heq) as [? Hna], Htbc as [? Hnb]; [congruence|]. split; [lia|]. intros ->.
  trans (im_Name b); [apply Hnb|apply Hna]; lia.
Qed.

Lemma beats_total a b : is_Some (created a) → is_Some (created b) → ¬ beats a b → beats b a.
Proof.
  intros [ta Ha] [tb Hb]. rewrite (beats_dated a b ta tb), (beats_dated b a tb ta) by done.
  intros Hn. destruct (im_Deprecated a), (im_Deprecated b); split; intros; try done; try naive_solver.
  all: destruct (decide (tb < ta)), (decide (ta < tb)); try (exfalso; naive_solver lia); try lia.
  all: assert (ta = tb) as -> by lia; split; [lia|]; intros _.
  all: destruct (String.le_total (im_Name a) (im_Name b)); [done|exfalso; naive_solver lia].
Qed.

(** A candidate: an image and one of its sets of requirements. *)
Abbreviation cand c := (candidate nowUnix c.1 c.2).
Definition dated (c : EC2Image * Requirements) : Prop := ∃ a, cand c = Some a ∧ is_Some (created a).

Lemma candidate_Requirements c a : cand c = Some a → im_Requirements a = c.2.
Proof. by intros (? & _ & [= <-])%bind_Some. Qed.

(** [images] holds, per hash, a candidate that beats every candidate of the hash. *)
Record selected (cs : list (EC2Image * Requirements)) (images : gmap Z Image) : Prop := {
  selected_key k a : images !! k = Some a → RequirementsHash (im_Requirements a) = k;
  selected_from k a : images !! k = Some a → ∃ c, c ∈ cs ∧ cand c = Some a;
  selected_best k a c b :
    images !! k = Some a → c ∈ cs → cand c = Some b → RequirementsHash (im_Requirements b) = k → beats a b;
  selected_all c : c ∈ cs → is_Some (images !! RequirementsHash c.2);
}.

Lemma selected_insert cs images c a :
  selected cs images → cand c = Some a → is_Some (created a) →
  (∀ v, images !! RequirementsHash c.2 = Some v → beats a v) →
  selected (cs ++ [c]) (<[RequirementsHash c.2 := a]> images).
Proof.
  intros Hsel Ha [t Ht] Hv. pose proof (candidate_Requirements _ _ Ha) as Hr. split.
  - intros k b [[<- <-]|[Hne Hb]]%lookup_insert_Some; [by rewrite Hr|by eapply selected_key].
  - intros k b [[<- <-]|[Hne Hb]]%lookup_insert_Some.
    + exists c. split; [set_solver|done].
    + destruct (selected_from _ _ Hsel _ _ Hb) as (c' & ? & ?). exists c'. split; [set_solver|done].
  - intros k a' c' b Ha' [Hc'| ->%list_elem_of_singleton]%elem_of_app Hb Hk.
    + apply lookup_insert_Some in Ha' as [[<- <-]|[Hne Ha']]; [|by eapply selected_best].
      destruct (selected_all _ _ Hsel _ Hc') as [v Hvk].
      rewrite <- (candidate_Requirements _ _ Hb), Hk in Hvk.
      trans v; [by apply Hv|by eapply selected_best].
    + rewrite Ha in Hb. injection Hb as <-. rewrite Hr in Hk. subst k.
      rewrite lookup_insert_eq in Ha'. injection Ha' as <-. rewrite (beats_dated _ _ t t) by done.
      split; [done|]. intros _. split; [done|]. by intros.
  - intros c' [Hc'| ->%list_elem_of_singleton]%elem_of_app; [|by rewrite lookup_insert_eq].
    apply lookup_insert_is_Some'. right. by eapply selected_all.
Qed.

Lemma selected_keep cs images c a v :
  selected cs images → cand c = Some a → images !! RequirementsHash c.2 = Some v → beats v a →
  selected (cs ++ [c]) images.
Proof.
  intros Hsel Ha Hv Hbeats. split.
  - by apply (selected_key _ _ Hsel).
  - intros k b Hb. destruct (selected_from _ _ Hsel _ _ Hb) as (c' & ? & ?). exists c'.
    split; [set_solver|done].
  - intros k a' c' b Ha' [Hc'| ->%list_elem_of_singleton]%elem_of_app Hb Hk;
      [by eapply selected_best|].
    rewrite (candidate_Requirements _ _ Hb) in Hk. subst k. congruence.
  - intros c' [Hc'| ->%list_elem_of_singleton]%elem_of_app; [by eapply selected_all|by eexists].
Qed.

Lemma consider_selected cs images c :
  selected cs images → Forall dated (cs ++ [c]) →
  ∃ images', consider nowUnix c.1 (Some images) c.2 = Some images' ∧ selected (cs ++ [c]) images'.
Proof.
  intros Hsel Hd. apply Forall_app in Hd as [Hcs (a & Ha & Hta)%Forall_singleton].
  unfold consider. simpl. rewrite Ha. simpl.
  destruct (images !! RequirementsHash c.2) as [v|] eqn:Hv.
  - assert (is_Some (created v)) as Htv.
    { destruct (selected_from _ _ Hsel _ _ Hv) as (c' & Hc' & Hcand).
      rewrite Forall_forall in Hcs. destruct (Hcs c' Hc') as (v' & ? & ?). by simplify_eq. }
    destruct (compareAMI_dated v a) as [cmp Hcmp]; [done..|]. rewrite Hcmp. simpl.
    pose proof (compareAMI_beats _ _ _ Hcmp) as Hb. case_decide as Hle.
    + eexists. split; [done|]. eapply selected_keep; try done. by apply Hb.
    + eexists. split; [done|]. apply selected_insert; try done. intros v' Hv'. simplify_eq.
      apply beats_total; [done..|]. by rewrite <- Hb.
  - eexists. split; [done|]. apply selected_insert; try done. intros v' Hv'. congruence.
Qed.

(** The loops visit the candidates one by one. *)
Definition image_candidates (q : DescribeImageQuery) (image : EC2Image) : list (EC2Image * Requirements) :=
  match AWSToKubeArchitectures !! img_Architecture image with
  | None => []
  | Some arch => (λ r, (image, r)) <$> RequirementsForImageWithArchitecture q (img_ImageId image) arch
  end.
Abbreviation consider_all := (foldl (λ m c, consider nowUnix c.1 m c.2)).

Lemma consider_all_selected cs :
  Forall dated cs → ∃ images, consider_all (Some ∅) cs = Some images ∧ selected cs images.
Proof.
  induction cs as [|c cs IH] using rev_ind; intros Hd.
  - exists ∅. split; [done|]. split; intros; simplify_map_eq; set_solver.
  - pose proof Hd as [Hcs _]%Forall_app. destruct (IH Hcs) as (images & Hf & Hsel).
    rewrite foldl_app, Hf. simpl. by apply consider_selected.
Qed.

Lemma consider_image_all q images image :
  consider_image nowUnix q images image = consider_all images (image_candidates q image).
Proof.
  unfold consider_image, image_candidates. destruct (_ !! _) as [arch|]; [|done].
  generalize (RequirementsForImageWithArchitecture q (img_ImageId image) arch) as l. intros l.
  revert images. induction l as [|r l IH]; intros images; [done|]. simpl. apply IH.
Qed.

Lemma consider_page_all q page images :
  foldl (consider_image nowUnix q) images page = consider_all images (page ≫= image_candidates q).
Proof.
  revert images. induction page as [|image page IH]; intros images; [done|].
  simpl. by rewrite IH, foldl_app, consider_image_all.
Qed.

Lemma consider_pages_all q pages images :
  consider_pages nowUnix q (Ok <$> pages) images = Ok <$> consider_all images (mjoin pages ≫= image_candidates q).
Proof.
  revert images. induction pages as [|page pages IH]; intros images; [done|].
  simpl. by rewrite IH, bind_app, foldl_app, consider_page_all.
Qed.

Section queries.
Variable DescribeImages : DescribeImagesInput_ → list (result error (list EC2Image)).
Variable pages : DescribeImageQuery → list (list EC2Image).

(** Every image of the queries, with each of its sets of requirements. *)
Definition query_candidates (q : DescribeImageQuery) : list (EC2Image * Requirements) :=
  mjoin (pages q) ≫= image_candidates q.

Lemma consider_queries_all queries images :
  (∀ q, q ∈ queries → DescribeImages (DescribeImagesInput q) = Ok <$> pages q) →
  Forall dated (queries ≫= query_candidates) →
  (∃ cs, Forall dated cs ∧ selected cs images ∧ consider_all (Some ∅) cs = Some images) →
  consider_queries DescribeImages nowUnix queries images =
  Ok <$> consider_all (Some images) (queries ≫= query_candidates).
Proof.
  revert images. induction queries as [|q queries IH]; intros images Hp Hd Hm; [done|]. simpl.
  rewrite Hp by set_solver. rewrite consider_pages_all, foldl_app.
  simpl in Hd. apply Forall_app in Hd as [Hq Hd]. destruct Hm as (cs & Hcs & Hsel & Hf).
  destruct (consider_all_selected (cs ++ query_candidates q)) as (images' & Hf' & Hsel');
    [by apply Forall_app|].
  rewrite foldl_app, Hf in Hf'. unfold query_candidates in *. rewrite Hf'. simpl.
  apply IH; [set_solver|done|]. exists (cs ++ (mjoin (pages q) ≫= image_candidates q)).
  split_and!; [by apply Forall_app|done|]. by rewrite foldl_app, Hf.
Qed.

Lemma consider_queries_selected queries :
  (∀ q, q ∈ queries → DescribeImages (DescribeImagesInput q) = Ok <$> pages q) →
  Forall dated (queries ≫= query_candidates) →
  ∃ images, consider_queries DescribeImages nowUnix queries ∅ = Some (Ok images) ∧
    selected (queries ≫= query_candidates) images.
Proof.
  intros Hp Hd. destruct (consider_all_selected _ Hd) as (images & Hf & Hsel).
  exists images. split; [|done]. rewrite consider_queries_all by (done || (exists []; split_and!;
    [constructor|split; intros; simplify_map_eq; set_solver|done])). by rewrite Hf.
Qed.
End queries.
End selection.

(** *** Listing *)

(** The order [Sort] promises. *)
Definition newest_first `{Scheduling} (a b : Image) : Prop :=
  ∃ ta tb, created a = Some ta ∧ created b = Some tb ∧
    (tb < ta ∨ ta = tb ∧ String.le (im_AmiID a) (im_AmiID b)).

Section sorting.
Context `{S : Scheduling}.

#[local] Instance sorts_before_total : Total sorts_before.
Proof.
  intros x y. unfold sorts_before. destruct (decide (x.1 ≠ y.1)) as [Hne|Heq].
  - rewrite decide_True by congruence. lia.
  - rewrite decide_False by (intros ?; apply Heq; congruence). apply String.le_total.
Qed.

#[local] Instance sorts_before_trans : Transitive sorts_before.
Proof.
  intros x y z. unfold sorts_before.
  repeat case_decide; try lia; try congruence; try (intros; lia).
  intros. by trans (im_AmiID y.2).
Qed.

Lemma mapM_keyed (l : list Image) :
  Forall (λ a, is_Some (created a)) l →
  ∃ keyed, mapM (λ a, t ← created a; Some (t, a)) l = Some keyed ∧
    keyed.*2 = l ∧ Forall (λ x, created x.2 = Some x.1) keyed.
Proof.
  induction l as [|a l IH]; intros Hd; [by exists []|].
  apply Forall_cons in Hd as [[t Ht] Hd]. destruct (IH Hd) as (keyed & Hk & Hl & Hc).
  exists ((t, a) :: keyed). simpl. rewrite Ht. simpl. rewrite Hk. simpl.
  split_and!; [done|by f_equal|by constructor].
Qed.

Lemma Sort_spec l :
  Forall (λ a, is_Some (created a)) l →
  ∃ l', Sort l = Some l' ∧ l' ≡ₚ l ∧ StronglySorted newest_first l'.
Proof.
  intros Hd. unfold Sort. case_decide as Hlen.
  - exists l. split_and!; [done|done|]. destruct l as [|a [|b l]]; [constructor|repeat constructor|simpl in Hlen; lia].
  - destruct (mapM_keyed l Hd) as (keyed & -> & <- & Hc). simpl.
    exists (merge_sort sorts_before keyed).*2.
    assert (Forall (λ x, created x.2 = Some x.1) (merge_sort sorts_before keyed)) as Hc'
      by (by rewrite merge_sort_Permutation).
    split_and!; [done|by rewrite merge_sort_Permutation|].
    pose proof (StronglySorted_merge_sort sorts_before keyed) as Hs.
    induction Hs as [|x xs Hs IH Hx]; [constructor|].
    apply Forall_cons in Hc' as [Hcx Hcxs]. simpl. constructor; [by apply IH|].
    apply Forall_fmap. rewrite Forall_forall in Hx, Hcxs |- *. intros y Hy.
    exists x.1, y.1. split_and!; [done|by apply Hcxs|]. specialize (Hx y Hy).
    unfold sorts_before in Hx. case_decide; auto.
Qed.
End sorting.

Section listing.
Context `{IR : ImageRequirements}.
Context {CA CS : Type} `{GoCacheLaws (list Image) CA} `{GoCacheLaws CacheEntry CS}.
Context {Quantity : Type}.
Variable DescribeImages : DescribeImagesInput_ → list (result error (list EC2Image)).
Variable now : Z.
Variable GetParameter : string → result error string.
Variable kubernetesVersion : string.

(** C18: the images of a NodeClass.  When EC2 answers every query and the dates of the
    images parse, [List] returns, newest first, exactly one image for each set of
    requirements that some described image has; that image was described with those
    requirements, and no other described with them is less deprecated, newer, or of the
    same date with a greater name.  The result is cached for the NodeClass's generation. *)
Theorem List_selects_best (nc : EC2NodeClass Quantity) (p : AMIProvider CA CS) ssm queries pages :
  DescribeImageQueries now GetParameter kubernetesVersion nc (ap_ssm p) = Some (ssm, Ok queries) →
  GoCache.Get (ap_cache p) now (GetNodeClassHash nc) = None →
  (∀ q, q ∈ queries → DescribeImages (DescribeImagesInput q) = Ok <$> pages q) →
  Forall (dated (now / Second)) (queries ≫= query_candidates pages) →
  0 < defaultTTL (ap_cache p) →
  ∃ p' l cached,
    List_ DescribeImages now GetParameter kubernetesVersion nc p = Some (p', Ok l) ∧
    StronglySorted newest_first l ∧
    NoDup ((λ a, RequirementsHash (im_Requirements a)) <$> l) ∧
    (∀ c, c ∈ queries ≫= query_candidates pages →
       ∃ a, a ∈ l ∧ RequirementsHash (im_Requirements a) = RequirementsHash c.2) ∧
    (∀ a, a ∈ l →
       (∃ c, c ∈ queries ≫= query_candidates pages ∧ candidate (now / Second) c.1 c.2 = Some a) ∧
       (∀ c b, c ∈ queries ≫= query_candidates pages → candidate (now / Second) c.1 c.2 = Some b →
          RequirementsHash (im_Requirements b) = RequirementsHash (im_Requirements a) → beats a b)) ∧
    GoCache.Get (ap_cache p') now (GetNodeClassHash nc) = Some cached ∧ cached ≡ₚ l.
Proof.
  intros Hq Hmiss Hp Hd Httl. destruct (consider_queries_selected _ _ _ _ Hp Hd) as (images & Hc & Hsel).
  assert (∀ a, a ∈ (map_to_list images).*2 ↔ images !! RequirementsHash (im_Requirements a) = Some a) as Hin.
  { intros a. rewrite list_elem_of_fmap. split.
    - intros ([k b] & -> & Hb%elem_of_map_to_list). simpl. by rewrite (selected_key _ _ _ Hsel _ _ Hb).
    - intros Ha. eexists (_, a). split; [done|]. by apply elem_of_map_to_list. }
  destruct (Sort_spec (map_to_list images).*2) as (l & Hs & Hperm & Hsorted).
  { apply Forall_forall. intros a Ha%Hin.
    destruct (selected_from _ _ _ Hsel _ _ Ha) as (c & Hc' & Hcand).
    rewrite Forall_forall in Hd. destruct (Hd c Hc') as (a' & ? & ?). by simplify_eq. }
  assert (∀ a, a ∈ l ↔ images !! RequirementsHash (im_Requirements a) = Some a) as Hl
    by (intros a; by rewrite Hperm).
  eexists _, l, _. split; [|split_and!].
  - unfold List_, amis, images_of_queries. rewrite Hq. simpl. rewrite Hmiss, Hc. simpl. by rewrite Hs.
  - done.
  - rewrite Hperm, <- list_fmap_compose, (list_fmap_ext _ fst); [apply NoDup_fst_map_to_list|].
    intros i [k a] Hka%list_elem_of_lookup_2%elem_of_map_to_list. simpl.
    by apply (selected_key _ _ _ Hsel).
  - intros c Hcc. destruct (selected_all _ _ _ Hsel _ Hcc) as [a Ha]. exists a.
    pose proof (selected_key _ _ _ Hsel _ _ Ha) as Hk. split; [|done]. apply Hl. by rewrite Hk.
  - intros a Ha%Hl. split; [by eapply selected_from|]. intros. by eapply selected_best.
  - simpl. rewrite Get_SetDefault_eq by done. rewrite decide_True by lia. done.
  - by symmetry.
Qed.
End listing.

(** *** Images of instance types *)

Section mapping.
Context `{IR : ImageRequirements}.

(** The image of an instance type: the first compatible one. *)
Definition first_image (amis : list AMI) (it : InstanceType) : option string :=
  ami_ID <$> Find (λ ami, StrictlyCompatible (it_Requirements it)
                            (NewNodeSelectorRequirements (ami_Requirements ami))) amis.

Lemma add_instance_type_spec amis it m :
  add_instance_type amis it m =
  match first_image amis it with
  | Some id => <[id := default [] (m !! id) ++ [it]]> m
  | None => m
  end.
Proof.
  unfold first_image, Find. induction amis as [|ami amis IH]; [done|]. simpl. rewrite filter_cons.
  destruct (StrictlyCompatible _ _); simpl; [done|]. exact IH.
Qed.

Lemma MapToInstanceTypes_lookup its amis id l :
  MapToInstanceTypes its amis !! id = Some l ↔
  l = filter (λ it, first_image amis it = Some id) its ∧ l ≠ [].
Proof.
  unfold MapToInstanceTypes. revert l. induction its as [|it its IH] using rev_ind; intros l.
  - simpl. rewrite lookup_empty. naive_solver.
  - rewrite foldl_app, filter_app, filter_cons, filter_nil. simpl.
    rewrite add_instance_type_spec. set (m := foldl _ ∅ its) in *.
    destruct (first_image amis it) as [id'|]; [|by rewrite decide_False, app_nil_r].
    destruct (decide (id' = id)) as [->|Hne].
    + rewrite lookup_insert_eq, decide_True by done.
      assert (default [] (m !! id) = filter (λ it, first_image amis it = Some id) its) as ->.
      { destruct (m !! id) as [l'|] eqn:E; simpl; [by destruct (proj1 (IH l') eq_refl)|].
        destruct (filter _ its) eqn:F; [done|]. exfalso.
        assert (None = Some (i :: l0)) by by apply IH. done. }
      split; [intros [= <-]; split; [done|]; by destruct (filter _ _)|by intros [-> _]].
    + rewrite lookup_insert_ne, decide_False, app_nil_r by congruence. apply IH.
Qed.

(** Each instance type goes to the first image of the NodeClass it is compatible with,
    and to no other; the types of an image keep their order, and every image of the result
    has one. *)
Theorem MapToInstanceTypes_first its amis :
  (∀ id l, MapToInstanceTypes its amis !! id = Some l ↔
     l = filter (λ it, first_image amis it = Some id) its ∧ l ≠ []) ∧
  (∀ it, it ∈ its → ∀ id,
     first_image amis it = Some id ↔ ∃ l, MapToInstanceTypes its amis !! id = Some l ∧ it ∈ l).
Proof.
  split; [intros id l; apply MapToInstanceTypes_lookup|]. intros it Hit id. split.
  - intros Hid. eexists. rewrite MapToInstanceTypes_lookup.
    assert (it ∈ filter (λ it, first_image amis it = Some id) its) as Hin by by apply list_elem_of_filter.
    split; [split; [done|]|done]. intros Hnil. rewrite Hnil in Hin. by apply elem_of_nil in Hin.
  - by intros (l & [-> _]%MapToInstanceTypes_lookup & [? _]%list_elem_of_filter).
Qed.
End mapping.

(** ** Concrete executions *)

(** On the reference requirements: an [Exists] requirement allows any value, and the hash
    is an injection of the finite map. *)
#[export] Instance RefImageRequirements : ImageRequirements := {
  NewNodeSelectorRequirements rs :=
    list_to_map (omap (λ r : NodeSelectorRequirement,
      if decide (nsr_Operator r = "Exists") then None
      else Some (nsr_Key r, nsr_Values r)) rs) : gmap string (list string);
  StrictlyCompatible := ref_compatible;
  RequirementsHash (r : gmap string (list string)) := Z.pos (encode (map_to_list r));
}.

Definition example_image (id name date deprecation arch : string) : EC2Image :=
  {| img_ImageId := id; img_Name := name; img_CreationDate := date; img_DeprecationTime := deprecation;
     img_Architecture := arch |}.

(** A newer image that is deprecated, an older one that is not, and one for arm64. *)
Definition example_images : list EC2Image :=
  [example_image "ami-new" "v2" "2024-03-01T00:00:00.000Z" "2024-05-01T00:00:00.000Z" "x86_64";
   example_image "ami-old" "v1" "2024-01-01T00:00:00.000Z" "" "x86_64";
   example_image "ami-arm" "v1" "2024-01-02T00:00:00.000Z" "" "arm64";
   example_image "ami-386" "v1" "2024-01-02T00:00:00.000Z" "" "i386"].

Definition example_describe (i : DescribeImagesInput_) : list (result error (list EC2Image)) :=
  [Ok example_images].

Definition example_ami_class : EC2NodeClass Z := invalidation_nodeclass "uid" "ami-new".

(** 2024-06-01 *)
Definition example_now : Z := 1717200000 * Second.

Definition example_amis : AMIProvider (RefCache.t (list Image)) (RefCache.t CacheEntry) :=
  {| ap_cache := New (5 * Minute); ap_ssm := New (24 * Hour) |}.

Definition example_list :=
  List_ example_describe example_now (λ _, Err (errorf "no parameter")) "1.31" example_ami_class example_amis.

Example example_list_ids :
  match example_list with Some (_, Ok l) => im_AmiID <$> l | _ => [] end = ["ami-arm"; "ami-old"].
Proof. by vm_compute. Qed.

Definition example_query : DescribeImageQuery :=
  {| diq_Filters := [image_id_filter ["ami-new"]]; diq_Owners := []; KnownRequirements := ∅ |}.

Lemma List_selects_best_witness :
  ∃ p' l cached,
    example_list = Some (p', Ok l) ∧ StronglySorted newest_first l ∧
    NoDup ((λ a, RequirementsHash (im_Requirements a)) <$> l) ∧
    GoCache.Get (ap_cache p') example_now "uid-0" = Some cached ∧ cached ≡ₚ l.
Proof.
  destruct (List_selects_best example_describe example_now (λ _, Err (errorf "no parameter")) "1.31"
    example_ami_class example_amis (ap_ssm example_amis) [example_query] (λ _, [example_images]))
    as (p' & l & cached & Hl & Hs & Hnd & _ & _ & Hc & Hp).
  - reflexivity.
  - reflexivity.
  - intros q _. reflexivity.
  - cbn. repeat (apply Forall_cons; split;
      [eexists; split; [reflexivity|vm_compute; eexists; reflexivity]|]). apply Forall_nil. done.
  - reflexivity.
  - exists p', l, cached. split_and!; done.
Defined.

Definition example_type (name arch gpu : string) : InstanceType :=
  {| Name := name;
     it_Requirements := {[ LabelArchStable := [arch]; LabelInstanceGPUCount := [gpu] ]} :
       gmap string (list string);
     Offerings := []; Capacity := ∅ |}.
Definition example_status_amis : list AMI :=
  [{| ami_ID := "ami-arm"; ami_Deprecated := false; ami_Name := "arm";
      ami_Requirements := [NewRequirement LabelArchStable "In" ["arm64"]] |};
   {| ami_ID := "ami-x86"; ami_Deprecated := false; ami_Name := "x86";
      ami_Requirements := [NewRequirement LabelArchStable "In" ["amd64"]] |}].

Example MapToInstanceTypes_example :
  MapToInstanceTypes [example_type "m5.large" "amd64" "0"; example_type "m6g.large" "arm64" "0";
                      example_type "c5.large" "amd64" "0"] example_status_amis !! "ami-x86"
  = Some [example_type "m5.large" "amd64" "0"; example_type "c5.large" "amd64" "0"].
Proof. reflexivity. Qed.
