(* ===== verification/Kubelet.v ===== *)
(** * [pkg/apis/v1/kubeletconfiguration.go] and [pkg/cel]: kubelet settings

    The typed part of a kubelet configuration, and the evaluation of CEL expressions in
    [kubeReserved] and [systemReserved].  The JSON codec and the CEL library are parameters:
    an environment compiles an expression, an AST has an output type, and a program
    evaluates to a value.  Compiled programs are cached with a sliding lifetime. *)
From stdpp Require Import sorting.
From S2P Require Import Prelude GoStd GoCache AwsErrors ApiV1 Quantities InstanceTypes.

(** ** Settings *)

(** Durations are in nanoseconds; a nil map is the empty one. *)
Record ParsedKubeletConfig := {
  ClusterDNS : list string;
  pk_MaxPods : option IntOrString;
  PodsPerCore : option Z;
  SystemReserved : gmap string string;
  KubeReserved : gmap string string;
  EvictionHard : gmap string string;
  EvictionSoft : gmap string string;
  EvictionSoftGracePeriod : gmap string Z;
  EvictionMaxPodGracePeriod : option Z;
  ImageGCHighThresholdPercent : option Z;
  ImageGCLowThresholdPercent : option Z;
  CPUCFSQuota : option bool;
}.

(** [&ParsedKubeletConfig{}] *)
Definition empty_config : ParsedKubeletConfig :=
  {| ClusterDNS := []; pk_MaxPods := None; PodsPerCore := None; SystemReserved := ∅;
     KubeReserved := ∅; EvictionHard := ∅; EvictionSoft := ∅; EvictionSoftGracePeriod := ∅;
     EvictionMaxPodGracePeriod := None; ImageGCHighThresholdPercent := None;
     ImageGCLowThresholdPercent := None; CPUCFSQuota := None |}.

(** The JSON names of the fields above. *)
Definition managedKubeletFields : list string :=
  ["clusterDNS"; "maxPods"; "podsPerCore"; "systemReserved"; "kubeReserved"; "evictionHard";
   "evictionSoft"; "evictionSoftGracePeriod"; "evictionMaxPodGracePeriod";
   "imageGCHighThresholdPercent"; "imageGCLowThresholdPercent"; "cpuCFSQuota"].

Definition UnmanagedKubeletFields (kc : KubeletConfiguration) : list string :=
  merge_sort String.le (filter (λ key, key ∉ managedKubeletFields) (map_to_list kc).*1).

Section settings.
Context `{QuantityParser}.
(** [json.Unmarshal] of the marshaled map. *)
Variable Unmarshal : KubeletConfiguration → result error ParsedKubeletConfig.

Definition ParseKubeletConfig (kc : KubeletConfiguration) : result error ParsedKubeletConfig :=
  if decide (kc = ∅) then Ok empty_config else Unmarshal kc.

(** [resource.ParseQuantity] fails. *)
Definition is_expression (v : string) : bool :=
  match MustParse v with Some _ => false | None => true end.

Definition HasResourceExpressions (parsed : ParsedKubeletConfig) : bool :=
  existsb (λ kv, is_expression kv.2)
    (map_to_list (KubeReserved parsed) ++ map_to_list (SystemReserved parsed)).

Definition HasExpressions (parsed : ParsedKubeletConfig) : bool :=
  match pk_MaxPods parsed with
  | Some (StrVal _) => true
  | _ => HasResourceExpressions parsed
  end.

Definition MaxPodsValue (parsed : ParsedKubeletConfig) : option Z :=
  match pk_MaxPods parsed with
  | Some (IntVal value) => if decide (- 2 ^ 31 ≤ value ≤ 2 ^ 31 - 1) then Some value else None
  | _ => None
  end.

(** [staticQuantities] of [amifamily/resolver.go]. *)
Definition staticQuantities (m : gmap string string) : gmap string string :=
  filter (λ kv, is_expression kv.2 = false) m.
End settings.

(** ** Formatting *)

Definition cpuRoundingMilliCores := 10.
Definition memoryRoundingMiB := 16.

(** The sum and the product are those of [int64]. *)
Definition roundUpTo (value granularity : Z) : Z :=
  if decide (granularity ≤ 1 ∨ value ≤ 0 ∨ value `rem` granularity = 0) then value
  else if decide (2 ^ 63 - 1 - granularity < value) then value
  else i64 (i64 (value `quot` granularity + 1) * granularity).

Definition formatResourceResult (key : string) (res : Z) : string :=
  if decide (key = ResourceCPU) then fmt_int (roundUpTo res cpuRoundingMilliCores) +:+ "m"
  else if decide (key = ResourceMemory) then fmt_int (roundUpTo res memoryRoundingMiB) +:+ "Mi"
  else if decide (key = ResourceEphemeralStorage) then fmt_int res +:+ "Gi"
  else fmt_int res.

(** ** Evaluation *)

(** The type of an AST, and the value of a program: [int64], a finite [float64], an infinity
    or NaN, or anything else. *)
Inductive CelType := IntType | DoubleType | OtherType.
Inductive CelValue := CelInt (n : Z) | CelDouble (x : float64) | CelNonFinite | CelOther.

Section cel.
Context `{QuantityParser}.
Context {Ast Program C : Type} `{GoCache Program C}.
Variable env_Compile : string → result error Ast.
Variable OutputType : Ast → CelType.
Variable env_Program : Ast → result error Program.
Variable Eval : Program → InstanceTypeVars → result error CelValue.
(** [int64(v)] outside the range of [int64], which depends on the processor. *)
Variable out_of_range : float64 → Z.
Variable now : Z.

Definition Compile (expression : string) : result error Program :=
  match env_Compile expression with
  | Err e => Err (wrap "compiling expression" e)
  | Ok ast =>
      match OutputType ast with
      | OtherType => Err (errorf "expression must return int or double")
      | _ => match env_Program ast with
             | Ok prg => Ok prg
             | Err e => Err (wrap "creating program for expression" e)
             end
      end
  end.

(** A hit renews the entry; failures are not stored. *)
Definition compileCached (expression : string) (c : C) : C * result error Program :=
  match GoCache.Get c now expression with
  | Some cached => (SetDefault c now expression cached, Ok cached)
  | None =>
      match Compile expression with
      | Ok compiled => (SetDefault c now expression compiled, Ok compiled)
      | Err e => (c, Err e)
      end
  end.

Definition ValidateExpression (expression : string) (c : C) : C * option error :=
  match compileCached expression c with
  | (c, Ok _) => (c, None)
  | (c, Err e) => (c, Some e)
  end.

(** [int64] of a finite double: truncation toward zero. *)
Definition int64_of (x : float64) : Z :=
  let n := x `quot` float64_one in if decide (- 2 ^ 63 ≤ n < 2 ^ 63) then n else out_of_range x.

(** Running a compiled program. *)
Definition run_program (compiled : Program) (vars : InstanceTypeVars) : result error Z :=
  match Eval compiled vars with
  | Err e => Err (wrap "evaluating expression" e)
  | Ok (CelInt n) => Ok n
  | Ok (CelDouble x) => Ok (int64_of x)
  | Ok CelNonFinite => Err (errorf "expression returned a non-finite value")
  | Ok CelOther => Err (errorf "expression returned an unexpected type")
  end.

Definition EvaluateExpression (expression : string) (vars : InstanceTypeVars) (c : C) : C * result error Z :=
  match compileCached expression c with
  | (c, Err e) => (c, Err e)
  | (c, Ok compiled) => (c, run_program compiled vars)
  end.

(** The loop over the entries; [vars] is what [varsFn] returns. *)
Fixpoint resolve_entries (vars : result error InstanceTypeVars) (entries : list (string * string))
    (resolved : gmap string string) (c : C) : C * result error (gmap string string) :=
  match entries with
  | [] => (c, Ok resolved)
  | (k, v) :: entries' =>
      if is_expression v then
        match vars with
        | Err e => (c, Err e)
        | Ok vs =>
            match EvaluateExpression v vs c with
            | (c, Err _) => resolve_entries vars entries' resolved c
            | (c, Ok res) =>
                if decide (res < 0) then resolve_entries vars entries' resolved c
                else resolve_entries vars entries' (<[k := formatResourceResult k res]> resolved) c
            end
        end
      else resolve_entries vars entries' (<[k := v]> resolved) c
  end.

Definition ResolveResourceMap (resourceMap : gmap string string) (vars : result error InstanceTypeVars)
    (c : C) : C * result error (gmap string string) :=
  if decide (resourceMap = ∅) then (c, Ok resourceMap)
  else resolve_entries vars (map_to_list resourceMap) ∅ c.

(** ** The reference: evaluation without a cache *)

(** What an entry resolves to: a quantity stays, an expression becomes its value, and one
    that fails or is negative is dropped. *)
Definition resolve_entry (vs : InstanceTypeVars) (k v : string) : option string :=
  if is_expression v then
    match Compile v with
    | Err _ => None
    | Ok compiled =>
        match run_program compiled vs with
        | Err _ => None
        | Ok res => if decide (res < 0) then None else Some (formatResourceResult k res)
        end
    end
  else Some v.

(** The variables are needed only if there is an expression. *)
Definition resolve_map (resourceMap : gmap string string) (vars : result error InstanceTypeVars) :
    result error (gmap string string) :=
  if decide (map_Forall (λ _ v, is_expression v = false) resourceMap) then Ok resourceMap
  else match vars with
       | Err e => Err e
       | Ok vs => Ok (map_imap (resolve_entry vs) resourceMap)
       end.
End cel.

(** ** Properties *)

(** *** Rounding *)

Lemma roundUpTo_spec n g :
  0 ≤ n → 1 < g → n + g < 2 ^ 63 →
  n ≤ roundUpTo n g < n + g ∧ (g | roundUpTo n g).
Proof.
  intros Hn Hg Hmax. unfold roundUpTo. rewrite Z.rem_mod_nonneg, Z.quot_div_nonneg by lia.
  case_decide as Hc.
  - split; [lia|]. destruct Hc as [?|[?|Hc]]; [lia| |by apply Z.mod_divide; lia].
    assert (n = 0) as -> by lia. by apply Z.divide_0_r.
  - rewrite decide_False by lia. pose proof (Z.div_mod n g ltac:(lia)) as Hd.
    pose proof (Z.mod_pos_bound n g ltac:(lia)) as Hm.
    assert (0 ≤ n / g < 2 ^ 62) as Hq.
    { split; [apply Z.div_pos; lia|]. apply Z.div_lt_upper_bound; [lia|]. nia. }
    rewrite (i64_small (n / g + 1)) by lia. rewrite i64_small by nia.
    split; [nia|]. by apply Z.divide_factor_r.
Qed.

(** The unit an expression of a resource is written in, in multiples of [10^-9], and the
    granularity its value is rounded to. *)
Definition expression_unit (key : string) : Z :=
  if decide (key = ResourceCPU) then 10 ^ 6
  else if decide (key = ResourceMemory) then 2 ^ 20 * 10 ^ 9
  else if decide (key = ResourceEphemeralStorage) then 2 ^ 30 * 10 ^ 9
  else 10 ^ 9.
Definition expression_granularity (key : string) : Z :=
  if decide (key = ResourceCPU) then cpuRoundingMilliCores
  else if decide (key = ResourceMemory) then memoryRoundingMiB else 1.

(** The reservation an expression asks for.  The text made of a result parses back to
    the result in the unit of its resource, rounded up to the granularity: never less than
    the expression asked for, by less than one step more, and without overflow as long as
    the quantity fits an [int64]. *)
Theorem formatResourceResult_spec `{QuantityParserLaws} key n :
  0 ≤ n → (n + expression_granularity key) * Z.max (10 ^ 9) (expression_unit key) < 2 ^ 63 * 10 ^ 9 →
  ∃ m, MustParse (formatResourceResult key n) = Some (m * expression_unit key) ∧
    n ≤ m < n + expression_granularity key ∧ (expression_granularity key | m).
Proof.
  intros Hn. unfold formatResourceResult, expression_unit, expression_granularity,
    cpuRoundingMilliCores, memoryRoundingMiB. intros Hmax.
  repeat case_decide.
  - destruct (roundUpTo_spec n 10) as [Hr Hd]; [lia..|]. exists (roundUpTo n 10).
    rewrite parse_m by lia. done.
  - destruct (roundUpTo_spec n 16) as [Hr Hd]; [lia..|]. exists (roundUpTo n 16).
    rewrite parse_Mi by lia. split; [f_equal; unfold units; lia|done].
  - exists n. rewrite parse_Gi by lia. split; [f_equal; unfold units; lia|]. split; [lia|apply Z.divide_1_l].
  - exists n. rewrite parse_int by lia. split; [done|]. split; [lia|apply Z.divide_1_l].
Qed.

(** *** The cache is invisible *)

Section cached.
Context `{QuantityParser}.
Context {Ast Program C : Type} `{GoCacheLaws Program C}.
Variable env_Compile : string → result error Ast.
Variable OutputType : Ast → CelType.
Variable env_Program : Ast → result error Program.
Variable Eval : Program → InstanceTypeVars → result error CelValue.
Variable out_of_range : float64 → Z.
Variable now : Z.

Abbreviation compile := (Compile env_Compile OutputType env_Program).
Abbreviation reference := (resolve_map env_Compile OutputType env_Program Eval out_of_range).
Abbreviation cached_resolve :=
  (ResolveResourceMap env_Compile OutputType env_Program Eval out_of_range now).

Implicit Types (c : C).

(** Every cached program is the compilation of its key. *)
Definition cache_ok (c : C) : Prop :=
  ∀ k p e, items c !! k = Some (p, e) → compile k = Ok p.

Lemma cache_ok_SetDefault c k p : cache_ok c → compile k = Ok p → cache_ok (SetDefault c now k p).
Proof.
  intros Hc Hp k' p' e. rewrite SetDefault_items.
  intros [(<- & [= -> _])|[_ Hk]]%lookup_insert_Some; [done|by eapply Hc].
Qed.

Lemma compileCached_spec c k :
  cache_ok c →
  let '(c', r) := compileCached env_Compile OutputType env_Program now k c in cache_ok c' ∧ r = compile k.
Proof.
  intros Hc. unfold compileCached. destruct (GoCache.Get c now k) as [p|] eqn:E.
  - rewrite Get_items in E. destruct (items c !! k) as [[p' e]|] eqn:Ei; [|done].
    unfold live_value in E. simpl in E. destruct (expired now e); [done|]. injection E as ->.
    specialize (Hc _ _ _ Ei) as Hp. split; [by apply cache_ok_SetDefault|done].
  - destruct (compile k) eqn:Ek; [|done]. split; [by apply cache_ok_SetDefault|done].
Qed.

(** The entries of a list that are kept, each once. *)
Lemma resolve_entries_spec vs entries m resolved c :
  cache_ok c → (∀ k v, (k, v) ∈ entries → resolved !! k = None) → NoDup entries.*1 →
  (∀ k, m !! k = match resolved !! k with
                 | Some v => Some v
                 | None => v ← (list_to_map entries : gmap string string) !! k;
                           resolve_entry env_Compile OutputType env_Program Eval out_of_range vs k v
                 end) →
  let '(c', r) := resolve_entries env_Compile OutputType env_Program Eval out_of_range now (Ok vs)
                    entries resolved c in
  cache_ok c' ∧ r = Ok m.
Proof.
  revert resolved c. induction entries as [|[k v] entries IH]; intros resolved c Hc Hfresh Hnd Hm.
  { split; [done|]. f_equal. apply map_eq. intros k. rewrite Hm. simpl.
    by destruct (resolved !! k). }
  apply NoDup_cons in Hnd as [Hk Hnd].
  assert (resolved !! k = None) as Hnone by (eapply Hfresh; by left).
  assert (∀ k' v', (k', v') ∈ entries → k ≠ k') as Hne.
  { intros k' v' Hin <-. apply Hk. by apply (list_elem_of_fmap_2 fst) in Hin. }
  assert ((list_to_map entries : gmap string string) !! k = None) as Hlk by by apply not_elem_of_list_to_map_1.
  (* the tail after keeping the entry as [w] *)
  assert (∀ c w, cache_ok c →
            resolve_entry env_Compile OutputType env_Program Eval out_of_range vs k v = w →
            let '(c', r) := resolve_entries env_Compile OutputType env_Program Eval out_of_range now (Ok vs)
                              entries (partial_alter (λ _, w) k resolved) c in
            cache_ok c' ∧ r = Ok m) as Hstep.
  { intros c' w Hc' Hw. apply IH; [done| |done|].
    - intros k' v' Hin. rewrite lookup_partial_alter_ne by by eapply Hne. eapply Hfresh. by right.
    - intros k'. rewrite Hm. destruct (decide (k = k')) as [<-|Hd].
      + rewrite Hnone, lookup_partial_alter_eq. simpl. rewrite lookup_insert_eq, Hlk. simpl. rewrite Hw. by destruct w.
      + rewrite lookup_partial_alter_ne by done. simpl. by rewrite lookup_insert_ne by done. }
  assert (partial_alter (λ _, None) k resolved = resolved) as Hdrop.
  { apply map_eq. intros k'. destruct (decide (k = k')) as [<-|];
      [by rewrite lookup_partial_alter_eq|by rewrite lookup_partial_alter_ne]. }
  simpl. unfold resolve_entry in Hstep. destruct (is_expression v) eqn:Ev; [|by apply (Hstep c (Some v))].
  pose proof (compileCached_spec c v Hc) as Hcc. unfold EvaluateExpression.
  destruct (compileCached _ _ _ _ _ _) as [c1 r]. destruct Hcc as [Hc1 ->].
  destruct (compile v) as [p|e] eqn:Ec; [|rewrite <- Hdrop; by apply (Hstep c1 None)].
  destruct (run_program Eval out_of_range p vs) as [n|e] eqn:Er; [|rewrite <- Hdrop; by apply (Hstep c1 None)].
  case_decide; [rewrite <- Hdrop; by apply (Hstep c1 None)|by apply (Hstep c1 (Some _))].
Qed.

Abbreviation entries_loop :=
  (resolve_entries env_Compile OutputType env_Program Eval out_of_range now).

(** Without expressions the variables are not looked at; with one they are needed. *)
Lemma resolve_entries_static vars vars' entries resolved c :
  Forall (λ kv, is_expression kv.2 = false) entries →
  entries_loop vars entries resolved c = entries_loop vars' entries resolved c.
Proof.
  intros Hs. revert resolved c. induction Hs as [|[k v] entries Hv _ IH]; intros resolved c; [done|].
  simpl in *. rewrite Hv. apply IH.
Qed.

Lemma resolve_entries_error e entries resolved c :
  ¬ Forall (λ kv, is_expression kv.2 = false) entries →
  (entries_loop (Err e) entries resolved c) = (c, Err e).
Proof.
  revert resolved c. induction entries as [|[k v] entries IH]; intros resolved c Hn; [by destruct Hn|].
  simpl. destruct (is_expression v) eqn:Ev; [done|]. apply IH. intros Hs. apply Hn. by constructor.
Qed.

Lemma map_Forall_entries (m : gmap string string) :
  map_Forall (λ _ v, is_expression v = false) m ↔
  Forall (λ kv, is_expression kv.2 = false) (map_to_list m).
Proof. rewrite map_Forall_to_list. split; intros Hf; (eapply Forall_impl; [exact Hf|by intros []]). Qed.

Lemma resolve_entries_map vs (m : gmap string string) c :
  cache_ok c →
  let '(c', r) := entries_loop (Ok vs) (map_to_list m) ∅ c in
  cache_ok c' ∧ r = Ok (map_imap (resolve_entry env_Compile OutputType env_Program Eval out_of_range vs) m).
Proof.
  intros Hc. apply resolve_entries_spec; [done|by intros; rewrite lookup_empty|apply NoDup_fst_map_to_list|].
  intros k. rewrite lookup_empty, list_to_map_to_list, map_lookup_imap. done.
Qed.

(** C26: what expressions resolve to.  Whatever the program cache holds, resolving a map of
    reserved resources gives what evaluating each entry afresh gives: quantities are kept,
    an expression becomes its formatted value, an expression that fails or is negative
    disappears, and the instance type's variables are asked for only if there is an
    expression.  The cache keeps only compilations of its keys. *)
Theorem ResolveResourceMap_spec (m : gmap string string) vars c :
  cache_ok c →
  let '(c', r) := cached_resolve m vars c in cache_ok c' ∧ r = reference m vars.
Proof.
  intros Hc. unfold ResolveResourceMap, resolve_map. destruct (decide (m = ∅)) as [->|_].
  { rewrite decide_True by apply map_Forall_empty. done. }
  case_decide as Hs.
  - set (vs := {| VCPUs := 0; MemoryMiB := 0; DefaultENIs := 0; IPsPerENI := 0; MaxPods := 0;
                  InstanceType_ := "" |}).
    rewrite (resolve_entries_static _ (Ok vs)) by by apply map_Forall_entries.
    pose proof (resolve_entries_map vs m c Hc) as Hr.
    destruct (entries_loop _ _ _ _) as [c' r]. destruct Hr as [Hc' ->]. split; [done|]. f_equal.
    apply map_eq. intros k. rewrite map_lookup_imap. destruct (m !! k) as [v|] eqn:Ek; [|done]. simpl.
    unfold resolve_entry. by rewrite (Hs _ _ Ek).
  - destruct vars as [vs|e].
    + by apply resolve_entries_map.
    + rewrite resolve_entries_error; [done|]. by rewrite <- map_Forall_entries.
Qed.
End cached.

(** ** Concrete executions *)

Section example.

(** An environment with two expressions. *)
Definition example_vars : InstanceTypeVars :=
  {| VCPUs := 16; MemoryMiB := 65536; DefaultENIs := 8; IPsPerENI := 30; MaxPods := 234;
     InstanceType_ := "m5.4xlarge" |}.
Definition example_Compile (s : string) : result error string :=
  if decide (s ∈ ["vcpus * 3"; "vcpus - 100"]) then Ok s else Err (errorf "syntax").
Definition example_Eval (p : string) (vs : InstanceTypeVars) : result error CelValue :=
  Ok (CelInt (if decide (p = "vcpus * 3") then VCPUs vs * 3 else VCPUs vs - 100)).
Definition example_reserved : gmap string string :=
  list_to_map [("cpu", "vcpus * 3"); ("memory", "100Mi"); ("pid", "vcpus - 100")].
Definition example_cache : RefCache.t string := New (12 * Hour).

Lemma formatResourceResult_spec_witness :
  0 ≤ 48 ∧ ∃ m, MustParse (formatResourceResult "cpu" 48) = Some (m * 10 ^ 6) ∧
    48 ≤ m < 58 ∧ (10 | m).
Proof. split; [lia|]. apply (formatResourceResult_spec "cpu" 48); vm_compute; congruence. Defined.

Definition example_resolved :=
  ResolveResourceMap example_Compile (λ _, IntType) Ok example_Eval (λ _, 0) 5
    example_reserved (Ok example_vars) example_cache.
Example example_resolved_value :
  match example_resolved.2 with
  | Ok m => map_to_list m = [("cpu", "50m"); ("memory", "100Mi")]
  | Err _ => False
  end.
Proof. vm_compute. reflexivity. Qed.

Lemma ResolveResourceMap_spec_witness :
  let '(c', r) := example_resolved in
  cache_ok example_Compile (λ _, IntType) Ok c' ∧
  r = resolve_map example_Compile (λ _, IntType) Ok example_Eval (λ _, 0) example_reserved (Ok example_vars).
Proof.
  apply (ResolveResourceMap_spec example_Compile (λ _, IntType) Ok example_Eval (λ _, 0) 5
           example_reserved (Ok example_vars) example_cache).
  intros k p e. unfold example_cache. rewrite New_items. by rewrite lookup_empty.
Defined.
End example.
