(* ===== verification/KubeletValidation.v ===== *)
(** * [pkg/apis/v1/kubeletconfiguration_validation.go]: the rules of a kubelet configuration

    A kubelet configuration is an open map that no schema checks; these rules are what keeps
    one the kubelet, or Karpenter itself, cannot use from reaching a node.  A value is its
    JSON text; the JSON decoders and [time.ParseDuration] are parameters.  Of
    [strconv.ParseFloat] a failure, [NaN] and a number are told apart. *)
From stdpp Require Import sorting.
From S2P Require Import Prelude GoStd AwsErrors ApiV1 Quantities InstanceTypes Kubelet.

Definition evictionSignals : list string :=
  ["memory.available"; "nodefs.available"; "nodefs.inodesFree"; "imagefs.available"; "imagefs.inodesFree";
   "pid.available"].
Definition reservedResources : list string := ["cpu"; "memory"; "ephemeral-storage"; "pid"].
Definition karpenterOwnedFields : gmap string string :=
  {[ "registerWithTaints" := "Karpenter sets it from the NodeClaim's taints so the node registers unschedulable until it's ready" ]}.

(** The keys of a map in order. *)
Definition sorted_keys {A} (m : gmap string A) : list string := merge_sort String.le (map_to_list m).*1.

Section validation.
Context `{QuantityParser}.
Variable decode_map : string → option (gmap string string).
Variable decode_int : string → option Z.
Variable isJSONString : string → bool.
(** [JSONValue(0)] *)
Variable JSONZero : string.
(** Marshaling, and strict decoding into the upstream type: its error, or the fields it does
    not know. *)
Variable UnmarshalStrict : KubeletConfiguration → result error (list error).
Variable ParseFloat : string → option (option float64).
Variable ParseDuration : string → option Z.

Definition field_error (field key message : string) : error :=
  errorf ("spec.kubelet." +:+ field +:+ "[" +:+ key +:+ "]: " +:+ message).

Definition validateEvictionThreshold (field key value : string) : option error :=
  let bad := field_error field key (json_string value +:+ " must be a percentage or a resource quantity") in
  if HasSuffix value "%" then
    match ParseFloat (TrimSuffix value "%") with
    | None => Some bad
    | Some (Some v) => if decide (v < 0 ∨ float64_of_int 100 < v) then Some bad else None
    | Some None => None
    end
  else
    match MustParse value with
    | None => Some bad
    | Some q => if decide (q < 0)
                then Some (field_error field key (json_string value +:+ " can't be a negative resource quantity"))
                else None
    end.

Definition validateEvictionGracePeriod (field key value : string) : option error :=
  match ParseDuration value with
  | None => Some (field_error field key (json_string value +:+ " must be a duration"))
  | Some d => if decide (d < 0) then Some (field_error field key (json_string value +:+ " can't be a negative duration"))
              else None
  end.

(** A [maxPods] expression is replaced by a number. *)
Definition validateAgainstUpstreamType (kc : KubeletConfiguration) : list error :=
  let kc := match kc !! "maxPods" with
            | Some maxPods => if isJSONString maxPods then <["maxPods" := JSONZero]> kc else kc
            | None => kc
            end in
  match UnmarshalStrict kc with
  | Err e => [wrap "spec.kubelet" e]
  | Ok strictErrs => wrap "spec.kubelet" <$> strictErrs
  end.

Definition decodeStringMap (kc : KubeletConfiguration) (field : string) : option (gmap string string) :=
  kc !! field ≫= decode_map.
Definition decodeInt (kc : KubeletConfiguration) (field : string) : option Z := kc !! field ≫= decode_int.

Definition owned_errors (kc : KubeletConfiguration) : list error :=
  (λ field, errorf ("spec.kubelet." +:+ field +:+ ": can't be set, " +:+ karpenterOwnedFields !!! field))
    <$> filter (λ field, is_Some (kc !! field)) (sorted_keys karpenterOwnedFields).

Definition signal_errors (field key value : string) : list error :=
  (if decide (key ∈ evictionSignals) then []
   else [errorf ("spec.kubelet." +:+ field +:+ ": " +:+ json_string key +:+
                 " isn't a valid eviction signal, must be one of " +:+ JoinWith ", " evictionSignals)])
  ++ option_list (if decide (field = "evictionSoftGracePeriod") then validateEvictionGracePeriod field key value
                  else validateEvictionThreshold field key value).
Definition map_errors (errors : string → string → list error) (m : option (gmap string string)) : list error :=
  match m with
  | Some m => concat ((λ key, errors key (m !!! key)) <$> sorted_keys m)
  | None => []
  end.
Definition eviction_errors (kc : KubeletConfiguration) : list error :=
  concat ((λ field, map_errors (signal_errors field) (decodeStringMap kc field))
    <$> ["evictionHard"; "evictionSoft"; "evictionSoftGracePeriod"; "evictionMinimumReclaim"]).

(** The keys of one map that the other does not have; a missing map is empty. *)
Definition unmatched (a b : gmap string string) (message : string → error) : list error :=
  message <$> filter (λ signal, b !! signal = None) (sorted_keys a).
Definition pairing_errors (kc : KubeletConfiguration) : list error :=
  let soft := default ∅ (decodeStringMap kc "evictionSoft") in
  let grace := default ∅ (decodeStringMap kc "evictionSoftGracePeriod") in
  unmatched soft grace (λ s, field_error "evictionSoft" s "has no matching evictionSoftGracePeriod")
  ++ unmatched grace soft (λ s, field_error "evictionSoftGracePeriod" s "has no matching evictionSoft").

Definition reserved_errors (field key value : string) : list error :=
  (if decide (key ∈ reservedResources) then []
   else [errorf ("spec.kubelet." +:+ field +:+ ": " +:+ json_string key +:+
                 " isn't a reservable resource, must be one of " +:+ JoinWith ", " reservedResources)])
  ++ (if HasPrefix value "-" then [field_error field key (json_string value +:+ " can't be a negative resource quantity")]
      else []).

Definition int_errors (kc : KubeletConfiguration) (bad : Z → Prop) `{∀ n, Decision (bad n)} (message field : string) :
    list error :=
  match decodeInt kc field with
  | Some n => if decide (bad n) then [errorf ("spec.kubelet." +:+ field +:+ ": " +:+ fmt_int n +:+ message)] else []
  | None => []
  end.
Definition range_errors (kc : KubeletConfiguration) : list error :=
  concat (int_errors kc (λ n, n < 0 ∨ 100 < n) " must be between 0 and 100"
            <$> ["imageGCHighThresholdPercent"; "imageGCLowThresholdPercent"])
  ++ concat (int_errors kc (λ n, n < 0) " can't be negative" <$> ["podsPerCore"; "evictionMaxPodGracePeriod"])
  ++ match kc !! "maxPods" with
     | Some maxPods => if isJSONString maxPods then [] else int_errors kc (λ n, n < 0) " can't be negative" "maxPods"
     | None => []
     end.
Definition image_gc_errors (kc : KubeletConfiguration) : list error :=
  match decodeInt kc "imageGCHighThresholdPercent", decodeInt kc "imageGCLowThresholdPercent" with
  | Some high, Some low =>
      if decide (high ≤ low)
      then [errorf ("spec.kubelet: imageGCHighThresholdPercent (" +:+ fmt_int high +:+
                    ") must be greater than imageGCLowThresholdPercent (" +:+ fmt_int low +:+ ")")]
      else []
  | _, _ => []
  end.

Definition validateKubeletSemantics (kc : KubeletConfiguration) : list error :=
  owned_errors kc ++ eviction_errors kc ++ pairing_errors kc
  ++ concat ((λ field, map_errors (reserved_errors field) (decodeStringMap kc field))
       <$> ["kubeReserved"; "systemReserved"])
  ++ range_errors kc ++ image_gc_errors kc.

Definition ValidateKubeletConfig (kc : KubeletConfiguration) : list error :=
  if decide (kc = ∅) then [] else validateAgainstUpstreamType kc ++ validateKubeletSemantics kc.
End validation.

(** ** What is accepted *)

Section properties.
Context `{QuantityParser}.
Variable decode_map : string → option (gmap string string).
Variable decode_int : string → option Z.
Variable isJSONString : string → bool.
Variable JSONZero : string.
Variable UnmarshalStrict : KubeletConfiguration → result error (list error).
Variable ParseFloat : string → option (option float64).
Variable ParseDuration : string → option Z.
Abbreviation map_of kc field := (decodeStringMap decode_map kc field).
Abbreviation int_of kc field := (decodeInt decode_int kc field).
Abbreviation validate kc :=
  (ValidateKubeletConfig decode_map decode_int isJSONString JSONZero UnmarshalStrict ParseFloat ParseDuration kc).
Implicit Types (kc : KubeletConfiguration) (m : gmap string string).

(** A threshold is a percentage of the resource, or NaN percent, or a quantity that is not
    negative. *)
Definition valid_threshold (v : string) : Prop :=
  if HasSuffix v "%" then
    match ParseFloat (TrimSuffix v "%") with
    | Some (Some p) => 0 ≤ p ≤ float64_of_int 100
    | Some None => True
    | None => False
    end
  else ∃ q, MustParse v = Some q ∧ 0 ≤ q.
Definition valid_grace_period (v : string) : Prop := ∃ d, ParseDuration v = Some d ∧ 0 ≤ d.

Definition within kc (lo : Z) (hi : option Z) (field : string) : Prop :=
  ∀ n, int_of kc field = Some n → lo ≤ n ∧ match hi with Some hi => n ≤ hi | None => True end.
Definition each kc (P : string → string → Prop) (field : string) : Prop :=
  ∀ m key value, map_of kc field = Some m → m !! key = Some value → P key value.

(** A configuration the kubelet and Karpenter can use. *)
Record valid kc : Prop := {
  va_type : validateAgainstUpstreamType isJSONString JSONZero UnmarshalStrict kc = [];
  va_owned : kc !! "registerWithTaints" = None;
  va_thresholds : Forall (each kc (λ key value, key ∈ evictionSignals ∧ valid_threshold value))
    ["evictionHard"; "evictionSoft"; "evictionMinimumReclaim"];
  va_grace : each kc (λ key value, key ∈ evictionSignals ∧ valid_grace_period value) "evictionSoftGracePeriod";
  va_pairs : ∀ signal, is_Some (default ∅ (map_of kc "evictionSoft") !! signal) ↔
                       is_Some (default ∅ (map_of kc "evictionSoftGracePeriod") !! signal);
  va_reserved : Forall (each kc (λ key value, key ∈ reservedResources ∧ HasPrefix value "-" = false))
    ["kubeReserved"; "systemReserved"];
  va_percentages : Forall (within kc 0 (Some 100)) ["imageGCHighThresholdPercent"; "imageGCLowThresholdPercent"];
  va_counts : Forall (within kc 0 None) ["podsPerCore"; "evictionMaxPodGracePeriod"];
  va_maxPods : ∀ v, kc !! "maxPods" = Some v → isJSONString v = false → within kc 0 None "maxPods";
  va_image_gc : ∀ high low, int_of kc "imageGCHighThresholdPercent" = Some high →
    int_of kc "imageGCLowThresholdPercent" = Some low → low < high;
}.

Lemma concat_nil {A} (l : list (list A)) : concat l = [] ↔ Forall (λ x, x = []) l.
Proof. induction l as [|x l IH]; simpl; [done|]. by rewrite app_nil, Forall_cons, IH. Qed.

Lemma sorted_keys_elem {A} (m : gmap string A) k : k ∈ sorted_keys m ↔ is_Some (m !! k).
Proof.
  unfold sorted_keys. rewrite merge_sort_Permutation, list_elem_of_fmap. split.
  - intros ([k' v] & -> & Hin%elem_of_map_to_list). by exists v.
  - intros [v Hv]. exists (k, v). split; [done|]. by apply elem_of_map_to_list.
Qed.

Lemma map_errors_nil errors kc field (P : string → string → Prop) :
  (∀ k v, errors k v = [] ↔ P k v) → map_errors errors (map_of kc field) = [] ↔ each kc P field.
Proof.
  intros HP. unfold each. destruct (map_of kc field) as [m|]; simpl; [|naive_solver].
  rewrite concat_nil, Forall_forall. setoid_rewrite list_elem_of_fmap. setoid_rewrite sorted_keys_elem. split.
  - intros Hall m' k v [= <-] Hv. apply HP. rewrite <- (Hall (errors k (m !!! k))).
    + by rewrite (lookup_total_correct _ _ _ Hv).
    + exists k. by rewrite Hv.
  - intros Hall x (k & -> & [v Hv]). apply HP. rewrite (lookup_total_correct _ _ _ Hv). by eapply Hall.
Qed.

Lemma threshold_ok field key v : validateEvictionThreshold ParseFloat field key v = None ↔ valid_threshold v.
Proof.
  unfold validateEvictionThreshold, valid_threshold. destruct (HasSuffix v "%").
  - destruct (ParseFloat _) as [[p|]|]; [|done..]. case_decide; split; try done; lia.
  - destruct (MustParse v) as [q|]; [|naive_solver]. case_decide; split; try done.
    + intros (q' & [= ->] & ?). lia.
    + intros _. exists q. split; [done|lia].
Qed.

Lemma grace_ok field key v : validateEvictionGracePeriod ParseDuration field key v = None ↔ valid_grace_period v.
Proof.
  unfold validateEvictionGracePeriod, valid_grace_period. destruct (ParseDuration v) as [d|]; [|naive_solver].
  case_decide; split; try done.
  - intros (d' & [= ->] & ?). lia.
  - intros _. exists d. split; [done|lia].
Qed.

Lemma option_list_nil {A} (o : option A) : option_list o = [] ↔ o = None.
Proof. by destruct o. Qed.

Lemma if_nil {A} (P : Prop) `{Decision P} (x : A) : (if decide P then [] else [x]) = [] ↔ P.
Proof. case_decide; naive_solver. Qed.
Lemma if_not_nil {A} (P : Prop) `{Decision P} (x : A) : (if decide P then [x] else []) = [] ↔ ¬ P.
Proof. case_decide; naive_solver. Qed.

Lemma int_errors_nil kc (bad : Z → Prop) `{∀ n, Decision (bad n)} message field :
  int_errors decode_int kc bad message field = [] ↔ ∀ n, int_of kc field = Some n → ¬ bad n.
Proof.
  unfold int_errors. destruct (int_of kc field) as [n|]; [|naive_solver].
  rewrite if_not_nil. naive_solver.
Qed.

Lemma unmatched_nil a b message : unmatched a b message = [] ↔ ∀ k, is_Some (a !! k) → is_Some (b !! k).
Proof.
  unfold unmatched. split.
  - intros Hf%fmap_nil_inv k Hk. destruct (b !! k) eqn:E; [done|]. assert (k ∈ filter (λ signal, b !! signal = None) (sorted_keys a)) as Hin.
    { apply list_elem_of_filter. by rewrite sorted_keys_elem. }
    rewrite Hf in Hin. by apply elem_of_nil in Hin.
  - intros Hall. destruct (filter _ _) as [|k l] eqn:E; [done|].
    assert (k ∈ filter (λ signal, b !! signal = None) (sorted_keys a)) as Hin by (rewrite E; by left).
    apply list_elem_of_filter in Hin as [Hn Hin]. apply sorted_keys_elem, Hall in Hin. rewrite Hn in Hin. by destruct Hin.
Qed.

Lemma signal_errors_nil field k v :
  signal_errors ParseFloat ParseDuration field k v = [] ↔
  k ∈ evictionSignals ∧ if decide (field = "evictionSoftGracePeriod") then valid_grace_period v else valid_threshold v.
Proof.
  unfold signal_errors. rewrite app_nil, if_nil, option_list_nil. case_decide; [by rewrite grace_ok|by rewrite threshold_ok].
Qed.

Lemma eviction_errors_nil kc :
  eviction_errors decode_map ParseFloat ParseDuration kc = [] ↔
  Forall (each kc (λ key value, key ∈ evictionSignals ∧ valid_threshold value))
    ["evictionHard"; "evictionSoft"; "evictionMinimumReclaim"] ∧
  each kc (λ key value, key ∈ evictionSignals ∧ valid_grace_period value) "evictionSoftGracePeriod".
Proof.
  unfold eviction_errors. rewrite concat_nil. simpl. rewrite !Forall_cons, !Forall_nil.
  rewrite !(map_errors_nil _ _ _ _ (signal_errors_nil _)). simpl. tauto.
Qed.

Lemma reserved_errors_nil field k v :
  reserved_errors field k v = [] ↔ k ∈ reservedResources ∧ HasPrefix v "-" = false.
Proof. unfold reserved_errors. rewrite app_nil, if_nil. destruct (HasPrefix v "-"); naive_solver. Qed.

Lemma owned_errors_nil kc : owned_errors kc = [] ↔ kc !! "registerWithTaints" = None.
Proof.
  unfold owned_errors. change (sorted_keys karpenterOwnedFields) with ["registerWithTaints"].
  rewrite filter_cons, filter_nil. case_decide as Hd; simpl.
  - split; [done|]. intros Hn. rewrite Hn in Hd. by destruct Hd.
  - split; [|done]. intros _. by apply eq_None_not_Some.
Qed.

Lemma within_nil kc (hi : Z) message field :
  int_errors decode_int kc (λ n, n < 0 ∨ hi < n) message field = [] ↔ within kc 0 (Some hi) field.
Proof. rewrite int_errors_nil. unfold within. split; intros Hall n Hn; specialize (Hall n Hn); lia. Qed.
Lemma nonneg_nil kc message field :
  int_errors decode_int kc (λ n, n < 0) message field = [] ↔ within kc 0 None field.
Proof. rewrite int_errors_nil. unfold within. split; intros Hall n Hn; specialize (Hall n Hn); lia. Qed.

Lemma range_errors_nil kc :
  range_errors decode_int isJSONString kc = [] ↔
  Forall (within kc 0 (Some 100)) ["imageGCHighThresholdPercent"; "imageGCLowThresholdPercent"] ∧
  Forall (within kc 0 None) ["podsPerCore"; "evictionMaxPodGracePeriod"] ∧
  ∀ v, kc !! "maxPods" = Some v → isJSONString v = false → within kc 0 None "maxPods".
Proof.
  unfold range_errors. rewrite !app_nil, !concat_nil. simpl. rewrite !Forall_cons, !Forall_nil, !within_nil, !nonneg_nil.
  destruct (kc !! "maxPods") as [v|]; [|naive_solver]. destruct (isJSONString v) eqn:E; [naive_solver congruence|].
  rewrite nonneg_nil. naive_solver.
Qed.

Lemma image_gc_errors_nil kc :
  image_gc_errors decode_int kc = [] ↔
  ∀ high low, int_of kc "imageGCHighThresholdPercent" = Some high →
    int_of kc "imageGCLowThresholdPercent" = Some low → low < high.
Proof.
  unfold image_gc_errors. destruct (int_of kc "imageGCHighThresholdPercent") as [high|]; [|naive_solver].
  destruct (int_of kc "imageGCLowThresholdPercent") as [low|]; [|naive_solver].
  rewrite if_not_nil. split; [intros Hn ?? [= <-] [= <-]; lia|intros Hall Hle]. specialize (Hall _ _ eq_refl eq_refl). lia.
Qed.

(** C30: Validation accepts exactly the configurations that satisfy the rules: it decodes as
    the upstream type without unknown fields; no field Karpenter owns; eviction signals the
    kubelet knows with thresholds and grace periods that are well formed, the soft ones in
    pairs; reservable resources only; percentages and counts in range; and image garbage
    collection thresholds in order.  An empty configuration is accepted. *)
Theorem ValidateKubeletConfig_spec kc : validate kc = [] ↔ kc = ∅ ∨ valid kc.
Proof.
  unfold ValidateKubeletConfig. destruct (decide (kc = ∅)) as [->|Hne]; [naive_solver|].
  unfold validateKubeletSemantics, pairing_errors. rewrite !app_nil, owned_errors_nil, eviction_errors_nil, !unmatched_nil.
  rewrite concat_nil, range_errors_nil, image_gc_errors_nil. simpl.
  assert (∀ P, Forall (λ x, x = []) [map_errors (reserved_errors "kubeReserved") (map_of kc "kubeReserved");
    map_errors (reserved_errors "systemReserved") (map_of kc "systemReserved")] ∧ P ↔
    Forall (each kc (λ key value, key ∈ reservedResources ∧ HasPrefix value "-" = false))
      ["kubeReserved"; "systemReserved"] ∧ P) as ->.
  { intros P. by rewrite !Forall_cons, !Forall_nil, !(map_errors_nil _ _ _ _ (reserved_errors_nil _)). }
  split.
  - intros (Ht & Ho & [Hth Hg] & [Hp1 Hp2] & Hr & (Hpc & Hc & Hm) & Hi). right. split; try done. intros k; split; [apply Hp1|apply Hp2].
  - intros [?|[? ? ? ? Hp]]; [done|]. split_and!; try done; intros k; apply Hp.
Qed.
End properties.

(** ** What acceptance is good for *)

Section thresholds.
Context `{QuantityParserLaws}.
Variable ParseFloat : string → option (option float64).
(** A number has no percent sign in it. *)
Hypothesis ParseFloat_free : ∀ s, is_Some (ParseFloat s) → free_of percent_sign s.
Variable AsApproximateFloat64 : Quantity → float64.
(** The capacity of an instance type, in bytes. *)
Definition sizeable (q : Quantity) : Prop :=
  0 ≤ AsApproximateFloat64 q ≤ 2 ^ 62 * float64_one ∧ 0 ≤ Value q ≤ 2 ^ 62.

(** [strconv.ParseFloat] as the instance types use it: [NaN] leads to a panic like an error. *)
Definition parse_number (s : string) : option float64 := mjoin (ParseFloat s).

Lemma percent_split v : HasSuffix v "%" = true → v = TrimSuffix v "%" +:+ "%".
Proof.
  induction v as [|a v IH]; [done|]. simpl. case_decide as Ha.
  { intros _. by rewrite Ha. }
  rewrite bool_decide_eq_false_2 by done. simpl. intros Hv. by rewrite string_app_cons, <- IH.
Qed.
Lemma HasSuffix_percent v : HasSuffix v "%" = ends_with percent_sign v.
Proof.
  induction v as [|a v IH]; [done|]. simpl. destruct v as [|b v].
  - simpl. rewrite orb_false_r. apply bool_decide_ext. unfold percent_sign. split; [by intros [= ->]|by intros ->].
  - rewrite <- IH. by rewrite bool_decide_eq_false_2 by done.
Qed.
Lemma trim_right_percent t : free_of percent_sign t → trim_right percent_sign (t +:+ "%") = t.
Proof.
  induction t as [|a t IH]; [done|]. intros [Ha Ht]. rewrite string_app_cons. simpl. rewrite IH by done.
  destruct t; [by rewrite decide_False|done].
Qed.
Lemma trim_percent t :
  free_of percent_sign t → trim_right percent_sign (trim_left percent_sign (t +:+ "%")) = t.
Proof.
  destruct t as [|a t]; [done|]. intros Hf. rewrite string_app_cons. simpl. rewrite decide_False by apply Hf.
  by apply (trim_right_percent (String a t)).
Qed.

(** [x / 100 * p], rounded twice, is the size of an [int64] for [p] up to 100. *)
Lemma percentage_bound x p :
  0 ≤ x ≤ 2 ^ 62 * float64_one → 0 ≤ p ≤ float64_of_int 100 →
  0 ≤ float64_ceil (float64_mul (float64_div x 100) p) < 2 ^ 63.
Proof.
  intros [Hx Hx'] [Hp Hp']. pose proof float64_one_pos as HU.
  pose proof (float64_of_int_exact 100 0 ltac:(lia) ltac:(lia)) as E100. rewrite Z.pow_0_r, Z.mul_1_r in E100.
  rewrite E100 in Hp'. clear E100.
  unfold float64_div, float64_mul. set (y := round53 x 100).
  assert (0 ≤ y ≤ 1 * 2 ^ 56 * float64_one) as [Hy Hy'].
  { split; [by apply round53_nonneg|]. apply round53_le_one; lia. }
  assert (0 ≤ y * p) as Hyp by nia.
  assert (0 ≤ round53 (y * p) float64_one ≤ 100 * 2 ^ 56 * float64_one) as [Hz Hz'].
  { split; [by apply round53_nonneg|]. apply round53_le_one; [lia..|].
    replace (100 * 2 ^ 56 * float64_one * float64_one) with ((1 * 2 ^ 56 * float64_one) * (100 * float64_one)) by lia.
    apply Z.mul_le_mono_nonneg; lia. }
  unfold float64_ceil. set (z := round53 _ float64_one) in *. split.
  - assert (- z / float64_one ≤ 0) by (apply Z.div_le_upper_bound; lia). lia.
  - assert (- (100 * 2 ^ 56) ≤ - z / float64_one) by (apply Z.div_le_lower_bound; lia). lia.
Qed.

Lemma threshold_total q v :
  sizeable q → valid_threshold ParseFloat v →
  (HasSuffix v "%" = true → ParseFloat (TrimSuffix v "%") ≠ Some None) →
  is_Some (computeEvictionSignal parse_number AsApproximateFloat64 q v).
Proof.
  intros [Hq _] Hv Hnan. unfold computeEvictionSignal, valid_threshold in *. rewrite <- HasSuffix_percent.
  destruct (HasSuffix v "%") eqn:Hs; [|destruct Hv as (x & -> & _); by eexists].
  specialize (Hnan eq_refl). destruct (ParseFloat (TrimSuffix v "%")) as [[p|]|] eqn:Ep; [|done..].
  assert (free_of percent_sign (TrimSuffix v "%")) as Hf by (apply ParseFloat_free; by eexists).
  unfold mustParsePercentage. rewrite (percent_split v Hs), trim_percent by done.
  unfold parse_number. rewrite Ep. simpl.
  rewrite parse_float; [by eexists|]. apply percentage_bound; [done|]. case_decide; [|done]. pose proof float64_one_pos.
  split; [done|]. apply round53_nonneg; lia.
Qed.

Variable decode_map : string → option (gmap string string).
Variable decode_int : string → option Z.
Variable isJSONString : string → bool.
Variable JSONZero : string.
Variable UnmarshalStrict : KubeletConfiguration → result error (list error).
Variable ParseDuration : string → option Z.

(** A validated configuration does not panic an instance type: whatever its memory and
    storage, the eviction thresholds of an accepted configuration are computed, unless one of
    them is NaN percent. *)
Theorem validated_thresholds_total kc evictionHard memory storage :
  ValidateKubeletConfig decode_map decode_int isJSONString JSONZero UnmarshalStrict ParseFloat ParseDuration kc = [] →
  decodeStringMap decode_map kc "evictionHard" = Some evictionHard →
  map_Forall (λ _ v, HasSuffix v "%" = true → ParseFloat (TrimSuffix v "%") ≠ Some None) evictionHard →
  sizeable memory → sizeable storage →
  is_Some (evictionThreshold parse_number AsApproximateFloat64 memory storage evictionHard).
Proof.
  intros Hv Hm Hnan Hmem Hsto. apply ValidateKubeletConfig_spec in Hv as [->|Hv].
  { discriminate Hm. }
  pose proof (va_thresholds _ _ _ _ _ _ _ _ Hv) as Ht. apply Forall_cons in Ht as [Ht _].
  assert (∀ signal q, sizeable q → is_Some (eviction_override parse_number AsApproximateFloat64 evictionHard signal q))
    as Hover.
  { intros signal q Hq. unfold eviction_override. destruct (evictionHard !! signal) as [v|] eqn:E; [|by eexists].
    destruct (Ht _ _ _ Hm E) as [_ Hv']. destruct (threshold_total q v Hq Hv' (Hnan _ _ E)) as [x ->]. by eexists. }
  unfold evictionThreshold. change "100Mi" with (fmt_int 100 +:+ "Mi"). rewrite parse_Mi by (vm_compute; done). simpl.
  rewrite parse_float; simpl.
  - destruct (Hover MemoryAvailable memory Hmem) as [x ->]. destruct (Hover NodeFSAvailable storage Hsto) as [y ->].
    by eexists.
  - apply (percentage_bound (float64_of_int (Value storage)) (float64_of_int 10)).
    + destruct Hsto as [_ [? ?]]. unfold float64_of_int. pose proof float64_one_pos. split; [apply round53_nonneg; nia|].
      replace (2 ^ 62 * float64_one) with (1 * 2 ^ 62 * float64_one) by lia. apply round53_le_one; nia.
    + split; [by vm_compute|]. vm_compute. done.
Qed.
End thresholds.

(** *** On concrete values *)
Definition example_ParseFloat (s : string) : option (option float64) :=
  if decide (s = "5") then Some (Some (float64_of_int 5)) else if decide (s = "NaN") then Some None else None.
Definition example_decode_map (s : string) : option (gmap string string) :=
  if decide (s = "five") then Some {[ "memory.available" := "5%" ]}
  else if decide (s = "nan") then Some {[ "memory.available" := "NaN%" ]} else None.
Definition example_kubelet (text : string) : KubeletConfiguration := {[ "evictionHard" := text ]}.
Definition example_validate (kc : KubeletConfiguration) : list error :=
  ValidateKubeletConfig example_decode_map (λ _, None) (λ _, false) "0" (λ _, Ok []) example_ParseFloat (λ _, None) kc.
(** [AsApproximateFloat64] of whole units. *)
Definition example_float (q : Quantity) : float64 := float64_of_int (Value q).

Lemma example_ParseFloat_free s : is_Some (example_ParseFloat s) → free_of percent_sign s.
Proof.
  unfold example_ParseFloat. case_decide as H5; [by subst|]. case_decide as Hn; [by subst|]. by intros [].
Qed.

Lemma validated_thresholds_total_witness :
  ∃ memory evictionHard,
    example_validate (example_kubelet "five") = [] ∧
    evictionHard !! "memory.available" = Some "5%" ∧
    is_Some (evictionThreshold (parse_number example_ParseFloat) example_float memory memory evictionHard).
Proof.
  exists (units (2 ^ 34)), {[ "memory.available" := "5%" ]}.
  split; [vm_compute; reflexivity|]. split; [vm_compute; reflexivity|].
  apply (validated_thresholds_total example_ParseFloat example_ParseFloat_free example_float
    example_decode_map (λ _, None) (λ _, false) "0" (λ _, Ok []) (λ _, None) (example_kubelet "five")).
  - vm_compute; reflexivity.
  - vm_compute; reflexivity.
  - apply map_Forall_singleton. intros _. vm_compute. discriminate.
  - vm_compute. repeat split; discriminate.
  - vm_compute. repeat split; discriminate.
Defined.

(** [NaN] is neither below zero nor above a hundred: it is accepted, and the thresholds of
    every instance type panic on it. *)
Example nan_threshold_panics :
  example_validate (example_kubelet "nan") = [] ∧
  decodeStringMap example_decode_map (example_kubelet "nan") "evictionHard" = Some {[ "memory.available" := "NaN%" ]} ∧
  evictionThreshold (parse_number example_ParseFloat) example_float (units (2 ^ 34)) (units (2 ^ 34))
    {[ "memory.available" := "NaN%" ]} = None.
Proof. split_and!; vm_compute; reflexivity. Qed.
