(* ===== verification/Resolver.v ===== *)
(** * [pkg/providers/amifamily]: launch template resolution

    [resolver.go], [bootstrap.go] and the [UserData] methods of the families: the instance
    types of a launch are grouped by the image and the node configuration they need, and
    each group becomes a launch template per capacity reservation.  Bootstrappers are the
    values the methods build; rendering them as scripts is not modelled.  Resource
    expressions are evaluated by [Kubelet.resolve_map], which
    [Kubelet.ResolveResourceMap_spec] shows to be what the cached evaluation returns.  The
    NodeClass is state: its metadata options are shared with the templates by pointer. *)
From stdpp Require Import sorting.
From S2P Require Import Prelude GoStd AwsErrors ApiV1 Quantities Scheduling Filters Compatibility InstanceTypes AmiFamily Kubelet.

(** ** Resource maps as text *)

Definition resource_entry (m : gmap string string) (k : string) : string := k +:+ "=" +:+ (m !!! k).
Definition serializeResourceMap (m : gmap string string) : string :=
  if decide (m = ∅) then ""
  else Join (resource_entry m <$> merge_sort String.le (map_to_list m).*1) ",".

(** [None] is a nil map. *)
Definition add_part (res : gmap string string) (part : string) : gmap string string :=
  match Cut part "=" with Some (k, v) => <[k := v]> res | None => res end.
Definition deserializeResourceMap (s : string) : option (gmap string string) :=
  if decide (s = "") then None else Some (foldl add_part ∅ (Split s ",")).

(** ** The version of a Bottlerocket image *)

Definition first_nonempty (l : list string) : string := default "" (Find (λ s, bool_decide (s ≠ "")) l).

Definition getVersionFromAlias (terms : list AMISelectorTerm) : string :=
  default "" (head (omap (λ term,
    if decide (ast_Alias term = "") then None
    else match Split (ast_Alias term) "@" with [_; version] => Some version | _ => None end) terms)).

Definition extractVersionFromName (name : string) : string :=
  default "" (Find (λ part, HasPrefix part "v" && Contains part ".") (Split name "-")).

Definition getVersionFromName (terms : list AMISelectorTerm) : string :=
  first_nonempty ((λ term, if decide (ast_Name term = "") then "" else extractVersionFromName (ast_Name term))
                  <$> terms).

Definition is_bottlerocket (ami : AMI) : bool :=
  bool_decide (ami_Name ami ≠ "") && Contains (ami_Name ami) "bottlerocket".
Definition findVersionByID (amis : list AMI) (id : string) : string :=
  match Find (λ ami, bool_decide (ami_ID ami = id) && is_bottlerocket ami) amis with
  | Some ami => extractVersionFromName (ami_Name ami)
  | None => ""
  end.
Definition getVersionFromID (amis : list AMI) (terms : list AMISelectorTerm) : string :=
  first_nonempty ((λ term, if decide (ast_ID term = "") then "" else findVersionByID amis (ast_ID term))
                  <$> terms).
Definition getVersionFromResolvedAMIs (amis : list AMI) : string :=
  first_nonempty ((λ ami, if is_bottlerocket ami then extractVersionFromName (ami_Name ami) else "") <$> amis).

Definition resolveAMIVersion (terms : list AMISelectorTerm) (amis : list AMI) : string :=
  first_nonempty [getVersionFromAlias terms; getVersionFromName terms; getVersionFromID amis terms;
                  getVersionFromResolvedAMIs amis].

(** [version.SupportsDefaultBind] *)
Definition SupportsDefaultBind (amiVersion : string) : bool :=
  if decide (amiVersion = "") then false
  else if decide (amiVersion = "latest") then true
  else match Split (TrimLeft amiVersion "v") "." with
       | major :: minor :: _ :: _ =>
           match Atoi major, Atoi minor with
           | Some major, Some minor => bool_decide (1 < major ∨ (major = 1 ∧ 46 ≤ minor))
           | _, _ => false
           end
       | _ => false
       end.

(** ** Data *)

Abbreviation NodeClass := (EC2NodeClass Z) (only parsing).

(** [corev1.Taint], and [karpv1.UnregisteredNoExecuteTaint]. *)
Record Taint := { t_Key : string; t_Value : string; t_Effect : string }.
Definition UnregisteredNoExecuteTaint : Taint :=
  {| t_Key := "karpenter.sh/unregistered"; t_Value := ""; t_Effect := "NoExecute" |}.
Definition MatchTaint (t u : Taint) : bool :=
  bool_decide (t_Key t = t_Key u ∧ t_Effect t = t_Effect u).

(** [net.IP]: its text, and whether [To4] is not nil. *)
Record IP := { ip_String : string; ip_To4 : bool }.

(** [amifamily.Options] *)
Record Options := {
  o_ClusterName : string;
  o_ClusterEndpoint : string;
  o_ClusterCIDR : option string;
  o_InstanceProfile : string;
  o_CABundle : option string;
  o_InstanceStorePolicy : option string;
  o_AMISelectorTerms : list AMISelectorTerm;
  o_AMIs : list AMI;
  o_SecurityGroups : list SecurityGroup;
  o_Tags : gmap string string;
  o_Labels : gmap string string;
  o_KubeDNSIP : option IP;
  o_AssociatePublicIPAddress : option bool;
  o_IPPrefixCount : option Z;
  o_NodeClassName : string;
}.

(** [bootstrap.Options], the fields some family sets. *)
Record BootstrapOptions := {
  bo_ClusterName : string;
  bo_ClusterEndpoint : string;
  bo_ClusterCIDR : option string;
  bo_KubeletConfig : ParsedKubeletConfig;
  bo_UnparsedKubeletConfig : KubeletConfiguration;
  bo_Taints : list Taint;
  bo_Labels : gmap string string;
  bo_CABundle : option string;
  bo_CustomUserData : option string;
  bo_InstanceStorePolicy : option string;
}.

Inductive Bootstrapper :=
  | EKS (o : BootstrapOptions)
  | Nodeadm (o : BootstrapOptions)
  | Bottlerocket (o : BootstrapOptions) (EnableDefaultMountPaths : bool)
  | Windows (o : BootstrapOptions)
  | Custom (CustomUserData : option string).

(** The [UserData] methods: AL2023 alone gets the cluster CIDR, Windows gets neither the raw
    configuration nor the instance store policy. *)
Definition Family_UserData (f : Family) (opts : Options) (kubelet : ParsedKubeletConfig)
    (raw : KubeletConfiguration) (taints : list Taint) (labels : gmap string string)
    (customUserData : option string) : Bootstrapper :=
  let o cidr raw policy :=
    {| bo_ClusterName := o_ClusterName opts; bo_ClusterEndpoint := o_ClusterEndpoint opts;
       bo_ClusterCIDR := cidr; bo_KubeletConfig := kubelet; bo_UnparsedKubeletConfig := raw;
       bo_Taints := taints; bo_Labels := labels; bo_CABundle := o_CABundle opts;
       bo_CustomUserData := customUserData; bo_InstanceStorePolicy := policy |} in
  match f with
  | FamilyAL2 => EKS (o None raw (o_InstanceStorePolicy opts))
  | FamilyAL2023 => Nodeadm (o (o_ClusterCIDR opts) raw (o_InstanceStorePolicy opts))
  | FamilyBottlerocket =>
      Bottlerocket (o None raw (o_InstanceStorePolicy opts))
        (SupportsDefaultBind (resolveAMIVersion (o_AMISelectorTerms opts) (o_AMIs opts)))
  | FamilyWindows => Windows (o None ∅ None)
  | FamilyCustom => Custom customUserData
  end.

Definition DefaultMetadataOptions (opts : Options) : MetadataOptions :=
  {| HTTPEndpoint := Some "disabled";
     HTTPProtocolIPv6 := Some match o_KubeDNSIP opts with
                              | Some ip => if ip_To4 ip then "disabled" else "enabled"
                              | None => "disabled"
                              end;
     HTTPPutResponseHopLimit := Some 2; HTTPTokens := Some "required" |}.

(** [amifamily.LaunchTemplate]; the options are shared. *)
Record ResolvedTemplate `{SchedulingTypes} := {
  rt_Options : Options;
  rt_UserData : Bootstrapper;
  rt_BlockDeviceMappings : list (BlockDeviceMapping Z);
  rt_MetadataOptions : MetadataOptions;
  rt_CPUOptions : option CPUOptions;
  rt_AMIID : string;
  rt_InstanceTypes : list InstanceType;
  rt_DetailedMonitoring : bool;
  rt_EFACount : Z;
  rt_EnclaveEnabled : bool;
  rt_NetworkInterfaces : list ResolvedNetworkInterface;
  rt_CapacityType : string;
  rt_CapacityReservationID : string;
  rt_CapacityReservationType : string;
  rt_CapacityReservationInterruptible : bool;
  rt_Tenancy : string;
  rt_PlacementGroupID : string;
  rt_PlacementGroupPartition : Z;
  rt_Zone : string;
  rt_ConnectionTracking : option ConnectionTracking;
}.

(** The grouping key: EFA count, pods, the two serialized resource maps, and the
    reservations with their type and interruptibility. *)
Record launchTemplateParams := {
  efaCount : Z;
  maxPods : Z;
  resolvedKubeReserved : string;
  resolvedSystemReserved : string;
  reservationIDs : string;
  reservationType : string;
  reservationInterruptible : bool;
}.
#[export] Instance launchTemplateParams_eq_dec : EqDecision launchTemplateParams.
Proof. solve_decision. Defined.
#[export] Program Instance launchTemplateParams_countable : Countable launchTemplateParams :=
  inj_countable'
    (λ p, (efaCount p, maxPods p, resolvedKubeReserved p, resolvedSystemReserved p,
           reservationIDs p, reservationType p, reservationInterruptible p))
    (λ '(a, b, c, d, e, f, g),
       {| efaCount := a; maxPods := b; resolvedKubeReserved := c; resolvedSystemReserved := d;
          reservationIDs := e; reservationType := f; reservationInterruptible := g |}) _.
Next Obligation. by intros []. Qed.

(** ** Changes of records *)

Definition with_maxPods (n : Z) (c : ParsedKubeletConfig) : ParsedKubeletConfig :=
  {| ClusterDNS := ClusterDNS c; pk_MaxPods := Some (IntVal n); PodsPerCore := PodsPerCore c;
     SystemReserved := SystemReserved c; KubeReserved := KubeReserved c;
     EvictionHard := EvictionHard c; EvictionSoft := EvictionSoft c;
     EvictionSoftGracePeriod := EvictionSoftGracePeriod c;
     EvictionMaxPodGracePeriod := EvictionMaxPodGracePeriod c;
     ImageGCHighThresholdPercent := ImageGCHighThresholdPercent c;
     ImageGCLowThresholdPercent := ImageGCLowThresholdPercent c; CPUCFSQuota := CPUCFSQuota c |}.
Definition with_reserved (kube system : gmap string string) (c : ParsedKubeletConfig) : ParsedKubeletConfig :=
  {| ClusterDNS := ClusterDNS c; pk_MaxPods := pk_MaxPods c; PodsPerCore := PodsPerCore c;
     SystemReserved := system; KubeReserved := kube;
     EvictionHard := EvictionHard c; EvictionSoft := EvictionSoft c;
     EvictionSoftGracePeriod := EvictionSoftGracePeriod c;
     EvictionMaxPodGracePeriod := EvictionMaxPodGracePeriod c;
     ImageGCHighThresholdPercent := ImageGCHighThresholdPercent c;
     ImageGCLowThresholdPercent := ImageGCLowThresholdPercent c; CPUCFSQuota := CPUCFSQuota c |}.
Definition with_clusterDNS (dns : list string) (c : ParsedKubeletConfig) : ParsedKubeletConfig :=
  {| ClusterDNS := dns; pk_MaxPods := pk_MaxPods c; PodsPerCore := PodsPerCore c;
     SystemReserved := SystemReserved c; KubeReserved := KubeReserved c;
     EvictionHard := EvictionHard c; EvictionSoft := EvictionSoft c;
     EvictionSoftGracePeriod := EvictionSoftGracePeriod c;
     EvictionMaxPodGracePeriod := EvictionMaxPodGracePeriod c;
     ImageGCHighThresholdPercent := ImageGCHighThresholdPercent c;
     ImageGCLowThresholdPercent := ImageGCLowThresholdPercent c; CPUCFSQuota := CPUCFSQuota c |}.

Definition without_ipv6 (m : MetadataOptions) : MetadataOptions :=
  {| HTTPEndpoint := HTTPEndpoint m; HTTPProtocolIPv6 := None;
     HTTPPutResponseHopLimit := HTTPPutResponseHopLimit m; HTTPTokens := HTTPTokens m |}.
Definition with_metadata (m : option MetadataOptions) (nc : NodeClass) : NodeClass :=
  let s := Spec nc in
  {| nc_Name := nc_Name nc; nc_UID := nc_UID nc; nc_Generation := nc_Generation nc;
     nc_DeletionTimestamp := nc_DeletionTimestamp nc; nc_Annotations := nc_Annotations nc;
     Spec :=
       {| SubnetSelectorTerms := SubnetSelectorTerms s;
          SecurityGroupSelectorTerms := SecurityGroupSelectorTerms s;
          CapacityReservationSelectorTerms := CapacityReservationSelectorTerms s;
          PlacementGroupSelector_ := PlacementGroupSelector_ s;
          AssociatePublicIPAddress := AssociatePublicIPAddress s; IPPrefixCount := IPPrefixCount s;
          AMISelectorTerms := AMISelectorTerms s; AMIFamily_ := AMIFamily_ s; UserData := UserData s;
          Role := Role s; InstanceProfile_ := InstanceProfile_ s; Tags := Tags s; Kubelet := Kubelet s;
          BlockDeviceMappings_ := BlockDeviceMappings_ s;
          InstanceStorePolicy_ := InstanceStorePolicy_ s; NetworkInterfaces_ := NetworkInterfaces_ s;
          DetailedMonitoring := DetailedMonitoring s; MetadataOptions_ := m;
          EnclaveOptions_ := EnclaveOptions_ s; ConnectionTracking_ := ConnectionTracking_ s;
          Context_ := Context_ s; CPUOptions_ := CPUOptions_ s |};
     Status := Status nc |}.

(** ** Resolution *)

Definition httpProtocolUnsupportedRegions : list string :=
  ["us-iso-east-1"; "us-iso-west-1"; "us-isob-east-1"; "us-isob-west-1"; "us-isof-south-1";
   "us-isof-east-1"].

Definition LabelInstanceCPU := "karpenter.k8s.aws/instance-cpu".
Definition LabelInstanceMemory := "karpenter.k8s.aws/instance-memory".

Section resolve.
Context `{IR : ImageRequirements} `{QuantityParser}.
Context {Ast Program : Type}.
(** The JSON decoder, and the CEL library. *)
Variable Unmarshal : KubeletConfiguration → result error ParsedKubeletConfig.
Variable env_Compile : string → result error Ast.
Variable OutputType : Ast → CelType.
Variable env_Program : Ast → result error Program.
Variable Eval : Program → InstanceTypeVars → result error CelValue.
Variable out_of_range : float64 → Z.
(** [karpv1.GetLabelDomain] *)
Variable GetLabelDomain : string → string.
(** The resolver: its region, and the interfaces and addresses of an instance type. *)
Variable region : string.
Variable eniLookup : string → option (Z * Z).
(** The feature gate [NodeClassCEL]. *)
Variable NodeClassCEL : bool.

Abbreviation resolve_resources :=
  (resolve_map env_Compile OutputType env_Program Eval out_of_range).

Definition isRestrictedLabel (label : string) : bool :=
  let domain := GetLabelDomain label in
  existsb (λ restricted, bool_decide (domain = restricted) || HasSuffix domain ("." +:+ restricted))
    ["node-restriction.kubernetes.io"; "kubernetes.io"; "k8s.io"].
Definition RejectForbiddenLabels (labels : gmap string string) : gmap string string :=
  filter (λ kv, isRestrictedLabel kv.1 = false) labels.

(** [Requirements.Get] never returns nil. *)
Definition celVarsFromInstanceType (it : InstanceType) : result error InstanceTypeVars :=
  match Atoi (req_Any (Get (it_Requirements it) LabelInstanceCPU)) with
  | None => Err (errorf "parsing label")
  | Some vcpus =>
      match Atoi (req_Any (Get (it_Requirements it) LabelInstanceMemory)) with
      | None => Err (errorf "parsing label")
      | Some memoryMiB =>
          let '(defaultENIs, ipsPerENI) := default (0, 0) (eniLookup (Name it)) in
          Ok {| VCPUs := vcpus; MemoryMiB := memoryMiB; DefaultENIs := defaultENIs;
                IPsPerENI := ipsPerENI; MaxPods := Value (default 0 (Capacity it !! ResourcePods));
                InstanceType_ := Name it |}
      end
  end.

(** The loop over the offerings of a reserved launch. *)
Definition add_reservation (acc : list string * string * bool) (o : Offering) :
    list string * string * bool :=
  let '(ids, ty, interruptible) := acc in
  if decide (CapacityType o ≠ CapacityTypeReserved) then acc
  else
    let ids := ids ++ [ReservationID o] in
    if decide (ty = "") then
      (ids, req_Any (Get (off_Requirements o) LabelCapacityReservationType),
       bool_decide (req_Any (Get (off_Requirements o) LabelCapacityReservationInterruptible) = "true"))
    else (ids, ty, interruptible).
Definition reservations_of (capacityType : string) (it : InstanceType) : list string * string * bool :=
  if decide (capacityType = CapacityTypeReserved) then foldl add_reservation ([], "", false) (Offerings it)
  else ([], "", false).

(** The reserved resources the configuration asks for: expressions count only behind the
    feature gate. *)
Definition requested_resources (m : gmap string string) : gmap string string :=
  if NodeClassCEL then m else staticQuantities m.

Definition paramsForInstanceType (capacityType : string) (efaEnabled : bool) (parsed : ParsedKubeletConfig)
    (it : InstanceType) : result error launchTemplateParams :=
  let vars := celVarsFromInstanceType it in
  let '(ids, ty, interruptible) := reservations_of capacityType it in
  match resolve_resources (requested_resources (KubeReserved parsed)) vars with
  | Err e => Err (wrap "resolving kubeReserved" e)
  | Ok kube =>
      match resolve_resources (requested_resources (SystemReserved parsed)) vars with
      | Err e => Err (wrap "resolving systemReserved" e)
      | Ok system =>
          Ok {| efaCount := if efaEnabled then Value (default 0 (Capacity it !! ResourceEFA)) else 0;
                maxPods := Value (default 0 (Capacity it !! ResourcePods));
                resolvedKubeReserved := serializeResourceMap kube;
                resolvedSystemReserved := serializeResourceMap system;
                reservationIDs := Join ids ","; reservationType := ty;
                reservationInterruptible := interruptible |}
      end
  end.

(** Each instance type with its key; the first failure is returned. *)
Fixpoint params_of (params : InstanceType → result error launchTemplateParams) (its : list InstanceType) :
    result error (list (launchTemplateParams * InstanceType)) :=
  match its with
  | [] => Ok []
  | it :: its' =>
      match params it with
      | Err e => Err e
      | Ok p => (λ ps, (p, it) :: ps) <$> params_of params its'
      end
  end.
Definition group_by_params (ps : list (launchTemplateParams * InstanceType)) :
    list (launchTemplateParams * list InstanceType) :=
  (λ g, (g.1, g.2.*2)) <$> map_to_list (GroupBy fst ps).

(** *** The kubelet configuration of a group *)

Definition defaultClusterDNS (opts : Options) (cfg : ParsedKubeletConfig * KubeletConfiguration) :
    ParsedKubeletConfig * KubeletConfiguration :=
  match o_KubeDNSIP opts with
  | None => cfg
  | Some ip =>
      if decide (ClusterDNS cfg.1 ≠ []) then cfg
      else (with_clusterDNS [ip_String ip] cfg.1,
            <["clusterDNS" := json_list [ip_String ip]]> cfg.2)
  end.

Definition resolved_pods (p : launchTemplateParams) (cfg : ParsedKubeletConfig * KubeletConfiguration) :
    ParsedKubeletConfig * KubeletConfiguration :=
  match MaxPodsValue cfg.1 with
  | Some _ => cfg
  | None => (with_maxPods (i32 (maxPods p)) cfg.1, <["maxPods" := fmt_int (maxPods p)]> cfg.2)
  end.
Definition resolved_kube (p : launchTemplateParams) (cfg : ParsedKubeletConfig * KubeletConfiguration) :
    ParsedKubeletConfig * KubeletConfiguration :=
  match deserializeResourceMap (resolvedKubeReserved p) with
  | Some m => (with_reserved m (SystemReserved cfg.1) cfg.1, <["kubeReserved" := json_map m]> cfg.2)
  | None => cfg
  end.
Definition resolved_system (p : launchTemplateParams) (cfg : ParsedKubeletConfig * KubeletConfiguration) :
    ParsedKubeletConfig * KubeletConfiguration :=
  match deserializeResourceMap (resolvedSystemReserved p) with
  | Some m => (with_reserved (KubeReserved cfg.1) m cfg.1, <["systemReserved" := json_map m]> cfg.2)
  | None => cfg
  end.
Definition kubelet_config (opts : Options) (p : launchTemplateParams) (parsed : ParsedKubeletConfig)
    (raw : KubeletConfiguration) : ParsedKubeletConfig * KubeletConfiguration :=
  defaultClusterDNS opts (resolved_system p (resolved_kube p (resolved_pods p (parsed, raw)))).

Definition launch_taints (taints : list Taint) : list Taint :=
  match Find (λ t, MatchTaint t UnregisteredNoExecuteTaint) taints with
  | Some _ => taints
  | None => taints ++ [UnregisteredNoExecuteTaint]
  end.

(** *** Templates *)

Definition unsupported_region : bool := bool_decide (region ∈ httpProtocolUnsupportedRegions).

(** The metadata options of a template: those of the NodeClass, by pointer, or fresh
    defaults. *)
Definition template_metadata (nc : NodeClass) (opts : Options) : MetadataOptions :=
  let m := default (DefaultMetadataOptions opts) (MetadataOptions_ (Spec nc)) in
  if unsupported_region then without_ipv6 m else m.
(** The NodeClass after a template was made. *)
Definition after_template (nc : NodeClass) : NodeClass :=
  if unsupported_region then with_metadata (without_ipv6 <$> MetadataOptions_ (Spec nc)) nc else nc.

(** What the launch fixes for every template: the capacity type, the tenancy, the placement
    group and its partition, the taints of the NodeClaim, and whether EFA is on. *)
Record LaunchParams := {
  lp_capacityType : string;
  lp_tenancy : string;
  lp_placementGroupID : string;
  lp_partition : Z;
  lp_taints : list Taint;
  lp_efaEnabled : bool;
}.

Definition resolveLaunchTemplate (nc : NodeClass) (lp : LaunchParams) (f : Family) (amiID : string)
    (opts : Options) (parsed : ParsedKubeletConfig) (g : launchTemplateParams * list InstanceType)
    (id : string) : ResolvedTemplate :=
  let '(p, its) := g in
  let '(kubelet, raw) := kubelet_config opts p parsed (Kubelet (Spec nc)) in
  {| rt_Options := opts;
     rt_UserData := Family_UserData f opts kubelet raw (launch_taints (lp_taints lp))
                      (RejectForbiddenLabels (o_Labels opts)) (UserData (Spec nc));
     rt_BlockDeviceMappings :=
       if decide (length (BlockDeviceMappings_ (Spec nc)) = 0%nat) then DefaultBlockDeviceMappings f
       else BlockDeviceMappings_ (Spec nc);
     rt_MetadataOptions := template_metadata nc opts; rt_CPUOptions := CPUOptions_ (Spec nc);
     rt_AMIID := amiID; rt_InstanceTypes := its;
     rt_DetailedMonitoring := default false (DetailedMonitoring (Spec nc));
     rt_EFACount := efaCount p;
     rt_EnclaveEnabled := match EnclaveOptions_ (Spec nc) with Some e => ApiV1.Enabled e | None => false end;
     rt_NetworkInterfaces := default [] (ResolveNetworkInterfaces (Some (NetworkInterfaces_ (Spec nc))));
     rt_CapacityType := lp_capacityType lp; rt_CapacityReservationID := id;
     rt_CapacityReservationType := reservationType p;
     rt_CapacityReservationInterruptible := reservationInterruptible p;
     rt_Tenancy := lp_tenancy lp; rt_PlacementGroupID := lp_placementGroupID lp;
     rt_PlacementGroupPartition := lp_partition lp; rt_Zone := "";
     rt_ConnectionTracking := ConnectionTracking_ (Spec nc) |}.

(** The templates of an image: one per group and reservation.  Splitting never yields an
    empty list: without a reservation there is one template with an empty ID. *)
Definition image_templates (nc : NodeClass) (lp : LaunchParams) (f : Family) (amiID : string)
    (opts : Options) (parsed : ParsedKubeletConfig)
    (groups : list (launchTemplateParams * list InstanceType)) : list ResolvedTemplate :=
  mjoin ((λ g, resolveLaunchTemplate nc lp f amiID opts parsed g <$> Split (reservationIDs g.1) ",") <$> groups).

(** The loop over the images, with the NodeClass as state. *)
Fixpoint resolve_images (lp : LaunchParams) (f : Family) (opts : Options) (parsed : ParsedKubeletConfig)
    (images : list (string * list InstanceType)) (nc : NodeClass) :
    NodeClass * result error (list ResolvedTemplate) :=
  match images with
  | [] => (nc, Ok [])
  | (amiID, its) :: images' =>
      match params_of (paramsForInstanceType (lp_capacityType lp) (lp_efaEnabled lp) parsed) its with
      | Err e => (nc, Err e)
      | Ok ps =>
          let templates := image_templates nc lp f amiID opts parsed (group_by_params ps) in
          let nc' := if decide (length templates = 0%nat) then nc else after_template nc in
          match resolve_images lp f opts parsed images' nc' with
          | (nc', Ok templates') => (nc', Ok (templates ++ templates'))
          | (nc', Err e) => (nc', Err e)
          end
      end
  end.

(** [None] is the fatal error of an alias that does not parse. *)
Definition Resolve (nc : NodeClass) (lp : LaunchParams) (its : list InstanceType) (opts : Options) :
    option (NodeClass * result error (list ResolvedTemplate)) :=
  amiFamily ← AMIFamily nc;
  let f := GetAMIFamily amiFamily in
  Some (if decide (AMIs_ (Status nc) = []) then (nc, Err (errorf "no amis exist given constraints"))
        else
          let mappedAMIs := MapToInstanceTypes its (AMIs_ (Status nc)) in
          if decide (mappedAMIs = ∅) then
            (nc, Err (errorf "no instance types satisfy requirements of amis"))
          else
            match ParseKubeletConfig Unmarshal (Kubelet (Spec nc)) with
            | Err e => (nc, Err (wrap "parsing kubelet configuration" e))
            | Ok parsed => resolve_images lp f opts parsed (map_to_list mappedAMIs) nc
            end).
End resolve.

(** ** Properties *)

(** *** Resource maps as text *)

Lemma Cut_app k v sep : free_of sep k → Cut (k +:+ String sep v) sep = Some (k, v).
Proof.
  induction k as [|c k IH]; simpl; [by rewrite decide_True|].
  intros [Hc Hk]. rewrite decide_False by done. by rewrite IH.
Qed.

Lemma free_of_app c s t : free_of c s → free_of c t → free_of c (s +:+ t).
Proof. induction s; simpl; tauto. Qed.

(** No commas in the entries and no equal signs in the keys. *)
Definition separable (m : gmap string string) : Prop :=
  map_Forall (λ k v, free_of "," k ∧ free_of "=" k ∧ free_of "," v) m.

Lemma add_parts_lookup m keys res k :
  separable m → (∀ k, k ∈ keys → is_Some (m !! k)) →
  foldl add_part res (resource_entry m <$> keys) !! k = if decide (k ∈ keys) then m !! k else res !! k.
Proof.
  intros Hs. revert res. induction keys as [|k' keys IH]; intros res Hin; simpl.
  { done. }
  rewrite IH by (intros; apply Hin; by right).
  destruct (Hin k') as [v Hv]; [by left|]. destruct (Hs _ _ Hv) as (_ & Hk & _).
  unfold add_part, resource_entry. rewrite (lookup_total_correct _ _ _ Hv).
  change ("=" +:+ v) with (String "=" v). rewrite Cut_app by done.
  destruct (decide (k ∈ keys)) as [Hk'|Hk'].
  - by rewrite decide_True by by right.
  - destruct (decide (k = k')) as [->|].
    + rewrite lookup_insert_eq.
      by rewrite decide_True by by left.
    + rewrite lookup_insert_ne by done. rewrite decide_False; [done|].
      by intros [?|?]%elem_of_cons.
Qed.

(** A resolved resource map survives its trip through the grouping key: reading back what
    was written gives the same map, and nil for an empty one. *)
Lemma deserialize_serialize m :
  separable m →
  deserializeResourceMap (serializeResourceMap m) = if decide (m = ∅) then None else Some m.
Proof.
  intros Hs. unfold serializeResourceMap. case_decide as Hm; [done|].
  set (keys := merge_sort String.le (map_to_list m).*1).
  assert (∀ k, k ∈ keys ↔ is_Some (m !! k)) as Hkeys.
  { intros k. unfold keys. rewrite merge_sort_Permutation, list_elem_of_fmap. split.
    - intros ([? v] & -> & Hin%elem_of_map_to_list). by exists v.
    - intros [v Hv]. exists (k, v). split; [done|]. by apply elem_of_map_to_list. }
  assert (Forall (free_of ",") (resource_entry m <$> keys)) as Hfree.
  { apply Forall_fmap, Forall_forall. intros k [v Hv]%Hkeys. simpl.
    destruct (Hs _ _ Hv) as (? & _ & ?). unfold resource_entry.
    rewrite (lookup_total_correct _ _ _ Hv). apply free_of_app; [done|]. simpl. done. }
  destruct (map_choose _ Hm) as (k0 & v0 & Hk0).
  assert (resource_entry m <$> keys ≠ []) as Hne.
  { intros Hnil%fmap_nil_inv. assert (k0 ∈ keys) as Hin by by apply Hkeys.
    rewrite Hnil in Hin. by apply elem_of_nil in Hin. }
  pose proof (Split_Join _ _ Hne Hfree) as Hsplit. unfold deserializeResourceMap.
  rewrite decide_False, Hsplit.
  - f_equal. apply map_eq. intros k. rewrite add_parts_lookup by (try done; by intros ? ?%Hkeys).
    case_decide as Hk; [done|]. rewrite lookup_empty. symmetry. rewrite Hkeys in Hk. by apply eq_None_not_Some.
  - intros Hnil. rewrite Hnil in Hsplit. simpl in Hsplit.
    assert (resource_entry m k0 ∈ resource_entry m <$> keys) as Hin
      by (apply list_elem_of_fmap_2; by apply Hkeys).
    rewrite <- Hsplit in Hin. apply list_elem_of_singleton in Hin.
    unfold resource_entry in Hin. by destruct k0.
Qed.

Section properties.
Context `{IR : ImageRequirements} `{QuantityParser}.
Context {Ast Program : Type}.
Variable Unmarshal : KubeletConfiguration → result error ParsedKubeletConfig.
Variable env_Compile : string → result error Ast.
Variable OutputType : Ast → CelType.
Variable env_Program : Ast → result error Program.
Variable Eval : Program → InstanceTypeVars → result error CelValue.
Variable out_of_range : float64 → Z.
Variable GetLabelDomain : string → string.
Variable region : string.
Variable eniLookup : string → option (Z * Z).
Variable NodeClassCEL : bool.

Abbreviation params_for ct efa parsed :=
  (paramsForInstanceType env_Compile OutputType env_Program Eval out_of_range eniLookup NodeClassCEL ct efa parsed).
Abbreviation template nc lp f amiID opts parsed g id :=
  (resolveLaunchTemplate GetLabelDomain region nc lp f amiID opts parsed g id).
Abbreviation resolve nc lp its opts :=
  (Resolve Unmarshal env_Compile OutputType env_Program Eval out_of_range GetLabelDomain region eniLookup
     NodeClassCEL nc lp its opts).
Abbreviation images_loop lp f opts parsed images nc :=
  (resolve_images env_Compile OutputType env_Program Eval out_of_range GetLabelDomain region eniLookup
     NodeClassCEL lp f opts parsed images nc).
Abbreviation resolve_resources :=
  (resolve_map env_Compile OutputType env_Program Eval out_of_range).

(** *** Groups *)

Lemma params_of_Ok params its ps :
  params_of params its = Ok ps → ∀ p it, (p, it) ∈ ps ↔ it ∈ its ∧ params it = Ok p.
Proof.
  revert ps. induction its as [|it its IH]; intros ps; simpl.
  { intros [= <-] p it. split; [by intros ?%elem_of_nil|by intros [?%elem_of_nil _]]. }
  destruct (params it) as [q|e] eqn:Eq; [|done]. destruct (params_of params its) as [ps'|e]; [|done].
  intros [= <-] p it'. rewrite !elem_of_cons, (IH ps' eq_refl). split.
  - intros [[= -> ->]|[? ?]]; auto.
  - intros [[->|?] ?]; [left; congruence|by right].
Qed.

Lemma group_by_params_elem ps p its :
  (p, its) ∈ group_by_params ps ↔ its = (filter (λ x, x.1 = p) ps).*2 ∧ its ≠ [].
Proof.
  unfold group_by_params. rewrite list_elem_of_fmap. split.
  - intros ([q g] & [= -> ->] & Hin%elem_of_map_to_list). rewrite GroupBy_lookup in Hin.
    destruct (filter _ ps) eqn:E; [done|]. by injection Hin as <-.
  - intros [-> Hne]. exists (p, filter (λ x, x.1 = p) ps). split; [done|].
    apply elem_of_map_to_list. rewrite GroupBy_lookup. by destruct (filter _ ps).
Qed.

(** What the templates of an image are made of. *)
Lemma image_templates_elem nc lp f amiID opts parsed ps t :
  t ∈ image_templates GetLabelDomain region nc lp f amiID opts parsed (group_by_params ps) ↔
  ∃ p id, t = template nc lp f amiID opts parsed (p, (filter (λ x, x.1 = p) ps).*2) id ∧
    (filter (λ x, x.1 = p) ps).*2 ≠ [] ∧ id ∈ Split (reservationIDs p) ",".
Proof.
  unfold image_templates. rewrite list_elem_of_join. setoid_rewrite list_elem_of_fmap. split.
  - intros (l & Ht & ([p its] & -> & Hg)). apply list_elem_of_fmap in Ht as (id & -> & Hid).
    apply group_by_params_elem in Hg as [-> Hne]. by exists p, id.
  - intros (p & id & -> & Hne & Hid). eexists. split; [by apply list_elem_of_fmap_2|].
    eexists (p, _). split; [done|]. by apply group_by_params_elem.
Qed.

Lemma Split_nonempty s sep : Split s sep ≠ [].
Proof. destruct s as [|c s]; simpl; [done|]. case_decide; [done|]. by destruct (Split s sep). Qed.

(** *** Images *)

(** Templates do not depend on whether an earlier one has changed the NodeClass. *)
Lemma template_after nc lp f amiID opts parsed g id :
  template (after_template region nc) lp f amiID opts parsed g id = template nc lp f amiID opts parsed g id.
Proof.
  unfold resolveLaunchTemplate, template_metadata, after_template. destruct g as [p its].
  destruct (unsupported_region region); [|done]. simpl. by destruct (MetadataOptions_ (Spec nc)).
Qed.

Lemma after_template_idem nc : after_template region (after_template region nc) = after_template region nc.
Proof.
  unfold after_template. destruct (unsupported_region region); [|done]. unfold with_metadata. simpl.
  by destruct (MetadataOptions_ (Spec nc)).
Qed.

(** A template of the result: of an image with its instance types, their keys, and a
    reservation of one key. *)
Definition resolved_template nc lp f opts parsed (images : list (string * list InstanceType)) t : Prop :=
  ∃ amiID its ps p id,
    (amiID, its) ∈ images ∧ params_of (params_for (lp_capacityType lp) (lp_efaEnabled lp) parsed) its = Ok ps ∧
    t = template nc lp f amiID opts parsed (p, (filter (λ x, x.1 = p) ps).*2) id ∧
    (filter (λ x, x.1 = p) ps).*2 ≠ [] ∧ id ∈ Split (reservationIDs p) ",".

Lemma images_loop_spec lp f opts parsed images nc nc' ts :
  images_loop lp f opts parsed images nc = (nc', Ok ts) →
  (nc' = nc ∨ nc' = after_template region nc) ∧ (nc' = nc → ts ≠ [] → after_template region nc = nc) ∧
  ((∀ t, t ∈ ts ↔ resolved_template nc lp f opts parsed images t) ∧
   ∀ x, x ∈ images →
     is_ok (params_of (params_for (lp_capacityType lp) (lp_efaEnabled lp) parsed) x.2) = true).
Proof.
  revert nc nc' ts. induction images as [|[amiID its] images IH]; intros nc nc' ts; simpl.
  { intros [= <- <-]. split; [by left|]. split; [done|]. split; [|by intros x ?%elem_of_nil].
    intros t. split; [by intros ?%elem_of_nil|]. by intros (? & ? & ? & ? & ? & ?%elem_of_nil & _). }
  destruct (params_of _ its) as [ps|e] eqn:Eps; [|done].
  set (ts1 := image_templates _ _ _ _ _ _ _ _ _). set (nc1 := if decide _ then nc else _).
  assert (nc1 = nc ∨ nc1 = after_template region nc) as Hnc1.
  { subst nc1. case_decide; auto. }
  assert (∀ t, resolved_template nc1 lp f opts parsed images t ↔ resolved_template nc lp f opts parsed images t) as Hsame.
  { destruct Hnc1 as [->| ->]; [done|]. intros t. unfold resolved_template. by setoid_rewrite template_after. }
  destruct (images_loop lp f opts parsed images nc1) as [nc2 [ts2|e]] eqn:E; [|done]. intros [= <- <-].
  destruct (IH _ _ _ E) as (Hnc2 & Hid & Hts & Hok). split_and!.
  - destruct Hnc1 as [Hn| Hn], Hnc2 as [-> | ->]; rewrite Hn; rewrite ?after_template_idem; auto.
  - intros Heq Hne. subst nc2.
    destruct Hnc1 as [Hn|Hn].
    + subst nc1. case_decide as Hl; [|done]. destruct ts1; [|done]. apply Hid; [done|by destruct ts2].
    + destruct Hnc2 as [Hx|Hx]; rewrite Hn in Hx; rewrite ?after_template_idem in Hx; by rewrite <- Hx.
  - intros t. rewrite elem_of_app, Hts, Hsame. subst ts1. rewrite image_templates_elem.
    unfold resolved_template. split.
    + intros [(p & id & Ht)|(a & i & qs & p & id & Hin & Ht)].
      * exists amiID, its, ps, p, id. split; [by left|]. done.
      * exists a, i, qs, p, id. split; [by right|]. done.
    + intros (a & i & qs & p & id & [[= -> ->]|Hin]%elem_of_cons & Hqs & Ht).
      * left. exists p, id. rewrite Eps in Hqs. by injection Hqs as <-.
      * right. by exists a, i, qs, p, id.
  - intros x [->|Hx]%elem_of_cons; [simpl; by rewrite Eps|by apply Hok].
Qed.

(** Whether the NodeClass was changed shows in a result that has a template. *)
Lemma images_loop_after lp f opts parsed images nc nc' ts :
  images_loop lp f opts parsed images nc = (nc', Ok ts) → ts ≠ [] → nc' = after_template region nc.
Proof. intros (Hnc & Hid & _)%images_loop_spec Hne. destruct Hnc as [->|]; [|done]. symmetry. by apply Hid. Qed.

(** The grouping key of an instance type. *)
Abbreviation key_of lp parsed it := (params_for (lp_capacityType lp) (lp_efaEnabled lp) parsed it).

Lemma template_fields nc lp f amiID opts parsed p its id :
  let t := template nc lp f amiID opts parsed (p, its) id in
  rt_AMIID t = amiID ∧ rt_InstanceTypes t = its ∧ rt_CapacityReservationID t = id.
Proof. unfold resolveLaunchTemplate. by destruct (kubelet_config _ _ _ _). Qed.

Lemma group_elem params its ps p it :
  params_of params its = Ok ps → it ∈ (filter (λ x, x.1 = p) ps).*2 ↔ it ∈ its ∧ params it = Ok p.
Proof.
  intros Hps. rewrite list_elem_of_fmap. rewrite <- (params_of_Ok _ _ _ Hps). split.
  - intros ([q it'] & -> & [Hq Hin]%list_elem_of_filter). simpl in Hq. by subst.
  - intros Hin. exists (p, it). split; [done|]. by apply list_elem_of_filter.
Qed.

Lemma params_of_in params its ps it :
  params_of params its = Ok ps → it ∈ its → ∃ p, params it = Ok p.
Proof.
  revert ps. induction its as [|it' its IH]; intros ps; simpl; [by intros _ ?%elem_of_nil|].
  destruct (params it') as [p|e] eqn:Ep; [|done]. destruct (params_of params its) as [ps'|]; [|done].
  intros _ [->|Hin]%elem_of_cons; [by exists p|by eapply IH].
Qed.

(** A template of the result, read from its fields; [its] are the instance types of its
    image. *)
Definition template_of nc lp f opts parsed (images : gmap string (list InstanceType)) t
    (its : list InstanceType) ps p : Prop :=
  images !! rt_AMIID t = Some its ∧
  params_of (params_for (lp_capacityType lp) (lp_efaEnabled lp) parsed) its = Ok ps ∧
  rt_InstanceTypes t = (filter (λ x, x.1 = p) ps).*2 ∧ rt_InstanceTypes t ≠ [] ∧
  rt_CapacityReservationID t ∈ Split (reservationIDs p) "," ∧
  t = template nc lp f (rt_AMIID t) opts parsed (p, rt_InstanceTypes t) (rt_CapacityReservationID t).

Lemma resolved_template_of nc lp f opts parsed images t :
  resolved_template nc lp f opts parsed (map_to_list images) t ↔
  ∃ its ps p, template_of nc lp f opts parsed images t its ps p.
Proof.
  unfold template_of. split.
  - intros (amiID & its & ps & p & id & Hin%elem_of_map_to_list & Hps & -> & Hne & Hid).
    exists its, ps, p. destruct (template_fields nc lp f amiID opts parsed p (filter (λ x, x.1 = p) ps).*2 id)
      as (-> & -> & ->). done.
  - intros (its & ps & p & Hin & Hps & Hits & Hne & Hid & Ht). rewrite Ht.
    eexists _, its, ps, p, _. rewrite elem_of_map_to_list. rewrite <- Hits. done.
Qed.

(** Two templates that share an instance type and a reservation are the same. *)
Lemma template_of_unique nc lp f opts parsed mapped t t' its its' ps ps' p p' it :
  (∀ id id' l l', mapped !! id = Some l → mapped !! id' = Some l' → it ∈ l → it ∈ l' → id = id') →
  template_of nc lp f opts parsed mapped t its ps p → template_of nc lp f opts parsed mapped t' its' ps' p' →
  it ∈ rt_InstanceTypes t → it ∈ rt_InstanceTypes t' →
  rt_CapacityReservationID t' = rt_CapacityReservationID t → t' = t.
Proof.
  intros Himg (Hm & Hps & Hits & _ & _ & Ht) (Hm' & Hps' & Hits' & _ & _ & Ht') Hin Hin' Hr.
  rewrite Hits, (group_elem _ _ _ _ _ Hps) in Hin. rewrite Hits', (group_elem _ _ _ _ _ Hps') in Hin'.
  destruct Hin as [Hin Hp], Hin' as [Hin' Hp']. assert (p' = p) as -> by congruence.
  assert (rt_AMIID t' = rt_AMIID t) as Ha by by eapply Himg.
  rewrite Ha, Hm in Hm'. injection Hm' as <-. rewrite Hps in Hps'. injection Hps' as <-.
  by rewrite Ht, Ht', Ha, Hr, Hits, Hits'.
Qed.

(** The images of the instance types. *)
Lemma mapped_elem its amis it id :
  it ∈ its ∧ first_image amis it = Some id ↔ ∃ l, MapToInstanceTypes its amis !! id = Some l ∧ it ∈ l.
Proof.
  split.
  - intros [Hit Hid]. eexists. rewrite MapToInstanceTypes_lookup.
    assert (it ∈ filter (λ it, first_image amis it = Some id) its) as Hin by by apply list_elem_of_filter.
    split; [split; [done|]|done]. intros Hnil. rewrite Hnil in Hin. by apply elem_of_nil in Hin.
  - by intros (l & [-> _]%MapToInstanceTypes_lookup & [? ?]%list_elem_of_filter).
Qed.

(** A mapped instance type has a template for each reservation of its key. *)
Lemma mapped_gets nc lp f opts parsed (mapped : gmap string (list InstanceType)) ps l id it r p :
  mapped !! id = Some l → it ∈ l →
  params_of (params_for (lp_capacityType lp) (lp_efaEnabled lp) parsed) l = Ok ps →
  key_of lp parsed it = Ok p → r ∈ Split (reservationIDs p) "," →
  ∃ t, template_of nc lp f opts parsed mapped t l ps p ∧
    rt_AMIID t = id ∧ rt_CapacityReservationID t = r ∧ it ∈ rt_InstanceTypes t.
Proof.
  intros Hl Hin Hps Hp Hr. set (g := (filter (λ x, x.1 = p) ps).*2).
  assert (it ∈ g) as Hg by by apply (group_elem _ _ _ _ _ Hps).
  exists (template nc lp f id opts parsed (p, g) r). unfold template_of.
  destruct (template_fields nc lp f id opts parsed p g r) as (-> & -> & ->). split_and!; try done.
  intros Hnil. rewrite Hnil in Hg. by apply elem_of_nil in Hg.
Qed.

(** C25: the launch templates of a launch.  Every instance type that some image of the
    NodeClass fits gets, for each of its reservations, exactly one template; the template
    has the first such image and the configuration (EFA interfaces, pods, reserved
    resources, reservation) computed for that instance type; and no other instance types
    are in any template.  Resolving leaves the NodeClass as [after_template] says. *)
Theorem Resolve_templates nc lp its opts nc' ts :
  resolve nc lp its opts = Some (nc', Ok ts) →
  ∃ parsed amiFamily,
    ParseKubeletConfig Unmarshal (Kubelet (Spec nc)) = Ok parsed ∧ AMIFamily nc = Some amiFamily ∧
    ts ≠ [] ∧ nc' = after_template region nc ∧
    (∀ it id, it ∈ its → first_image (AMIs_ (Status nc)) it = Some id →
       ∃ p, key_of lp parsed it = Ok p ∧
         ∀ r, r ∈ Split (reservationIDs p) "," →
           ∃ t, t ∈ ts ∧ rt_AMIID t = id ∧ rt_CapacityReservationID t = r ∧ it ∈ rt_InstanceTypes t ∧
             ∀ t', t' ∈ ts → it ∈ rt_InstanceTypes t' → rt_CapacityReservationID t' = r → t' = t) ∧
    (∀ t, t ∈ ts →
       rt_InstanceTypes t ≠ [] ∧
       ∃ p, rt_CapacityReservationID t ∈ Split (reservationIDs p) "," ∧
         t = template nc lp (GetAMIFamily amiFamily) (rt_AMIID t) opts parsed (p, rt_InstanceTypes t)
               (rt_CapacityReservationID t) ∧
         ∀ it, it ∈ rt_InstanceTypes t →
           it ∈ its ∧ first_image (AMIs_ (Status nc)) it = Some (rt_AMIID t) ∧ key_of lp parsed it = Ok p).
Proof.
  unfold Resolve. destruct (AMIFamily nc) as [amiFamily|]; [|done]. simpl.
  case_decide; [done|]. case_decide as Hmap; [done|].
  destruct (ParseKubeletConfig _ _) as [parsed|e]; [|done]. intros [= Hloop].
  set (amis := AMIs_ (Status nc)) in *. set (mapped := MapToInstanceTypes its amis) in *.
  destruct (images_loop_spec _ _ _ _ _ _ _ _ Hloop) as (_ & _ & Hts & Hok).
  setoid_rewrite resolved_template_of in Hts.
  assert (∀ it id, it ∈ its → first_image amis it = Some id →
     ∃ p, key_of lp parsed it = Ok p ∧ ∀ r, r ∈ Split (reservationIDs p) "," →
       ∃ t l ps, template_of nc lp (GetAMIFamily amiFamily) opts parsed mapped t l ps p ∧
         rt_AMIID t = id ∧ rt_CapacityReservationID t = r ∧ it ∈ rt_InstanceTypes t) as Hgets.
  { intros it id Hit Hid. destruct (proj1 (mapped_elem _ _ _ _) (conj Hit Hid)) as (l & Hl & Hin).
    specialize (Hok (id, l) (proj2 (elem_of_map_to_list _ _ _) Hl)). simpl in Hok.
    destruct (params_of _ l) as [ps|] eqn:Eps; [|done].
    destruct (params_of_in _ _ _ _ Eps Hin) as [p Hp]. exists p. split; [done|]. intros r Hr.
    destruct (mapped_gets nc lp (GetAMIFamily amiFamily) opts parsed mapped ps l id it r p) as (t & Ht);
      try done. by exists t, l, ps. }
  assert (ts ≠ []) as Hne.
  { destruct (map_choose _ Hmap) as (id & l & Hl). destruct l as [|it l].
    { by apply MapToInstanceTypes_lookup in Hl as [_ ?]. }
    destruct (proj2 (mapped_elem its amis it id)) as [Hit Hid]; [eexists; split; [done|by left]|].
    destruct (Hgets _ _ Hit Hid) as (p & _ & Hr). destruct (Split (reservationIDs p) ",") as [|r rs] eqn:Es.
    { by apply Split_nonempty in Es. }
    destruct (Hr r) as (t & l' & ps & Ht & _); [by left|]. intros ->.
    assert (t ∈ []) as Hin by (apply Hts; by exists l', ps, p). by apply elem_of_nil in Hin. }
  exists parsed, amiFamily. split_and!; [done|done|done|by eapply images_loop_after|..].
  - intros it id Hit Hid. destruct (Hgets _ _ Hit Hid) as (p & Hp & Hr). exists p. split; [done|].
    intros r Hin. destruct (Hr r Hin) as (t & l & ps & Ht & Ha & Hc & Hi). exists t.
    split; [apply Hts; by exists l, ps, p|]. split_and!; [done..|].
    intros t' (l' & ps' & p' & Ht')%Hts Hi' Hc'. eapply template_of_unique; [|done..|by rewrite Hc].
    intros id1 id2 l1 l2 Hm1 Hm2 Hin1 Hin2.
    destruct (proj2 (mapped_elem its amis it id1)) as [_ ?]; [by exists l1|].
    destruct (proj2 (mapped_elem its amis it id2)) as [_ ?]; [by exists l2|]. congruence.
  - intros t (l & ps & p & Hl & Hps & Hits & Hne' & Hid & Ht)%Hts. split; [done|].
    exists p. split_and!; [done|done|]. intros it Hin. rewrite Hits in Hin.
    apply (group_elem _ _ _ _ _ Hps) in Hin as [Hin Hp].
    destruct (proj2 (mapped_elem its amis it (rt_AMIID t))) as [? ?]; [by exists l|]. done.
Qed.

(** *** Reserved resources on the node *)

Lemma defaultClusterDNS_keeps opts cfg :
  KubeReserved (defaultClusterDNS opts cfg).1 = KubeReserved cfg.1 ∧
  SystemReserved (defaultClusterDNS opts cfg).1 = SystemReserved cfg.1 ∧
  pk_MaxPods (defaultClusterDNS opts cfg).1 = pk_MaxPods cfg.1 ∧
  ∀ k, k ≠ "clusterDNS" → (defaultClusterDNS opts cfg).2 !! k = cfg.2 !! k.
Proof.
  unfold defaultClusterDNS. destruct (o_KubeDNSIP opts) as [ip|]; [|done]. case_decide; [done|].
  simpl. split_and!; try done. intros k Hk. unfold KubeletConfiguration in *. by rewrite lookup_insert_ne.
Qed.

Lemma resolved_pods_keeps p cfg :
  KubeReserved (resolved_pods p cfg).1 = KubeReserved cfg.1 ∧
  SystemReserved (resolved_pods p cfg).1 = SystemReserved cfg.1 ∧
  ∀ k, k ≠ "maxPods" → (resolved_pods p cfg).2 !! k = cfg.2 !! k.
Proof.
  unfold resolved_pods. destruct (MaxPodsValue cfg.1); [done|]. simpl. split_and!; try done.
  intros k Hk. unfold KubeletConfiguration in *. by rewrite lookup_insert_ne.
Qed.

(** The resolved resources if there are any, and else what the NodeClass says. *)
Definition on_node {A} (resolved : gmap string string) (value original : A) : A :=
  if decide (resolved = ∅) then original else value.

(** What a node is told to reserve.  The grouping key of an instance type determines
    the kubelet configuration of its template: the resolved [kubeReserved] and
    [systemReserved], in both representations, but if resolution leaves nothing of a map
    (every entry is an expression that fails, is negative or is not enabled), the
    unresolved text of the NodeClass is passed on to the node. *)
Theorem reserved_on_node opts lp parsed raw it p :
  key_of lp parsed it = Ok p →
  ∃ kube system,
    resolve_resources (requested_resources NodeClassCEL (KubeReserved parsed))
      (celVarsFromInstanceType eniLookup it) = Ok kube ∧
    resolve_resources (requested_resources NodeClassCEL (SystemReserved parsed))
      (celVarsFromInstanceType eniLookup it) = Ok system ∧
    (separable kube → separable system →
     let '(cfg, raw') := kubelet_config opts p parsed raw in
     KubeReserved cfg = on_node kube kube (KubeReserved parsed) ∧
     raw' !! "kubeReserved" = on_node kube (Some (json_map kube)) (raw !! "kubeReserved") ∧
     SystemReserved cfg = on_node system system (SystemReserved parsed) ∧
     raw' !! "systemReserved" = on_node system (Some (json_map system)) (raw !! "systemReserved")).
Proof.
  unfold paramsForInstanceType. destruct (reservations_of _ it) as [[ids ty] interruptible].
  destruct (resolve_resources _ _) as [kube|] eqn:Ek; [|done].
  destruct (resolve_resources (requested_resources NodeClassCEL (SystemReserved parsed)) _) as [system|];
    [|done].
  intros [= <-]. exists kube, system. split; [done|]. split; [done|]. intros Hk Hs.
  unfold kubelet_config. set (p := Build_launchTemplateParams _ _ _ _ _ _ _).
  destruct (defaultClusterDNS_keeps opts (resolved_system p (resolved_kube p (resolved_pods p (parsed, raw)))))
    as (Hd1 & Hd2 & _ & Hd3).
  destruct (resolved_pods_keeps p (parsed, raw)) as (Hp1 & Hp2 & Hp3).
  destruct (defaultClusterDNS _ _) as [cfg raw']. simpl in *. rewrite Hd1, Hd2, !Hd3 by done.
  unfold resolved_system, resolved_kube, on_node. simpl.
  rewrite !deserialize_serialize by done.
  unfold KubeletConfiguration in *.
  repeat case_decide; simpl; split_and!; try done;
    repeat first [rewrite lookup_insert_eq | rewrite lookup_insert_ne by done | rewrite Hp3 by done];
    congruence.
Qed.
End properties.

(** ** Concrete executions *)

Section example.

(** An instance type with its labels, and a NodeClass with one image per architecture. *)
Definition example_node_type (name arch cpu : string) : InstanceType :=
  {| Name := name;
     it_Requirements := (list_to_map [(LabelArchStable, [arch]); (LabelInstanceCPU, [cpu]);
                                      (LabelInstanceMemory, ["65536"])] : gmap string (list string));
     Offerings := []; Capacity := {[ ResourcePods := units 58 ]} |}.
Definition example_status : EC2NodeClassStatus :=
  {| Subnets := []; SecurityGroups := [{| sg_ID := "sg-1"; sg_Name := "default" |}];
     CapacityReservations_ := []; AMIs_ := example_status_amis; InstanceProfile := "profile";
     Conditions := ∅ |}.
Definition example_nodeclass : NodeClass :=
  with_metadata
    (Some {| HTTPEndpoint := Some "enabled"; HTTPProtocolIPv6 := Some "disabled";
             HTTPPutResponseHopLimit := Some 1; HTTPTokens := Some "required" |})
    (let nc := invalidation_nodeclass "uid" "ami-arm" in
     {| nc_Name := "default"; nc_UID := "uid"; nc_Generation := 1; nc_DeletionTimestamp := None;
        nc_Annotations := ∅; Spec := Spec nc; Status := example_status |}).

(** A kubelet configuration whose only reserved resource is a negative expression. *)
Definition example_parsed : ParsedKubeletConfig :=
  with_reserved {[ "cpu" := "vcpus - 100" ]} ∅ empty_config.
Definition example_options : Options :=
  {| o_ClusterName := "cluster"; o_ClusterEndpoint := "https://cluster"; o_ClusterCIDR := None;
     o_InstanceProfile := "profile"; o_CABundle := None; o_InstanceStorePolicy := None;
     o_AMISelectorTerms := []; o_AMIs := example_status_amis; o_SecurityGroups := []; o_Tags := ∅;
     o_Labels := ∅; o_KubeDNSIP := None; o_AssociatePublicIPAddress := None; o_IPPrefixCount := None;
     o_NodeClassName := "default" |}.
Definition example_launch : LaunchParams :=
  {| lp_capacityType := "on-demand"; lp_tenancy := "default"; lp_placementGroupID := "";
     lp_partition := 0; lp_taints := []; lp_efaEnabled := false |}.
Definition example_node_types : list InstanceType :=
  [example_node_type "m5.large" "amd64" "2"; example_node_type "m6g.large" "arm64" "2";
   example_node_type "c5.large" "amd64" "2"].

Abbreviation example_resolver :=
  (Resolve (λ _, Ok example_parsed) example_Compile (λ _, IntType) Ok example_Eval (λ _, 0) (λ _, "")
     "us-iso-east-1" (λ _, None) true) (only parsing).
Definition example_resolve := example_resolver example_nodeclass example_launch example_node_types example_options.

Example example_resolve_templates :
  match example_resolve with
  | Some (_, Ok ts) => (λ t, (rt_AMIID t, Name <$> rt_InstanceTypes t)) <$> ts
  | _ => []
  end = [("ami-arm", ["m6g.large"]); ("ami-x86", ["m5.large"; "c5.large"])].
Proof. vm_compute. reflexivity. Qed.

Lemma Resolve_templates_witness :
  ∃ nc' ts, example_resolve = Some (nc', Ok ts) ∧ ts ≠ [] ∧
    nc' = after_template "us-iso-east-1" example_nodeclass ∧
    ∀ t, t ∈ ts → rt_InstanceTypes t ≠ [].
Proof.
  assert (match example_resolve with Some (_, Ok _) => true | _ => false end = true) as Hok
    by (vm_compute; reflexivity).
  destruct example_resolve as [[nc' [ts|e]]|] eqn:E; [|discriminate Hok|discriminate Hok].
  exists nc', ts. split; [reflexivity|]. unfold example_resolve in E.
  destruct (Resolve_templates (λ _, Ok example_parsed) example_Compile (λ _, IntType) Ok example_Eval
    (λ _, 0) (λ _, "") "us-iso-east-1" (λ _, None) true example_nodeclass example_launch
    example_node_types example_options nc' ts E) as (p & f & _ & _ & Hne & Hnc & _ & Ht).
  split; [exact Hne|]. split; [exact Hnc|]. intros t Hin. exact (proj1 (Ht t Hin)).
Defined.

(** The negative expression of the NodeClass reaches the node. *)
Definition example_key : result error launchTemplateParams :=
  paramsForInstanceType example_Compile (λ _, IntType) Ok example_Eval (λ _, 0) (λ _, None) true
    "on-demand" false example_parsed (example_node_type "m5.large" "amd64" "2").

Lemma reserved_on_node_witness :
  match example_key with
  | Ok p => KubeReserved (kubelet_config example_options p example_parsed ∅).1 = {[ "cpu" := "vcpus - 100" ]}
  | Err _ => False
  end.
Proof.
  destruct example_key as [p|e] eqn:E; [|vm_compute in E; discriminate E].
  destruct (reserved_on_node example_Compile (λ _, IntType) Ok example_Eval (λ _, 0) (λ _, None) true
    example_options {| lp_capacityType := "on-demand"; lp_tenancy := ""; lp_placementGroupID := "";
                       lp_partition := 0; lp_taints := []; lp_efaEnabled := false |}
    example_parsed ∅ (example_node_type "m5.large" "amd64" "2") p E) as (kube & system & Hk & Hs & Hcfg).
  assert (kube = ∅) as -> by (vm_compute in Hk; by injection Hk as <-).
  assert (system = ∅) as -> by (vm_compute in Hs; by injection Hs as <-).
  specialize (Hcfg (map_Forall_empty _) (map_Forall_empty _)).
  destruct (kubelet_config example_options p example_parsed ∅) as [cfg raw']. exact (proj1 Hcfg).
Defined.
End example.
