(* ===== verification/PlacementGroup.v ===== *)
(** * [pkg/providers/placementgroup]: placement groups

    [provider.go] and [types.go].  [Get] resolves the placement group a NodeClass selects
    through two caches: the lookup cache says that the answer is recent, the availability
    cache holds the last group that EC2 described.  The read-locked fast path and the
    write-locked slow path run the same check, so a call is one step.  EC2 and the hash of a
    query are parameters; the describe calls made are counted. *)
From S2P Require Import Prelude GoCache AwsErrors ApiV1 CapacityReservation Compatibility.

#[export] Instance PlacementGroup_eq_dec : EqDecision PlacementGroup.
Proof. solve_decision. Defined.

(** [ec2types.PlacementGroup] *)
Record EC2PlacementGroup := {
  epg_GroupId : option string;
  epg_GroupName : option string;
  epg_PartitionCount : option Z;
  epg_SpreadLevel : string;
  epg_Strategy : string;
}.

Definition PlacementGroupFromEC2 (pg : EC2PlacementGroup) : PlacementGroup :=
  {| pg_ID := default "" (epg_GroupId pg); pg_Name := default "" (epg_GroupName pg);
     pg_PartitionCount := default 0 (epg_PartitionCount pg);
     pg_SpreadLevel := epg_SpreadLevel pg; pg_Strategy := epg_Strategy pg |}.

Record DescribePlacementGroupsInput_ := {
  dpi_Filters : list Filter;
  dpi_GroupIds : list string;
  dpi_GroupNames : list string;
}.

(** A query is a selector term. *)
Definition DescribePlacementGroupsInput (q : PlacementGroupSelector) : DescribePlacementGroupsInput_ :=
  let id := default "" (pgs_ID q) in
  let name := default "" (pgs_Name q) in
  {| dpi_Filters := [{| f_Name := "state"; f_Values := ["available"] |}];
     dpi_GroupIds := if decide (id ≠ "") then [id] else [];
     dpi_GroupNames := if decide (id ≠ "") then [] else if decide (name ≠ "") then [name] else [] |}.

Section provider.
Context {CL CA : Type} `{GoCache unit CL} `{GoCache PlacementGroup CA}.

Record PGProvider := {
  pgCache : CL;
  pgAvailabilityCache : CA;
  pg_calls : nat;
}.

(** The hash of the query. *)
Variable CacheKey : PlacementGroupSelector → string.
Variable now : Z.
Variable DescribePlacementGroups : DescribePlacementGroupsInput_ → result error (list EC2PlacementGroup).

(** The outer option is the found flag. *)
Definition getCached (key : string) (p : PGProvider) : option (option PlacementGroup) :=
  match GoCache.Get (pgCache p) now key with
  | Some _ => Some (GoCache.Get (pgAvailabilityCache p) now key)
  | None => None
  end.

(** The group and the error are both returned. *)
Definition Get_ (selector : option PlacementGroupSelector) (p : PGProvider) :
    PGProvider * (option PlacementGroup * option error) :=
  match selector with
  | None => (p, (None, None))
  | Some q =>
      let key := CacheKey q in
      match getCached key p with
      | Some pg => (p, (pg, None))
      | None =>
          let calls := S (pg_calls p) in
          match DescribePlacementGroups (DescribePlacementGroupsInput q) with
          | Err e =>
              ({| pgCache := pgCache p; pgAvailabilityCache := pgAvailabilityCache p; pg_calls := calls |},
               (GoCache.Get (pgAvailabilityCache p) now key,
                Some (wrap "describing placement groups" e)))
          | Ok [] =>
              ({| pgCache := SetDefault (pgCache p) now key tt;
                  pgAvailabilityCache := pgAvailabilityCache p; pg_calls := calls |}, (None, None))
          | Ok (pg :: _) =>
              let resolved := PlacementGroupFromEC2 pg in
              ({| pgCache := SetDefault (pgCache p) now key tt;
                  pgAvailabilityCache := SetDefault (pgAvailabilityCache p) now key resolved;
                  pg_calls := calls |}, (Some resolved, None))
          end
      end
  end.
End provider.
Arguments PGProvider : clear implicits.

(** ** Properties *)

Section properties.
Context {CL CA : Type} `{GoCacheLaws unit CL} `{GoCacheLaws PlacementGroup CA}.
Variable CacheKey : PlacementGroupSelector → string.
Abbreviation get t ec2 q p := (Get_ CacheKey t ec2 (Some q) p).

(** The provider after it described [g]. *)
Definition described (t : Z) (key : string) (g : EC2PlacementGroup) (p : PGProvider CL CA) : PGProvider CL CA :=
  {| pgCache := SetDefault (pgCache p) t key tt;
     pgAvailabilityCache := SetDefault (pgAvailabilityCache p) t key (PlacementGroupFromEC2 g);
     pg_calls := S (pg_calls p) |}.

(** The lifetimes of the two caches: lookups are forgotten before groups are. *)
Definition lifetimes (p : PGProvider CL CA) : Prop :=
  0 < defaultTTL (pgCache p) ∧ defaultTTL (pgCache p) ≤ defaultTTL (pgAvailabilityCache p).

Lemma Get_described p t q g gs ec2 :
  getCached t (CacheKey q) p = None → ec2 (DescribePlacementGroupsInput q) = Ok (g :: gs) →
  get t ec2 q p = (described t (CacheKey q) g p, (Some (PlacementGroupFromEC2 g), None)).
Proof. intros Hmiss Hg. unfold Get_. by rewrite Hmiss, Hg. Qed.

(** A described group is remembered.  When EC2 is asked and describes a group, [Get]
    returns it, and as long as the lookup is fresh every later [Get] for the same query
    returns it without a call, whatever EC2 would say. *)
Theorem Get_remembers p t t' q g gs ec2 ec2' :
  lifetimes p → getCached t (CacheKey q) p = None →
  ec2 (DescribePlacementGroupsInput q) = Ok (g :: gs) →
  t ≤ t' ≤ t + defaultTTL (pgCache p) →
  let p1 := (get t ec2 q p).1 in
  (get t ec2 q p).2 = (Some (PlacementGroupFromEC2 g), None) ∧ pg_calls p1 = S (pg_calls p) ∧
  get t' ec2' q p1 = (p1, (Some (PlacementGroupFromEC2 g), None)).
Proof.
  intros [Hl Hle] Hmiss Hg Ht. rewrite (Get_described _ _ _ _ _ _ Hmiss Hg). split_and!; [done..|].
  unfold Get_, getCached, described. simpl. rewrite !Get_SetDefault_eq by lia. by rewrite !decide_True by lia.
Qed.

(** A group that EC2 no longer describes comes back.  After a group was described, an
    empty answer makes [Get] return no group; but the availability cache still holds the
    old one, so the next [Get] within the lookup's lifetime returns the old group again. *)
Theorem Get_resurrects p t t1 t2 q g gs ec2 ec2' ec2'' :
  lifetimes p → getCached t (CacheKey q) p = None →
  ec2 (DescribePlacementGroupsInput q) = Ok (g :: gs) →
  ec2' (DescribePlacementGroupsInput q) = Ok [] →
  t + defaultTTL (pgCache p) < t1 → t1 ≤ t2 ≤ t1 + defaultTTL (pgCache p) →
  t2 ≤ t + defaultTTL (pgAvailabilityCache p) →
  let p1 := (get t ec2 q p).1 in
  let p2 := (get t1 ec2' q p1).1 in
  (get t1 ec2' q p1).2 = (None, None) ∧
  get t2 ec2'' q p2 = (p2, (Some (PlacementGroupFromEC2 g), None)).
Proof.
  intros [Hl Hle] Hmiss Hg He Ht1 Ht2 Ht. rewrite (Get_described _ _ _ _ _ _ Hmiss Hg).
  unfold Get_, getCached, described. simpl. rewrite (Get_SetDefault_eq (pgCache p)) by lia.
  rewrite decide_False by lia. rewrite He. split; [done|]. simpl.
  rewrite Get_SetDefault_eq by (rewrite SetDefault_ttl; lia).
  rewrite SetDefault_ttl, decide_True by lia.
  by rewrite Get_SetDefault_eq, decide_True by lia.
Qed.
End properties.

(** ** Concrete executions *)

Definition example_pg : EC2PlacementGroup :=
  {| epg_GroupId := Some "pg-1"; epg_GroupName := Some "training"; epg_PartitionCount := Some 3;
     epg_SpreadLevel := ""; epg_Strategy := StrategyPartition |}.
Definition example_selector : PlacementGroupSelector := {| pgs_Name := Some "training"; pgs_ID := None |}.
Definition example_key (q : PlacementGroupSelector) : string := default "" (pgs_ID q) +:+ default "" (pgs_Name q).
(** One minute and twenty-four hours. *)
Definition example_pgs : PGProvider (RefCache.t unit) (RefCache.t PlacementGroup) :=
  {| pgCache := New Minute; pgAvailabilityCache := New (24 * Hour); pg_calls := 0 |}.
Definition ec2_has (_ : DescribePlacementGroupsInput_) : result error (list EC2PlacementGroup) := Ok [example_pg].
Definition ec2_empty (_ : DescribePlacementGroupsInput_) : result error (list EC2PlacementGroup) := Ok [].

Lemma Get_remembers_witness :
  pg_calls (Get_ example_key 0 ec2_has (Some example_selector) example_pgs).1 = 1%nat ∧
  (Get_ example_key (30 * Second) ec2_empty (Some example_selector)
     (Get_ example_key 0 ec2_has (Some example_selector) example_pgs).1).2
  = (Some (PlacementGroupFromEC2 example_pg), None).
Proof.
  destruct (Get_remembers example_key example_pgs 0 (30 * Second) example_selector example_pg []
              ec2_has ec2_empty) as (_ & Hc & Hg); [by split|done|done|by split|].
  split; [exact Hc|]. exact (f_equal snd Hg).
Defined.

Lemma Get_resurrects_witness :
  (Get_ example_key (2 * Minute + Second) ec2_empty (Some example_selector)
     (Get_ example_key (2 * Minute) ec2_empty (Some example_selector)
        (Get_ example_key 0 ec2_has (Some example_selector) example_pgs).1).1).2
  = (Some (PlacementGroupFromEC2 example_pg), None).
Proof.
  destruct (Get_resurrects example_key example_pgs 0 (2 * Minute) (2 * Minute + Second) example_selector
              example_pg [] ec2_has ec2_empty ec2_empty) as [_ Hg]; [by split|done|done|done|done|by split|done|].
  exact (f_equal snd Hg).
Defined.
