(* ===== verification/Utils.v ===== *)
(** * [pkg/utils]: provider IDs, tags and text

    [utils.go]: parsing the instance ID out of a provider ID, merging and checking tags,
    and shortening a list for a message.  The regular expressions are written out as
    functions on strings; Go's map iteration order is that of [map_to_list]. *)
From S2P Require Import Prelude GoStd AwsErrors ApiV1.

(** ** Provider IDs *)

Definition slash : ascii := "/"%char.
Definition newline : ascii := "010"%char.

(** The text after the first occurrence of [sep]. *)
Fixpoint after (s sep : string) : option string :=
  match CutPrefix s sep with
  | Some r => Some r
  | None => match s with EmptyString => None | String _ s' => after s' sep end
  end.

(** The text after the last occurrence of a character. *)
Fixpoint after_last (s : string) (c : ascii) : option string :=
  match s with
  | EmptyString => None
  | String a s' =>
      match after_last s' c with
      | Some t => Some t
      | None => if decide (a = c) then Some s' else None
      end
  end.

(** [instanceIDRegex] on one line: a provider, [:///], a zone, a slash and the instance ID.
    The groups are greedy, so the last one is what follows the last slash. *)
Definition match_instance_id (line : string) : option string :=
  rest ← after line ":///"; after_last rest slash.

(** The dot does not match a newline, so the leftmost match is in the first line that has
    one. *)
Definition ParseInstanceID (providerID : string) : result error string :=
  match head (omap match_instance_id (Split providerID newline)) with
  | Some id => Ok id
  | None => Err (errorf "provider id does not match known format")
  end.

(** ** Tags *)

(** [EC2MergeTags] and [IAMMergeTags]: [lo.Assign], where later maps win, as a list. *)
Definition Assign (maps : list (gmap string string)) : gmap string string :=
  foldl (λ acc m, m ∪ acc) ∅ maps.
Definition EC2MergeTags (tags : list (gmap string string)) : list (string * string) :=
  map_to_list (Assign tags).

Definition alphanumeric (c : ascii) : bool :=
  let n := Z.of_nat (Ascii.nat_of_ascii c) in
  bool_decide (48 ≤ n ≤ 57 ∨ 65 ≤ n ≤ 90 ∨ 97 ≤ n ≤ 122).
Fixpoint all_chars (p : ascii → bool) (s : string) : bool :=
  match s with EmptyString => true | String c s' => p c && all_chars p s' end.

(** The cluster pattern: the prefix, one alphanumeric character, and then alphanumeric
    characters, dashes and underscores. *)
Definition cluster_tag (key : string) : bool :=
  match CutPrefix key "kubernetes.io/cluster/" with
  | Some (String c s) =>
      alphanumeric c && all_chars (λ a, alphanumeric a || bool_decide (a = "-" ∨ a = "_")%char) s
  | _ => false
  end.

Definition NodePoolLabelKey := "karpenter.sh/nodepool".
Definition NodePoolTagKey := NodePoolLabelKey.
Definition NodeClaimTagKey := "karpenter.sh/nodeclaim".
Definition NameTagKey := "Name".
Definition NodeClassTagKey := LabelNodeClass.

(** Some pattern of [RestrictedTagPatterns] matches. *)
Definition restricted_tag (key : string) : bool :=
  cluster_tag key
  || bool_decide (key ∈ [NodePoolTagKey; EKSClusterNameTagKey; NodeClassTagKey; NodeClaimTagKey]).

Definition static_tags (nodePool nodeClass clusterName : string) : gmap string string :=
  <[LabelNodeClass := nodeClass]>
    (<[EKSClusterNameTagKey := clusterName]>
      (<[NodePoolLabelKey := nodePool]> {[ "kubernetes.io/cluster/" +:+ clusterName := "owned" ]})).

(** [GetTags]; [nodePool] is the NodeClaim's NodePool label. *)
Definition GetTags {Quantity} (nc : EC2NodeClass Quantity) (nodePool clusterName : string) :
    result error (gmap string string) :=
  if decide (filter (λ kv, restricted_tag kv.1 = true) (map_to_list (Tags (Spec nc))) ≠ []) then
    Err (errorf "tags failed validation requirements")
  else Ok (Assign [Tags (Spec nc); static_tags nodePool (nc_Name nc) clusterName]).

(** ** Messages *)

(** The loop of [PrettySlice] from index [i]. *)
Fixpoint pretty_from (maxItems i len : Z) (s : list string) : string :=
  match s with
  | [] => ""
  | elem :: s' =>
      if decide (maxItems - 1 < i) then " and " +:+ fmt_int (len - i) +:+ " other(s)"
      else (if decide (0 < i) then ", " else "") +:+ elem +:+ pretty_from maxItems (i + 1) len s'
  end.
Definition PrettySlice (s : list string) (maxItems : Z) : string :=
  pretty_from maxItems 0 (Z.of_nat (length s)) s.

(** ** Properties *)

Lemma CutPrefix_spec s prefix r : CutPrefix s prefix = Some r ↔ s = prefix +:+ r.
Proof.
  revert s. induction prefix as [|p prefix IH]; intros s; [change ("" +:+ r) with r; destruct s; simpl; split; congruence|].
  destruct s as [|c s]; [done|]. rewrite string_app_cons. simpl.
  destruct (decide (c = p)) as [->|Hc].
  - rewrite IH. split; [by intros ->|by intros [= ->]].
  - split; [done|by intros [= ? ?]].
Qed.

Lemma after_unfold s sep :
  after s sep = match CutPrefix s sep with
                | Some r => Some r
                | None => match s with EmptyString => None | String _ s' => after s' sep end
                end.
Proof. by destruct s. Qed.

Lemma after_Some s sep r : after s sep = Some r → ∃ p, s = p +:+ (sep +:+ r).
Proof.
  induction s as [|c s IH]; rewrite after_unfold; destruct (CutPrefix _ sep) eqn:E; intros Hr; simplify_eq.
  - exists "". by apply CutPrefix_spec in E.
  - exists "". by apply CutPrefix_spec in E.
  - destruct (IH Hr) as [p ->]. by exists (String c p).
Qed.

Lemma string_app_suffix a b t r :
  a +:+ t = b +:+ r → (String.length a ≤ String.length b)%nat → ∃ q, t = q +:+ r.
Proof.
  revert b. induction a as [|c a IH]; intros b Heq Hlen; [by exists b|].
  destruct b as [|d b]; simpl in Hlen; [lia|]. rewrite !string_app_cons in Heq.
  apply (IH b); [by simplify_eq|lia].
Qed.

Lemma length_app (s t : string) : String.length (s +:+ t) = (String.length s + String.length t)%nat.
Proof. induction s as [|c s IH]; [done|]. rewrite string_app_cons. simpl. by rewrite IH. Qed.

(** The first occurrence leaves at least what any occurrence leaves. *)
Lemma after_app p sep r : ∃ q, after (p +:+ (sep +:+ r)) sep = Some (q +:+ r).
Proof.
  induction p as [|c p [q IH]]; rewrite after_unfold.
  - exists "". change ("" +:+ (sep +:+ r)) with (sep +:+ r).
    by rewrite (proj2 (CutPrefix_spec (sep +:+ r) sep r) eq_refl).
  - destruct (CutPrefix _ sep) as [t|] eqn:E; [|by exists q].
    apply CutPrefix_spec in E. rewrite string_app_assoc in E.
    assert (∃ q, t = q +:+ r) as [q' ->]; [|by exists q'].
    eapply string_app_suffix; [by symmetry|]. rewrite length_app. lia.
Qed.

Lemma after_last_spec s c t : after_last s c = Some t ↔ ∃ z, s = z +:+ String c t ∧ free_of c t.
Proof.
  revert t. induction s as [|a s IH]; intros t; simpl.
  - split; [done|]. by intros ([|? z] & ? & _).
  - assert (after_last s c = None ↔ free_of c s) as Hnone.
    { clear. induction s as [|a s IH]; simpl; [done|]. destruct (after_last s c).
      - split; [done|]. intros [_ ?]. by apply IH.
      - case_decide; naive_solver. }
    destruct (after_last s c) as [t'|] eqn:E.
    + split.
      * intros [= <-]. destruct (proj1 (IH t') eq_refl) as (z & -> & Hf). exists (String a z).
        by rewrite string_app_cons.
      * intros ([|b z] & Hs & Hf).
        -- injection Hs as -> ->. by apply Hnone in Hf.
        -- rewrite string_app_cons in Hs. simplify_eq. apply (IH t). by exists z.
    + case_decide as Ha.
      * subst. split; [intros [= <-]; exists ""; split; [done|by apply Hnone]|].
        intros ([|b z] & Hs & Hf); [by injection Hs as ->|]. rewrite string_app_cons in Hs. simplify_eq.
        assert (None = Some t) by (apply IH; by exists z). done.
      * split; [done|]. intros ([|b z] & Hs & Hf); [by injection Hs as ? _|].
        rewrite string_app_cons in Hs. simplify_eq.
        assert (None = Some t) by (apply IH; by exists z). done.
Qed.

Lemma match_instance_id_spec line id :
  match_instance_id line = Some id ↔
  ∃ p z, line = p +:+ (":///" +:+ (z +:+ String slash id)) ∧ free_of slash id.
Proof.
  unfold match_instance_id. rewrite bind_Some. split.
  - intros (r & [p ->]%after_Some & (z & -> & Hf)%after_last_spec). by exists p, z.
  - intros (p & z & -> & Hf). destruct (after_app p ":///" (z +:+ String slash id)) as [q Hq].
    eexists. split; [exact Hq|]. apply after_last_spec. exists (q +:+ z).
    by rewrite string_app_assoc.
Qed.

(** Which provider IDs parse.  A provider ID of one line parses to [id] exactly when it
    is some text, [:///], some text, a slash and [id], with no slash in [id]. *)
Lemma ParseInstanceID_spec s id :
  free_of newline s →
  ParseInstanceID s = Ok id ↔
  ∃ provider zone, s = provider +:+ ":///" +:+ zone +:+ "/" +:+ id ∧ free_of slash id.
Proof.
  intros Hs. unfold ParseInstanceID. rewrite Split_free by done. simpl.
  pose proof (match_instance_id_spec s id) as Hm.
  assert (∀ p z, p +:+ (":///" +:+ (z +:+ String slash id)) = p +:+ ":///" +:+ z +:+ "/" +:+ id) as Heq.
  { intros p z. done. }
  destruct (match_instance_id s) as [id'|] eqn:E; simpl.
  - split; [intros [= ->]; by apply Hm|]. intros H%Hm. congruence.
  - split; [done|]. intros H%Hm. done.
Qed.
