(* ===== verification/Offerings.v ===== *)
(** * [pkg/providers/instancetype/offering]: the offerings of an instance type

    [offering.go] and its three resolvers: [BaseResolver] (on-demand and spot offerings,
    cached per instance type and NodeClass), [ReservedCapacityResolver] and
    [PlacementGroupResolver].  Prices, zonal shifts and the structural hashes of the cache
    key are parameters.  A resolver returns [None] for a panic.  The order of set
    iterations is that of [elements]. *)
From S2P Require Import Prelude GoCache ApiV1 UnavailableOfferings Compatibility.
From S2P Require Import Scheduling Filters.

Definition LabelTopologyZoneID := "topology.k8s.aws/zone-id".
Definition LabelPlacementGroupID := "karpenter.k8s.aws/placement-group-id".
Definition LabelPlacementGroupPartition := "karpenter.k8s.aws/placement-group-partition".

(** ** The cache key *)

Definition hex_digit (n : Z) : ascii :=
  Ascii.ascii_of_nat (Z.to_nat (if decide (n < 10) then 48 + n else 87 + n)).

(** [fmt.Sprintf("%016x", n)] of a [uint64]. *)
Fixpoint hex_digits (k : nat) (n : Z) : string :=
  match k with
  | O => ""
  | S k' => hex_digits k' (n / 16) +:+ String (hex_digit (n mod 16)) ""
  end.
Definition hex016 (n : Z) : string := hex_digits 16 n.

(** What the offerings of a NodeClass depend on, and what the key is built from. *)
Record NodeClassOfferings := {
  nco_view : NodeClassView;
  nco_ZoneInfo : list ZoneInfo_;
  nco_CapacityReservations : list CapacityReservation;
}.

Section key.
(** [hashstructure.Hash] on network interfaces, on sets of strings, on booleans and on
    strings. *)
Variable hash_interfaces : option (list NetworkInterface) → Z.
Variable hash_set : gset string → Z.
Variable hash_bool : bool → Z.
Variable hash_string : string → Z.

Definition nestedVirtualizationEnabled (nc : NodeClassView) : bool :=
  bool_decide (nv_NestedVirtualization nc = Some "enabled").

Definition newCacheKeyBuilder (nc : NodeClassOfferings) (shiftedZones : gset string)
    (pg : option PlacementGroup) : string :=
  let v := nco_view nc in
  let subnets := nco_ZoneInfo nc ≫= zi_SubnetIDs in
  hex016 (hash_interfaces (nv_NetworkInterfaces v)) +:+ "-" +:+
  hex016 (hash_set (list_to_set subnets)) +:+ "-" +:+
  hex016 (hash_set shiftedZones) +:+ "-" +:+
  hex016 (hash_bool (nv_ConnectionTracking v)) +:+ "-" +:+
  hex016 (hash_bool (nv_EnclavesEnabled v)) +:+ "-" +:+
  hex016 (hash_bool (nestedVirtualizationEnabled v)) +:+ "-" +:+
  hex016 (match pg with Some g => hash_string (pg_ID g) | None => 0 end).

(** The hash of the capacity types, whether or not it is one of the pre-computed ones. *)
Definition cacheKeyFromInstanceType (baseSuffix : string) (name : string)
    (zones capacityTypes : list string) : string :=
  name +:+ "-" +:+ hex016 (hash_set (list_to_set zones)) +:+ "-" +:+
  hex016 (hash_set (list_to_set capacityTypes)) +:+ "-" +:+ baseSuffix.
End key.

(** ** The resolvers *)

Section resolvers.
Context `{S : Scheduling}.
Context {CU CO : Type} `{GoCache unit CU} `{GoCache (list Offering) CO}.

(** The mutable state of [BaseResolver]. *)
Record BaseResolver := {
  Cache : CO;
  LastUnavailableOfferingsSeqNum : gmap string Z;
}.

(** The environment of one [InjectOfferings] call. *)
Record Env := {
  env_now : Z;
  env_unavailable : UnavailableOfferings CU;
  env_OnDemandPrice : string → option float64;
  env_SpotPrice : string → string → option float64;
  env_OverlayPrice : string → option float64;
  env_IsZonalShifted : string → bool;
  env_AvailableInstanceCount : string → Z;
  env_ReservedCapacity : bool;                 (* the feature gate *)
}.

Definition zonal_info (zoneInfo : list ZoneInfo_) (zone : string) : option ZoneInfo_ :=
  Find (λ i, bool_decide (zi_Zone i = zone)) zoneInfo.

Definition zonal_shifted (env : Env) (zoneInfo : list ZoneInfo_) (zone : string) : bool :=
  match zonal_info zoneInfo zone with
  | Some i => env_IsZonalShifted env (zi_ZoneID i)
  | None => false
  end.

Definition zonal_subnets (zoneInfo : list ZoneInfo_) (zone : string) : list string :=
  match zonal_info zoneInfo zone with Some i => zi_SubnetIDs i | None => [] end.

(** Unavailable in general or, in a placement group, for the group. *)
Definition base_unavailable (env : Env) (name zone : string) (subnetIDs : list string)
    (capacityType : string) (pg : option PlacementGroup) : bool :=
  IsUnavailable (env_unavailable env) (env_now env) name zone subnetIDs capacityType []
  || match pg with
     | Some g => IsUnavailable (env_unavailable env) (env_now env) name zone subnetIDs capacityType
                   [WithPlacementGroup (pg_ID g)]
     | None => false
     end.

(** The price of an offering, with the overlay price as a fallback: [None] for a panic, and
    [Some None] for no price. *)
Definition base_price (env : Env) (name zone capacityType : string) : option (option float64) :=
  price ← (if decide (capacityType = CapacityTypeOnDemand) then Some (env_OnDemandPrice env name)
           else if decide (capacityType = CapacityTypeSpot) then Some (env_SpotPrice env name zone)
           else None);
  Some (match price with Some x => Some x | None => env_OverlayPrice env name end).

(** The capacity types the loop skips. *)
Definition base_skips (capacityType : string) : bool :=
  bool_decide (capacityType = CapacityTypeReserved)
  || (negb (builtInCapacityType capacityType) && bool_decide (capacityType ∈ OnDemandCapacityTypes)).

Definition zone_id_requirement (zoneInfo : list ZoneInfo_) (zone : string) (reqs : Requirements) :
    Requirements :=
  match zonal_info zoneInfo zone with
  | Some i => AddIn reqs LabelTopologyZoneID [zi_ZoneID i]
  | None => reqs
  end.

Definition base_offering (env : Env) (it : InstanceType) (compat : bool) (zoneInfo : list ZoneInfo_)
    (pg : option PlacementGroup) (zone capacityType : string) : option Offering :=
  price ← base_price env (Name it) zone capacityType;
  Some {| off_Requirements :=
            zone_id_requirement zoneInfo zone
              (NewRequirements [(CapacityTypeLabelKey, [capacityType]); (LabelTopologyZone, [zone])]
                 [ReservationIDLabel; LabelCapacityReservationType; LabelCapacityReservationInterruptible]);
          Price := default 0 price;
          Available :=
            compat
            && negb (base_unavailable env (Name it) zone (zonal_subnets zoneInfo zone) capacityType pg)
            && bool_decide (is_Some price)
            && bool_decide (zone ∈ req_Values (Scheduling.Get (it_Requirements it) LabelTopologyZone))
            && negb (zonal_shifted env zoneInfo zone);
          ReservationCapacity := 0 |}.

(** The capacity types the base resolver builds offerings for, in order. *)
Definition base_capacity_types (it : InstanceType) : list string :=
  filter (λ ct, base_skips ct = false)
    (req_Values (Scheduling.Get (it_Requirements it) CapacityTypeLabelKey)).

(** The offerings computed on a miss. *)
Definition compute_offerings (env : Env) (it : InstanceType) (info : InstanceTypeInfo)
    (nc : NodeClassOfferings) (allZones : gset string) (pg : option PlacementGroup) :
    option (list Offering) :=
  let compat := IsCompatibleWithNodeClass info (nco_view nc) pg in
  mapM (λ zc, base_offering env it compat (nco_ZoneInfo nc) pg zc.1 zc.2)
    (zone ← elements allZones; pair zone <$> base_capacity_types it).

(** [BaseResolver.ResolveOfferings], for the cache key of the instance type. *)
Definition base_resolve (env : Env) (cacheKey : string) (it : InstanceType)
    (offerings : list Offering) (info : InstanceTypeInfo) (nc : NodeClassOfferings)
    (allZones : gset string) (pg : option PlacementGroup) (r : BaseResolver) :
    option (BaseResolver * list Offering) :=
  let seqNum := SeqNum (env_unavailable env) (Name it) in
  let miss :=
    computed ← compute_offerings env it info nc allZones pg;
    Some ({| Cache := SetDefault (Cache r) (env_now env) cacheKey computed;
             LastUnavailableOfferingsSeqNum :=
               <[Name it := seqNum]> (LastUnavailableOfferingsSeqNum r) |},
          offerings ++ computed) in
  match GoCache.Get (Cache r) (env_now env) cacheKey with
  | Some ofs =>
      (* a missing sequence number is the int 0, which equals no uint64 *)
      if decide (LastUnavailableOfferingsSeqNum r !! Name it = Some seqNum)
      then Some (r, offerings ++ ofs) else miss
  | None => miss
  end.

(** [ReservedCapacityResolver.ResolveOfferings] *)
Definition reserved_offering (env : Env) (it : InstanceType) (compat : bool)
    (zoneInfo : list ZoneInfo_) (cr : CapacityReservation) : Offering :=
  let zone := cr_AvailabilityZone cr in
  {| off_Requirements :=
       zone_id_requirement zoneInfo zone
         (NewRequirements
            [(CapacityTypeLabelKey, [CapacityTypeReserved]); (LabelTopologyZone, [zone]);
             (ReservationIDLabel, [cr_ID cr]);
             (LabelCapacityReservationType, [cr_ReservationType cr]);
             (LabelCapacityReservationInterruptible, [fmt_bool (cr_Interruptible cr)])] []);
     Price := match env_OnDemandPrice env (Name it) with
              | Some od => float64_div od 10_000_000
              | None => 0
              end;
     Available :=
       compat
       && bool_decide (zone ∈ req_Values (Scheduling.Get (it_Requirements it) LabelTopologyZone))
       && bool_decide (cr_State cr ≠ CapacityReservationStateExpiring)
       && negb (zonal_shifted env zoneInfo zone)
       && negb (IsUnavailable (env_unavailable env) (env_now env) (Name it) zone []
                  CapacityTypeReserved [WithReservationID (cr_ID cr)]);
     ReservationCapacity := env_AvailableInstanceCount env (cr_ID cr) |}.

Definition reserved_resolve (env : Env) (it : InstanceType) (offerings : list Offering)
    (info : InstanceTypeInfo) (nc : NodeClassOfferings) (pg : option PlacementGroup) :
    list Offering :=
  if negb (env_ReservedCapacity env) then offerings
  else
    let compat := IsCompatibleWithNodeClass info (nco_view nc) pg in
    offerings ++ (reserved_offering env it compat (nco_ZoneInfo nc) <$>
      filter (λ cr, cr_InstanceType cr = Name it) (nco_CapacityReservations nc)).

(** [PlacementGroupResolver.ResolveOfferings] *)
Definition partition_offering (o : Offering) (partition : Z) : Offering :=
  {| off_Requirements := AddIn (off_Requirements o) LabelPlacementGroupPartition [fmt_int partition];
     Price := Price o; Available := Available o; ReservationCapacity := ReservationCapacity o |}.

Definition placement_group_resolve (offerings : list Offering) (pg : option PlacementGroup) :
    list Offering :=
  match pg with
  | None => offerings
  | Some g =>
      if decide (pg_Strategy g ≠ StrategyPartition) then offerings
      else if decide (pg_PartitionCount g ≤ 0) then offerings
      else o ← offerings; partition_offering o <$> seqZ 1 (pg_PartitionCount g)
  end.

(** One instance type in [InjectOfferings]: the three resolvers in order, and the placement
    group requirements. *)
Definition inject_requirements (reqs : Requirements) (pg : option PlacementGroup) : Requirements :=
  match pg with
  | None => reqs
  | Some g =>
      let reqs := AddIn reqs LabelPlacementGroupID [pg_ID g] in
      if bool_decide (pg_Strategy g = StrategyPartition) && bool_decide (0 < pg_PartitionCount g)
      then AddIn reqs LabelPlacementGroupPartition (fmt_int <$> seqZ 1 (pg_PartitionCount g))
      else reqs
  end.

Definition inject_one (env : Env) (cacheKey : string) (it : InstanceType) (info : InstanceTypeInfo)
    (nc : NodeClassOfferings) (allZones : gset string) (pg : option PlacementGroup)
    (r : BaseResolver) : option (BaseResolver * InstanceType) :=
  '(r, offerings) ← base_resolve env cacheKey it [] info nc allZones pg r;
  let offerings := reserved_resolve env it offerings info nc pg in
  let offerings := placement_group_resolve offerings pg in
  Some (r, {| Name := Name it; it_Requirements := inject_requirements (it_Requirements it) pg;
              Offerings := offerings; Capacity := Capacity it |}).
End resolvers.

(** ** Properties *)

Section properties.
Context `{S : Scheduling}.
Context {CU CO : Type} `{GoCacheLaws unit CU} `{GoCacheLaws (list Offering) CO}.
Implicit Types (r : BaseResolver (CO := CO)) (env : Env (CU := CU)).

Lemma elem_of_computed env it info nc zones pg ofs o :
  compute_offerings env it info nc zones pg = Some ofs → o ∈ ofs →
  ∃ zone ct, zone ∈ zones ∧ ct ∈ base_capacity_types it ∧
    base_offering env it (IsCompatibleWithNodeClass info (nco_view nc) pg) (nco_ZoneInfo nc) pg zone ct
      = Some o.
Proof.
  intros Hc%mapM_Some Ho. destruct (Forall2_elem_r _ _ _ _ Hc Ho) as ([zone ct] & Hin & Hb).
  apply list_elem_of_bind in Hin as (z & Hct & Hz).
  apply list_elem_of_fmap in Hct as (ct' & [= -> ->] & Hct). apply elem_of_elements in Hz.
  by exists z, ct'.
Qed.

(** What [Available] of a base offering says. *)
Lemma base_offering_available env it compat zoneInfo pg zone ct o :
  base_offering env it compat zoneInfo pg zone ct = Some o → Available o = true →
  compat = true ∧ base_unavailable env (Name it) zone (zonal_subnets zoneInfo zone) ct pg = false ∧
  zone ∈ req_Values (Scheduling.Get (it_Requirements it) LabelTopologyZone) ∧
  zonal_shifted env zoneInfo zone = false.
Proof.
  unfold base_offering. intros (price & _ & [= <-])%bind_Some. simpl.
  rewrite !andb_true_iff, !negb_true_iff, !bool_decide_eq_true. tauto.
Qed.

Lemma found_mono (c : CU) t t' k : t ≤ t' → found c t' k = true → found c t k = true.
Proof.
  unfold found. rewrite !bool_decide_eq_true. intros Ht Hs. destruct (GoCache.Get c t k) eqn:E; [done|].
  rewrite (Get_mono _ _ _ _ Ht E) in Hs. by destruct Hs.
Qed.

(** Time only makes offerings available again. *)
Lemma IsUnavailable_mono (u : UnavailableOfferings CU) t t' it z subs ct opts :
  t ≤ t' → IsUnavailable u t' it z subs ct opts = true → IsUnavailable u t it z subs ct opts = true.
Proof.
  intros Ht. unfold IsUnavailable. rewrite !orb_true_iff, !andb_true_iff, !forallb_forall.
  intros [[?|?]|[Hall ?]].
  - left; left. by eapply found_mono.
  - left; right. by eapply found_mono.
  - right. split; [|done]. intros s Hs. eapply found_mono; [done|]. by apply Hall.
Qed.

(** The ICE cache of [env2] is reached from that of [env1] with fewer than [2^64] changes
    concerning the instance type, none of them outstanding. *)
Definition later env1 env2 (name : string) : Prop :=
  ∃ ps1 fs ps2 t, run (env_unavailable env1, ps1) fs t (env_unavailable env2, ps2) ∧
    t ≤ env_now env2 ∧ env_now env1 ≤ env_now env2 ∧ count_concerning name fs < 2 ^ 64 ∧
    Forall (λ b, concerns name b = false) ps2.

(** Names without the separator, as EC2's are. *)
Definition plain_names (it : InstanceType) (zones : gset string) (pg : option PlacementGroup) : Prop :=
  ∀ zone ct, zone ∈ zones → ct ∈ base_capacity_types it →
    plain (Name it) zone ct [] ∧
    ∀ g, pg = Some g → plain (Name it) zone ct [WithPlacementGroup (pg_ID g)].

Lemma base_unavailable_later env1 env2 it zones pg zone ct subs :
  later env1 env2 (Name it) → plain_names it zones pg →
  SeqNum (env_unavailable env2) (Name it) = SeqNum (env_unavailable env1) (Name it) →
  zone ∈ zones → ct ∈ base_capacity_types it →
  base_unavailable env1 (Name it) zone subs ct pg = false →
  base_unavailable env2 (Name it) zone subs ct pg = false.
Proof.
  intros (ps1 & fs & ps2 & t & Hrun & Ht2 & Ht & Hcount & Hps) Hplain Hseq Hz Hct.
  destruct (Hplain zone ct Hz Hct) as [Hp1 Hp2].
  assert (∀ opts, plain (Name it) zone ct opts →
    IsUnavailable (env_unavailable env1) (env_now env1) (Name it) zone subs ct opts = false →
    IsUnavailable (env_unavailable env2) (env_now env2) (Name it) zone subs ct opts = false) as Hopts.
  { intros opts Hpl Hf. destruct (IsUnavailable (env_unavailable env2) _ _ _ _ _ _) eqn:E; [|done].
    pose proof (SeqNum_same_reads _ _ _ _ (env_now env2) (Name it) Hrun Ht2 Hcount Hseq Hps
      zone subs ct opts Hpl) as Hsame. simpl in Hsame. rewrite Hsame in E.
    by rewrite (IsUnavailable_mono _ _ _ _ _ _ _ _ Ht E) in Hf. }
  unfold base_unavailable. rewrite !orb_false_iff. intros [Hg Hpg]. split; [by apply Hopts|].
  destruct pg as [g|]; [|done]. apply Hopts; [by apply Hp2|done].
Qed.

(** A resolution that missed the cache, and the state it leaves. *)
Lemma base_resolve_miss env key it pre info nc zones pg r r' out :
  base_resolve env key it pre info nc zones pg r = Some (r', out) →
  GoCache.Get (Cache r) (env_now env) key = None →
  ∃ ofs, compute_offerings env it info nc zones pg = Some ofs ∧ out = pre ++ ofs ∧
    Cache r' = SetDefault (Cache r) (env_now env) key ofs ∧
    LastUnavailableOfferingsSeqNum r' !! Name it = Some (SeqNum (env_unavailable env) (Name it)).
Proof.
  unfold base_resolve. intros Hr Hget. rewrite Hget in Hr.
  apply bind_Some in Hr as (ofs & Hc & [= <- <-]). exists ofs. split; [done|]. split; [done|].
  split; [done|]. simpl. by rewrite lookup_insert_eq.
Qed.

End properties.

(** ** Concrete resolutions *)

Section concrete.
Abbreviation U0 := (NewUnavailableOfferings (C := RefCache.t unit)).

Definition w_env (now : Z) (u : UnavailableOfferings (RefCache.t unit)) : Env (CU := RefCache.t unit) :=
  {| env_now := now; env_unavailable := u; env_OnDemandPrice := λ _, Some 100;
     env_SpotPrice := λ _ _, Some 30; env_OverlayPrice := λ _, None;
     env_IsZonalShifted := λ _, false; env_AvailableInstanceCount := λ _, 0;
     env_ReservedCapacity := true |}.

(** An a1 instance type with on-demand offerings in one zone. *)
Definition w_it : InstanceType :=
  {| Name := "a1.large";
     it_Requirements := list_to_map [(CapacityTypeLabelKey, ["on-demand"]); (LabelTopologyZone, ["z"])];
     Offerings := []; Capacity := ∅ |}.

Definition w_type_info : InstanceTypeInfo :=
  {| info_InstanceType := "a1.large"; info_NetworkInfo := None; info_ProcessorInfo := None;
     info_NitroEnclavesSupport := "supported"; info_SupportedStrategies := []; info_Hypervisor := "nitro";
     info_VCpuInfo := Some (Some 2); info_SizeInMiB := Some 4096; info_TotalSizeInGB := None;
     info_Gpus := []; info_NeuronDevices := None; info_MaximumEbsAttachments := None;
     info_EbsOptimizedSupport := "default"; info_EbsOptimizedInfo := None;
     info_SupportedUsageClasses := ["on-demand"; "spot"]; info_NvmeSupport := "unsupported"; info_Accelerators := [] |}.

(** NodeClasses by AMI family and Nitro enclaves. *)
Definition w_nodeclass (amiFamily : string) (enclaves : bool) : NodeClassOfferings :=
  {| nco_view := {| nv_NetworkInterfaces := None; nv_AMIFamily := amiFamily;
                    nv_ConnectionTracking := false; nv_NestedVirtualization := None;
                    nv_EnclavesEnabled := enclaves |};
     nco_ZoneInfo := []; nco_CapacityReservations := [] |}.

(** The key of the code, with injective stand-ins for the structural hash on these inputs. *)
Definition w_key (nc : NodeClassOfferings) : string :=
  cacheKeyFromInstanceType (λ s, Z.of_nat (size s))
    (newCacheKeyBuilder (λ _, 0) (λ s, Z.of_nat (size s)) (λ b, if b then 1 else 0) (λ _, 0)
       nc ∅ None) "a1.large" ["z"] ["on-demand"].

Definition w_resolve (env : Env (CU := RefCache.t unit)) (nc : NodeClassOfferings)
    (r : BaseResolver (CO := RefCache.t (list Offering))) :=
  default (r, []) (base_resolve env (w_key nc) w_it [] w_type_info nc {["z"]} None r).

(** Which of the offerings are available. *)
Definition availability (ofs : list Offering) : list bool := map Available ofs.

Definition w_resolver : BaseResolver (CO := RefCache.t (list Offering)) :=
  {| Cache := New InstanceTypesZonesAndOfferingsTTL; LastUnavailableOfferingsSeqNum := ∅ |}.

Definition w_marked : UnavailableOfferings (RefCache.t unit) :=
  MarkUnavailable U0 10 "a1.large" "z" "on-demand" [].

(** The offerings cache of one NodeClass can be revived by another.  Two NodeClasses
    with different cache keys resolve the same instance type: A, then an offering is
    marked unavailable, then B, then A again.  B's resolution stores the new sequence
    number for the instance type, so A's second resolution takes its old cache entry for
    current and returns the offering as available, although the ICE cache says otherwise
    and computing it afresh gives an unavailable offering. *)
Theorem base_resolve_revives_stale :
  let A := w_nodeclass "Bottlerocket" false in
  let B := w_nodeclass "Bottlerocket" true in
  let r1 := (w_resolve (w_env 5 U0) A w_resolver).1 in
  let r2 := (w_resolve (w_env 20 w_marked) B r1).1 in
  w_key A ≠ w_key B ∧
  availability (w_resolve (w_env 20 w_marked) A r2).2 = [true] ∧
  IsUnavailable w_marked 20 "a1.large" "z" [] "on-demand" [] = true ∧
  option_map availability (compute_offerings (w_env 20 w_marked) w_it w_type_info A {["z"]} None)
    = Some [false].
Proof. cbv zeta. split; [by vm_compute|]. split; [by vm_compute|]. split; by vm_compute. Qed.

(** The offerings cache ignores the AMI family.  Two NodeClasses that differ only in
    their AMI family have the same cache key, although compatibility depends on the
    family: after resolving a1.large for Bottlerocket, resolving it for AL2023 returns the
    cached, available offering, where computing it afresh gives an unavailable one. *)
Theorem base_resolve_ignores_ami_family :
  let A := w_nodeclass "Bottlerocket" false in
  let B := w_nodeclass "AL2023" false in
  let r1 := (w_resolve (w_env 5 U0) A w_resolver).1 in
  w_key A = w_key B ∧
  availability (w_resolve (w_env 6 U0) B r1).2 = [true] ∧
  IsCompatibleWithNodeClass w_type_info (nco_view B) None = false ∧
  option_map availability (compute_offerings (w_env 6 U0) w_it w_type_info B {["z"]} None) = Some [false].
Proof. cbv zeta. split; [by vm_compute|]. split; [by vm_compute|]. split; by vm_compute. Qed.

(** Another instance type is marked between two resolutions for one NodeClass. *)
Definition w_other : UnavailableOfferings (RefCache.t unit) :=
  set_offering U0 10 "c5.large" "z" "on-demand" [].

Definition w_bottlerocket : NodeClassOfferings := w_nodeclass "Bottlerocket" false.
Definition w_first := w_resolve (w_env 5 U0) w_bottlerocket w_resolver.
Definition w_second := w_resolve (w_env 20 w_other) w_bottlerocket w_first.1.
Definition w_offering : Offering :=
  default {| off_Requirements := ∅; Price := 0; Available := false; ReservationCapacity := 0 |}
    (head w_second.2).

Lemma w_resolve_some env nc r :
  match base_resolve env (w_key nc) w_it [] w_type_info nc {["z"]} None r with
  | Some _ => true | None => false end = true →
  base_resolve env (w_key nc) w_it [] w_type_info nc {["z"]} None r
  = Some ((w_resolve env nc r).1, (w_resolve env nc r).2).
Proof.
  unfold w_resolve. destruct (base_resolve _ _ _ _ _ _ _ _ _) as [[r' ofs]|]; [done|discriminate].
Qed.

Lemma w_offering_in : w_offering ∈ w_second.2.
Proof.
  assert (match w_second.2 with [] => false | _ => true end = true) as Hne by by vm_compute.
  unfold w_offering. destruct w_second.2; [discriminate|]. by left.
Qed.

Lemma w_later : later (w_env 5 U0) (w_env 20 w_other) "a1.large".
Proof.
  exists [], [], [BumpType "c5.large"], 10. split.
  - apply (run_step _ [] [] 0 10 (U0, [])); [apply run_nil|done|].
    apply (step_offering 10 U0 [] "c5.large" "z" "on-demand" []).
    apply (bool_decide_unpack _). by vm_compute.
  - split; [done|]. split; [done|]. split; [done|]. by constructor.
Qed.

Lemma w_plain : plain_names w_it {["z"]} None.
Proof.
  intros zone ct ->%elem_of_singleton Hct. change (base_capacity_types w_it) with ["on-demand"] in Hct.
  apply list_elem_of_singleton in Hct as ->. split; [|done].
  apply (bool_decide_unpack _). by vm_compute.
Qed.

End concrete.
