(* ===== verification/LaunchTemplates.v ===== *)
(** * [pkg/providers/launchtemplate]: the request for a launch template

    [types.go] and the helpers of [launchtemplate.go]: the EC2 request that creates a
    resolved template, with its network interfaces, block devices, placement and capacity
    reservation.  A [None] result is a panic. *)
From stdpp Require Import sorting.
From S2P Require Import Prelude GoStd GoCache AwsErrors ApiV1 CapacityReservation Quantities Scheduling Filters Launch Compatibility InstanceTypes AmiFamily Kubelet Resolver PlacementGroup Utils Offerings.

(** ** The request *)

Inductive IPFamily := IPv4Protocol | IPv6Protocol.
#[export] Instance IPFamily_eq_dec : EqDecision IPFamily.
Proof. solve_decision. Defined.

Inductive LaunchMode := LaunchModeOpen | LaunchModeTargeted.

(** [LaunchTemplateInstanceNetworkInterfaceSpecificationRequest] *)
Record InterfaceRequest := {
  ir_AssociatePublicIpAddress : option bool;
  ir_ConnectionTracking : option ConnectionTracking;
  ir_DeviceIndex : option Z;
  ir_Groups : list string;
  ir_InterfaceType : option string;
  ir_Ipv4PrefixCount : option Z;
  ir_Ipv6AddressCount : option Z;
  ir_Ipv6PrefixCount : option Z;
  ir_NetworkCardIndex : option Z;
  ir_PrimaryIpv6 : option bool;
  ir_SecondaryPrivateIpAddressCount : option Z;
  ir_SubnetId : option string;
}.

(** [LaunchTemplateBlockDeviceMappingRequest] with its EBS request. *)
Record BlockDeviceRequest := {
  br_DeviceName : option string;
  br_DeleteOnTermination : option bool;
  br_Encrypted : option bool;
  br_VolumeType : string;
  br_Iops : option Z;
  br_Throughput : option Z;
  br_KmsKeyId : option string;
  br_SnapshotId : option string;
  br_VolumeInitializationRate : option Z;
  br_VolumeSize : option Z;
}.

Record TagSpecification := { ts_ResourceType : string; ts_Tags : list (string * string) }.

Record PlacementRequest := {
  plr_Tenancy : string;
  plr_GroupId : option string;
  plr_PartitionNumber : option Z;
}.

(** [CapacityReservationSpecification]: the preference and the target. *)
Record CapacityReservationRequest := { crr_Preference : string; crr_Target : option string }.

Record CreateLaunchTemplateInput := {
  cl_LaunchTemplateName : string;
  cl_BlockDeviceMappings : list BlockDeviceRequest;
  cl_NestedVirtualization : option string;
  cl_IamInstanceProfile : string;
  cl_Monitoring : bool;
  cl_SecurityGroupIds : list string;
  cl_UserData : string;
  cl_ImageId : string;
  cl_HttpEndpoint : string;
  cl_HttpProtocolIpv6 : string;
  cl_HttpPutResponseHopLimit : Z;
  cl_HttpTokens : string;
  cl_InstanceMetadataTags : string;
  cl_NetworkInterfaces : list InterfaceRequest;
  cl_InstanceTags : list TagSpecification;
  cl_Placement : PlacementRequest;
  cl_EnclaveEnabled : bool;
  cl_CapacityReservation : option CapacityReservationRequest;
  cl_MarketType : option string;
  cl_TemplateTags : list TagSpecification;
}.

Section request.
Context `{IR : ImageRequirements}.
(** [hashstructure.Hash] of a template, and [Quantity.AsApproximateFloat64]. *)
Variable Hash : ResolvedTemplate → Z.
Variable AsApproximateFloat64 : Quantity → float64.

Definition LaunchTemplateNamePrefix := "karpenter.k8s.aws".
Definition LaunchTemplateName (t : ResolvedTemplate) : string :=
  LaunchTemplateNamePrefix +:+ "/" +:+ fmt_int (Hash t).

Definition connectionTrackingSpec (ct : option ConnectionTracking) : option ConnectionTracking :=
  match ct with
  | None => None
  | Some c =>
      match TCPEstablishedTimeout c, UDPStreamTimeout c, UDPTimeout c with
      | None, None, None => None
      | _, _, _ => Some c
      end
  end.

(** The IPv4 prefix count, the IPv6 prefix count, the secondary addresses, and the IPv6
    address count. *)
Definition ipCounts (t : ResolvedTemplate) (ni : ResolvedNetworkInterface) (family : IPFamily) :
    option Z * option Z * option Z * option Z :=
  let prefixes := match rni_SecondaryIPPrefixCount ni with
                  | Some n => Some n
                  | None => o_IPPrefixCount (rt_Options t)
                  end in
  match family with
  | IPv4Protocol => (prefixes, None, rni_SecondaryIPCount ni, None)
  | IPv6Protocol =>
      (None, prefixes, None, match rni_SecondaryIPCount ni with Some n => Some n | None => Some 1 end)
  end.

Definition security_group_ids (t : ResolvedTemplate) : list string := sg_ID <$> o_SecurityGroups (rt_Options t).

(** A configured interface; an EFA-only one has no addresses. *)
Definition configured_interface (t : ResolvedTemplate) (family : IPFamily) (ni : ResolvedNetworkInterface) :
    InterfaceRequest :=
  let typeNotEFAOnly := bool_decide (rni_InterfaceType ni ≠ InterfaceTypeEFAOnly) in
  let '(v4, v6, secondary, v6addresses) :=
    if typeNotEFAOnly then ipCounts t ni family else (None, None, None, None) in
  {| ir_AssociatePublicIpAddress :=
       if typeNotEFAOnly then o_AssociatePublicIPAddress (rt_Options t) else None;
     ir_ConnectionTracking :=
       if typeNotEFAOnly then connectionTrackingSpec (rt_ConnectionTracking t) else None;
     ir_DeviceIndex := Some (rni_DeviceIndex ni);
     ir_Groups :=
       if decide (rni_SecondaryENISecurityGroups ni ≠ [] ∧
                  (rni_NetworkCardIndex ni ≠ 0 ∨ rni_DeviceIndex ni ≠ 0))
       then sg_ID <$> rni_SecondaryENISecurityGroups ni else security_group_ids t;
     ir_InterfaceType := Some (rni_InterfaceType ni); ir_Ipv4PrefixCount := v4;
     ir_Ipv6AddressCount := v6addresses; ir_Ipv6PrefixCount := v6;
     ir_NetworkCardIndex := Some (rni_NetworkCardIndex ni);
     ir_PrimaryIpv6 := if decide (family = IPv6Protocol ∧ typeNotEFAOnly = true) then Some true else None;
     ir_SecondaryPrivateIpAddressCount := secondary;
     ir_SubnetId := if decide (rni_SubnetID ni ≠ "") then Some (rni_SubnetID ni) else None |}.

(** What the interfaces Karpenter chooses have in common. *)
Definition default_interface (t : ResolvedTemplate) (family : IPFamily) (device : Z)
    (card : option Z) (ty : option string) : InterfaceRequest :=
  let v6 {A} (a : option A) : option A := if decide (family = IPv6Protocol) then a else None in
  {| ir_AssociatePublicIpAddress := o_AssociatePublicIPAddress (rt_Options t);
     ir_ConnectionTracking := connectionTrackingSpec (rt_ConnectionTracking t);
     ir_DeviceIndex := Some device; ir_Groups := security_group_ids t; ir_InterfaceType := ty;
     ir_Ipv4PrefixCount := if decide (family = IPv6Protocol) then None else o_IPPrefixCount (rt_Options t);
     ir_Ipv6AddressCount := v6 (Some 1); ir_Ipv6PrefixCount := v6 (o_IPPrefixCount (rt_Options t));
     ir_NetworkCardIndex := card; ir_PrimaryIpv6 := v6 (Some true);
     ir_SecondaryPrivateIpAddressCount := None; ir_SubnetId := None |}.

(** [lo.Times] panics on a negative count. *)
Definition generateNetworkInterfaces (t : ResolvedTemplate) (family : IPFamily) :
    option (list InterfaceRequest) :=
  if decide (length (rt_NetworkInterfaces t) ≠ 0%nat) then
    Some (configured_interface t family <$> rt_NetworkInterfaces t)
  else if decide (rt_EFACount t ≠ 0) then
    if decide (rt_EFACount t < 0) then None
    else Some ((λ i, default_interface t family (if decide (i = 0) then 0 else 1) (Some (i32 i)) (Some "efa"))
               <$> seqZ 0 (rt_EFACount t))
  else Some [default_interface t family 0 None None].

(** The size in GiB, rounded up; [int32] of the ceiling. *)
Definition volumeSize (quantity : option Quantity) : option Z :=
  (λ q, i32 (float64_ceil (float64_div (AsApproximateFloat64 q) (2 ^ 30)))) <$> quantity.

(** [lo.EmptyableToPtr(int32(lo.FromPtr(p)))] *)
Definition emptyable (p : option Z) : option Z :=
  let n := i32 (default 0 p) in if decide (n = 0) then None else Some n.

(** The EBS settings are dereferenced. *)
Definition block_device_request (b : BlockDeviceMapping Quantity) : option BlockDeviceRequest :=
  ebs ← EBS b;
  Some {| br_DeviceName := DeviceName b; br_DeleteOnTermination := DeleteOnTermination ebs;
          br_Encrypted := Encrypted ebs; br_VolumeType := default "" (VolumeType ebs);
          br_Iops := emptyable (IOPS ebs); br_Throughput := emptyable (Throughput ebs);
          br_KmsKeyId := KMSKeyID ebs; br_SnapshotId := SnapshotID ebs;
          br_VolumeInitializationRate := VolumeInitializationRate ebs;
          br_VolumeSize := volumeSize (VolumeSize ebs) |}.
Definition blockDeviceMappings (l : list (BlockDeviceMapping Quantity)) : option (list BlockDeviceRequest) :=
  mapM block_device_request l.

Definition cpuOptions (o : option CPUOptions) : option string := o ≫= NestedVirtualization.

Definition buildPlacement (t : ResolvedTemplate) : PlacementRequest :=
  {| plr_Tenancy := rt_Tenancy t;
     plr_GroupId := if decide (rt_PlacementGroupID t ≠ "") then Some (rt_PlacementGroupID t) else None;
     plr_PartitionNumber := if decide (rt_PlacementGroupPartition t ≠ 0)
                            then Some (rt_PlacementGroupPartition t) else None |}.

(** The reservation of a targeted launch: a reserved launch uses its reservation only, any
    other launch none. *)
Definition reservation_request (mode : LaunchMode) (t : ResolvedTemplate) : option CapacityReservationRequest :=
  match mode with
  | LaunchModeOpen => None
  | LaunchModeTargeted =>
      Some (if decide (rt_CapacityType t = CapacityTypeReserved)
            then {| crr_Preference := "capacity-reservations-only";
                    crr_Target := Some (rt_CapacityReservationID t) |}
            else {| crr_Preference := "none"; crr_Target := None |})
  end.
Definition market_type (mode : LaunchMode) (t : ResolvedTemplate) : option string :=
  match mode with
  | LaunchModeOpen => None
  | LaunchModeTargeted =>
      if decide (rt_CapacityReservationType t = CapacityReservationTypeCapacityBlock) then Some "capacity-block"
      else if rt_CapacityReservationInterruptible t then Some "interruptible-capacity-reservation"
      else None
  end.

(** [LaunchMode] of the default provider. *)
Definition default_launch_mode (reservedCapacity : bool) : LaunchMode :=
  if reservedCapacity then LaunchModeTargeted else LaunchModeOpen.

(** The interfaces are never nil, so the security groups are only named in them. *)
Definition Build (mode : LaunchMode) (family : IPFamily) (userData : string) (t : ResolvedTemplate) :
    option CreateLaunchTemplateInput :=
  let tags ty := {| ts_ResourceType := ty; ts_Tags := EC2MergeTags [o_Tags (rt_Options t)] |} in
  let m := rt_MetadataOptions t in
  nis ← generateNetworkInterfaces t family;
  bdms ← blockDeviceMappings (rt_BlockDeviceMappings t);
  Some {| cl_LaunchTemplateName := LaunchTemplateName t; cl_BlockDeviceMappings := bdms;
          cl_NestedVirtualization := cpuOptions (rt_CPUOptions t);
          cl_IamInstanceProfile := o_InstanceProfile (rt_Options t);
          cl_Monitoring := rt_DetailedMonitoring t; cl_SecurityGroupIds := [];
          cl_UserData := userData; cl_ImageId := rt_AMIID t;
          cl_HttpEndpoint := default "" (HTTPEndpoint m);
          cl_HttpProtocolIpv6 := default "" (HTTPProtocolIPv6 m);
          cl_HttpPutResponseHopLimit := i32 (default 0 (HTTPPutResponseHopLimit m));
          cl_HttpTokens := default "" (HTTPTokens m); cl_InstanceMetadataTags := "disabled";
          cl_NetworkInterfaces := nis;
          cl_InstanceTags :=
            tags "network-interface" ::
            (if decide (rt_CapacityType t = CapacityTypeSpot) then [tags "spot-instances-request"] else []);
          cl_Placement := buildPlacement t; cl_EnclaveEnabled := rt_EnclaveEnabled t;
          cl_CapacityReservation := reservation_request mode t; cl_MarketType := market_type mode t;
          cl_TemplateTags := [tags "launch-template"] |}.
End request.

(** *** The interfaces of a request *)

Section interfaces.
Context `{SchedulingTypes}.

(** The network card and the device of an interface. *)
Definition slot (ni : InterfaceRequest) : Z * Z :=
  (default 0 (ir_NetworkCardIndex ni), default 0 (ir_DeviceIndex ni)).

(** An interface asks for addresses of the cluster's family only, always for a primary IPv6
    address in an IPv6 cluster, and an EFA-only one asks for none at all. *)
Definition well_formed_interface (family : IPFamily) (ni : InterfaceRequest) : Prop :=
  if decide (ir_InterfaceType ni = Some InterfaceTypeEFAOnly) then
    ir_AssociatePublicIpAddress ni = None ∧ ir_ConnectionTracking ni = None ∧ ir_Ipv4PrefixCount ni = None ∧
    ir_SecondaryPrivateIpAddressCount ni = None ∧ ir_Ipv6AddressCount ni = None ∧
    ir_Ipv6PrefixCount ni = None ∧ ir_PrimaryIpv6 ni = None
  else match family with
       | IPv4Protocol => ir_Ipv6AddressCount ni = None ∧ ir_Ipv6PrefixCount ni = None ∧ ir_PrimaryIpv6 ni = None
       | IPv6Protocol => ir_Ipv4PrefixCount ni = None ∧ ir_SecondaryPrivateIpAddressCount ni = None ∧
                         is_Some (ir_Ipv6AddressCount ni) ∧ ir_PrimaryIpv6 ni = Some true
       end.

Lemma configured_well_formed t family ni : well_formed_interface family (configured_interface t family ni).
Proof.
  unfold well_formed_interface, configured_interface.
  destruct (decide (rni_InterfaceType ni = InterfaceTypeEFAOnly)) as [E|E].
  - rewrite bool_decide_false by (by intros ?). simpl. rewrite E, decide_True by done.
    repeat split; try done. by rewrite decide_False by naive_solver.
  - rewrite bool_decide_true by done. simpl.
    destruct (ipCounts t ni family) as [[[v4 v6] secondary] addresses] eqn:Hc; simpl.
    rewrite decide_False by congruence. unfold ipCounts in Hc.
    destruct family; simplify_eq; simpl; repeat split; destruct (rni_SecondaryIPCount ni); done.
Qed.

Lemma default_well_formed t family device card ty :
  ty ≠ Some InterfaceTypeEFAOnly → well_formed_interface family (default_interface t family device card ty).
Proof.
  intros. unfold well_formed_interface. simpl. rewrite decide_False by done. destruct family; simpl; eauto.
Qed.

(** The interfaces of [n] EFA devices, one per network card. *)
Definition efa_slot (i : Z) : Z * Z := (i32 i, if decide (i = 0) then 0 else 1).
Lemma efa_slots_NoDup n : 0 ≤ n ≤ 2 ^ 31 → NoDup (efa_slot <$> seqZ 0 n).
Proof.
  intros Hn. apply NoDup_fmap_2_strong; [|apply NoDup_seqZ].
  intros x y Hx%elem_of_seqZ Hy%elem_of_seqZ [= Hxy _]. rewrite !i32_small in Hxy by lia. done.
Qed.

(** C24: The network interfaces of a launch template are well formed: computing them fails
    only on a negative EFA count; there is at least one; each asks for addresses of the
    cluster's family only, and an EFA-only one for none.  Configured interfaces keep their
    card and device; otherwise the interfaces Karpenter chooses occupy distinct slots, the
    first device of the first card among them. *)
Theorem generateNetworkInterfaces_spec t family :
  match generateNetworkInterfaces t family with
  | None => rt_NetworkInterfaces t = [] ∧ rt_EFACount t < 0
  | Some nis =>
      nis ≠ [] ∧ Forall (well_formed_interface family) nis ∧
      if decide (rt_NetworkInterfaces t = []) then
        (0, 0) ∈ (slot <$> nis) ∧ (rt_EFACount t ≤ 2 ^ 31 → NoDup (slot <$> nis))
      else (slot <$> nis) = (λ ni, (rni_NetworkCardIndex ni, rni_DeviceIndex ni)) <$> rt_NetworkInterfaces t
  end.
Proof.
  unfold generateNetworkInterfaces. destruct (rt_NetworkInterfaces t) as [|ni nis] eqn:E.
  - rewrite decide_False by (simpl; lia). case_decide as Hn; [case_decide as Hneg; [done|]|].
    + rewrite <- list_fmap_compose.
      assert (slot ∘ (λ i, default_interface t family (if decide (i = 0) then 0 else 1) (Some (i32 i)) (Some "efa"))
              = efa_slot) as -> by done.
      assert (0 ∈ seqZ 0 (rt_EFACount t)) as H0 by (apply elem_of_seqZ; lia).
      split; [intros Hnil; apply fmap_nil_inv in Hnil; by rewrite Hnil in H0; apply elem_of_nil in H0|].
      split; [|split].
      * apply Forall_fmap, Forall_true. intros i. by apply default_well_formed.
      * apply list_elem_of_fmap. exists 0. by split.
      * intros ?. apply efa_slots_NoDup. lia.
    + split; [done|]. split; [by apply Forall_singleton, default_well_formed|].
      split; [by left|]. intros _. apply NoDup_singleton.
  - rewrite decide_True by (simpl; lia). split; [done|]. split.
    + apply Forall_fmap, Forall_true. intros i. apply configured_well_formed.
    + rewrite <- list_fmap_compose. apply list_fmap_ext. intros i x _. unfold slot, configured_interface; simpl.
      by destruct (if bool_decide _ then _ else _) as [[[? ?] ?] ?].
Qed.
End interfaces.
