(* ===== verification/LaunchTemplateProvider.v ===== *)
(** * [pkg/providers/launchtemplate]: launch templates in EC2

    [launchtemplate.go]: the cache of templates that exist, its eviction callback, which
    deletes templates in EC2, and the operations of the provider.  EC2 is the interface
    [LaunchTemplateAPI], with the laws of a service that keeps what it creates until it is
    told to delete it.  The provider's lock makes each operation one step (hydration, which
    takes no lock, is one step too); the cache's janitor and the eviction callbacks run
    beside them.  A [None] result is a panic. *)
From stdpp Require Import sorting.
From S2P Require Import Prelude GoStd GoCache AwsErrors ApiV1 CapacityReservation Quantities Scheduling Filters Launch Compatibility InstanceTypes AmiFamily Kubelet Resolver PlacementGroup Utils Offerings LaunchTemplates.

(** ** EC2 *)

(** [ec2types.LaunchTemplate], the fields the provider reads. *)
Record EC2LaunchTemplate := { elt_LaunchTemplateId : string; elt_LaunchTemplateName : string }.
#[export] Instance EC2LaunchTemplate_eq_dec : EqDecision EC2LaunchTemplate.
Proof. solve_decision. Defined.

(** The calls the provider makes: describing by name, describing the pages of a filter,
    creating, and deleting by ID or by name. *)
Class LaunchTemplateAPI (W : Type) := {
  DescribeLaunchTemplates : list string → W → W * result error (list EC2LaunchTemplate);
  DescribePages : list CapacityReservation.Filter → W → W * list (result error (list EC2LaunchTemplate));
  CreateLaunchTemplate : CreateLaunchTemplateInput → W → W * result error EC2LaunchTemplate;
  DeleteByID : string → W → W * option error;
  DeleteByName : string → W → W * option error;
  (** The templates that exist, by name, and the names that IDs were ever given to. *)
  templates : W → string → option EC2LaunchTemplate;
  ever : W → string → string → Prop;
}.
#[global] Hint Mode LaunchTemplateAPI ! : typeclass_instances.

Definition pages_elem (t : EC2LaunchTemplate) (pages : list (result error (list EC2LaunchTemplate))) : Prop :=
  ∃ page, Ok page ∈ pages ∧ t ∈ page.

(** Describing reports templates that exist, creating adds one, deleting removes no other;
    an ID keeps its name for ever. *)
Class LaunchTemplateAPILaws (W : Type) `{LaunchTemplateAPI W} := {
  Describe_templates names (w : W) n : templates (DescribeLaunchTemplates names w).1 n = templates w n;
  Describe_ever names (w : W) id n : ever w id n → ever (DescribeLaunchTemplates names w).1 id n;
  Describe_sound name (w : W) l t :
    (DescribeLaunchTemplates [name] w).2 = Ok l → t ∈ l →
    elt_LaunchTemplateName t = name ∧ templates w name = Some t;
  Pages_templates fs (w : W) n : templates (DescribePages fs w).1 n = templates w n;
  Pages_ever fs (w : W) id n : ever w id n → ever (DescribePages fs w).1 id n;
  Pages_sound fs (w : W) t :
    pages_elem t (DescribePages fs w).2 → templates w (elt_LaunchTemplateName t) = Some t;
  Create_templates input (w : W) n t :
    templates w n = Some t → templates (CreateLaunchTemplate input w).1 n = Some t;
  Create_ever input (w : W) id n : ever w id n → ever (CreateLaunchTemplate input w).1 id n;
  Create_sound input (w : W) t :
    (CreateLaunchTemplate input w).2 = Ok t →
    elt_LaunchTemplateName t = cl_LaunchTemplateName input ∧
    templates (CreateLaunchTemplate input w).1 (cl_LaunchTemplateName input) = Some t;
  DeleteByID_keeps id (w : W) n t :
    templates w n = Some t → elt_LaunchTemplateId t ≠ id →
    templates (DeleteByID id w).1 n = Some t;
  DeleteByID_ever i (w : W) id n : ever w id n → ever (DeleteByID i w).1 id n;
  DeleteByName_keeps name (w : W) n t :
    templates w n = Some t → n ≠ name → templates (DeleteByName name w).1 n = Some t;
  DeleteByName_sub name (w : W) n t :
    templates (DeleteByName name w).1 n = Some t → templates w n = Some t;
  DeleteByName_gone name (w : W) :
    (DeleteByName name w).2 = None → templates (DeleteByName name w).1 name = None;
  DeleteByName_ever name (w : W) id n : ever w id n → ever (DeleteByName name w).1 id n;
  templates_name (w : W) n t : templates w n = Some t → elt_LaunchTemplateName t = n;
  templates_ever (w : W) n t : templates w n = Some t → ever w (elt_LaunchTemplateId t) n;
  ever_functional (w : W) id n n' : ever w id n → ever w id n' → n = n';
}.

(** ** The provider *)

Definition NodeDoNotSyncTaintsLabelKey := "karpenter.sh/do-not-sync-taints".
Definition InjectDoNotSyncTaintsLabel (amiFamily : string) (labels : gmap string string) : gmap string string :=
  if decide (amiFamily ≠ AMIFamilyCustom) then Assign [labels; {[ NodeDoNotSyncTaintsLabelKey := "true" ]}]
  else labels.

(** [strconv.ParseInt(s, 10, 32)] *)
Definition ParseInt32 (s : string) : option Z :=
  n ← Atoi s; if decide (- 2 ^ 31 ≤ n < 2 ^ 31) then Some n else None.

Section provider.
Context `{IR : ImageRequirements} `{QuantityParser}.
Context {W C CL CA : Type} `{LaunchTemplateAPI W} `{GoCache EC2LaunchTemplate C}.
Context `{GoCache unit CL} `{GoCache PlacementGroup CA}.

(** The cache, the discovered cluster CIDR, and EC2 as the calls leave it. *)
Record LTProvider := {
  lp_cache : C;
  lp_ClusterCIDR : option string;
  lp_ec2 : W;
}.
Definition with_cache (c : C) (p : LTProvider) : LTProvider :=
  {| lp_cache := c; lp_ClusterCIDR := lp_ClusterCIDR p; lp_ec2 := lp_ec2 p |}.
Definition with_ec2 (w : W) (p : LTProvider) : LTProvider :=
  {| lp_cache := lp_cache p; lp_ClusterCIDR := lp_ClusterCIDR p; lp_ec2 := w |}.

Variable Hash : ResolvedTemplate → Z.
Variable AsApproximateFloat64 : Quantity → float64.
(** Rendering a bootstrapper as user data. *)
Variable Script : Bootstrapper → result error string.
Variable reservedCapacity : bool.
Variable ClusterName ClusterEndpoint : string.
Variable CABundle : option string.
Variable KubeDNSIP : option IP.
Variable now : Z.

Definition ClusterIPFamily : IPFamily :=
  match KubeDNSIP with
  | Some ip => if ip_To4 ip then IPv4Protocol else IPv6Protocol
  | None => IPv4Protocol
  end.

Definition createLaunchTemplate (t : ResolvedTemplate) (p : LTProvider) :
    option (LTProvider * result error EC2LaunchTemplate) :=
  match Script (rt_UserData t) with
  | Err e => Some (p, Err e)
  | Ok userData =>
      input ← Build Hash AsApproximateFloat64 (default_launch_mode reservedCapacity) ClusterIPFamily userData t;
      let '(w, r) := CreateLaunchTemplate input (lp_ec2 p) in
      Some (with_ec2 w p, r)
  end.

Definition remember (name : string) (lt : EC2LaunchTemplate) (p : LTProvider) : LTProvider :=
  with_cache (SetDefault (lp_cache p) now name lt) p.

(** A template that is found or created is remembered. *)
Definition ensureLaunchTemplate (t : ResolvedTemplate) (p : LTProvider) :
    option (LTProvider * result error EC2LaunchTemplate) :=
  let name := LaunchTemplateName Hash t in
  match GoCache.Get (lp_cache p) now name with
  | Some lt => Some (remember name lt p, Ok lt)
  | None =>
      let '(w, output) := DescribeLaunchTemplates [name] (lp_ec2 p) in
      let p := with_ec2 w p in
      match output with
      | Err e =>
          if IsNotFound (Some e) then
            '(p, r) ← createLaunchTemplate t p;
            Some match r with
                 | Err e => (p, Err (wrap "creating launch template" e))
                 | Ok lt => (remember name lt p, Ok lt)
                 end
          else Some (p, Err (wrap "describing launch templates" e))
      | Ok [lt] => Some (remember name lt p, Ok lt)
      | Ok _ => Some (p, Err (errorf "expected to find one launch template"))
      end
  end.

(** [None] is the fatal error of an alias that does not parse. *)
Definition CreateAMIOptions (nc : NodeClass) (labels tags : gmap string string) (p : LTProvider) :
    option (result error Options) :=
  amiFamily ← AMIFamily nc;
  let labels := InjectDoNotSyncTaintsLabel amiFamily labels in
  Some (if decide (length (SecurityGroups (Status nc)) = 0%nat) then
          Err (errorf "no security groups are present in the status")
        else Ok {| o_ClusterName := ClusterName; o_ClusterEndpoint := ClusterEndpoint;
                   o_ClusterCIDR := lp_ClusterCIDR p; o_InstanceProfile := InstanceProfile (Status nc);
                   o_CABundle := CABundle; o_InstanceStorePolicy := InstanceStorePolicy_ (Spec nc);
                   o_AMISelectorTerms := AMISelectorTerms (Spec nc); o_AMIs := AMIs_ (Status nc);
                   o_SecurityGroups := SecurityGroups (Status nc); o_Tags := tags; o_Labels := labels;
                   o_KubeDNSIP := KubeDNSIP;
                   o_AssociatePublicIPAddress := AssociatePublicIPAddress (Spec nc);
                   o_IPPrefixCount := IPPrefixCount (Spec nc); o_NodeClassName := nc_Name nc |}).

(** The partition EC2 is given: the first of the allowed values in text order. *)
Definition lowest_partition (reqs : Requirements) : Z :=
  match merge_sort String.le (req_Values (Scheduling.Get reqs LabelPlacementGroupPartition)) with
  | v :: _ => default 0 (ParseInt32 v)
  | [] => 0
  end.
Definition placement_of (pg : option PlacementGroup) (reqs : Requirements) : string * Z :=
  match pg with
  | Some pg => (pg_ID pg, if decide (pg_Strategy pg = StrategyPartition) then lowest_partition reqs else 0)
  | None => ("", 0)
  end.

Definition template_of_ec2 (t : ResolvedTemplate) (lt : EC2LaunchTemplate) : LaunchTemplate :=
  {| lt_Name := elt_LaunchTemplateName lt; lt_InstanceTypes := rt_InstanceTypes t; lt_ImageID := rt_AMIID t;
     lt_CapacityReservationID := rt_CapacityReservationID t; lt_Zone := rt_Zone t |}.

(** The loop of [EnsureAll]: the first error ends it. *)
Fixpoint ensure_templates (ts : list ResolvedTemplate) (p : LTProvider) :
    option (LTProvider * result error (list LaunchTemplate)) :=
  match ts with
  | [] => Some (p, Ok [])
  | t :: ts' =>
      '(p, r) ← ensureLaunchTemplate t p;
      match r with
      | Err e => Some (p, Err e)
      | Ok lt =>
          '(p, r) ← ensure_templates ts' p;
          Some (p, match r with Ok l => Ok (template_of_ec2 t lt :: l) | Err e => Err e end)
      end
  end.

Section ensure_all.
Context {Ast Program : Type}.
Variable Unmarshal : KubeletConfiguration → result error ParsedKubeletConfig.
Variable env_Compile : string → result error Ast.
Variable OutputType : Ast → CelType.
Variable env_Program : Ast → result error Program.
Variable Eval : Program → InstanceTypeVars → result error CelValue.
Variable out_of_range : float64 → Z.
Variable GetLabelDomain : string → string.
Variable region : string.
Variable eniLookup : string → option (Z * Z).
Variable NodeClassCEL : bool.
Variable CacheKey : PlacementGroupSelector → string.
Variable DescribePlacementGroups : DescribePlacementGroupsInput_ → result error (list EC2PlacementGroup).
Variable efaEnabled : bool.

Abbreviation resolve :=
  (Resolve Unmarshal env_Compile OutputType env_Program Eval out_of_range GetLabelDomain region eniLookup
     NodeClassCEL) (only parsing).

(** [labels], [taints] and [reqs] are those of the NodeClaim.  The error of the placement
    group lookup is dropped. *)
Definition EnsureAll (nc : NodeClass) (labels : gmap string string) (taints : list Taint)
    (reqs : Requirements) (its : list InstanceType) (capacityType : string)
    (tags : gmap string string) (tenancy : string) (p : LTProvider) (pgs : PGProvider CL CA) :
    option (LTProvider * PGProvider CL CA * NodeClass * result error (list LaunchTemplate)) :=
  opts ← CreateAMIOptions nc (Assign [labels; {[ CapacityTypeLabelKey := capacityType ]}]) tags p;
  match opts with
  | Err e => Some (p, pgs, nc, Err e)
  | Ok opts =>
      let '(pgs, (pg, _)) := Get_ CacheKey now DescribePlacementGroups (PlacementGroupSelector_ (Spec nc)) pgs in
      let '(pgID, pgPartition) := placement_of pg reqs in
      '(nc, resolved) ←
        resolve nc {| lp_capacityType := capacityType; lp_tenancy := tenancy; lp_placementGroupID := pgID;
                      lp_partition := pgPartition; lp_taints := taints; lp_efaEnabled := efaEnabled |} its opts;
      match resolved with
      | Err e => Some (p, pgs, nc, Err e)
      | Ok ts => '(p, r) ← ensure_templates ts p; Some (p, pgs, nc, r)
      end
  end.
End ensure_all.

(** ** Forgetting *)

(** [Delete] runs no callback: it is unset for the call. *)
Definition InvalidateCache (ltName : string) (p : LTProvider) : LTProvider :=
  with_cache (Delete (lp_cache p) ltName).1 p.

(** The callback of an evicted entry; the error of the deletion is only logged. *)
Definition cachedEvictedFunc (key : string) (lt : EC2LaunchTemplate) (p : LTProvider) : LTProvider :=
  match GetExpiration (lp_cache p) now key with
  | Some expiration => if decide (now < expiration) then p
                       else with_ec2 (DeleteByID (elt_LaunchTemplateId lt) (lp_ec2 p)).1 p
  | None => with_ec2 (DeleteByID (elt_LaunchTemplateId lt) (lp_ec2 p)).1 p
  end.

Definition cluster_filter : CapacityReservation.Filter :=
  {| f_Name := "tag:" +:+ EKSClusterNameTagKey; f_Values := [ClusterName] |}.

(** The pages before the first error are remembered. *)
Fixpoint hydrate_pages (pages : list (result error (list EC2LaunchTemplate))) (p : LTProvider) : LTProvider :=
  match pages with
  | Ok page :: pages' =>
      hydrate_pages pages' (foldl (λ p lt, remember (elt_LaunchTemplateName lt) lt p) p page)
  | _ => p
  end.
Definition hydrateCache (p : LTProvider) : LTProvider :=
  let '(w, pages) := DescribePages [cluster_filter] (lp_ec2 p) in
  hydrate_pages pages (with_ec2 w p).

Fixpoint page_names (pages : list (result error (list EC2LaunchTemplate))) : result error (list string) :=
  match pages with
  | [] => Ok []
  | Err e :: _ => Err (wrap "fetching launch templates" e)
  | Ok page :: pages' => (λ names, (elt_LaunchTemplateName <$> page) ++ names) <$> page_names pages'
  end.

(** Deleting by name, collecting the errors; the cache keeps its entries. *)
Definition delete_name (st : LTProvider * list error) (name : string) : LTProvider * list error :=
  let '(w, e) := DeleteByName name (lp_ec2 st.1) in
  (with_ec2 w st.1, st.2 ++ option_list e).
Definition nodeclass_filter (nc : NodeClass) : CapacityReservation.Filter :=
  {| f_Name := "tag:" +:+ NodeClassTagKey; f_Values := [nc_Name nc] |}.
Definition DeleteAll (nc : NodeClass) (p : LTProvider) : LTProvider * list error :=
  let '(w, pages) := DescribePages [cluster_filter; nodeclass_filter nc] (lp_ec2 p) in
  let p := with_ec2 w p in
  match page_names pages with
  | Err e => (p, [e])
  | Ok names => foldl delete_name (p, []) names
  end.

(** [DescribeCluster] returns the IPv4 and the IPv6 service CIDR. *)
Definition ResolveClusterCIDR (DescribeCluster : result error (option string * option string))
    (p : LTProvider) : LTProvider * option error :=
  let store cidr := {| lp_cache := lp_cache p; lp_ClusterCIDR := Some cidr; lp_ec2 := lp_ec2 p |} in
  match lp_ClusterCIDR p with
  | Some _ => (p, None)
  | None =>
      match DescribeCluster with
      | Err e => (p, Some e)
      | Ok (Some v4, _) => (store v4, None)
      | Ok (None, Some v6) => (store v6, None)
      | Ok (None, None) => (p, Some (errorf "no CIDR found in DescribeCluster response"))
      end
  end.
End provider.
Arguments LTProvider : clear implicits.

(** ** Properties *)

Section properties.
Context `{IR : ImageRequirements} `{QuantityParser}.
Context {W C : Type} `{LaunchTemplateAPILaws W} `{GoCacheLaws EC2LaunchTemplate C}.
Variable Hash : ResolvedTemplate → Z.
Variable AsApproximateFloat64 : Quantity → float64.
Variable Script : Bootstrapper → result error string.
Variable reservedCapacity : bool.
Variable ClusterName : string.
Variable KubeDNSIP : option IP.
Abbreviation ensure now t p :=
  (ensureLaunchTemplate Hash AsApproximateFloat64 Script reservedCapacity KubeDNSIP now t p).
Implicit Types (p : LTProvider W C) (t : ResolvedTemplate) (lt : EC2LaunchTemplate).

(** The provider with its clock, the callbacks the janitor owes, and the names somebody
    deleted in EC2 behind the provider's back, as long as the provider was not told. *)
Record System := {
  sy_provider : LTProvider W C;
  sy_now : Z;
  sy_pending : list (string * EC2LaunchTemplate);
  sy_disowned : gset string;
}.
Definition with_provider p (s : System) : System :=
  {| sy_provider := p; sy_now := sy_now s; sy_pending := sy_pending s; sy_disowned := sy_disowned s |}.

(** What other clients of EC2 do: they add templates, or delete the named ones. *)
Definition others_act (deleted : gset string) (w w' : W) : Prop :=
  (∀ n lt, templates w n = Some lt → n ∉ deleted → templates w' n = Some lt) ∧
  (∀ id n, ever w id n → ever w' id n).

(** One step.  The janitor removes the expired entries and owes their callbacks, unless
    [InvalidateCache] has unset the callback.  A callback runs at any later time, except at
    the very nanosecond its key expires again. *)
Inductive step : System → System → Prop :=
  | step_tick s now' :
      sy_now s ≤ now' →
      step s {| sy_provider := sy_provider s; sy_now := now'; sy_pending := sy_pending s;
                sy_disowned := sy_disowned s |}
  | step_ensure s t p r :
      ensure (sy_now s) t (sy_provider s) = Some (p, r) → step s (with_provider p s)
  | step_janitor s c evicted :
      DeleteExpired (lp_cache (sy_provider s)) (sy_now s) = (c, evicted) →
      step s {| sy_provider := with_cache c (sy_provider s); sy_now := sy_now s;
                sy_pending := sy_pending s ++ evicted; sy_disowned := sy_disowned s |}
  | step_janitor_unset s c evicted :
      DeleteExpired (lp_cache (sy_provider s)) (sy_now s) = (c, evicted) →
      step s (with_provider (with_cache c (sy_provider s)) s)
  | step_callback s l k lt l' :
      sy_pending s = l ++ (k, lt) :: l' →
      (∀ v, items (lp_cache (sy_provider s)) !! k ≠ Some (v, Some (sy_now s))) →
      step s {| sy_provider := cachedEvictedFunc (sy_now s) k lt (sy_provider s); sy_now := sy_now s;
                sy_pending := l ++ l'; sy_disowned := sy_disowned s |}
  | step_invalidate s name :
      step s {| sy_provider := InvalidateCache name (sy_provider s); sy_now := sy_now s;
                sy_pending := sy_pending s; sy_disowned := sy_disowned s ∖ {[ name ]} |}
  | step_hydrate s :
      step s (with_provider (hydrateCache ClusterName (sy_now s) (sy_provider s)) s)
  | step_others s deleted w' :
      others_act deleted (lp_ec2 (sy_provider s)) w' →
      step s {| sy_provider := with_ec2 w' (sy_provider s); sy_now := sy_now s;
                sy_pending := sy_pending s; sy_disowned := sy_disowned s ∪ deleted |}
  | step_deleteAll s nc deleted :
      (∀ names, page_names (DescribePages [cluster_filter ClusterName; nodeclass_filter nc]
                              (lp_ec2 (sy_provider s))).2 = Ok names → list_to_set names ⊆ deleted) →
      step s {| sy_provider := (DeleteAll ClusterName nc (sy_provider s)).1; sy_now := sy_now s;
                sy_pending := sy_pending s; sy_disowned := sy_disowned s ∪ deleted |}.

(** *** The invariant *)

(** Cached entries expire and were templates of their name; the live ones still exist,
    but for the names that were deleted behind the provider's back. *)
Record sound (now : Z) (disowned : gset string) p : Prop := {
  sound_ttl : 0 < defaultTTL (lp_cache p);
  sound_known k lt e :
    items (lp_cache p) !! k = Some (lt, e) →
    e ≠ None ∧ elt_LaunchTemplateName lt = k ∧ ever (lp_ec2 p) (elt_LaunchTemplateId lt) k;
  sound_live k lt :
    GoCache.Get (lp_cache p) now k = Some lt → k ∉ disowned → templates (lp_ec2 p) k = Some lt;
}.

Record invariant (s : System) : Prop := {
  inv_sound : sound (sy_now s) (sy_disowned s) (sy_provider s);
  inv_pending k lt : (k, lt) ∈ sy_pending s → ever (lp_ec2 (sy_provider s)) (elt_LaunchTemplateId lt) k;
}.

Abbreviation keeps := others_act.
Lemma keeps_refl (w : W) : keeps ∅ w w.
Proof. by split. Qed.
Lemma keeps_trans D D' (w w' w'' : W) : keeps D w w' → keeps D' w' w'' → keeps (D ∪ D') w w''.
Proof. intros [K1 E1] [K2 E2]. split; [|eauto]. intros n lt Hn Hd. apply K2; [apply K1|]; set_solver. Qed.
Lemma keeps_weaken D D' (w w' : W) : D ⊆ D' → keeps D w w' → keeps D' w w'.
Proof. intros ? [K E]. split; [|done]. intros n lt Hn ?. apply K; set_solver. Qed.
Lemma keeps_describe names (w : W) D : keeps D w (DescribeLaunchTemplates names w).1.
Proof. split; [intros; by rewrite Describe_templates|apply Describe_ever]. Qed.
Lemma keeps_pages fs (w : W) D : keeps D w (DescribePages fs w).1.
Proof. split; [intros; by rewrite Pages_templates|apply Pages_ever]. Qed.
Lemma keeps_create input (w : W) D : keeps D w (CreateLaunchTemplate input w).1.
Proof. split; [intros; by apply Create_templates|apply Create_ever]. Qed.
Lemma keeps_delete name (w : W) : keeps {[ name ]} w (DeleteByName name w).1.
Proof. split; [intros; apply DeleteByName_keeps; set_solver|apply DeleteByName_ever]. Qed.

Lemma sound_ec2 now D D' p p' :
  sound now D p → lp_cache p' = lp_cache p → keeps D' (lp_ec2 p) (lp_ec2 p') → sound now (D ∪ D') p'.
Proof.
  intros [Ht Hk Hl] Hc [Hw He]. split; rewrite Hc; [done| |].
  - intros k lt e Hi. destruct (Hk _ _ _ Hi) as (? & ? & ?). eauto.
  - intros k lt Hg Hd. apply Hw; [apply Hl|]; set_solver.
Qed.
Lemma sound_keeps now D D' w' p : sound now D p → keeps D' (lp_ec2 p) w' → sound now (D ∪ D') (with_ec2 w' p).
Proof. intros. by apply (sound_ec2 now D D' p). Qed.
Lemma sound_keeps_same now D w' p : sound now D p → keeps D (lp_ec2 p) w' → sound now D (with_ec2 w' p).
Proof. intros Hs Hk. rewrite <- (union_idemp_L D). by apply sound_keeps. Qed.

Lemma sound_weaken now D D' p : D ⊆ D' → sound now D p → sound now D' p.
Proof. intros ? [Ht Hk Hl]. split; [done|done|]. intros k lt Hg ?. apply Hl; set_solver. Qed.

Lemma sound_remember now D name lt p :
  sound now D p → elt_LaunchTemplateName lt = name → ever (lp_ec2 p) (elt_LaunchTemplateId lt) name →
  (name ∉ D → templates (lp_ec2 p) name = Some lt) → sound now D (remember now name lt p).
Proof.
  intros [Ht Hk Hl] Hn He Hd. split; unfold remember; simpl.
  - by rewrite SetDefault_ttl.
  - intros k lt' e. rewrite SetDefault_items, lookup_insert. case_decide; [|apply Hk].
    intros; simplify_eq. unfold expiry. by rewrite decide_True.
  - intros k lt' Hg Hk'. destruct (decide (name = k)) as [->|Hne].
    + rewrite Get_SetDefault_eq, decide_True in Hg by (done || lia). simplify_eq. by apply Hd.
    + rewrite Get_SetDefault_ne in Hg by done. by apply Hl.
Qed.

Lemma templates_sound (w : W) n lt :
  templates w n = Some lt → elt_LaunchTemplateName lt = n ∧ ever w (elt_LaunchTemplateId lt) n.
Proof. eauto using templates_name, templates_ever. Qed.

(** What an answer of [ensureLaunchTemplate] promises. *)
Definition ensured (D : gset string) t p (r : result error EC2LaunchTemplate) : Prop :=
  ∀ lt, r = Ok lt →
    elt_LaunchTemplateName lt = LaunchTemplateName Hash t ∧
    ever (lp_ec2 p) (elt_LaunchTemplateId lt) (LaunchTemplateName Hash t) ∧
    (LaunchTemplateName Hash t ∉ D → templates (lp_ec2 p) (LaunchTemplateName Hash t) = Some lt).

Lemma ensured_remember now D t p lt :
  sound now D p → templates (lp_ec2 p) (LaunchTemplateName Hash t) = Some lt →
  sound now D (remember now (LaunchTemplateName Hash t) lt p) ∧
  ensured D t (remember now (LaunchTemplateName Hash t) lt p) (Ok lt).
Proof.
  intros Hs Ht. destruct (templates_sound _ _ _ Ht). split; [by apply sound_remember|].
  intros ? [= <-]. by repeat split.
Qed.

Lemma create_sound now D t p p' r :
  sound now D p →
  createLaunchTemplate Hash AsApproximateFloat64 Script reservedCapacity KubeDNSIP t p = Some (p', r) →
  sound now D p' ∧ lp_cache p' = lp_cache p ∧ keeps ∅ (lp_ec2 p) (lp_ec2 p') ∧
  ∀ lt, r = Ok lt → templates (lp_ec2 p') (LaunchTemplateName Hash t) = Some lt.
Proof.
  intros Hs. unfold createLaunchTemplate. destruct (Script _) as [userData|e].
  2: { intros [= <- <-]. split; [done|]. split; [done|]. split; [apply keeps_refl|done]. }
  destruct (Build _ _ _ _ _ _) as [input|] eqn:Hb; simpl; [|done].
  pose proof (Create_sound input (lp_ec2 p)) as Hc. pose proof (keeps_create input (lp_ec2 p)) as Hk.
  destruct (CreateLaunchTemplate input (lp_ec2 p)) as [w x]. intros [= <- <-].
  split; [by apply sound_keeps_same|]. split; [done|]. split; [done|].
  intros lt ->. destruct (Hc _ eq_refl) as [_ Ht].
  replace (LaunchTemplateName Hash t) with (cl_LaunchTemplateName input); [done|].
  unfold Build in Hb. repeat (destruct (generateNetworkInterfaces _ _) || destruct (blockDeviceMappings _ _));
    simpl in Hb; by simplify_eq.
Qed.

Lemma ensure_sound now D t p p' r :
  sound now D p → ensure now t p = Some (p', r) →
  sound now D p' ∧ keeps ∅ (lp_ec2 p) (lp_ec2 p') ∧ ensured D t p' r.
Proof.
  intros Hs. unfold ensureLaunchTemplate. destruct (GoCache.Get _ _ _) as [lt|] eqn:Hg.
  { intros [= <- <-]. destruct (Get_Some_items _ _ _ _ Hg) as [e Hi].
    destruct (sound_known _ _ _ Hs _ _ _ Hi) as (_ & Hn & He). pose proof (sound_live _ _ _ Hs _ _ Hg) as Hl.
    split; [by apply sound_remember|]. split; [apply keeps_refl|]. intros ? [= <-]. by repeat split. }
  pose proof (keeps_describe [LaunchTemplateName Hash t] (lp_ec2 p)) as Hk.
  pose proof (Describe_sound (LaunchTemplateName Hash t) (lp_ec2 p)) as Hd.
  pose proof (Describe_templates [LaunchTemplateName Hash t] (lp_ec2 p)) as Hw.
  destruct (DescribeLaunchTemplates _ _) as [w output]; simpl in *.
  assert (sound now D (with_ec2 w p)) as Hs' by (by apply sound_keeps_same).
  destruct output as [l|e].
  - destruct l as [|lt [|lt2 l]]; intros; simplify_eq; try (split; [done|split; [done|done]]).
    destruct (Hd [lt] lt eq_refl) as [_ Ht]; [set_solver|].
    destruct (ensured_remember now D t (with_ec2 w p) lt Hs'); [simpl; congruence|done].
  - destruct (IsNotFound _); [|by intros; simplify_eq].
    destruct (createLaunchTemplate _ _ _ _ _ _ _) as [[p1 r1]|] eqn:Hc; simpl; [|done].
    destruct (create_sound _ _ _ _ _ _ Hs' Hc) as (Hs1 & _ & Hk1 & Ht).
    pose proof (keeps_trans _ _ _ _ _ (Hk ∅) Hk1) as Hk2. rewrite union_idemp_L in Hk2.
    destruct r1 as [lt|e1]; intros; simplify_eq; [|done].
    destruct (ensured_remember now D t p1 lt Hs1 (Ht _ eq_refl)); done.
Qed.

Lemma sound_callback now D k lt p :
  sound now D p → ever (lp_ec2 p) (elt_LaunchTemplateId lt) k →
  (∀ v, items (lp_cache p) !! k ≠ Some (v, Some now)) →
  sound now D (cachedEvictedFunc now k lt p).
Proof.
  intros Hs He Hx. unfold cachedEvictedFunc.
  assert (sound now D (with_ec2 (DeleteByID (elt_LaunchTemplateId lt) (lp_ec2 p)).1 p) ∨
          ∃ e, GetExpiration (lp_cache p) now k = Some e ∧ now < e) as [?|(e & -> & ?)].
  2-3: repeat case_match; try case_decide; done.
  destruct (GoCache.Get (lp_cache p) now k) as [v|] eqn:Hg.
  - right. unfold GetExpiration. rewrite Get_items in Hg.
    destruct (items (lp_cache p) !! k) as [[v' e]|] eqn:Hi; simpl in Hg; [|done].
    unfold live_value in Hg; simpl in Hg. destruct (expired now e) eqn:Hexp; [done|].
    destruct (sound_known _ _ _ Hs _ _ _ Hi) as (? & _). destruct e as [e|]; [|done].
    exists e. split; [done|]. apply bool_decide_eq_false in Hexp.
    assert (e ≠ now) by (intros ->; by apply (Hx v')). lia.
  - left. split; simpl; [apply Hs| |].
    + intros k' lt' e Hi. destruct (sound_known _ _ _ Hs _ _ _ Hi) as (? & ? & ?).
      eauto using DeleteByID_ever.
    + intros k' lt' Hg' Hd. pose proof (sound_live _ _ _ Hs _ _ Hg' Hd) as Ht.
      apply DeleteByID_keeps; [done|]. intros Heq. destruct (templates_sound _ _ _ Ht) as [_ He'].
      rewrite Heq in He'. rewrite (ever_functional _ _ _ _ He He') in Hg. congruence.
Qed.

Lemma sound_invalidate now D name p : sound now D p → sound now (D ∖ {[ name ]}) (InvalidateCache name p).
Proof.
  intros [Ht Hk Hl]. split; unfold InvalidateCache; simpl.
  - by rewrite Delete_ttl.
  - intros k lt e. rewrite Delete_items, lookup_delete. case_decide; [done|apply Hk].
  - intros k lt. rewrite Get_Delete. case_decide; [done|]. intros. apply Hl; set_solver.
Qed.

Lemma sound_time now now' D p : now ≤ now' → sound now D p → sound now' D p.
Proof.
  intros Hle [Ht Hk Hl]. split; [done|done|]. intros k lt Hg. apply Hl.
  destruct (GoCache.Get (lp_cache p) now k) as [lt'|] eqn:Hg'.
  - rewrite Get_items in Hg, Hg'. destruct (items (lp_cache p) !! k) as [[v e]|]; simpl in *; [|done].
    unfold live_value in *; simpl in *. repeat case_match; congruence.
  - by rewrite (Get_mono _ _ _ _ Hle Hg') in Hg.
Qed.

Lemma sound_janitor now D c evicted p :
  sound now D p → DeleteExpired (lp_cache p) now = (c, evicted) →
  sound now D (with_cache c p) ∧ ∀ k lt, (k, lt) ∈ evicted → ever (lp_ec2 p) (elt_LaunchTemplateId lt) k.
Proof.
  intros [Ht Hk Hl] Hd. pose proof (DeleteExpired_ttl (lp_cache p) now) as Htt.
  pose proof (DeleteExpired_items (lp_cache p) now) as Hi.
  pose proof (DeleteExpired_evicted (lp_cache p) now) as He.
  pose proof (Get_DeleteExpired (lp_cache p) now now) as Hg. rewrite Hd in *; simpl in *. split.
  - split; simpl; [congruence| |].
    + intros k lt e. rewrite Hi. destruct (items (lp_cache p) !! k) as [it|] eqn:Hp; simpl; [|done].
      case_match; [done|]. intros; simplify_eq. eauto.
    + intros k lt. rewrite Hg by done. apply Hl.
  - intros k lt Hin. apply He in Hin as (e & Hp & _). by destruct (Hk _ _ _ Hp) as (_ & _ & ?).
Qed.

Lemma sound_hydrate_page now D page p :
  sound now D p → (∀ lt, lt ∈ page → templates (lp_ec2 p) (elt_LaunchTemplateName lt) = Some lt) →
  let q := foldl (λ p lt, remember now (elt_LaunchTemplateName lt) lt p) p page in
  sound now D q ∧ lp_ec2 q = lp_ec2 p.
Proof.
  revert p. induction page as [|lt page IH]; intros p Hs Hp; simpl; [done|].
  assert (templates (lp_ec2 p) (elt_LaunchTemplateName lt) = Some lt) as Ht by (apply Hp; by left).
  destruct (templates_sound _ _ _ Ht).
  destruct (IH (remember now (elt_LaunchTemplateName lt) lt p)) as [? ->]; [by apply sound_remember| |done].
  intros lt' ?. apply Hp. by right.
Qed.

Lemma sound_hydrate_pages now D pages p :
  sound now D p →
  (∀ lt, pages_elem lt pages → templates (lp_ec2 p) (elt_LaunchTemplateName lt) = Some lt) →
  sound now D (hydrate_pages now pages p) ∧ lp_ec2 (hydrate_pages now pages p) = lp_ec2 p.
Proof.
  revert p. induction pages as [|[page|e] pages IH]; intros p Hs Hp; [done| |done]. simpl.
  destruct (sound_hydrate_page now D page p Hs) as [Hs' He].
  { intros lt ?. apply Hp. exists page. split; [by left|done]. }
  rewrite <- He. apply IH; [done|]. intros lt (l & ? & ?). rewrite He. apply Hp.
  exists l. split; [by right|done].
Qed.

Lemma sound_hydrate now D p :
  sound now D p →
  sound now D (hydrateCache ClusterName now p) ∧ keeps ∅ (lp_ec2 p) (lp_ec2 (hydrateCache ClusterName now p)).
Proof.
  intros Hs. unfold hydrateCache. pose proof (Pages_sound [cluster_filter ClusterName] (lp_ec2 p)) as Hp.
  pose proof (Pages_templates [cluster_filter ClusterName] (lp_ec2 p)) as Hw.
  pose proof (keeps_pages [cluster_filter ClusterName] (lp_ec2 p)) as Hk.
  destruct (DescribePages _ _) as [w pages]; simpl in *.
  assert (∀ lt, pages_elem lt pages → templates w (elt_LaunchTemplateName lt) = Some lt) as Hp'
    by (intros; rewrite Hw; eauto).
  destruct (sound_hydrate_pages now D pages (with_ec2 w p)) as [? ->]; [by apply sound_keeps_same|done|done].
Qed.

Lemma delete_names_keeps names p es :
  keeps (list_to_set names) (lp_ec2 p) (lp_ec2 (foldl delete_name (p, es) names).1) ∧
  lp_cache (foldl delete_name (p, es) names).1 = lp_cache p.
Proof.
  revert p es. induction names as [|name names IH]; intros p es; simpl; [by split; [apply keeps_refl|]|].
  unfold delete_name at 2 4; simpl. pose proof (keeps_delete name (lp_ec2 p)) as Hk.
  destruct (DeleteByName name (lp_ec2 p)) as [w e]; simpl in *.
  destruct (IH (with_ec2 w p) (es ++ option_list e)) as [Hn Hc]. split; [|done].
  by apply (keeps_trans _ _ _ _ _ Hk).
Qed.

Lemma sound_deleteAll now D nc deleted p :
  sound now D p →
  (∀ names, page_names (DescribePages [cluster_filter ClusterName; nodeclass_filter nc] (lp_ec2 p)).2 = Ok names →
     list_to_set names ⊆ deleted) →
  sound now (D ∪ deleted) (DeleteAll ClusterName nc p).1 ∧
  keeps deleted (lp_ec2 p) (lp_ec2 (DeleteAll ClusterName nc p).1).
Proof.
  intros Hs Hd. unfold DeleteAll. pose proof (keeps_pages [cluster_filter ClusterName; nodeclass_filter nc] (lp_ec2 p)) as Hk.
  destruct (DescribePages _ _) as [w pages]; simpl in *.
  destruct (page_names pages) as [names|e]; simpl; [|by split; [apply sound_keeps|]].
  destruct (delete_names_keeps names (with_ec2 w p) []) as [Hn Hc].
  assert (keeps deleted (lp_ec2 p) (lp_ec2 (foldl delete_name (with_ec2 w p, []) names).1)) as Hall.
  { eapply keeps_weaken; [|apply (keeps_trans ∅ _ _ _ _ (Hk ∅) Hn)]. specialize (Hd _ eq_refl). set_solver. }
  split; [|done]. by apply (sound_ec2 now D deleted p).
Qed.

Lemma step_invariant s s' : step s s' → invariant s → invariant s'.
Proof.
  intros Hstep [Hs Hp].
  destruct Hstep as [s now' Hx|s t p r Hx|s c evicted Hx|s c evicted Hx|s l k lt l' Hx Hn|s name|s|s D w' Hx|s nc D Hx].
  - split; [by eapply sound_time|done].
  - destruct (ensure_sound _ _ _ _ _ _ Hs Hx) as (? & [_ He] & _). split; simpl; eauto.
  - destruct (sound_janitor _ _ _ _ _ Hs Hx) as [? He]. split; simpl; [done|].
    intros k lt [?|?]%elem_of_app; eauto.
  - destruct (sound_janitor _ _ _ _ _ Hs Hx) as [? _]. by split.
  - assert ((k, lt) ∈ sy_pending s) as Hin by (rewrite Hx; set_solver).
    split; simpl; [apply sound_callback; eauto|]. intros k' lt' Hin'.
    assert (ever (lp_ec2 (sy_provider s)) (elt_LaunchTemplateId lt') k') by (apply Hp; rewrite Hx; set_solver).
    unfold cachedEvictedFunc. repeat case_match; simpl; eauto using DeleteByID_ever.
  - split; [by apply sound_invalidate|done].
  - destruct (sound_hydrate _ _ _ Hs) as [? [_ He]]. split; simpl; eauto.
  - split; simpl; [by apply sound_keeps|]. destruct Hx as [_ He]. eauto.
  - destruct (sound_deleteAll _ _ nc D _ Hs Hx) as [? [_ He]]. split; simpl; eauto.
Qed.

(** The provider at start: an empty cache of positive lifetime. *)
Definition initial (s : System) : Prop :=
  0 < defaultTTL (lp_cache (sy_provider s)) ∧ items (lp_cache (sy_provider s)) = ∅ ∧ sy_pending s = [].

Lemma initial_invariant s : initial s → invariant s.
Proof.
  intros (Ht & Hi & Hp). split; [|rewrite Hp; set_solver]. split; [done| |].
  - intros k lt e. by rewrite Hi, lookup_empty.
  - intros k lt. by rewrite Get_items, Hi, lookup_empty.
Qed.

Lemma reachable_invariant s0 s : initial s0 → rtc step s0 s → invariant s.
Proof.
  intros Hi Hs. apply initial_invariant in Hi. induction Hs; eauto using step_invariant.
Qed.

(** *** What a launch is given *)

(** The launch's template [l] for a resolved one: its name, and the template exists in EC2
    unless it was deleted behind the provider's back. *)
Definition given (D : gset string) (w : W) t (l : LaunchTemplate) : Prop :=
  l = {| lt_Name := LaunchTemplateName Hash t; lt_InstanceTypes := rt_InstanceTypes t;
         lt_ImageID := rt_AMIID t; lt_CapacityReservationID := rt_CapacityReservationID t;
         lt_Zone := rt_Zone t |} ∧
  (lt_Name l ∉ D → is_Some (templates w (lt_Name l))).

Lemma given_keeps D w w' t l : keeps ∅ w w' → given D w t l → given D w' t l.
Proof. intros [Hk _] [Hl Ht]. split; [done|]. intros [lt ?]%Ht. exists lt. apply Hk; set_solver. Qed.

Lemma ensure_templates_sound now D ts p p' r :
  sound now D p →
  ensure_templates Hash AsApproximateFloat64 Script reservedCapacity KubeDNSIP now ts p = Some (p', r) →
  sound now D p' ∧ keeps ∅ (lp_ec2 p) (lp_ec2 p') ∧ ∀ lts, r = Ok lts → Forall2 (given D (lp_ec2 p')) ts lts.
Proof.
  revert p p' r. induction ts as [|t ts IH]; intros p p' r Hs; simpl.
  { intros [= <- <-]. split; [done|]. split; [apply keeps_refl|]. intros ? [= <-]. constructor. }
  destruct (ensureLaunchTemplate _ _ _ _ _ _ _ _) as [[p1 [lt|e]]|] eqn:E; simpl; [| |done];
    destruct (ensure_sound _ _ _ _ _ _ Hs E) as (Hs1 & Hk1 & Ht); [|by intros [= <- <-]].
  destruct (ensure_templates _ _ _ _ _ _ _ _) as [[p2 r2]|] eqn:E2; simpl; [|done].
  destruct (IH _ _ _ Hs1 E2) as (Hs2 & Hk2 & Hts). intros [= <- <-].
  split; [done|]. split; [by rewrite <- (union_idemp_L ∅); eapply keeps_trans|].
  destruct r2 as [lts|e]; [|done]. intros ? [= <-]. constructor; [|by apply Hts].
  apply (given_keeps _ _ _ _ _ Hk2). destruct (Ht _ eq_refl) as (Hn & _ & Hl).
  unfold given, template_of_ec2; simpl. rewrite Hn. split; [done|]. intros ?. eexists. by apply Hl.
Qed.

Section ensure_all.
Context {CL CA Ast Program : Type} `{GoCache unit CL} `{GoCache PlacementGroup CA}.
Variable Unmarshal : KubeletConfiguration → result error ParsedKubeletConfig.
Variable env_Compile : string → result error Ast.
Variable OutputType : Ast → CelType.
Variable env_Program : Ast → result error Program.
Variable Eval : Program → InstanceTypeVars → result error CelValue.
Variable out_of_range : float64 → Z.
Variable GetLabelDomain : string → string.
Variable region : string.
Variable eniLookup : string → option (Z * Z).
Variable NodeClassCEL : bool.
Variable CacheKey : PlacementGroupSelector → string.
Variable DescribePlacementGroups : DescribePlacementGroupsInput_ → result error (list EC2PlacementGroup).
Variable efaEnabled : bool.
Variable ClusterEndpoint : string.
Variable CABundle : option string.

(** C22: Launch templates: whatever the provider went through before (launches, time, the
    janitor and its late callbacks, invalidations, hydration, deletions of a NodeClass's
    templates, and other clients of EC2), when [EnsureAll] succeeds it gives the launch one
    template per resolved template, in order, named by its hash and with its instance
    types, image and reservation; and each of them exists in EC2 at that point, all
    together, unless somebody deleted that name in EC2 and the provider was not told by
    [InvalidateCache] since.  In particular the callbacks that delete evicted templates
    never delete one that is in use again. *)
Theorem EnsureAll_templates s0 s nc labels taints reqs its ct tags tenancy p' (pgs pgs' : PGProvider CL CA) nc' lts :
  initial s0 → rtc step s0 s →
  EnsureAll Hash AsApproximateFloat64 Script reservedCapacity ClusterName ClusterEndpoint CABundle KubeDNSIP
    (sy_now s) Unmarshal env_Compile OutputType env_Program Eval out_of_range GetLabelDomain region eniLookup
    NodeClassCEL CacheKey DescribePlacementGroups efaEnabled
    nc labels taints reqs its ct tags tenancy (sy_provider s) pgs = Some (p', pgs', nc', Ok lts) →
  ∃ lp opts ts,
    Resolve Unmarshal env_Compile OutputType env_Program Eval out_of_range GetLabelDomain region eniLookup
      NodeClassCEL nc lp its opts = Some (nc', Ok ts) ∧
    lp_capacityType lp = ct ∧ lp_tenancy lp = tenancy ∧ o_SecurityGroups opts = SecurityGroups (Status nc) ∧
    Forall2 (given (sy_disowned s) (lp_ec2 p')) ts lts.
Proof.
  intros Hi Hr. destruct (reachable_invariant _ _ Hi Hr) as [Hs _]. unfold EnsureAll, CreateAMIOptions.
  destruct (AMIFamily nc) as [fam|]; simpl; [|done]. case_decide; simpl; [done|].
  destruct (Get_ _ _ _ _ _) as [pgs1 [pg e]]. destruct (placement_of _ _) as [id part].
  match goal with |- context [Resolve _ _ _ _ _ _ _ _ _ _ nc ?lp its ?opts] =>
    destruct (Resolve Unmarshal env_Compile OutputType env_Program Eval out_of_range GetLabelDomain region eniLookup
      NodeClassCEL nc lp its opts) as [[nc1 [ts|e1]]|] eqn:E; simpl; [exists lp, opts, ts| |]; [|done..] end.
  destruct (ensure_templates _ _ _ _ _ _ _ _) as [[p1 r1]|] eqn:E1; simpl in *; [|done]. simplify_eq.
  destruct (ensure_templates_sound _ _ _ _ _ _ Hs E1) as (_ & _ & Hts). by repeat split; auto.
Qed.
End ensure_all.

(** *** Deleting a NodeClass's templates *)

Lemma delete_name_eq p es name :
  delete_name (p, es) name =
  (with_ec2 (DeleteByName name (lp_ec2 p)).1 p, es ++ option_list (DeleteByName name (lp_ec2 p)).2).
Proof. unfold delete_name; simpl. by destruct (DeleteByName name (lp_ec2 p)). Qed.

Lemma delete_names_stay names p es n :
  templates (lp_ec2 p) n = None → templates (lp_ec2 (foldl delete_name (p, es) names).1) n = None.
Proof.
  revert p es. induction names as [|name names IH]; intros p es Hn; simpl; [done|].
  rewrite delete_name_eq. apply IH. simpl. apply eq_None_not_Some. intros [t Ht%DeleteByName_sub]. congruence.
Qed.

Lemma delete_names_gone names p es :
  (foldl delete_name (p, es) names).2 = [] →
  es = [] ∧ ∀ n, n ∈ names → templates (lp_ec2 (foldl delete_name (p, es) names).1) n = None.
Proof.
  revert p es. induction names as [|name names IH]; intros p es; simpl; [set_solver|].
  rewrite delete_name_eq.
  intros Hf. destruct (IH _ _ Hf) as [[-> He]%app_nil Hn]. split; [done|].
  intros n [->|Hin]%elem_of_cons; [|by apply Hn]. apply delete_names_stay. simpl. apply DeleteByName_gone.
  by destruct (DeleteByName name (lp_ec2 p)).2.
Qed.

Lemma page_names_spec pages names :
  page_names pages = Ok names →
  (∀ page lt, Ok page ∈ pages → lt ∈ page → elt_LaunchTemplateName lt ∈ names) ∧ ∀ e, Err e ∉ pages.
Proof.
  revert names. induction pages as [|[page|e] pages IH]; intros names; simpl; [intros [= <-]; set_solver| |done].
  destruct (page_names pages) as [names'|]; simpl; [|done]. intros [= <-]. destruct (IH _ eq_refl) as [IH1 IH2].
  split; [|set_solver].
  intros page' lt [[= ->]|?]%elem_of_cons ?; apply elem_of_app; [left|right; eauto]. by apply list_elem_of_fmap_2.
Qed.

(** Without an error the listed templates are gone, and the cache is as it was. *)
Lemma DeleteAll_gone nc p p' :
  DeleteAll ClusterName nc p = (p', []) →
  lp_cache p' = lp_cache p ∧
  ∀ page lt, Ok page ∈ (DescribePages [cluster_filter ClusterName; nodeclass_filter nc] (lp_ec2 p)).2 → lt ∈ page →
    templates (lp_ec2 p') (elt_LaunchTemplateName lt) = None.
Proof.
  unfold DeleteAll. destruct (DescribePages _ _) as [w pages]; simpl.
  destruct (page_names pages) as [names|e] eqn:Ep; [|done]. destruct (page_names_spec _ _ Ep) as [Hin _]. intros E.
  pose proof (delete_names_keeps names (with_ec2 w p) []) as [_ Hc].
  pose proof (delete_names_gone names (with_ec2 w p) []) as Hg. rewrite E in *; simpl in *.
  split; [done|]. destruct (Hg eq_refl) as [_ Hn]. eauto.
Qed.

End properties.

(** ** One EC2 *)

Module RefEC2.
(** The templates ever created, in order, with whether they still exist; the position is
    the ID. *)
Abbreviation t := (list (string * bool)) (only parsing).
Definition find (w : t) (n : string) : option EC2LaunchTemplate :=
  '(i, _) ← list_find (λ e, e = (n, true)) w;
  Some {| elt_LaunchTemplateId := fmt_int (Z.of_nat i); elt_LaunchTemplateName := n |}.
Definition not_found : error :=
  {| Error := "the specified launch template does not exist";
     asAPIError := Some {| ErrorCode := launchTemplateNameNotFoundCode; ErrorMessage := "";
                           ErrorFault := FaultClient |} |}.
Definition remove (P : nat → string → bool) (w : t) : t :=
  imap (λ i e, if P i e.1 then (e.1, false) else e) w.

#[global] Instance ref_ec2 : LaunchTemplateAPI t := {|
  DescribeLaunchTemplates names w :=
    (w, match mapM (find w) names with Some l => Ok l | None => Err not_found end);
  DescribePages _ w := (w, [Ok (omap (λ e, find w e.1) w)]);
  CreateLaunchTemplate input w :=
    match find w (cl_LaunchTemplateName input) with
    | Some _ => (w, Err (errorf "already exists"))
    | None => let n := cl_LaunchTemplateName input in
              (w ++ [(n, true)],
               Ok {| elt_LaunchTemplateId := fmt_int (Z.of_nat (length w)); elt_LaunchTemplateName := n |})
    end;
  DeleteByID id w := (remove (λ i _, bool_decide (fmt_int (Z.of_nat i) = id)) w, None);
  DeleteByName name w := (remove (λ _ n, bool_decide (n = name)) w, None);
  templates := find;
  ever w id n := ∃ i b, w !! i = Some (n, b) ∧ id = fmt_int (Z.of_nat i);
|}.

Lemma find_Some (w : t) n lt :
  find w n = Some lt ↔
  ∃ i, lt = {| elt_LaunchTemplateId := fmt_int (Z.of_nat i); elt_LaunchTemplateName := n |} ∧
    w !! i = Some (n, true) ∧ ∀ j, (j < i)%nat → w !! j ≠ Some (n, true).
Proof.
  unfold find. split.
  - destruct (list_find _ w) as [[i e]|] eqn:E; simpl; [|done]. intros [= <-].
    apply list_find_Some in E as (? & -> & Hj). exists i. repeat split; [done|].
    intros j Hlt Hw. by apply (Hj j _ Hw Hlt).
  - intros (i & -> & Hi & Hj).
    assert (list_find (λ e, e = (n, true)) w = Some (i, (n, true))) as ->; [|done].
    apply list_find_Some. repeat split; [done|]. intros j y Hw Hlt ->. by apply (Hj j).
Qed.

Lemma find_None (w : t) n i : find w n = None → w !! i ≠ Some (n, true).
Proof.
  unfold find. destruct (list_find _ w) as [[j e]|] eqn:E; [done|]. intros _ Hi.
  apply list_find_None in E. rewrite Forall_lookup in E. by eapply E.
Qed.

Lemma remove_lookup P (w : t) i : remove P w !! i = (λ e, if P i e.1 then (e.1, false) else e) <$> w !! i.
Proof. apply list_lookup_imap. Qed.

Lemma remove_ever P (w : t) id n : ever w id n → ever (remove P w) id n.
Proof.
  intros (i & b & Hi & ->). exists i. setoid_rewrite remove_lookup. rewrite Hi; simpl. destruct (P i n); eauto.
Qed.

Lemma remove_keeps P (w : t) n lt :
  find w n = Some lt → (∀ i, elt_LaunchTemplateId lt = fmt_int (Z.of_nat i) → P i n = false) →
  find (remove P w) n = Some lt.
Proof.
  rewrite !find_Some. intros (i & -> & Hi & Hj) Hp. exists i. split; [done|].
  rewrite remove_lookup, Hi. simpl. rewrite Hp by done. split; [done|].
  intros j Hlt. rewrite remove_lookup. intros Hx. apply (Hj j Hlt).
  destruct (w !! j) as [[m b]|]; simpl in *; [|done]. destruct (P j m); congruence.
Qed.

#[global] Instance ref_ec2_laws : LaunchTemplateAPILaws t.
Proof.
  split; try done; simpl.
  - intros name w l lt. destruct (find w name) as [u|] eqn:E; simpl; [|done]. intros [= <-] ->%list_elem_of_singleton.
    pose proof E as (? & -> & _)%find_Some. done.
  - intros _ w lt (page & Hp & Ht). apply list_elem_of_singleton in Hp as [= ->].
    apply list_elem_of_omap in Ht as (e & _ & He). pose proof He as (? & -> & _)%find_Some. done.
  - intros input w n lt Hn. destruct (find w (cl_LaunchTemplateName input)); [done|]. simpl.
    apply find_Some in Hn as (i & -> & Hi & Hj). apply find_Some. exists i. split; [done|].
    pose proof (lookup_lt_Some _ _ _ Hi). rewrite lookup_app_l by done. split; [done|].
    intros j ?. rewrite lookup_app_l by lia. eauto.
  - intros input w id n (i & b & Hi & ->). destruct (find w _); [by eexists _, _|].
    exists i, b. split; [|done]. by apply lookup_app_l_Some.
  - intros input w lt. destruct (find w _) eqn:E; [done|]. intros [= <-]. split; [done|]. simpl.
    apply find_Some. exists (length w). split; [done|]. split; [by apply list_lookup_middle|].
    intros j Hlt Hx. rewrite lookup_app_l in Hx by done. by eapply find_None.
  - intros id w n lt Hn Hid. apply remove_keeps; [done|]. intros i Hi. apply bool_decide_eq_false. congruence.
  - intros id w i n. apply remove_ever.
  - intros name w n lt Hn Hne. apply remove_keeps; [done|]. intros i Hi. by apply bool_decide_eq_false.
  - intros name w n lt. rewrite !find_Some. intros (i & -> & Hi & Hj). exists i. split; [done|].
    rewrite remove_lookup in Hi.
    destruct (w !! i) as [[m b]|] eqn:Hw; simpl in Hi; [|done].
    case_bool_decide as Hm; simplify_eq. split; [done|]. intros j Hlt Hx. apply (Hj j Hlt).
    rewrite remove_lookup, Hx. simpl. by rewrite bool_decide_false.
  - intros name w _. apply eq_None_not_Some. intros [lt (i & -> & Hi & _)%find_Some].
    rewrite remove_lookup in Hi. destruct (w !! i) as [[m b]|]; simpl in Hi; [|done].
    case_bool_decide; congruence.
  - intros name w id n. apply remove_ever.
  - intros w n lt (i & -> & _)%find_Some. done.
  - intros w n lt (i & -> & ? & _)%find_Some. by exists i, true.
  - intros w id n n' (i & b & Hi & ->) (j & b' & Hj & Hij%fmt_int_inj). assert (i = j) as -> by lia. congruence.
Qed.
End RefEC2.

(** ** Executions *)

Section example.

(** A template that outlived a restart, and an empty cache. *)
Definition example_hash (t : ResolvedTemplate) : Z := if decide (rt_AMIID t = "ami-arm") then 1 else 2.
Definition example_provider : LTProvider (list (string * bool)) (RefCache.t EC2LaunchTemplate) :=
  {| lp_cache := New (5 * Minute); lp_ClusterCIDR := None; lp_ec2 := [("karpenter.k8s.aws/1", true)] |}.
Definition example_groups : PGProvider (RefCache.t unit) (RefCache.t PlacementGroup) :=
  {| pgCache := New Minute; pgAvailabilityCache := New Hour; pg_calls := 0 |}.
Definition example_system (now : Z) p :
    System (W := list (string * bool)) (C := RefCache.t EC2LaunchTemplate) :=
  {| sy_provider := p; sy_now := now; sy_pending := []; sy_disowned := ∅ |}.
Definition hydrated := hydrateCache "cluster" 0 example_provider.

Abbreviation example_step := (step example_hash (λ _, 0) (λ _, Ok "user data") true "cluster" None).

Lemma example_run : rtc example_step (example_system 0 example_provider) (example_system 60 hydrated).
Proof.
  eapply rtc_l; [apply step_hydrate|]. eapply rtc_l; [apply (step_tick _ _ _ _ _ _ _ 60); by simpl|].
  apply rtc_refl.
Qed.

Definition example_ensure_all :=
  EnsureAll example_hash (λ _, 0) (λ _, Ok "user data") true "cluster" "https://cluster" None None 60
    (λ _, Ok example_parsed) example_Compile (λ _, IntType) Ok example_Eval (λ _, 0) (λ _, "")
    "us-west-2" (λ _, None) true (λ _, "") (λ _, Ok []) false example_nodeclass ∅ [] ∅ example_node_types
    "on-demand" ∅ "default" hydrated example_groups.

Lemma EnsureAll_templates_witness :
  ∃ p' pgs' nc' lts, example_ensure_all = Some (p', pgs', nc', Ok lts) ∧
    Forall (λ l, is_Some (templates (lp_ec2 p') (lt_Name l))) lts.
Proof.
  assert (match example_ensure_all with Some (_, _, _, Ok _) => true | _ => false end = true) as Hok
    by (vm_compute; reflexivity).
  destruct example_ensure_all as [[[[p' pgs'] nc'] [lts|e]]|] eqn:E; [|discriminate Hok|discriminate Hok].
  exists p', pgs', nc', lts. split; [reflexivity|]. unfold example_ensure_all in E.
  assert (initial (example_system 0 example_provider)) as Hi.
  { split; [|split]; [vm_compute|..]; reflexivity. }
  destruct (EnsureAll_templates _ _ _ _ _ _ _ _ _ _ _ _ _ _ _ _ _ _ _ _ _ _ _ _ _ _ _ _ _ _ _ _ _ _ _ _ Hi example_run E)
    as (_ & _ & ts & _ & _ & _ & _ & Hts).
  clear -Hts. induction Hts as [|t l ts lts [_ Hl] _ IH]; constructor; [|exact IH].
  apply Hl. exact (not_elem_of_empty _).
Defined.

Definition example_deleted := DeleteAll "cluster" example_nodeclass example_provider.

End example.
