(* ===== verification/Subnet.v ===== *)
(** * [pkg/providers/subnet]: subnets and the IP addresses launches use

    [subnet.go]: [List] describes the subnets of a NodeClass and refreshes the known address
    counts; [ZonalSubnetsForLaunch] picks, per zone, the subnet with the most addresses and
    deducts those the launch is expected to use; [UpdateInflightIPs] gives back the
    deductions in the subnets the fleet did not choose.  The methods hold the provider's
    lock, so each is one step; one clock reading stands for the whole step.  The order of
    map iterations is that of [map_to_list].  EC2, the conversion of a quantity to an
    [int64] and the NodeClass hash are parameters; logging is left out. *)
From S2P Require Import Prelude GoCache AwsErrors ApiV1 CapacityReservation Scheduling.


(** ** Data *)

(** [ec2types.Subnet], with the fields the provider reads. *)
Record EC2Subnet := {
  es_SubnetId : option string;
  es_AvailabilityZone : option string;
  es_AvailabilityZoneId : option string;
  es_AvailableIpAddressCount : option Z;
}.
#[export] Instance EC2Subnet_eq_dec : EqDecision EC2Subnet.
Proof. solve_decision. Defined.

(** [subnet.Subnet], the subnet of a zone for one launch. *)
Record ZonalSubnet := {
  zs_ID : string;
  zs_Zone : string;
  zs_ZoneID : string;
  zs_AvailableIPAddressCount : Z;
}.

(** [getFilterSets]: one filter set per tag selector, and one for all the IDs. *)
Definition add_term (st : list string * list (list Filter)) (term : SubnetSelectorTerm) :
    list string * list (list Filter) :=
  if decide (sst_ID term ≠ "") then (st.1 ++ [sst_ID term], st.2)
  else (st.1, st.2 ++ [tag_filter <$> map_to_list (sst_Tags term)]).

Definition getFilterSets (terms : list SubnetSelectorTerm) : list (list Filter) :=
  let '(ids, res) := foldl add_term ([], []) terms in
  if decide (ids ≠ []) then res ++ [[{| f_Name := "subnet-id"; f_Values := ids |}]] else res.

(** [lo.Compact(lo.Uniq(ids))] *)
Definition compact_uniq (ids : list string) : list string := filter (λ id, id ≠ "") (UniqBy id ids).

Section provider.
Context `{S : Scheduling}.
Context {CS CI : Type} `{GoCache (list EC2Subnet) CS, GoCache Z CI}.

(** [DefaultProvider] *)
Record SubnetProvider := {
  sp_cache : CS;
  availableIPAddressCache : CI;
  inflightIPs : gmap string Z;
}.

Definition with_inflight (f : gmap string Z → gmap string Z) (p : SubnetProvider) : SubnetProvider :=
  {| sp_cache := sp_cache p; availableIPAddressCache := availableIPAddressCache p;
     inflightIPs := f (inflightIPs p) |}.

(** ** List *)

(** The describe call for a filter set: the pages it yields, and the error that ends it. *)
Variable DescribeSubnets : list Filter → list (list EC2Subnet) * option error.

(** One described subnet: its count is fresh, so nothing is in flight. *)
Definition refresh_subnet (now : Z) (st : SubnetProvider * gmap string EC2Subnet) (s : EC2Subnet) :
    SubnetProvider * gmap string EC2Subnet :=
  let '(p, subnets) := st in
  let id := default "" (es_SubnetId s) in
  ({| sp_cache := sp_cache p;
      availableIPAddressCache :=
        SetDefault (availableIPAddressCache p) now id (default 0 (es_AvailableIpAddressCount s));
      inflightIPs := delete id (inflightIPs p) |},
   <[id := s]> subnets).

(** The pages before an error are already recorded when it is returned. *)
Fixpoint list_filter_sets (now : Z) (filterSets : list (list Filter))
    (st : SubnetProvider * gmap string EC2Subnet) : SubnetProvider * result error (gmap string EC2Subnet) :=
  match filterSets with
  | [] => (st.1, Ok st.2)
  | filters :: rest =>
      let '(pages, err) := DescribeSubnets filters in
      let st := foldl (refresh_subnet now) st (mjoin pages) in
      match err with
      | Some e => (st.1, Err (wrap "describing subnets with filters" e))
      | None => list_filter_sets now rest st
      end
  end.

Definition List_ (now : Z) (nodeClassHash : string) (terms : list SubnetSelectorTerm)
    (p : SubnetProvider) : SubnetProvider * result error (list EC2Subnet) :=
  match getFilterSets terms with
  | [] => (p, Ok [])
  | filterSets =>
      match GoCache.Get (sp_cache p) now nodeClassHash with
      | Some subnets => (p, Ok subnets)
      | None =>
          match list_filter_sets now filterSets (p, ∅) with
          | (p, Err e) => (p, Err e)
          | (p, Ok subnets) =>
              let values := snd <$> map_to_list subnets in
              ({| sp_cache := SetDefault (sp_cache p) now nodeClassHash values;
                  availableIPAddressCache := availableIPAddressCache p;
                  inflightIPs := inflightIPs p |}, Ok values)
          end
      end
  end.

(** ** minPods *)

(** [Quantity.AsInt64], its first result. *)
Variable AsInt64 : Quantity → Z.

Definition pods_of (it : InstanceType) : Quantity := default 0 (Capacity it !! ResourcePods).

(** [lo.MinBy]: the first of the least. *)
Definition min_pods_of (it : InstanceType) (its : list InstanceType) : InstanceType :=
  foldl (λ m it, if decide (pods_of it < pods_of m) then it else m) it its.

Definition minPods (its : list InstanceType) (reqs : Requirements) : Z :=
  match filter (λ it, ofs_Compatible (ofs_Available (Offerings it)) reqs ≠ []) its with
  | [] => 0
  | it :: rest => i32 (AsInt64 (pods_of (min_pods_of it rest)))
  end.

(** The addresses a launch of a capacity type is expected to use in a zone. *)
Definition predicted (its : list InstanceType) (capacityType zone : string) : Z :=
  minPods its (NewRequirements [(CapacityTypeLabelKey, [capacityType]); (LabelTopologyZone, [zone])] []).

(** ** ZonalSubnetsForLaunch *)

Definition cached_counts (now : Z) (subnets : list Subnet) (p : SubnetProvider) : gmap string Z :=
  foldl (λ m s, match GoCache.Get (availableIPAddressCache p) now (sn_ID s) with
                | Some ips => <[sn_ID s := ips]> m
                | None => m
                end) ∅ subnets.

(** The subnet of the zone so far is kept when it has at least as many addresses. *)
Definition keeps_current (counts : gmap string Z) (p : SubnetProvider)
    (zonal : gmap string ZonalSubnet) (subnet : Subnet) : bool :=
  match zonal !! sn_Zone subnet with
  | None => false
  | Some v =>
      let current := default (zs_AvailableIPAddressCount v) (inflightIPs p !! zs_ID v) in
      let new := default (default 0 (counts !! sn_ID subnet)) (inflightIPs p !! sn_ID subnet) in
      bool_decide (new ≤ current)
  end.

Definition choose_subnet (counts : gmap string Z) (p : SubnetProvider)
    (zonal : gmap string ZonalSubnet) (subnet : Subnet) : gmap string ZonalSubnet :=
  if keeps_current counts p zonal subnet then zonal
  else <[sn_Zone subnet :=
           {| zs_ID := sn_ID subnet; zs_Zone := sn_Zone subnet; zs_ZoneID := sn_ZoneID subnet;
              zs_AvailableIPAddressCount := default 0 (counts !! sn_ID subnet) |}]> zonal.

Definition deduct (its : list InstanceType) (capacityType : string) (inflight : gmap string Z)
    (subnet : ZonalSubnet) : gmap string Z :=
  let prevIPs := default (zs_AvailableIPAddressCount subnet) (inflight !! zs_ID subnet) in
  <[zs_ID subnet := i32 (prevIPs - predicted its capacityType (zs_Zone subnet))]> inflight.

Definition ZonalSubnetsForLaunch (now : Z) (statusSubnets : list Subnet) (its : list InstanceType)
    (capacityType : string) (p : SubnetProvider) :
    SubnetProvider * result error (gmap string ZonalSubnet) :=
  if decide (statusSubnets = []) then (p, Err (errorf "no subnets matched selector"))
  else
    let zonal := foldl (choose_subnet (cached_counts now statusSubnets p) p) ∅ statusSubnets in
    (with_inflight (λ m, foldl (deduct its capacityType) m (snd <$> map_to_list zonal)) p, Ok zonal).

(** ** UpdateInflightIPs *)

(** One cached subnet: its deduction is given back when the launch requested the subnet,
    the fleet did not use it, and its count has not been refreshed to another value. *)
Definition add_back (its : list InstanceType) (capacityType : string) (subnets : list ZonalSubnet)
    (addBackIDs : list string) (inflight : gmap string Z) (cached : string * Z) : gmap string Z :=
  if decide (cached.1 ∉ addBackIDs) then inflight
  else match Find (λ s, bool_decide (zs_ID s = cached.1)) subnets with
       | None => inflight
       | Some original =>
           if decide (zs_AvailableIPAddressCount original = cached.2) then
             match inflight !! zs_ID original with
             | Some ips =>
                 <[zs_ID original := i32 (ips + predicted its capacityType (zs_Zone original))]> inflight
             | None => inflight
             end
           else inflight
       end.

(** The subnets requested in the fleet's overrides, and those of the launched instances
    ([None] for a nil response, or an instance without overrides). *)
Definition input_subnets (overrides : list (option string)) : list string :=
  compact_uniq (default "" <$> overrides).
Definition output_subnets (output : option (list (option (option string)))) : list string :=
  match output with
  | None => []
  | Some instances => compact_uniq ((λ o, default "" (mjoin o)) <$> instances)
  end.

Definition UpdateInflightIPs (now : Z) (overrides : list (option string))
    (output : option (list (option (option string)))) (its : list InstanceType)
    (subnets : list ZonalSubnet) (capacityType : string) (p : SubnetProvider) : SubnetProvider :=
  let addBackIDs := filter (λ id, id ∉ output_subnets output) (input_subnets overrides) in
  let cached : gmap string Z := omap (live_value now) (items (availableIPAddressCache p)) in
  with_inflight (λ m, foldl (add_back its capacityType subnets addBackIDs) m (map_to_list cached)) p.

Definition UpdateICEdSubnet (now : Z) (subnetID : string) (p : SubnetProvider) : SubnetProvider :=
  {| sp_cache := sp_cache p;
     availableIPAddressCache := SetDefault (availableIPAddressCache p) now subnetID 0;
     inflightIPs := delete subnetID (inflightIPs p) |}.
End provider.
Arguments SubnetProvider : clear implicits.

(** ** Properties *)

(** The addresses the provider believes a subnet has left. *)
Definition tracked {CS CI} `{GoCache Z CI} (p : SubnetProvider CS CI) (now : Z) (id : string) : Z :=
  default (default 0 (GoCache.Get (availableIPAddressCache p) now id)) (inflightIPs p !! id).

Section choice.
Context `{S : Scheduling}.
Context {CS CI : Type} `{GoCacheLaws (list EC2Subnet) CS, GoCacheLaws Z CI}.
Implicit Types p : SubnetProvider CS CI.

Lemma cached_counts_lookup now subnets p s :
  s ∈ subnets →
  cached_counts now subnets p !! sn_ID s = GoCache.Get (availableIPAddressCache p) now (sn_ID s).
Proof.
  unfold cached_counts. intros Hs. set (f := λ m s, _).
  assert (∀ l m, m !! sn_ID s = GoCache.Get (availableIPAddressCache p) now (sn_ID s) →
    foldl f m l !! sn_ID s = GoCache.Get (availableIPAddressCache p) now (sn_ID s)) as Hkeep.
  { induction l as [|s' l IH]; intros m Hm; [done|]. simpl. apply IH. unfold f.
    destruct (decide (sn_ID s' = sn_ID s)) as [->|Hne].
    - destruct (GoCache.Get _ _ (sn_ID s)) eqn:E; [by rewrite lookup_insert_eq|done].
    - destruct (GoCache.Get _ _ (sn_ID s')); [by rewrite lookup_insert_ne|done]. }
  assert (∀ m, m !! sn_ID s = None → foldl f m subnets !! sn_ID s
    = GoCache.Get (availableIPAddressCache p) now (sn_ID s)) as Hgen; [|by apply Hgen].
  induction subnets as [|s' l IH]; intros m Hm; [by apply elem_of_nil in Hs|]. simpl.
  destruct (decide (sn_ID s' = sn_ID s)) as [Heq|Hne].
  - apply Hkeep. unfold f. rewrite Heq.
    destruct (GoCache.Get _ _ (sn_ID s)) eqn:E; [by rewrite lookup_insert_eq|done].
  - apply elem_of_cons in Hs as [->|Hs]; [done|]. apply IH; [done|]. unfold f.
    destruct (GoCache.Get _ _ (sn_ID s')); [by rewrite lookup_insert_ne|done].
Qed.

(** [v] is the launch's view of the status subnet [s]. *)
Definition view_of now p (s : Subnet) (v : ZonalSubnet) : Prop :=
  zs_ID v = sn_ID s ∧ zs_Zone v = sn_Zone s ∧ zs_ZoneID v = sn_ZoneID s ∧
  zs_AvailableIPAddressCount v = default 0 (GoCache.Get (availableIPAddressCache p) now (sn_ID s)).

(** [v] is the best of the subnets [l] in its zone. *)
Definition best_of now p (l : list Subnet) (zone : string) (v : ZonalSubnet) : Prop :=
  ∃ s, s ∈ l ∧ sn_Zone s = zone ∧ view_of now p s v ∧
    ∀ s', s' ∈ l → sn_Zone s' = zone → tracked p now (sn_ID s') ≤ tracked p now (sn_ID s).

Lemma best_of_snoc now p l s zone v :
  best_of now p l zone v →
  (sn_Zone s = zone → tracked p now (sn_ID s) ≤ tracked p now (zs_ID v)) →
  best_of now p (l ++ [s]) zone v.
Proof.
  intros (x & Hx & Hz & Hv & Hbest) Hle. exists x. split; [set_solver|].
  split; [done|]. split; [done|]. intros s' [?| ->%list_elem_of_singleton]%elem_of_app Hs'; [auto|].
  destruct Hv as [<- _]. auto.
Qed.

Lemma choose_subnet_inv now p status l zone :
  l ⊆ status →
  match foldl (choose_subnet (cached_counts now status p) p) ∅ l !! zone with
  | Some v => best_of now p l zone v
  | None => ∀ s, s ∈ l → sn_Zone s ≠ zone
  end.
Proof.
  induction l as [|s l IH] using rev_ind; intros Hl; [simpl; rewrite lookup_empty; set_solver|].
  rewrite foldl_app. simpl. set (zonal := foldl _ ∅ l) in *.
  specialize (IH ltac:(set_solver)).
  assert (s ∈ status) as Hs by set_solver.
  unfold choose_subnet, keeps_current. rewrite (cached_counts_lookup _ _ _ _ Hs).
  destruct (decide (sn_Zone s = zone)) as [<-|Hne].
  - destruct (zonal !! sn_Zone s) as [v|] eqn:Ev; [case_bool_decide as Hle|].
    + rewrite Ev. apply best_of_snoc; [done|]. intros _.
      destruct IH as (x & _ & _ & (Hid & _ & _ & Hc) & _). unfold tracked. rewrite Hc in Hle.
      by rewrite Hid in *.
    + rewrite lookup_insert_eq. exists s. split; [set_solver|]. split; [done|].
      split; [done|]. intros s' [Hs'| ->%list_elem_of_singleton]%elem_of_app Hz; [|done].
      destruct IH as (x & _ & _ & (Hid & _ & _ & Hc) & Hbest).
      specialize (Hbest s' Hs' Hz). unfold tracked in *. rewrite Hc in Hle. rewrite Hid in *. lia.
    + rewrite lookup_insert_eq. exists s. split; [set_solver|]. split; [done|].
      split; [done|]. intros s' [Hs'| ->%list_elem_of_singleton]%elem_of_app Hz; [|done].
      by destruct (IH s' Hs').
  - assert (match zonal !! zone with
            | Some v => best_of now p (l ++ [s]) zone v
            | None => ∀ s', s' ∈ l ++ [s] → sn_Zone s' ≠ zone end) as Hold.
    { destruct (zonal !! zone) as [v|]; [by apply best_of_snoc|].
      intros s' [?| ->%list_elem_of_singleton]%elem_of_app; auto. }
    destruct (zonal !! sn_Zone s); [case_bool_decide|]; rewrite ?lookup_insert_ne by done; exact Hold.
Qed.

(** The subnets chosen for a launch. *)
Lemma chosen_spec now p status :
  let zonal := foldl (choose_subnet (cached_counts now status p) p) ∅ status in
  (∀ zone, is_Some (zonal !! zone) ↔ ∃ s, s ∈ status ∧ sn_Zone s = zone) ∧
  (∀ zone v, zonal !! zone = Some v → best_of now p status zone v).
Proof.
  intros zonal. pose proof (λ zone, choose_subnet_inv now p status status zone ltac:(done)) as Hinv.
  split; intros zone; specialize (Hinv zone); fold zonal in Hinv.
  - destruct (zonal !! zone) as [v|].
    + destruct Hinv as (s & ? & ? & _). split; [intros _; by exists s|done].
    + split; [by intros []|]. intros (s & Hs & Hz). by destruct (Hinv s Hs).
  - intros v Hv. by rewrite Hv in Hinv.
Qed.

Lemma best_of_zone now p l zone v : best_of now p l zone v → zs_Zone v = zone.
Proof. by intros (s & _ & <- & (_ & ? & _) & _). Qed.

(** The subnets of a launch, as the callers list them, have distinct IDs. *)
Lemma zonal_distinct now p status (zonal : gmap string ZonalSubnet) :
  NoDup (sn_ID <$> status) →
  (∀ zone v, zonal !! zone = Some v → best_of now p status zone v) →
  NoDup (zs_ID <$> (snd <$> map_to_list zonal)).
Proof.
  intros Hnd Hbest. rewrite <- list_fmap_compose. apply NoDup_fmap_2_strong; [|apply NoDup_map_to_list].
  intros [z v] [z' v'] Hz%elem_of_map_to_list Hz'%elem_of_map_to_list Heq. simpl in Heq.
  destruct (Hbest _ _ Hz) as (s & Hs & Hsz & (Hid & _) & _).
  destruct (Hbest _ _ Hz') as (s' & Hs' & Hsz' & (Hid' & _) & _).
  assert (s = s') as <-.
  { apply list_elem_of_lookup in Hs as [i Hi]. apply list_elem_of_lookup in Hs' as [j Hj].
    assert (i = j) as ->; [|congruence]. apply (NoDup_lookup _ i j (sn_ID s) Hnd);
      rewrite list_lookup_fmap; rewrite ?Hi, ?Hj; simpl; congruence. }
  assert (z = z') as <- by congruence. congruence.
Qed.

(** *** The effect of the two folds on one subnet *)

Variable AsInt64 : Quantity → Z.

Definition deduct_at its capacityType (s : ZonalSubnet) (ips : option Z) : option Z :=
  Some (i32 (default (zs_AvailableIPAddressCount s) ips - predicted AsInt64 its capacityType (zs_Zone s))).

Lemma deduct_fold its capacityType m l id :
  NoDup (zs_ID <$> l) →
  foldl (deduct AsInt64 its capacityType) m l !! id =
  match Find (λ s, bool_decide (zs_ID s = id)) l with
  | Some s => deduct_at its capacityType s (m !! id)
  | None => m !! id
  end.
Proof.
  intros Hnd. rewrite <- (foldl_partial_alter_Find zs_ID) by done. f_equal.
  apply foldl_ext_in. intros m' s. apply partial_alter_intro; unfold deduct.
  - by rewrite lookup_insert_eq.
  - intros j ?. by rewrite lookup_insert_ne.
Qed.

Definition add_back_at its capacityType subnets (addBackIDs : list string) (cached : string * Z) (ips : option Z) :
    option Z :=
  if decide (cached.1 ∉ addBackIDs) then ips
  else match Find (λ s, bool_decide (zs_ID s = cached.1)) subnets with
       | None => ips
       | Some s => if decide (zs_AvailableIPAddressCount s = cached.2)
                   then (λ n, i32 (n + predicted AsInt64 its capacityType (zs_Zone s))) <$> ips
                   else ips
       end.

Lemma add_back_fold its capacityType subnets addBackIDs m (cached : gmap string Z) id :
  foldl (add_back AsInt64 its capacityType subnets addBackIDs) m (map_to_list cached) !! id =
  match cached !! id with
  | Some n => add_back_at its capacityType subnets addBackIDs (id, n) (m !! id)
  | None => m !! id
  end.
Proof.
  rewrite (foldl_ext_in _ (λ m c, partial_alter (add_back_at its capacityType subnets addBackIDs c) c.1 m)).
  - rewrite foldl_partial_alter_Find by apply NoDup_fst_map_to_list.
    destruct (Find _ _) as [[k n]|] eqn:E.
    + apply Find_Some in E as [Hin Hk%bool_decide_eq_true]. simpl in Hk. subst k.
      apply elem_of_map_to_list in Hin. by rewrite Hin.
    + destruct (cached !! id) as [n|] eqn:Ec; [|done]. apply elem_of_map_to_list in Ec.
      apply (Find_None _ _ _ E), bool_decide_eq_false in Ec. done.
  - intros m' [k n]. apply partial_alter_intro; unfold add_back, add_back_at; simpl.
    + case_decide; [done|]. destruct (Find _ subnets) as [s|] eqn:E; [|done].
      apply Find_Some in E as [_ Hk%bool_decide_eq_true]. rewrite Hk.
      case_decide; [|done]. destruct (m' !! k) eqn:Em; [by rewrite lookup_insert_eq|done].
    + intros j Hj. case_decide; [done|]. destruct (Find _ subnets) as [s|] eqn:E; [|done].
      apply Find_Some in E as [_ Hk%bool_decide_eq_true]. rewrite Hk.
      case_decide; [|done]. destruct (m' !! k) eqn:Em; [by rewrite lookup_insert_ne|done].
Qed.

Lemma elem_of_compact_uniq id ids : id ∈ compact_uniq ids ↔ id ∈ ids ∧ id ≠ "".
Proof.
  unfold compact_uniq. rewrite list_elem_of_filter. split.
  - intros [? ?%UniqBy_elem]. done.
  - intros [Hin ?]. split; [done|]. destruct (UniqBy_cover (λ x, x) ids id Hin) as (y & Hy & ->).
    done.
Qed.

(** C14: the subnets of a launch.  There is one for each zone of the NodeClass's subnets; no
    other subnet of its zone has more addresses left; and the provider's count of each
    chosen subnet drops by the addresses the launch is expected to use (modulo the int32
    width), while every other subnet keeps its count. *)
Theorem ZonalSubnetsForLaunch_best now status its capacityType p p' zonal :
  NoDup (sn_ID <$> status) →
  ZonalSubnetsForLaunch AsInt64 now status its capacityType p = (p', Ok zonal) →
  (∀ zone, is_Some (zonal !! zone) ↔ ∃ s, s ∈ status ∧ sn_Zone s = zone) ∧
  (∀ zone v, zonal !! zone = Some v →
     (∃ s, s ∈ status ∧ sn_Zone s = zone ∧ zs_ID v = sn_ID s ∧
        ∀ s', s' ∈ status → sn_Zone s' = zone → tracked p now (sn_ID s') ≤ tracked p now (sn_ID s)) ∧
     tracked p' now (zs_ID v) =
       i32 (tracked p now (zs_ID v) - predicted AsInt64 its capacityType zone)) ∧
  (∀ id, (∀ zone v, zonal !! zone = Some v → zs_ID v ≠ id) → tracked p' now id = tracked p now id).
Proof.
  intros Hnd Hz. unfold ZonalSubnetsForLaunch in Hz. case_decide; [done|].
  injection Hz as <- <-. destruct (chosen_spec now p status) as [Hzones Hbest].
  set (zonal := foldl _ _ _) in *. pose proof (zonal_distinct _ _ _ _ Hnd Hbest) as Hdist.
  split; [done|]. split.
  - intros zone v Hv. pose proof (Hbest _ _ Hv) as Hb. pose proof (best_of_zone _ _ _ _ _ Hb) as Hvz.
    destruct Hb as (s & Hs & Hsz & (Hid & _ & _ & Hc) & Hmax). split; [by exists s|].
    unfold tracked. simpl. rewrite deduct_fold by done.
    rewrite (Find_by_key zs_ID _ v); [|done|].
    + simpl. by rewrite Hc, Hid, Hvz.
    + apply list_elem_of_fmap. exists (zone, v). split; [done|]. by apply elem_of_map_to_list.
  - intros id Hid. unfold tracked. simpl. rewrite deduct_fold by done.
    destruct (Find _ _) as [v|] eqn:E; [|done]. apply Find_Some in E as [Hin Hv%bool_decide_eq_true].
    apply list_elem_of_fmap in Hin as ([zone v'] & -> & Hin%elem_of_map_to_list). by destruct (Hid _ _ Hin).
Qed.
End choice.

(** ** Accounting over interleaved launches *)

Lemma Get_before {V C} `{GoCacheLaws V C} (c : C) t t' k v :
  t ≤ t' → GoCache.Get c t' k = Some v → GoCache.Get c t k = Some v.
Proof.
  intros Ht. rewrite !Get_items. destruct (items c !! k) as [[v' e]|]; simpl; [|done].
  unfold live_value. simpl. destruct (expired t e) eqn:E; [|by destruct (expired t' e)].
  by rewrite (expired_mono _ _ _ Ht E).
Qed.

Section accounting.
Context `{S : Scheduling}.
Context {CS CI : Type} `{GoCacheLaws (list EC2Subnet) CS, GoCacheLaws Z CI}.
Implicit Types p : SubnetProvider CS CI.
Variable AsInt64 : Quantity → Z.

(** A launch between [ZonalSubnetsForLaunch] and [UpdateInflightIPs]. *)
Record OpenLaunch := {
  la_subnets : list ZonalSubnet;             (* [lo.Values(zonalSubnets)] *)
  la_its : list InstanceType;
  la_capacityType : string;
}.

(** A launch that has been accounted for: what its fleet request and response named. *)
Record ClosedLaunch := {
  cl_launch : OpenLaunch;
  cl_overrides : list (option string);
  cl_output : option (list (option (option string)));
}.

(** The executions from [p0]: launches start and finish in any interleaving, none of them
    later than [t1], with no new description of the subnets in between. *)
Inductive run (p0 : SubnetProvider CS CI) (t1 : Z) :
    SubnetProvider CS CI → list OpenLaunch → list ClosedLaunch → Prop :=
  | run_start : run p0 t1 p0 [] []
  | run_launch p op cl now status its ct p' zonal :
      run p0 t1 p op cl → now ≤ t1 → NoDup (sn_ID <$> status) →
      ZonalSubnetsForLaunch AsInt64 now status its ct p = (p', Ok zonal) →
      run p0 t1 p' ({| la_subnets := snd <$> map_to_list zonal; la_its := its;
                       la_capacityType := ct |} :: op) cl
  | run_finish p op1 l op2 cl now overrides output :
      run p0 t1 p (op1 ++ l :: op2) cl → now ≤ t1 →
      run p0 t1 (UpdateInflightIPs AsInt64 now overrides output (la_its l) (la_subnets l)
                   (la_capacityType l) p)
        (op1 ++ op2) ({| cl_launch := l; cl_overrides := overrides; cl_output := output |} :: cl).

(** What a launch holds of subnet [id] while it is open, and once it is closed. *)
Definition owed (id : string) (l : OpenLaunch) : Z :=
  match Find (λ s, bool_decide (zs_ID s = id)) (la_subnets l) with
  | Some s => predicted AsInt64 (la_its l) (la_capacityType l) (zs_Zone s)
  | None => 0
  end.

(** The fleet was offered the subnet and did not use it. *)
Definition given_back (id : string) (c : ClosedLaunch) : bool :=
  bool_decide (id ∈ input_subnets (cl_overrides c) ∧ id ∉ output_subnets (cl_output c)).

Definition kept (id : string) (c : ClosedLaunch) : Z :=
  if given_back id c then 0 else owed id (cl_launch c).

Definition sum (l : list Z) : Z := foldr Z.add 0 l.

Lemma sum_cons x l : sum (x :: l) = x + sum l.
Proof. done. Qed.

Lemma sum_app l k : sum (l ++ k) = sum l + sum k.
Proof. induction l as [|x l IH]; [done|]. unfold sum in *. simpl in *. rewrite IH. lia. Qed.

(** What holds of subnet [id] with [A] addresses along an execution. *)
Record accounts (id : string) (A t1 : Z) p (op : list OpenLaunch) (cl : list ClosedLaunch) : Prop := {
  ac_count : GoCache.Get (availableIPAddressCache p) t1 id = Some A;
  ac_open : ∀ l s, l ∈ op → s ∈ la_subnets l → zs_ID s = id →
    zs_AvailableIPAddressCount s = A ∧ is_Some (inflightIPs p !! id);
  ac_tracked : default A (inflightIPs p !! id) = i32 (A - sum (owed id <$> op) - sum (kept id <$> cl));
}.

Lemma accounts_launch id A t1 p op cl now status its ct p' zonal :
  accounts id A t1 p op cl → now ≤ t1 → NoDup (sn_ID <$> status) →
  ZonalSubnetsForLaunch AsInt64 now status its ct p = (p', Ok zonal) →
  accounts id A t1 p' ({| la_subnets := snd <$> map_to_list zonal; la_its := its;
                          la_capacityType := ct |} :: op) cl.
Proof.
  intros [Hc Ho Ht] Hnow Hnd Hz. unfold ZonalSubnetsForLaunch in Hz. case_decide; [done|].
  injection Hz as <- <-. destruct (chosen_spec now p status) as [_ Hbest].
  set (zonal := foldl _ _ _) in *. pose proof (zonal_distinct _ _ _ _ Hnd Hbest) as Hdist.
  pose proof (Get_before _ _ _ _ _ Hnow Hc) as Hcnow.
  assert (∀ s, s ∈ snd <$> map_to_list zonal → zs_ID s = id → zs_AvailableIPAddressCount s = A) as Hav.
  { intros s ([zone s'] & -> & Hin%elem_of_map_to_list)%list_elem_of_fmap Hid. simpl in *.
    destruct (Hbest _ _ Hin) as (x & _ & _ & (Hx & _ & _ & ->) & _). by rewrite <- Hx, Hid, Hcnow. }
  split; [done|..].
  - intros l s Hl Hs Hid. simpl. rewrite deduct_fold by done. apply elem_of_cons in Hl as [->|Hl].
    + split; [by apply Hav|]. subst id. by rewrite (Find_by_key zs_ID _ s).
    + destruct (Ho _ _ Hl Hs Hid) as [? ?]. split; [done|]. by destruct (Find _ _).
  - rewrite fmap_cons, sum_cons. unfold owed at 1. cbn [inflightIPs with_inflight la_subnets].
    rewrite deduct_fold by done. destruct (Find _ _) as [s|] eqn:E.
    + apply Find_Some in E as [Hin Hid%bool_decide_eq_true]. unfold deduct_at. simpl.
      rewrite (Hav _ Hin Hid), Ht, <- Z.add_opp_r, i32_add_l. f_equal. simpl. lia.
    + rewrite Ht. f_equal.
Qed.

Lemma accounts_finish id A t1 p op1 l op2 cl now overrides output :
  accounts id A t1 p (op1 ++ l :: op2) cl → now ≤ t1 →
  accounts id A t1 (UpdateInflightIPs AsInt64 now overrides output (la_its l) (la_subnets l)
                      (la_capacityType l) p)
    (op1 ++ op2) ({| cl_launch := l; cl_overrides := overrides; cl_output := output |} :: cl).
Proof.
  intros [Hc Ho Ht] Hnow. pose proof (Get_before _ _ _ _ _ Hnow Hc) as Hcnow.
  rewrite Get_items in Hcnow.
  assert (∀ subnets addBackIDs its ct m,
    foldl (add_back AsInt64 its ct subnets addBackIDs) m
      (map_to_list (omap (live_value now) (items (availableIPAddressCache p)) : gmap string Z)) !! id
    = add_back_at AsInt64 its ct subnets addBackIDs (id, A) (m !! id)) as Hfold.
  { intros. rewrite add_back_fold, lookup_omap. by rewrite Hcnow. }
  split; [done|..]; cbn [inflightIPs with_inflight UpdateInflightIPs]; rewrite Hfold;
    unfold add_back_at; cbn [fst snd].
  - intros l' s Hl Hs Hid. assert (l' ∈ op1 ++ l :: op2) as Hl' by set_solver.
    destruct (Ho _ _ Hl' Hs Hid) as [? [n Hn]]. split; [done|]. rewrite Hn.
    case_decide; [done|]. destruct (Find _ _); [|done]. by case_decide.
  - rewrite fmap_app, fmap_cons, sum_app, sum_cons in Ht. rewrite fmap_app, fmap_cons, sum_app, sum_cons.
    unfold kept at 1, given_back. cbn [cl_launch cl_overrides cl_output].
    case_decide as Hin; rewrite list_elem_of_filter in Hin.
    + rewrite bool_decide_eq_false_2 by tauto. rewrite Ht. f_equal. lia.
    + assert ((id ∉ output_subnets output) ∧ (id ∈ input_subnets overrides)) as [? ?].
      { destruct (decide ((id ∉ output_subnets output) ∧ (id ∈ input_subnets overrides))); tauto. }
      rewrite bool_decide_eq_true_2 by done. unfold owed in Ht at 2.
      destruct (Find _ (la_subnets l)) as [s|] eqn:E; [|rewrite Ht; f_equal; lia].
      apply Find_Some in E as [Hs Hid%bool_decide_eq_true].
      destruct (Ho l s ltac:(set_solver) Hs Hid) as [-> [n Hn]]. rewrite decide_True by done.
      rewrite Hn in *. simpl in *. rewrite Ht, i32_add_l. f_equal. lia.
Qed.

End accounting.

(** ** List *)

Section list.
Context {CS CI : Type} `{GoCacheLaws (list EC2Subnet) CS, GoCacheLaws Z CI}.
Implicit Types p : SubnetProvider CS CI.
Implicit Types st : SubnetProvider CS CI * gmap string EC2Subnet.
Variable DescribeSubnets : list Filter → list (list EC2Subnet) * option error.

(** A subnet as the provider reads it. *)
Definition subnet_id (s : EC2Subnet) : string := default "" (es_SubnetId s).
Definition subnet_count (s : EC2Subnet) : Z := default 0 (es_AvailableIpAddressCount s).

(** The record of described subnets, the counts and the in-flight counts agree. *)
Definition refreshed (now : Z) (st : SubnetProvider CS CI * gmap string EC2Subnet) : Prop :=
  0 < defaultTTL (availableIPAddressCache st.1) ∧
  ∀ id s, st.2 !! id = Some s →
    subnet_id s = id ∧ inflightIPs st.1 !! id = None ∧
    items (availableIPAddressCache st.1) !! id =
      Some (subnet_count s, expiry (defaultTTL (availableIPAddressCache st.1)) now).

Lemma refresh_subnet_refreshed now st s : refreshed now st → refreshed now (refresh_subnet now st s).
Proof.
  destruct st as [p m]. intros [Httl Hst]. split; [simpl; by rewrite SetDefault_ttl|].
  intros id s'. simpl in *. rewrite SetDefault_items, SetDefault_ttl.
  fold (subnet_id s) (subnet_count s). destruct (decide (subnet_id s = id)) as [<-|Hne].
  - rewrite !lookup_insert_eq, lookup_delete_eq. intros [= <-]. done.
  - rewrite !lookup_insert_ne, lookup_delete_ne by done. by apply Hst.
Qed.

Lemma refresh_pages_refreshed now l st : refreshed now st → refreshed now (foldl (refresh_subnet now) st l).
Proof. revert st. induction l as [|s l IH]; intros st Hst; [done|]. by apply IH, refresh_subnet_refreshed. Qed.

Lemma refresh_pages_cache now l st : sp_cache (foldl (refresh_subnet now) st l).1 = sp_cache st.1.
Proof. revert st. induction l as [|s l IH]; intros [p m]; [done|]. simpl. by rewrite IH. Qed.

Lemma refresh_pages_keep now l st id :
  is_Some (st.2 !! id) → is_Some ((foldl (refresh_subnet now) st l).2 !! id).
Proof.
  revert st. induction l as [|s l IH]; intros [p m] Hid; [done|]. apply IH. simpl.
  apply lookup_insert_is_Some'. by right.
Qed.

Lemma refresh_pages_domain now l st s :
  s ∈ l → is_Some ((foldl (refresh_subnet now) st l).2 !! subnet_id s).
Proof.
  revert st. induction l as [|s' l IH]; intros [p m] Hs; [by apply elem_of_nil in Hs|].
  apply elem_of_cons in Hs as [->|Hs]; [|by apply IH].
  cbn [foldl]. apply refresh_pages_keep. simpl. unfold subnet_id. rewrite lookup_insert_eq. by eexists.
Qed.

Lemma refresh_pages_from now l st id s :
  (foldl (refresh_subnet now) st l).2 !! id = Some s → s ∈ l ∨ st.2 !! id = Some s.
Proof.
  revert st. induction l as [|s' l IH]; intros [p m] Hs; [by right|].
  destruct (IH _ Hs) as [?|Hm]; [left; by right|]. simpl in Hm.
  apply lookup_insert_Some in Hm as [[_ <-]|[_ ?]]; [left; by left|by right].
Qed.

Lemma list_filter_sets_ok now fs st p' m' :
  refreshed now st → list_filter_sets DescribeSubnets now fs st = (p', Ok m') →
  refreshed now (p', m') ∧ sp_cache p' = sp_cache st.1 ∧
  (∀ id, is_Some (st.2 !! id) → is_Some (m' !! id)) ∧
  (∀ f s, f ∈ fs → s ∈ mjoin (DescribeSubnets f).1 → is_Some (m' !! subnet_id s)) ∧
  (∀ id s, m' !! id = Some s →
     st.2 !! id = Some s ∨ ∃ f, f ∈ fs ∧ s ∈ mjoin (DescribeSubnets f).1).
Proof.
  revert st. induction fs as [|f fs IH]; intros st Hst; simpl.
  - intros [= <- <-]. destruct st. split; [done|]. split; [done|]. split; [done|].
    split; [by intros ?? ?%elem_of_nil|auto].
  - destruct (DescribeSubnets f) as [pages [e|]] eqn:Ef; [done|]. intros Hl.
    destruct (IH _ (refresh_pages_refreshed now (mjoin pages) st Hst) Hl)
      as (Hr & Hc & Hkeep & Hdom & Hfrom).
    rewrite refresh_pages_cache in Hc. split; [done|]. split; [done|]. split; [|split].
    + intros id Hid. by apply Hkeep, refresh_pages_keep.
    + intros f' s [->|Hf]%elem_of_cons Hs; [|by eapply Hdom].
      rewrite Ef in Hs. by apply Hkeep, refresh_pages_domain.
    + intros id s Hs. destruct (Hfrom _ _ Hs) as [Hm|(f' & Hf & ?)].
      * apply refresh_pages_from in Hm as [?|?]; [|by left]. right. exists f. split; [by left|].
        by rewrite Ef.
      * right. exists f'. split; [by right|done].
Qed.

(** What [List] returns when it asks EC2.  The subnets have distinct IDs, each was
    described for one of the filter sets, and every described subnet ID is among them.
    From then on, until the counts expire or a launch intervenes, the provider's count of
    each is the described one, earlier launches notwithstanding; and [List] returns the
    same subnets from its cache. *)
Theorem List_refreshes now hash terms p p' subnets :
  0 < defaultTTL (availableIPAddressCache p) → 0 < defaultTTL (sp_cache p) →
  GoCache.Get (sp_cache p) now hash = None →
  List_ DescribeSubnets now hash terms p = (p', Ok subnets) →
  NoDup (subnet_id <$> subnets) ∧
  (∀ s, s ∈ subnets → ∃ f, f ∈ getFilterSets terms ∧ s ∈ mjoin (DescribeSubnets f).1) ∧
  (∀ f s, f ∈ getFilterSets terms → s ∈ mjoin (DescribeSubnets f).1 →
     subnet_id s ∈ (subnet_id <$> subnets)) ∧
  (∀ s t, s ∈ subnets → t ≤ now + defaultTTL (availableIPAddressCache p') →
     tracked p' t (subnet_id s) = subnet_count s) ∧
  (∀ t, t ≤ now + defaultTTL (sp_cache p) →
     List_ DescribeSubnets t hash terms p' = (p', Ok subnets)).
Proof.
  intros Httl Httl' Hmiss Hl. unfold List_ in *. destruct (getFilterSets terms) as [|f0 fs0] eqn:Efs.
  { injection Hl as <- <-. split; [constructor|]. split; [by intros ? ?%elem_of_nil|].
    split; [by intros ?? ?%elem_of_nil|]. split; [by intros ?? ?%elem_of_nil|done]. }
  rewrite Hmiss in Hl. destruct (list_filter_sets _ _ _ _) as [p1 [m|e]] eqn:El; [|done].
  injection Hl as <- <-. apply list_filter_sets_ok in El as ((Ht & Hm) & Hc & _ & Hdom & Hfrom); [|done].
  simpl in *. assert (∀ s, s ∈ (map_to_list m).*2 → m !! subnet_id s = Some s) as Hin.
  { intros s ([id s'] & -> & Hin%elem_of_map_to_list)%list_elem_of_fmap. simpl.
    by destruct (Hm _ _ Hin) as [-> _]. }
  split; [|split; [|split; [|split]]].
  - rewrite <- list_fmap_compose. apply NoDup_fmap_2_strong; [|apply NoDup_map_to_list].
    intros [i s] [j s'] Hi%elem_of_map_to_list Hj%elem_of_map_to_list. simpl.
    destruct (Hm _ _ Hi) as [-> _], (Hm _ _ Hj) as [-> _]. intros ->. congruence.
  - intros s Hs%Hin. by destruct (Hfrom _ _ Hs) as [?|?].
  - intros f s Hf Hs. destruct (Hdom f s Hf Hs) as [s' Hs']. apply list_elem_of_fmap. exists s'.
    split; [by destruct (Hm _ _ Hs') as [-> _]|]. apply list_elem_of_fmap. exists (subnet_id s, s').
    split; [done|]. by apply elem_of_map_to_list.
  - intros s t Hs%Hin Hle. destruct (Hm _ _ Hs) as (_ & Hnone & Hitem). unfold tracked. simpl.
    rewrite Hnone, Get_items, Hitem. simpl. unfold live_value. simpl. rewrite expiry_live by done.
    by rewrite bool_decide_eq_false_2 by lia.
  - intros t Hle. rewrite Get_SetDefault_eq by (by rewrite Hc). by rewrite decide_True by (by rewrite Hc).
Qed.
End list.

(** A launch that never offers a subnet to the fleet keeps its deduction there: the zones
    the NodeClaim excludes are deducted but are no part of the fleet request. *)
Lemma unrequested_subnet_not_returned `{Scheduling} {CS CI : Type} `{GoCacheLaws Z CI} AsInt64 now
    overrides output its subnets capacityType (p : SubnetProvider CS CI) id :
  id ∉ input_subnets overrides →
  tracked (UpdateInflightIPs AsInt64 now overrides output its subnets capacityType p) now id
  = tracked p now id.
Proof.
  intros Hid. unfold tracked. simpl. rewrite add_back_fold. destruct (_ !! id); [|done].
  unfold add_back_at. simpl. by rewrite decide_True by (rewrite list_elem_of_filter; tauto).
Qed.

(** ** Concrete executions *)

Section concrete.
Local Abbreviation SP := (SubnetProvider (RefCache.t (list EC2Subnet)) (RefCache.t Z)).

Definition w_AsInt64 (q : Quantity) : Z := q / 10 ^ 9.

Definition w_offering (zone : string) : Offering :=
  {| off_Requirements := list_to_map [(CapacityTypeLabelKey, ["spot"]); (LabelTopologyZone, [zone])];
     Price := 1; Available := true; ReservationCapacity := 0 |}.

(** An instance type for 10 pods, with spot offerings in both zones. *)
Definition w_it : InstanceType :=
  {| Name := "m5.large"; it_Requirements := ∅; Offerings := [w_offering "z"; w_offering "y"];
     Capacity := {[ResourcePods := 10 * 10 ^ 9]} |}.

Definition w_subnet (id zone : string) (count : Z) : EC2Subnet :=
  {| es_SubnetId := Some id; es_AvailabilityZone := Some zone; es_AvailabilityZoneId := Some zone;
     es_AvailableIpAddressCount := Some count |}.

(** The tag selector matches three subnets, the ID selector one of them. *)
Definition w_describe (fs : list Filter) : list (list EC2Subnet) * option error :=
  if decide (f_Name <$> fs = ["subnet-id"]) then ([[w_subnet "s1" "z" 50]], None)
  else ([[w_subnet "s1" "z" 50; w_subnet "s2" "z" 100]; [w_subnet "s3" "y" 70]], None).

Definition w_terms : list SubnetSelectorTerm :=
  [{| sst_Tags := {["env" := "*"]}; sst_ID := "" |}; {| sst_Tags := ∅; sst_ID := "s1" |}].

Definition w_start : SP :=
  {| sp_cache := New Minute; availableIPAddressCache := New (5 * Minute); inflightIPs := {["s1" := 3]} |}.

Definition w_listed := List_ w_describe 1 "uid-1" w_terms w_start.
Definition w_subnets : list EC2Subnet := match w_listed.2 with Ok l => l | Err _ => [] end.

Lemma List_refreshes_witness :
  (subnet_id <$> w_subnets) ≡ₚ ["s1"; "s2"; "s3"] ∧ tracked w_listed.1 Minute "s1" = 50 ∧
  List_ w_describe Minute "uid-1" w_terms w_listed.1 = (w_listed.1, Ok w_subnets).
Proof.
  destruct (List_refreshes w_describe 1 "uid-1" w_terms w_start w_listed.1 w_subnets)
    as (_ & _ & _ & Hcount & Hcached).
  - by vm_compute.
  - by vm_compute.
  - by vm_compute.
  - reflexivity.
  - split; [by apply (bool_decide_unpack _); vm_compute|]. split.
    + apply (Hcount (w_subnet "s1" "z" 50)); [by apply (bool_decide_unpack _); vm_compute|].
      by vm_compute.
    + apply Hcached. by vm_compute.
Defined.

Definition w_status : list Subnet :=
  [{| sn_ID := "s1"; sn_Zone := "z"; sn_ZoneID := "az1" |};
   {| sn_ID := "s2"; sn_Zone := "z"; sn_ZoneID := "az1" |};
   {| sn_ID := "s3"; sn_Zone := "y"; sn_ZoneID := "az2" |}].

Definition w_launch (p : SP) := ZonalSubnetsForLaunch w_AsInt64 5 w_status [w_it] "spot" p.
Definition w_zonal (p : SP) : gmap string ZonalSubnet :=
  match (w_launch p).2 with Ok z => z | Err _ => ∅ end.

Lemma w_launch_ok p : w_launch p = ((w_launch p).1, Ok (w_zonal p)).
Proof. reflexivity. Qed.

Lemma w_status_distinct : NoDup (sn_ID <$> w_status).
Proof. apply (bool_decide_unpack _). by vm_compute. Qed.

Lemma ZonalSubnetsForLaunch_best_witness :
  (∃ s, s ∈ w_status ∧ sn_Zone s = "z" ∧ "s2" = sn_ID s ∧
     ∀ s', s' ∈ w_status → sn_Zone s' = "z" → tracked w_listed.1 5 (sn_ID s') ≤ tracked w_listed.1 5 (sn_ID s)) ∧
  tracked (w_launch w_listed.1).1 5 "s2" = 90 ∧ tracked (w_launch w_listed.1).1 5 "s1" = 50.
Proof.
  destruct (ZonalSubnetsForLaunch_best w_AsInt64 5 w_status [w_it] "spot" w_listed.1 (w_launch w_listed.1).1 (w_zonal w_listed.1)
    w_status_distinct (w_launch_ok w_listed.1)) as (_ & Hbest & Hother).
  destruct (w_zonal w_listed.1 !! "z") as [v|] eqn:Ev; [|by vm_compute in Ev].
  destruct (Hbest "z" v Ev) as [Hmax Htracked].
  assert (zs_ID v = "s2") as Hid by (vm_compute in Ev; by injection Ev as <-).
  rewrite Hid in *. split; [done|]. split; [by rewrite Htracked; vm_compute|].
  rewrite Hother; [by vm_compute|]. intros zone u Hu Heq.
  destruct (Hbest zone u Hu) as [(s & Hs & Hz & Hu' & Hsmax) _].
  rewrite Heq in Hu'. assert (zone = "z") as ->.
  { rewrite <- Hz. apply elem_of_cons in Hs as [->|Hs]; [done|].
    apply elem_of_cons in Hs as [->|Hs]; [done|]. by apply list_elem_of_singleton in Hs as ->. }
  rewrite Ev in Hu. injection Hu as <-. congruence.
Defined.

(** Two launches start; the first ends in the subnet of the other zone, the second fails
    after its fleet request named the zone's subnet only. *)
Definition w_open1 : OpenLaunch :=
  {| la_subnets := snd <$> map_to_list (w_zonal w_listed.1); la_its := [w_it]; la_capacityType := "spot" |}.
Definition w_open2 : OpenLaunch :=
  {| la_subnets := snd <$> map_to_list (w_zonal (w_launch w_listed.1).1); la_its := [w_it];
     la_capacityType := "spot" |}.
Definition w_overrides : list (option string) := [Some "s2"; Some "s3"].
Definition w_finished : SP :=
  UpdateInflightIPs w_AsInt64 6 w_overrides (Some [Some (Some "s3")]) (la_its w_open1)
    (la_subnets w_open1) (la_capacityType w_open1) (w_launch (w_launch w_listed.1).1).1.

Lemma w_run : run w_AsInt64 w_listed.1 7 w_finished [w_open2]
  [{| cl_launch := w_open1; cl_overrides := w_overrides; cl_output := Some [Some (Some "s3")] |}].
Proof.
  unfold w_finished.
  refine (run_finish w_AsInt64 w_listed.1 7 (w_launch (w_launch w_listed.1).1).1 [w_open2] w_open1 [] []
            6 w_overrides (Some [Some (Some "s3")]) _ _); [|done].
  refine (run_launch w_AsInt64 w_listed.1 7 (w_launch w_listed.1).1 [w_open1] [] 5 w_status [w_it] "spot"
            _ _ _ _ w_status_distinct (w_launch_ok _)); [|done].
  exact (run_launch w_AsInt64 w_listed.1 7 w_listed.1 [] [] 5 w_status [w_it] "spot"
           _ _ (run_start _ _ _) ltac:(done) w_status_distinct (w_launch_ok _)).
Qed.

End concrete.
