(* ===== verification/CloudProvider.v ===== *)
(** * [pkg/cloudprovider]: the cloud provider and drift

    [cloudprovider.go] and [drift.go]: creating, listing and deleting NodeClaims, the
    NodeClaim of an instance, and whether a NodeClaim has drifted from its NodeClass.  The
    methods run in a monad: the state holds the collaborators that change (the instance
    provider, the reservation counts and the placement group caches) and the published
    events; an error is a value; [None] is a panic.  The instance provider is the interface
    [InstanceAPI], which [Instances] and [Launch] implement.  The Kubernetes client, the
    overlay store, the instance type provider and the NodeClass hash are parameters, and
    so is the default readiness condition that [operatorpkg] computes. *)
From S2P Require Import Prelude GoStd GoCache AwsErrors ApiV1 CapacityReservation Scheduling Kube Filters Launch Instances Compatibility AmiFamily Resolver PlacementGroup Utils Offerings.

(** ** Errors *)

(** The error types the core recognises, through any wrapping. *)
Inductive provider_error :=
  | NodeClassNotReadyError (e : error)
  | NotFoundError (e : error)                (* Kubernetes: apierrors.IsNotFound *)
  | InstanceError (e : cp_error)
  | PlainError (e : error).

Definition wrap_cp (prefix : string) (e : cp_error) : cp_error :=
  match e with
  | InsufficientCapacityError e => InsufficientCapacityError (wrap prefix e)
  | CreateError e reason message => CreateError (wrap prefix e) reason message
  | NodeClaimNotFoundError e => NodeClaimNotFoundError (wrap prefix e)
  | NodeRebootFailedError e => NodeRebootFailedError (wrap prefix e)
  | OtherError e => OtherError (wrap prefix e)
  end.
Definition wrap_error (prefix : string) (e : provider_error) : provider_error :=
  match e with
  | NodeClassNotReadyError e => NodeClassNotReadyError (wrap prefix e)
  | NotFoundError e => NotFoundError (wrap prefix e)
  | InstanceError e => InstanceError (wrap_cp prefix e)
  | PlainError e => PlainError (wrap prefix e)
  end.
Definition error_of (e : provider_error) : error :=
  match e with
  | NodeClassNotReadyError e | NotFoundError e | PlainError e => e
  | InstanceError e => cp_cause e
  end.
Definition is_not_found (e : provider_error) : bool :=
  match e with NotFoundError _ => true | _ => false end.
Definition IsNodeClaimNotFoundError (e : option cp_error) : bool :=
  match e with Some (NodeClaimNotFoundError _) => true | _ => false end.

(** ** Data *)

Definition AnnotationEC2NodeClassHash := "karpenter.k8s.aws/ec2nodeclass-hash".
Definition AnnotationEC2NodeClassHashVersion := "karpenter.k8s.aws/ec2nodeclass-hash-version".
Definition LabelInstanceTypeStable := "node.kubernetes.io/instance-type".
Definition AMIDrift := "AMIDrift".
Definition SubnetDrift := "SubnetDrift".
Definition SecurityGroupDrift := "SecurityGroupDrift".
Definition CapacityReservationDrift := "CapacityReservationDrift".
Definition PlacementGroupDrift := "PlacementGroupDrift".
Definition NodeClassDrift := "NodeClassDrift".

Abbreviation NodeClass := (EC2NodeClass Z) (only parsing).

Inductive provider_event :=
  | NodeClaimFailedToResolveNodeClass (nodeClaim : string)
  | NodePoolFailedToResolveNodeClass (nodePool : string).

Section cloudprovider.
Context `{IR : ImageRequirements}.

Context {CL CT CP CA : Type}.
Context `{GoCache positive CL, GoCache unit CT, GoCache unit CP, GoCache PlacementGroup CA}.

(** [instance.Provider]; [None] is a panic, the inner option of [Get] a nil instance.
    A launch shares the reservation counts with the cloud provider, and returns the
    NodeClass, a pointer, as it leaves it. *)
Class InstanceAPI (I : Type) := {
  api_Create : NodeClass → NodeClaim → gmap string string → list InstanceType →
    I → availabilityCache CL CT → option (I * availabilityCache CL CT * result cp_error (NodeClass * Instance_));
  api_Get : string → bool → I → option (I * result cp_error (option Instance_));
  api_List : I → option (I * result cp_error (list Instance_));
  api_Delete : string → I → option (I * option cp_error);
  api_Reboot : string → string → I → option (I * option cp_error);
}.

Context {I : Type} `{InstanceAPI I}.

Record CPState := {
  cs_instances : I;
  cs_reservations : availabilityCache CL CT;
  cs_groups : PGProvider CP CA;
  cs_events : list provider_event;
}.

(** ** The monad *)

Definition M (A : Type) : Type := CPState → option (CPState * result provider_error A).
#[export] Instance M_ret : MRet M := λ A a s, Some (s, Ok a).
#[export] Instance M_bind : MBind M := λ A B f m s,
  match m s with
  | None => None
  | Some (s', Ok a) => f a s'
  | Some (s', Err e) => Some (s', Err e)
  end.
Definition throw {A} (e : provider_error) : M A := λ s, Some (s, Err e).
Definition panic {A} : M A := λ _, None.
Definition of_result {A} (r : result provider_error A) : M A := λ s, Some (s, r).
(** [if err != nil { return fmt.Errorf("<prefix>, %w", err) }] *)
Definition wrapping {A} (prefix : string) (m : M A) : M A := λ s,
  match m s with
  | Some (s', Err e) => Some (s', Err (wrap_error prefix e))
  | r => r
  end.
(** Handling an error. *)
Definition catch {A} (m : M A) (h : provider_error → M A) : M A := λ s,
  match m s with
  | Some (s', Err e) => h e s'
  | r => r
  end.
(** [client.IgnoreNotFound] of an error, the value being nil. *)
Definition ignore_not_found {A} (m : M A) : M (option A) := λ s,
  match m s with
  | None => None
  | Some (s', Ok a) => Some (s', Ok (Some a))
  | Some (s', Err e) => Some (s', if is_not_found e then Ok None else Err e)
  end.

Definition with_instances {A} (f : I → option (I * A)) (s : CPState) : option (CPState * A) :=
  '(i, a) ← f (cs_instances s);
  Some ({| cs_instances := i; cs_reservations := cs_reservations s; cs_groups := cs_groups s;
           cs_events := cs_events s |}, a).
(** A call of the instance provider. *)
Definition instances_call {A} (f : I → option (I * result cp_error A)) : M A := λ s,
  '(s, r) ← with_instances f s;
  Some (s, match r with Ok a => Ok a | Err e => Err (InstanceError e) end).
(** The launch, which also changes the reservation counts. *)
Definition instances_create (nc : NodeClass) (claim : NodeClaim) (tags : gmap string string)
    (its : list InstanceType) : M (NodeClass * Instance_) := λ s,
  '(i, a, r) ← api_Create nc claim tags its (cs_instances s) (cs_reservations s);
  Some ({| cs_instances := i; cs_reservations := a; cs_groups := cs_groups s; cs_events := cs_events s |},
        match r with Ok a => Ok a | Err e => Err (InstanceError e) end).
(** A call whose error the caller returns as it is. *)
Definition instances_do (f : I → option (I * option cp_error)) : M (option cp_error) := λ s,
  '(s, e) ← with_instances f s; Some (s, Ok e).
Definition on_reservation (f : availabilityCache CL CT → availabilityCache CL CT) : M unit := λ s,
  Some ({| cs_instances := cs_instances s; cs_reservations := f (cs_reservations s);
           cs_groups := cs_groups s; cs_events := cs_events s |}, Ok tt).
Definition publish (ev : provider_event) : M unit := λ s,
  Some ({| cs_instances := cs_instances s; cs_reservations := cs_reservations s;
           cs_groups := cs_groups s; cs_events := cs_events s ++ [ev] |}, Ok tt).

(** ** Reasoning about the monad *)

Implicit Types (s : CPState).

Lemma bind_Ok {A B} (m : M A) (f : A → M B) s s' b :
  (m ≫= f) s = Some (s', Ok b) ↔ ∃ s1 a, m s = Some (s1, Ok a) ∧ f a s1 = Some (s', Ok b).
Proof.
  unfold mbind, M_bind. destruct (m s) as [[s1 [a|e]]|]; split; intros; simplify_eq; naive_solver.
Qed.

Lemma bind_inv {A B} (m : M A) (f : A → M B) s s' r :
  (m ≫= f) s = Some (s', r) →
  (∃ s1 a, m s = Some (s1, Ok a) ∧ f a s1 = Some (s', r)) ∨ (∃ e, m s = Some (s', Err e) ∧ r = Err e).
Proof.
  unfold mbind, M_bind. destruct (m s) as [[s1 [a|e]]|]; intros; simplify_eq; naive_solver.
Qed.

Lemma wrapping_Ok {A} prefix (m : M A) s s' a :
  wrapping prefix m s = Some (s', Ok a) ↔ m s = Some (s', Ok a).
Proof. unfold wrapping. destruct (m s) as [[s1 [b|e]]|]; split; congruence. Qed.

Lemma of_result_inv {A} (x : result provider_error A) s s' r :
  of_result x s = Some (s', r) → s' = s ∧ r = x.
Proof. by intros [= <- <-]. Qed.

Lemma instances_create_inv nc claim tags its s s' r :
  instances_create nc claim tags its s = Some (s', r) →
  ∃ x, api_Create nc claim tags its (cs_instances s) (cs_reservations s) =
         Some (cs_instances s', cs_reservations s', x) ∧
    r = match x with Ok a => Ok a | Err e => Err (InstanceError e) end.
Proof.
  unfold instances_create. destruct (api_Create _ _ _ _ _ _) as [[[i a] x]|]; [|done].
  intros [= <- <-]. by exists x.
Qed.

Lemma instances_call_inv {A} (f : I → option (I * result cp_error A)) s s' r :
  instances_call f s = Some (s', r) →
  ∃ i x, f (cs_instances s) = Some (i, x) ∧ cs_instances s' = i ∧
    cs_reservations s' = cs_reservations s ∧
    r = match x with Ok a => Ok a | Err e => Err (InstanceError e) end.
Proof.
  unfold instances_call, with_instances. destruct (f (cs_instances s)) as [[i x]|]; [|done].
  intros [= <- <-]. by exists i, x.
Qed.

Lemma wrapping_inv {A} prefix (m : M A) s s' r :
  wrapping prefix m s = Some (s', r) →
  ∃ r', m s = Some (s', r') ∧ r = match r' with Ok a => Ok a | Err e => Err (wrap_error prefix e) end.
Proof.
  unfold wrapping. destruct (m s) as [[s1 [b|e]]|]; intros; simplify_eq; by eexists.
Qed.

(** The computation leaves the instances and the reservation counts alone. *)
Definition quiet {A} (m : M A) : Prop :=
  ∀ s s' r, m s = Some (s', r) → cs_instances s' = cs_instances s ∧ cs_reservations s' = cs_reservations s.

Lemma quiet_ret {A} (a : A) : quiet (mret a).
Proof. by intros s s' r [= <- _]. Qed.
Lemma quiet_throw {A} e : quiet (throw e : M A).
Proof. by intros s s' r [= <- _]. Qed.
Lemma quiet_panic {A} : quiet (panic : M A).
Proof. by intros s s' r. Qed.
Lemma quiet_of_result {A} (x : result provider_error A) : quiet (of_result x).
Proof. by intros s s' r [= <- _]. Qed.
Lemma quiet_publish ev : quiet (publish ev).
Proof. by intros s s' r [= <- _]. Qed.
Lemma quiet_bind {A B} (m : M A) (f : A → M B) : quiet m → (∀ a, quiet (f a)) → quiet (m ≫= f).
Proof.
  intros Hm Hf s s' r [(s1 & a & Hs1 & Hs2)|(e & Hs1 & _)]%bind_inv; [|by eapply Hm].
  destruct (Hm _ _ _ Hs1) as [<- <-]. by eapply Hf.
Qed.
Lemma quiet_wrapping {A} prefix (m : M A) : quiet m → quiet (wrapping prefix m).
Proof.
  intros Hm s s' r. unfold wrapping. destruct (m s) as [[s1 [b|e]]|] eqn:E; intros; simplify_eq; by eapply Hm.
Qed.
Lemma quiet_catch {A} (m : M A) h : quiet m → (∀ e, quiet (h e)) → quiet (catch m h).
Proof.
  intros Hm Hh s s' r. unfold catch. destruct (m s) as [[s1 [b|e]]|] eqn:E; intros; simplify_eq;
    destruct (Hm _ _ _ E) as [Hi Hr]; [done|].
  rewrite <- Hi, <- Hr. by eapply Hh.
Qed.
Lemma quiet_ignore {A} (m : M A) : quiet m → quiet (ignore_not_found m).
Proof.
  intros Hm s s' r. unfold ignore_not_found.
  destruct (m s) as [[s1 [b|e]]|] eqn:E; intros; simplify_eq; by eapply Hm.
Qed.
(** ** The collaborators *)

Variable now : Z.
Variable GetNodeClass : string → result provider_error NodeClass.
Variable GetNodePool : string → result provider_error NodePool.
(** [instancetype.Provider] *)
Variable instanceTypes_List : NodeClass → result error (list InstanceType).
Variable instanceTypes_Get : NodeClass → string → result error InstanceType.
(** [nodeoverlay.InstanceTypeStore] *)
Variable ApplyAll : string → list InstanceType → result error (list InstanceType).
Variable Apply : string → InstanceType → result error InstanceType.
(** The placement group query hash and EC2's answer. *)
Variable pg_CacheKey : PlacementGroupSelector → string.
Variable DescribePlacementGroups : DescribePlacementGroupsInput_ → result error (list EC2PlacementGroup).
(** [nodeClass.Hash(caBundle)] and [v1.EC2NodeClassHashVersion] *)
Variable Hash : NodeClass → string.
(** [nodeClass.StatusConditions().Get(status.ConditionReady)], which is never nil. *)
Variable ReadyCondition : NodeClass → Condition.
(** Options: the cluster name and the NodeOverlay feature gate. *)
Variable ClusterName : string.
Variable NodeOverlay : bool.
(** The requirements by key, the number of allowed values, and the allocatable resources
    of an instance type. *)
Variable Entries : Requirements → list (string * Requirement).
Variable Len : Requirement → Z.
Variable Allocatable : InstanceType → ResourceList.

Definition EC2NodeClassHashVersion := "v6".

Definition plain {A} (r : result error A) : M A :=
  of_result match r with Ok a => Ok a | Err e => Err (PlainError e) end.

Definition placement_group (nc : NodeClass) : M (option PlacementGroup) := λ s,
  let '(p, (pg, _)) :=
    PlacementGroup.Get_ pg_CacheKey now DescribePlacementGroups (PlacementGroupSelector_ (Spec nc))
      (cs_groups s) in
  Some ({| cs_instances := cs_instances s; cs_reservations := cs_reservations s; cs_groups := p;
           cs_events := cs_events s |}, Ok pg).

(** ** Resolving *)

Definition terminating_error (name : string) : provider_error :=
  NotFoundError (errorf ("ec2nodeclasses.karpenter.k8s.aws " +:+ name +:+ " is terminating, treating as not found")).

(** A NodeClass that is being deleted is treated as not found. *)
Definition unless_deleted (nc : NodeClass) : M NodeClass :=
  match nc_DeletionTimestamp nc with
  | Some _ => throw (terminating_error (nc_Name nc))
  | None => mret nc
  end.
Definition live_node_class (name : string) : M NodeClass :=
  match GetNodeClass name with Err e => throw e | Ok nc => unless_deleted nc end.

Definition resolveNodeClassFromNodeClaim (claim : NodeClaim) : M NodeClass :=
  match ncl_NodeClassRef claim with None => panic | Some name => live_node_class name end.

Definition resolveNodeClassFromNodePool (pool : NodePool) : M NodeClass :=
  match np_NodeClassRef pool with None => panic | Some name => live_node_class name end.

Definition resolveNodeClassFromInstance (i : Instance_) : M NodeClass :=
  match inst_Tags i !! NodeClassTagKey with
  | None => throw (NotFoundError (errorf "ec2nodeclasses.karpenter.k8s.aws not found"))
  | Some name =>
      match GetNodeClass name with
      | Err e => throw (wrap_error "resolving ec2nodeclass" e)
      | Ok nc => unless_deleted nc
      end
  end.

Definition resolveNodePoolFromInstance (i : Instance_) : M NodePool :=
  match inst_Tags i !! NodePoolLabelKey with
  | Some name => of_result (GetNodePool name)
  | None => throw (NotFoundError (errorf "nodepools.karpenter.sh not found"))
  end.

(** The NodeClass of a NodePool, [None] and an event when it cannot be found. *)
Definition find_node_class (pool : NodePool) : M (option NodeClass) :=
  catch (nc ← resolveNodeClassFromNodePool pool; mret (Some nc))
    (λ e, if is_not_found e
          then publish (NodePoolFailedToResolveNodeClass (np_Name pool));; mret None
          else throw (wrap_error "resolving nodeclass" e)).

Definition getInstanceType (pool : NodePool) (name : string) : M (option InstanceType) :=
  nc ← find_node_class pool;
  match nc with
  | None => mret None
  | Some nc =>
      it ← wrapping "resolving instancetype" (plain (instanceTypes_Get nc name));
      if NodeOverlay then
        it ← wrapping "resolving instancetype" (plain (Apply (np_Name pool) it)); mret (Some it)
      else mret (Some it)
  end.

(** The inner [None] is a nil instance type: the NodePool, the NodeClass or the type could
    not be found. *)
Definition resolveInstanceTypeFromInstance (i : Instance_) : M (option InstanceType) :=
  pool ← ignore_not_found (wrapping "resolving nodepool" (resolveNodePoolFromInstance i));
  match pool with
  | None => mret None
  | Some pool =>
      it ← ignore_not_found (wrapping "resolving instance type" (getInstanceType pool (inst_Type i)));
      mret (default None it)
  end.

(** ** The NodeClaim of an instance *)

(** A label per requirement with one value, capacity reservation labels excepted; [None] is
    an index out of range. *)
Definition add_requirement_label (labels : option (gmap string string)) (kr : string * Requirement) :
    option (gmap string string) :=
  labels ← labels;
  if decide (Len kr.2 = 1 ∧ kr.1 ∉ [ReservationIDLabel; LabelCapacityReservationType;
                                     LabelCapacityReservationInterruptible]) then
    v ← head (req_Values kr.2); Some (<[kr.1 := v]> labels)
  else Some labels.
Definition requirement_labels (it : InstanceType) : option (gmap string string) :=
  foldl add_requirement_label (Some ∅) (Entries (it_Requirements it)).

(** EFA is advertised only if the instance was launched with EFA interfaces. *)
Definition resourceFilter (efaCount : Z) (kv : string * Quantity) : Prop :=
  kv.2 ≠ 0 ∧ (kv.1 = ResourceEFA → 0 < efaCount).
#[export] Instance resourceFilter_dec efaCount kv : Decision (resourceFilter efaCount kv).
Proof. unfold resourceFilter. apply _. Defined.

Definition zone_id_label (nc : option NodeClass) (zone : string) (labels : gmap string string) :
    gmap string string :=
  match nc with
  | None => labels
  | Some nc =>
      match Find (λ sn, bool_decide (sn_Zone sn = zone)) (Subnets (Status nc)) with
      | Some sn => if decide (sn_ZoneID sn ≠ "") then <[LabelTopologyZoneID := sn_ZoneID sn]> labels else labels
      | None => labels
      end
  end.

(** [None] is a nil dereference. *)
Definition reservation_labels (i : Instance_) (labels : gmap string string) : option (gmap string string) :=
  if decide (inst_CapacityType i = CapacityTypeReserved) then
    d ← inst_CapacityReservationDetails i;
    Some (<[LabelCapacityReservationInterruptible := fmt_bool (crd_Interruptible d)]>
           (<[LabelCapacityReservationType := crd_Type d]>
             (<[ReservationIDLabel := crd_ID d]> labels)))
  else Some labels.

Definition partition_label (original : option NodeClaim) : string :=
  match original with
  | None => ""
  | Some claim => default "" (head (req_Values (Get (ncl_Requirements claim) LabelPlacementGroupPartition)))
  end.

Definition group_labels (nc : option NodeClass) (original : option NodeClaim) (labels : gmap string string) :
    M (gmap string string) :=
  match nc with
  | None => mret labels
  | Some nc =>
      pg ← placement_group nc;
      mret match pg with
           | None => labels
           | Some pg =>
               let labels := <[LabelPlacementGroupID := pg_ID pg]> labels in
               if decide (pg_Strategy pg = StrategyPartition)
               then <[LabelPlacementGroupPartition := partition_label original]> labels
               else labels
           end
  end.

Definition terminating_state (state : string) : Prop := state = "shutting-down" ∨ state = "terminated".
#[export] Instance terminating_state_dec state : Decision (terminating_state state).
Proof. unfold terminating_state. apply _. Defined.

Definition of_option {A} (o : option A) : M A := match o with Some a => mret a | None => panic end.

Definition provider_id (i : Instance_) : string := "aws:///" +:+ inst_Zone i +:+ "/" +:+ inst_ID i.

Definition instanceToNodeClaim (i : Instance_) (it : option InstanceType) (nc : option NodeClass)
    (original : option NodeClaim) : M NodeClaim :=
  labels ← of_option (match it with Some it => requirement_labels it | None => Some ∅ end);
  let labels := zone_id_label nc (inst_Zone i) (<[LabelTopologyZone := inst_Zone i]> labels) in
  let labels := <[LabelInstanceTenancy := inst_Tenancy i]>
                  (<[CapacityTypeLabelKey := inst_CapacityType i]> labels) in
  labels ← of_option (reservation_labels i labels);
  labels ← group_labels nc original labels;
  let labels := match inst_Tags i !! NodePoolLabelKey with
                | Some v => <[NodePoolLabelKey := v]> labels
                | None => labels
                end in
  let resources f := match it with
                     | Some it => filter (resourceFilter (inst_EFACount i)) (f it)
                     | None => ∅
                     end in
  mret {| ncl_Name := ""; ncl_Labels := labels; ncl_Annotations := ∅;
          ncl_CreationTimestamp := LaunchTime i;
          ncl_DeletionTimestamp := if decide (terminating_state (inst_State i)) then Some now else None;
          ncl_NodeClassRef := None; ncl_Requirements := NewRequirements [] []; ncl_Requests := ∅;
          ncl_ProviderID := provider_id i; ncl_ImageID := inst_ImageID i;
          ncl_NodeName := ""; ncl_Conditions := ∅;
          ncl_Capacity := resources Capacity; ncl_Allocatable := resources Allocatable |}.

(** ** Operations *)

(** The NodeClass to launch from; not finding one is insufficient capacity. *)
Definition launch_node_class (claim : NodeClaim) : M NodeClass :=
  catch (resolveNodeClassFromNodeClaim claim)
    (λ e, if is_not_found e then
            publish (NodeClaimFailedToResolveNodeClass (ncl_Name claim));;
            throw (InstanceError (InsufficientCapacityError (wrap "resolving nodeclass" (error_of e))))
          else throw (wrap_error "resolving nodeclass" e)).

Definition readiness (nc : NodeClass) : result provider_error unit :=
  let ready := ReadyCondition nc in
  if decide (cond_Status ready = ConditionFalse) then
    Err (NodeClassNotReadyError (errorf (cond_Message ready)))
  else if decide (cond_Status ready = ConditionUnknown) then
    Err (InstanceError (CreateError
      (errorf ("resolving nodeclass readiness, nodeclass is in Ready=Unknown, " +:+ cond_Message ready))
      "NodeClassReadinessUnknown" "NodeClass is in Ready=Unknown"))
  else if decide (cond_ObservedGeneration ready ≠ nc_Generation nc) then
    Err (NodeClassNotReadyError
      (errorf "nodeclass status has not been reconciled against the latest spec"))
  else Ok tt.

Definition launch_tags (claim : NodeClaim) (nc : NodeClass) : result provider_error (gmap string string) :=
  match GetTags nc (default "" (ncl_Labels claim !! NodePoolLabelKey)) ClusterName with
  | Ok tags => Ok tags
  | Err e => Err (NodeClassNotReadyError e)
  end.

(** The instance types of the NodeClass, with the overlays of the NodePool. *)
Definition launch_types (claim : NodeClaim) (nc : NodeClass) : M (list InstanceType) :=
  its ← of_result match instanceTypes_List nc with
                  | Ok its => Ok its
                  | Err e => Err (InstanceError (CreateError (wrap "resolving instance types" e)
                                    "InstanceTypeResolutionFailed" "Error resolving instance types"))
                  end;
  match ncl_Labels claim !! NodePoolTagKey with
  | Some pool => if NodeOverlay then wrapping "creating instance" (plain (ApplyAll pool its))
                 else mret its
  | None => mret its
  end.

(** A launched reserved instance takes a slot of its reservation. *)
Definition mark_launched (i : Instance_) : M unit :=
  if decide (inst_CapacityType i = CapacityTypeReserved) then
    match inst_CapacityReservationDetails i with
    | Some d => on_reservation (λ a, MarkLaunched a now now (crd_ID d))
    | None => panic
    end
  else mret tt.

Definition with_annotations (nc : NodeClass) (created : NodeClaim) : NodeClaim :=
  {| ncl_Name := ncl_Name created; ncl_Labels := ncl_Labels created;
     ncl_Annotations :=
       <[AnnotationInstanceProfile := InstanceProfile (Status nc)]>
         (<[AnnotationEC2NodeClassHashVersion := EC2NodeClassHashVersion]>
           (<[AnnotationEC2NodeClassHash := Hash nc]> (ncl_Annotations created)));
     ncl_CreationTimestamp := ncl_CreationTimestamp created;
     ncl_DeletionTimestamp := ncl_DeletionTimestamp created;
     ncl_NodeClassRef := ncl_NodeClassRef created;
     ncl_Requirements := ncl_Requirements created; ncl_Requests := ncl_Requests created;
     ncl_ProviderID := ncl_ProviderID created; ncl_ImageID := ncl_ImageID created;
     ncl_NodeName := ncl_NodeName created; ncl_Conditions := ncl_Conditions created;
     ncl_Capacity := ncl_Capacity created; ncl_Allocatable := ncl_Allocatable created |}.

Definition Create (claim : NodeClaim) : M NodeClaim :=
  nc ← launch_node_class claim;
  _ ← of_result (readiness nc);
  tags ← of_result (launch_tags claim nc);
  its ← launch_types claim nc;
  '(nc, i) ← wrapping "creating instance" (instances_create nc claim tags its);
  _ ← mark_launched i;
  created ← instanceToNodeClaim i (Find (λ it, bool_decide (Name it = inst_Type i)) its)
              (Some nc) (Some claim);
  mret (with_annotations nc created).

(** The NodeClaim of a listed instance. *)
Definition node_claim_of (i : Instance_) : M NodeClaim :=
  it ← wrapping "resolving instance type" (resolveInstanceTypeFromInstance i);
  nc ← wrapping "resolving nodeclass" (ignore_not_found (resolveNodeClassFromInstance i));
  instanceToNodeClaim i it nc None.

Fixpoint node_claims_of (instances : list Instance_) : M (list NodeClaim) :=
  match instances with
  | [] => mret []
  | i :: instances' =>
      claim ← node_claim_of i;
      claims ← node_claims_of instances';
      mret (claim :: claims)
  end.

Definition List_ : M (list NodeClaim) :=
  instances ← wrapping "listing instances" (instances_call api_List);
  node_claims_of instances.

Definition parse_id (prefix providerID : string) : M string :=
  wrapping prefix (plain (ParseInstanceID providerID)).

Definition Get_ (providerID : string) : M NodeClaim :=
  id ← parse_id "getting instance ID" providerID;
  i ← wrapping "getting instance" (instances_call (api_Get id false));
  match i with
  | None => panic
  | Some i => node_claim_of i
  end.

(** The error of the instance provider is returned as it is; a [NotFound] gives the
    reservation's slot back.  [t] is the time of the call. *)
Definition Delete_ (t : Z) (claim : NodeClaim) : M (option cp_error) :=
  id ← parse_id "getting instance ID" (ncl_ProviderID claim);
  err ← instances_do (api_Delete id);
  let reservationID := default "" (ncl_Labels claim !! ReservationIDLabel) in
  (if decide (reservationID ≠ "" ∧ IsNodeClaimNotFoundError err = true)
   then on_reservation (λ a, MarkTerminated a t reservationID id)
   else mret tt);;
  mret err.

Definition Reboot (claim : NodeClaim) (operationID : string) : M (option cp_error) :=
  id ← parse_id "getting instance ID" (ncl_ProviderID claim);
  instances_do (api_Reboot id operationID).

(** ** Drift *)

Definition getInstance (providerID : string) (skipCache : bool) : M (option Instance_) :=
  id ← plain (ParseInstanceID providerID);
  wrapping "getting instance" (instances_call (api_Get id skipCache)).

Definition areStaticFieldsDrifted (claim : NodeClaim) (nc : NodeClass) : string :=
  match nc_Annotations nc !! AnnotationEC2NodeClassHash,
        nc_Annotations nc !! AnnotationEC2NodeClassHashVersion,
        ncl_Annotations claim !! AnnotationEC2NodeClassHash,
        ncl_Annotations claim !! AnnotationEC2NodeClassHashVersion with
  | Some nodeClassHash, Some nodeClassVersion, Some nodeClaimHash, Some nodeClaimVersion =>
      if decide (nodeClassVersion ≠ nodeClaimVersion) then ""
      else if decide (nodeClassHash ≠ nodeClaimHash) then NodeClassDrift else ""
  | _, _, _, _ => ""
  end.

Definition isAMIDrifted (claim : NodeClaim) (nc : NodeClass) : M string :=
  let name := default "" (ncl_Labels claim !! LabelInstanceTypeStable) in
  it ← wrapping "getting node instance type" (plain (instanceTypes_Get nc name));
  if decide (AMIs_ (Status nc) = []) then throw (PlainError (errorf "no amis exist given constraints"))
  else if decide (ncl_ImageID claim = "") then
    throw (PlainError (errorf "no ami ID found in nodeClaim status"))
  else
    mret (if decide (is_Some (MapToInstanceTypes [it] (AMIs_ (Status nc)) !! ncl_ImageID claim))
          then "" else AMIDrift).

Definition isSubnetDrifted (i : Instance_) (nc : NodeClass) : result error string :=
  if decide (Subnets (Status nc) = []) then Err (errorf "no subnets are discovered")
  else Ok match Find (λ sn, bool_decide (sn_ID sn = inst_SubnetID i)) (Subnets (Status nc)) with
          | Some _ => ""
          | None => SubnetDrift
          end.

(** [sets.New] and [Equal]. *)
Definition areSecurityGroupsDrifted (i : option Instance_) (nc : NodeClass) : M string :=
  let securityGroupIds : gset string := list_to_set (sg_ID <$> SecurityGroups (Status nc)) in
  if decide (securityGroupIds = ∅) then
    throw (PlainError (errorf "no security groups are present in the status"))
  else match i with
       | None => panic
       | Some i => mret (if decide (securityGroupIds = list_to_set (inst_SecurityGroupIDs i))
                         then "" else SecurityGroupDrift)
       end.

Definition reservation_known (nc : NodeClass) (d : CapacityReservationDetails) : bool :=
  bool_decide (crd_ID d ∈ cr_ID <$> CapacityReservations_ (Status nc)).

Definition isCapacityReservationDrifted (providerID : string) (i : Instance_) (nc : NodeClass) : M string :=
  match inst_CapacityReservationDetails i with
  | None => mret ""
  | Some d =>
      if reservation_known nc d then mret ""
      else
        i ← getInstance providerID true;
        match i with
        | None => panic
        | Some i => mret match inst_CapacityReservationDetails i with
                         | Some d => if reservation_known nc d then "" else CapacityReservationDrift
                         | None => ""
                         end
        end
  end.

Definition isPlacementGroupDrifted (claim : NodeClaim) (nc : NodeClass) : M string :=
  pg ← placement_group nc;
  mret (if decide (default "" (ncl_Labels claim !! LabelPlacementGroupID) ≠ default "" (pg_ID <$> pg))
        then PlacementGroupDrift else "").

Definition isNodeClassDrifted (claim : NodeClaim) (nc : NodeClass) : M string :=
  let static := areStaticFieldsDrifted claim nc in
  if decide (static ≠ "") then mret static
  else
    ami ← wrapping "calculating ami drift" (isAMIDrifted claim nc);
    if decide (ami ≠ "") then mret ami
    else
      i ← getInstance (ncl_ProviderID claim) false;
      securityGroups ← wrapping "calculating securitygroup drift" (areSecurityGroupsDrifted i nc);
      match i with
      | None => panic
      | Some i =>
          subnet ← wrapping "calculating subnet drift" (plain (isSubnetDrifted i nc));
          reservations ← wrapping "calculating capacity reservation drift"
                           (isCapacityReservationDrifted (ncl_ProviderID claim) i nc);
          group ← isPlacementGroupDrifted claim nc;
          mret (default "" (Find (λ r, bool_decide (r ≠ ""))
                              [securityGroups; subnet; reservations; group]))
      end.

Definition IsDrifted (claim : NodeClaim) : M string :=
  match ncl_Labels claim !! NodePoolLabelKey with
  | None => mret ""
  | Some name =>
      pool ← ignore_not_found (of_result (GetNodePool name));
      match pool with
      | None => mret ""
      | Some pool =>
          match np_NodeClassRef pool with
          | None => mret ""
          | Some _ =>
              nc ← find_node_class pool;
              match nc with
              | None => mret ""
              | Some nc => isNodeClassDrifted claim nc
              end
          end
      end
  end.

(** ** Properties *)

#[local] Set Default Proof Using "Type".

(** Keeps proof search away from the parameters a lemma does not mention. *)
Ltac hide_parameters :=
  try clear Apply; try clear ApplyAll; try clear GetNodePool; try clear GetNodeClass;
  try clear instanceTypes_List; try clear instanceTypes_Get; try clear Hash; try clear ReadyCondition;
  try clear ClusterName; try clear Entries; try clear Len; try clear Allocatable.

Lemma quiet_plain {A} (x : result error A) : quiet (plain x).
Proof. apply quiet_of_result. Qed.
Lemma quiet_of_option {A} (o : option A) : quiet (of_option o).
Proof. destruct o; [apply quiet_ret|apply quiet_panic]. Qed.

(** Closes [quiet] goals by following the program. *)
Ltac quiet_step :=
  first
    [ apply quiet_ret | apply quiet_throw | apply quiet_panic | apply quiet_of_result
    | apply quiet_plain | apply quiet_publish | apply quiet_of_option
    | apply quiet_wrapping | apply quiet_ignore | apply quiet_catch | apply quiet_bind
    | progress intros | case_match | case_decide ].
Ltac quiet := repeat quiet_step.

Lemma quiet_placement_group nc : quiet (placement_group nc).
Proof. intros s s' r. unfold placement_group. destruct (PlacementGroup.Get_ _ _ _ _ _) as [p [pg e]]. by intros [= <- _]. Qed.

Lemma quiet_instanceToNodeClaim i it nc original : quiet (instanceToNodeClaim i it nc original).
Proof. unfold instanceToNodeClaim, group_labels. quiet. apply quiet_placement_group. Qed.

Lemma quiet_live_node_class name : quiet (live_node_class name).
Proof. unfold live_node_class, unless_deleted. quiet. Qed.

Lemma live_node_class_Ok name s s' nc :
  live_node_class name s = Some (s', Ok nc) →
  s' = s ∧ GetNodeClass name = Ok nc ∧ nc_DeletionTimestamp nc = None.
Proof.
  unfold live_node_class, unless_deleted. destruct (GetNodeClass name) as [nc'|e]; [|done].
  destruct (nc_DeletionTimestamp nc') eqn:E; [done|]. intros [= <- <-]. done.
Qed.

(** ** Create *)

(** The NodeClass a launch needs: found, not being deleted, ready for its latest generation,
    and without restricted tags. *)
Record launchable (claim : NodeClaim) (nc : NodeClass) : Prop := {
  la_found : ∃ name, ncl_NodeClassRef claim = Some name ∧ GetNodeClass name = Ok nc;
  la_live : nc_DeletionTimestamp nc = None;
  la_ready : cond_Status (ReadyCondition nc) = ConditionTrue;
  la_observed : cond_ObservedGeneration (ReadyCondition nc) = nc_Generation nc;
  la_tags k : is_Some (Tags (Spec nc) !! k) → restricted_tag k = false;
}.

Lemma GetTags_ok nc pool cluster tags k :
  GetTags nc pool cluster = Ok tags → is_Some (Tags (Spec nc : EC2NodeClassSpec Z) !! k) → restricted_tag k = false.
Proof.
  unfold GetTags. case_decide as Hnil; [done|]. intros _ [v Hk].
  destruct (restricted_tag k) eqn:E; [|done]. exfalso.
  assert ((k, v) ∈ filter (λ kv, restricted_tag kv.1 = true) (map_to_list (Tags (Spec nc)))) as Hin.
  { apply list_elem_of_filter. split; [done|]. by apply elem_of_map_to_list. }
  rewrite Hnil in Hin. by apply elem_of_nil in Hin.
Qed.

Lemma quiet_launch_node_class claim : quiet (launch_node_class claim).
Proof. unfold launch_node_class, resolveNodeClassFromNodeClaim. quiet. apply quiet_live_node_class. Qed.

Lemma launch_node_class_Ok claim s s' nc :
  launch_node_class claim s = Some (s', Ok nc) →
  ∃ name, ncl_NodeClassRef claim = Some name ∧ GetNodeClass name = Ok nc ∧ nc_DeletionTimestamp nc = None.
Proof.
  unfold launch_node_class, resolveNodeClassFromNodeClaim, catch.
  destruct (ncl_NodeClassRef claim) as [name|]; [|done].
  destruct (live_node_class name s) as [[s1 [nc'|e]]|] eqn:E; [| |done].
  - intros [= <- <-]. exists name. apply live_node_class_Ok in E as (_ & ? & ?). done.
  - by destruct (is_not_found e).
Qed.

Lemma quiet_launch_types claim nc : quiet (launch_types claim nc).
Proof. unfold launch_types. quiet. Qed.

Lemma readiness_Ok nc :
  readiness nc = Ok tt →
  cond_Status (ReadyCondition nc) = ConditionTrue ∧
  cond_ObservedGeneration (ReadyCondition nc) = nc_Generation nc.
Proof.
  unfold readiness. repeat case_decide; try done. destruct (cond_Status _); done.
Qed.

(** The reservation counts after a launch. *)
Definition after_launch (i : Instance_) (a : availabilityCache CL CT) : availabilityCache CL CT :=
  match inst_CapacityReservationDetails i with
  | Some d => if decide (inst_CapacityType i = CapacityTypeReserved)
              then MarkLaunched a now now (crd_ID d) else a
  | None => a
  end.

Lemma mark_launched_inv i s s' r :
  mark_launched i s = Some (s', r) →
  cs_instances s' = cs_instances s ∧ cs_reservations s' = after_launch i (cs_reservations s).
Proof.
  unfold mark_launched, after_launch. case_decide.
  - destruct (inst_CapacityReservationDetails i); [|done]. by intros [= <- _].
  - intros [= <- _]. by destruct (inst_CapacityReservationDetails i).
Qed.

Lemma launchable_intro claim nc tags s s' :
  launch_node_class claim s = Some (s', Ok nc) → Ok tt = readiness nc → Ok tags = launch_tags claim nc →
  launchable claim nc.
Proof.
  intros (name & Href & Hget & Hlive)%launch_node_class_Ok Hready Htags. symmetry in Hready, Htags.
  apply readiness_Ok in Hready as [? ?]. split; [by eexists|done..|]. intros k. unfold launch_tags in Htags.
  destruct (GetTags _ _ _) as [t|] eqn:Et; [|done]. by eapply GetTags_ok.
Qed.

(** C19: what a launch requires and changes.  [Create] calls the instance provider at most
    once, and only for a NodeClass that is found, not being deleted, ready for its latest
    generation and free of restricted tags; a launched reserved instance then takes one slot
    of its reservation, and nothing else touches the instances or the counts. *)
Theorem Create_gated claim s s' r :
  Create claim s = Some (s', r) →
  (cs_instances s' = cs_instances s ∧ cs_reservations s' = cs_reservations s ∧ is_ok r = false) ∨
  ∃ nc tags its instances counts x,
    launchable claim nc ∧
    api_Create nc claim tags its (cs_instances s) (cs_reservations s) = Some (instances, counts, x) ∧
    cs_instances s' = instances ∧
    cs_reservations s' = match x with Ok (_, i) => after_launch i counts | Err _ => counts end.
Proof.
  unfold Create. intros [(s1 & nc & Hnc & Hrest)|(e & He & ->)]%bind_inv.
  2: { left. destruct (quiet_launch_node_class _ _ _ _ He). done. }
  destruct (quiet_launch_node_class _ _ _ _ Hnc) as [<- <-].
  apply bind_inv in Hrest as [(s2 & [] & [-> Hready]%of_result_inv & Hrest)|(e & [-> _]%of_result_inv & ->)];
    [|by left].
  apply bind_inv in Hrest as [(s3 & tags & [-> Htags]%of_result_inv & Hrest)|(e & [-> _]%of_result_inv & ->)];
    [|by left].
  apply bind_inv in Hrest as [(s4 & its & Hits & Hrest)|(e & He & ->)].
  2: { left. by destruct (quiet_launch_types _ _ _ _ _ He). }
  destruct (quiet_launch_types _ _ _ _ _ Hits) as [<- <-]. right.
  assert (launchable claim nc) as Hla by by eapply launchable_intro.
  apply bind_inv in Hrest as [(s5 & [nc' i] & Hi & Hrest)|(e & He & ->)].
  - apply wrapping_Ok, instances_create_inv in Hi as (x & Hx & Hr).
    destruct x as [[nc'' i']|e]; [|done]. injection Hr as -> ->.
    exists nc, tags, its, (cs_instances s5), (cs_reservations s5), (Ok (nc'', i')).
    split_and!; [done|done|..].
    all: apply bind_inv in Hrest as [(s6 & u & Hm & Hrest)|(e & Hm & ->)];
      apply mark_launched_inv in Hm as [Hmi Hmr]; [|done].
    all: apply bind_inv in Hrest as [(s7 & c & Hc & Hrest)|(e & Hc & ->)];
      destruct (quiet_instanceToNodeClaim _ _ _ _ _ _ _ Hc) as [Hci Hcr]; [injection Hrest as <- _|].
    all: congruence.
  - apply wrapping_inv in He as (r & Hr & He). apply instances_create_inv in Hr as (x & Hx & ->).
    destruct x as [[nc' i']|e']; [done|]. by eauto 10.
Qed.

(** ** The NodeClaim of an instance *)

Lemma requirement_labels_excluded it labels k :
  requirement_labels it = Some labels →
  k ∈ [ReservationIDLabel; LabelCapacityReservationType; LabelCapacityReservationInterruptible] →
  labels !! k = None.
Proof.
  unfold requirement_labels. intros Hl Hk. revert labels Hl.
  induction (Entries (it_Requirements it)) as [|kr krs IH] using rev_ind; intros labels.
  - by intros [= <-].
  - rewrite foldl_app. simpl. destruct (foldl _ _ krs) as [m|] eqn:E; [|done]. simpl.
    case_decide as Hkr; [|intros [= <-]; by apply IH].
    intros (v & _ & [= <-])%bind_Some. rewrite lookup_insert_ne; [by apply IH|].
    intros Heq. destruct Hkr as [_ Hkr]. by rewrite Heq in Hkr.
Qed.

Lemma of_option_Ok {A} (o : option A) s s' a : of_option o s = Some (s', Ok a) → o = Some a ∧ s' = s.
Proof. destruct o; [|done]. by intros [= <- <-]. Qed.

Lemma group_labels_lookup nc original labels s s' labels' k :
  group_labels nc original labels s = Some (s', Ok labels') →
  k ≠ LabelPlacementGroupID → k ≠ LabelPlacementGroupPartition → labels' !! k = labels !! k.
Proof.
  intros Hg H1' H2'. unfold group_labels in Hg. destruct nc as [nc|]; [|by injection Hg as _ <-].
  apply bind_Ok in Hg as (s1 & pg & _ & Hg). injection Hg as _ <-. destruct pg as [pg|]; [|done].
  case_decide; by rewrite ?lookup_insert_ne by done.
Qed.

Lemma zone_id_label_lookup nc zone labels k :
  k ≠ LabelTopologyZoneID → zone_id_label nc zone labels !! k = labels !! k.
Proof.
  intros Hk. unfold zone_id_label. destruct nc as [nc|]; [|done].
  destruct (Find _ _); [|done]. case_decide; by rewrite ?lookup_insert_ne by done.
Qed.

Ltac label_lookups :=
  repeat first [rewrite lookup_insert_eq | rewrite lookup_insert_ne by done
               | rewrite zone_id_label_lookup by done]; done.

(** What the rest of the system reads from a NodeClaim: where the instance is, and which
    reservation it holds. *)
Lemma instanceToNodeClaim_spec i it nc original s s' c :
  instanceToNodeClaim i it nc original s = Some (s', Ok c) →
  ncl_ProviderID c = provider_id i ∧
  ncl_Labels c !! ReservationIDLabel =
    (if decide (inst_CapacityType i = CapacityTypeReserved)
     then crd_ID <$> inst_CapacityReservationDetails i else None) ∧
  ncl_Labels c !! CapacityTypeLabelKey = Some (inst_CapacityType i) ∧
  ncl_Labels c !! LabelTopologyZone = Some (inst_Zone i).
Proof.
  unfold instanceToNodeClaim. intros (s1 & l0 & [Hl0 ->]%of_option_Ok & Hrest)%bind_Ok.
  apply bind_Ok in Hrest as (s2 & l1 & [Hl1 ->]%of_option_Ok & Hrest).
  apply bind_Ok in Hrest as (s3 & l2 & Hl2 & Hrest). injection Hrest as _ <-. simpl.
  assert (l0 !! ReservationIDLabel = None) as Hres.
  { destruct it as [it|]; [|by injection Hl0 as <-]. eapply requirement_labels_excluded; [done|by left]. }
  set (pool := inst_Tags i !! NodePoolLabelKey) in *.
  assert (∀ k, k ∈ [ReservationIDLabel; CapacityTypeLabelKey; LabelTopologyZone] →
    (match pool with Some v => <[NodePoolLabelKey := v]> l2 | None => l2 end) !! k = l1 !! k) as Hk.
  { intros k Hin. assert (k ≠ NodePoolLabelKey ∧ k ≠ LabelPlacementGroupID ∧ k ≠ LabelPlacementGroupPartition)
      as (? & ? & ?) by (repeat (apply elem_of_cons in Hin as [->|Hin]; [done|]); by apply elem_of_nil in Hin).
    rewrite <- (group_labels_lookup _ _ _ _ _ _ k Hl2) by done.
    destruct pool; by rewrite ?lookup_insert_ne. }
  split; [done|]. rewrite !Hk by (apply (bool_decide_unpack _); by vm_compute).
  unfold reservation_labels in Hl1. case_decide as Hr.
  - destruct (inst_CapacityReservationDetails i) as [d|]; [|done]. injection Hl1 as <-.
    label_lookups.
  - injection Hl1 as <-.
    label_lookups.
Qed.

Lemma parse_provider_id i :
  free_of newline (provider_id i) → free_of slash (inst_ID i) →
  ParseInstanceID (provider_id i) = Ok (inst_ID i).
Proof. intros Hn Hs. apply ParseInstanceID_spec; [done|]. by exists "aws", (inst_Zone i). Qed.

(** The state after the instance provider answered [Delete] for [i] with [e]. *)
Definition after_delete (t : Z) (i : Instance_) (instances : I) (e : option cp_error) s : CPState :=
  {| cs_instances := instances;
     cs_reservations :=
       match inst_CapacityReservationDetails i with
       | Some d =>
           if decide (inst_CapacityType i = CapacityTypeReserved ∧ crd_ID d ≠ "" ∧
                      IsNodeClaimNotFoundError e = true)
           then MarkTerminated (cs_reservations s) t (crd_ID d) (inst_ID i)
           else cs_reservations s
       | None => cs_reservations s
       end;
     cs_groups := cs_groups s; cs_events := cs_events s |}.

Lemma Delete_of_instance t i c s :
  ncl_ProviderID c = provider_id i →
  ncl_Labels c !! ReservationIDLabel =
    (if decide (inst_CapacityType i = CapacityTypeReserved)
     then crd_ID <$> inst_CapacityReservationDetails i else None) →
  free_of newline (provider_id i) → free_of slash (inst_ID i) →
  Delete_ t c s =
  '(instances, e) ← api_Delete (inst_ID i) (cs_instances s); Some (after_delete t i instances e s, Ok e).
Proof.
  intros Hid Hlabel Hn Hs. unfold Delete_, parse_id, wrapping, plain, of_result, mbind, M_bind, instances_do,
    with_instances.
  rewrite Hid, parse_provider_id by done. destruct (api_Delete _ _) as [[ins e]|]; [|done]. simpl.
  rewrite Hlabel. unfold after_delete.
  destruct (inst_CapacityReservationDetails i) as [d|]; [|by case_decide].
  destruct (decide (inst_CapacityType i = CapacityTypeReserved)) as [Hc|Hc]; simpl.
  - destruct (decide (crd_ID d ≠ "" ∧ IsNodeClaimNotFoundError e = true)) as [Hd|Hd].
    + by rewrite decide_True by (by destruct Hd).
    + by rewrite decide_False by (by intros [_ ?]).
  - by rewrite decide_False by (by intros [? _]).
Qed.

(** A successful [Create]: the launch, the slot it takes, and the NodeClaim made from the
    instance and the NodeClass as the launch left it. *)
Lemma Create_Ok claim s s' c :
  Create claim s = Some (s', Ok c) →
  ∃ nc tags its instances counts nc' i created,
    launchable claim nc ∧
    api_Create nc claim tags its (cs_instances s) (cs_reservations s) = Some (instances, counts, Ok (nc', i)) ∧
    cs_reservations s' = after_launch i counts ∧ c = with_annotations nc' created ∧
    ncl_ProviderID created = provider_id i ∧
    ncl_Labels created !! ReservationIDLabel =
      (if decide (inst_CapacityType i = CapacityTypeReserved)
       then crd_ID <$> inst_CapacityReservationDetails i else None).
Proof.
  unfold Create. intros (s1 & nc & Hnc & Hrest)%bind_Ok.
  apply bind_Ok in Hrest as (s2 & [] & [-> Hready]%of_result_inv & Hrest).
  apply bind_Ok in Hrest as (s3 & tags & [-> Htags]%of_result_inv & Hrest).
  apply bind_Ok in Hrest as (s4 & its & Hits & Hrest).
  apply bind_Ok in Hrest as (s5 & [nc' i] & Hi & Hrest).
  apply bind_Ok in Hrest as (s6 & [] & Hm & Hrest).
  apply bind_Ok in Hrest as (s7 & created & Hc & Hrest). injection Hrest as <- <-.
  destruct (quiet_launch_node_class _ _ _ _ Hnc) as [<- <-].
  destruct (quiet_launch_types _ _ _ _ _ Hits) as [<- <-].
  apply wrapping_Ok, instances_create_inv in Hi as (x & Hx & Hr).
  destruct x as [[nc'' i']|]; [|done]. injection Hr as -> ->.
  apply mark_launched_inv in Hm as [_ Hm].
  destruct (quiet_instanceToNodeClaim _ _ _ _ _ _ _ Hc) as [_ Hres].
  apply instanceToNodeClaim_spec in Hc as (Hid & Hlabel & _ & _).
  exists nc, tags, its, (cs_instances s5), (cs_reservations s5), nc'', i', created.
  split_and!; [by eapply launchable_intro|done|congruence|done..].
Qed.

(** C20: what [Create] takes, [Delete] returns.  [Create] returns the NodeClaim of the
    instance the instance provider launched, after taking a slot of its reservation if the
    instance is reserved.  Deleting that NodeClaim, at any time, deletes that instance, and
    returns a slot of that reservation exactly when the instance is reserved and the
    instance provider reports it gone. *)
Theorem Create_Delete_roundtrip claim s s' c :
  Create claim s = Some (s', Ok c) →
  ∃ nc tags its instances counts nc' i,
    api_Create nc claim tags its (cs_instances s) (cs_reservations s) = Some (instances, counts, Ok (nc', i)) ∧
    cs_reservations s' = after_launch i counts ∧
    ncl_Annotations c !! AnnotationEC2NodeClassHash = Some (Hash nc') ∧
    (free_of newline (provider_id i) → free_of slash (inst_ID i) →
     ∀ t sd, Delete_ t c sd =
       '(instances, e) ← api_Delete (inst_ID i) (cs_instances sd);
       Some (after_delete t i instances e sd, Ok e)).
Proof.
  intros (nc & tags & its & instances & counts & nc' & i & created & _ & Hx & Hres & -> & Hid & Hlabel)%Create_Ok.
  exists nc, tags, its, instances, counts, nc', i. split_and!; [done|done| |].
  - unfold with_annotations. simpl. label_lookups.
  - intros Hn Hs t sd. by apply Delete_of_instance.
Qed.

(** ** Drift *)

(** The hashes were computed by the same version and differ. *)
Definition static_drift (claim : NodeClaim) (nc : NodeClass) : Prop :=
  ∃ nodeClassHash nodeClaimHash version,
    nc_Annotations nc !! AnnotationEC2NodeClassHash = Some nodeClassHash ∧
    ncl_Annotations claim !! AnnotationEC2NodeClassHash = Some nodeClaimHash ∧
    nc_Annotations nc !! AnnotationEC2NodeClassHashVersion = Some version ∧
    ncl_Annotations claim !! AnnotationEC2NodeClassHashVersion = Some version ∧
    nodeClassHash ≠ nodeClaimHash.

(** The image is not the one the instance type would be launched with. *)
Definition ami_drift (claim : NodeClaim) (nc : NodeClass) (it : InstanceType) : Prop :=
  first_image (AMIs_ (Status nc)) it ≠ Some (ncl_ImageID claim).

Definition security_group_drift (nc : NodeClass) (i : Instance_) : Prop :=
  ¬ ∀ id, id ∈ sg_ID <$> SecurityGroups (Status nc) ↔ id ∈ inst_SecurityGroupIDs i.
Definition subnet_drift (nc : NodeClass) (i : Instance_) : Prop :=
  inst_SubnetID i ∉ sn_ID <$> Subnets (Status nc).

(** The instance holds a reservation the NodeClass does not select, also when EC2 is asked
    again. *)
Definition reservation_drift (nc : NodeClass) (id : string) (i : Instance_) (instances : I) : Prop :=
  ∃ d instances' i' d',
    inst_CapacityReservationDetails i = Some d ∧ reservation_known nc d = false ∧
    api_Get id true instances = Some (instances', Ok (Some i')) ∧
    inst_CapacityReservationDetails i' = Some d' ∧ reservation_known nc d' = false.

Definition group_drift (claim : NodeClaim) (nc : NodeClass) (groups : PGProvider CP CA) : Prop :=
  default "" (ncl_Labels claim !! LabelPlacementGroupID) ≠
  default "" (pg_ID <$> (PlacementGroup.Get_ pg_CacheKey now DescribePlacementGroups
                           (PlacementGroupSelector_ (Spec nc)) groups).2.1).

Lemma areStaticFieldsDrifted_spec claim nc :
  (static_drift claim nc ∧ areStaticFieldsDrifted claim nc = NodeClassDrift) ∨
  (¬ static_drift claim nc ∧ areStaticFieldsDrifted claim nc = "").
Proof.
  hide_parameters.
  unfold static_drift, areStaticFieldsDrifted.
  destruct (nc_Annotations nc !! AnnotationEC2NodeClassHash) as [h1|] eqn:E1; [|right; naive_solver].
  destruct (nc_Annotations nc !! AnnotationEC2NodeClassHashVersion) as [v1|] eqn:E2; [|right; naive_solver].
  destruct (ncl_Annotations claim !! AnnotationEC2NodeClassHash) as [h2|] eqn:E3; [|right; naive_solver].
  destruct (ncl_Annotations claim !! AnnotationEC2NodeClassHashVersion) as [v2|] eqn:E4; [|right; naive_solver].
  case_decide as Hv; [right; naive_solver|]. subst. case_decide; [left|right]; naive_solver.
Qed.

Lemma MapToInstanceTypes_one it amis id :
  is_Some (MapToInstanceTypes [it] amis !! id) ↔ first_image amis it = Some id.
Proof.
  unfold MapToInstanceTypes. simpl. rewrite add_instance_type_spec.
  destruct (first_image amis it) as [id'|]; [|split; [by intros []|done]].
  rewrite lookup_insert_is_Some'. split; [intros [->|[]]; done|intros [= ->]; by left].
Qed.

Lemma isAMIDrifted_Ok claim nc s s' r :
  isAMIDrifted claim nc s = Some (s', Ok r) →
  s' = s ∧ ∃ it, instanceTypes_Get nc (default "" (ncl_Labels claim !! LabelInstanceTypeStable)) = Ok it ∧
    ((ami_drift claim nc it ∧ r = AMIDrift) ∨ (¬ ami_drift claim nc it ∧ r = "")).
Proof.
  unfold isAMIDrifted, ami_drift. intros (s1 & it & Hit & Hrest)%bind_Ok.
  apply wrapping_Ok in Hit. apply of_result_inv in Hit as [-> Hit].
  destruct (instanceTypes_Get _ _) as [it'|] eqn:E; [|done]. injection Hit as ->.
  repeat case_decide; try done; injection Hrest as -> <-; split; try done; exists it'; split; try done.
  - right. rewrite MapToInstanceTypes_one in *. by split; [intros ?|].
  - left. rewrite MapToInstanceTypes_one in *. done.
Qed.

Lemma areSecurityGroupsDrifted_Ok nc o s s' r :
  areSecurityGroupsDrifted o nc s = Some (s', Ok r) →
  s' = s ∧ ∃ i, o = Some i ∧
    ((security_group_drift nc i ∧ r = SecurityGroupDrift) ∨ (¬ security_group_drift nc i ∧ r = "")).
Proof.
  unfold areSecurityGroupsDrifted, security_group_drift. case_decide; [done|].
  destruct o as [i|]; [|done]. intros [= <- <-]. split; [done|]. exists i. split; [done|].
  case_decide as Heq.
  - right. split; [|done]. intros Hn. apply Hn. intros id. rewrite <- !(elem_of_list_to_set (C := gset string)).
    by rewrite Heq.
  - left. split; [|done]. intros Hall. apply Heq. apply set_eq. intros id. by rewrite !elem_of_list_to_set.
Qed.

Lemma isSubnetDrifted_Ok nc i r :
  isSubnetDrifted i nc = Ok r → (subnet_drift nc i ∧ r = SubnetDrift) ∨ (¬ subnet_drift nc i ∧ r = "").
Proof.
  unfold isSubnetDrifted, subnet_drift. case_decide; [done|]. intros [= <-].
  destruct (Find _ _) as [sn|] eqn:E.
  - apply Find_Some in E as [Hin Hid%bool_decide_eq_true]. right. split; [|done]. intros Hn. apply Hn.
    rewrite <- Hid. by apply list_elem_of_fmap_2.
  - left. split; [|done]. intros (sn & Heq & Hin)%list_elem_of_fmap.
    pose proof (Find_None _ _ _ E Hin) as Hf. by apply bool_decide_eq_false in Hf.
Qed.

Lemma getInstance_Ok providerID skip s s' o :
  getInstance providerID skip s = Some (s', Ok o) →
  ∃ id, ParseInstanceID providerID = Ok id ∧
    api_Get id skip (cs_instances s) = Some (cs_instances s', Ok o) ∧ cs_groups s' = cs_groups s.
Proof.
  unfold getInstance. intros (s1 & id & Hid & Hrest)%bind_Ok.
  apply of_result_inv in Hid as [-> Hid]. destruct (ParseInstanceID _) as [id'|]; [|done].
  injection Hid as ->. exists id'. split; [done|]. apply wrapping_Ok in Hrest.
  unfold instances_call, with_instances in Hrest.
  destruct (api_Get _ _ _) as [[ins [o'|e]]|]; [|done..]. by injection Hrest as <- <-.
Qed.

Lemma isCapacityReservationDrifted_Ok nc providerID id i s s' r :
  ParseInstanceID providerID = Ok id → isCapacityReservationDrifted providerID i nc s = Some (s', Ok r) →
  cs_groups s' = cs_groups s ∧
  ((reservation_drift nc id i (cs_instances s) ∧ r = CapacityReservationDrift) ∨
   (¬ reservation_drift nc id i (cs_instances s) ∧ r = "")).
Proof.
  hide_parameters.
  intros Hid. unfold isCapacityReservationDrifted, reservation_drift.
  destruct (inst_CapacityReservationDetails i) as [d|]; [|intros [= <- <-]; split; [done|right; naive_solver]].
  destruct (reservation_known nc d) eqn:Hk; [intros [= <- <-]; split;
    [done|right; split; [intros (? & ? & ? & ? & [= <-] & ? & _); congruence|done]]|].
  intros (s1 & o & Hg & Hrest)%bind_Ok. apply getInstance_Ok in Hg as (id' & Hid' & Hget & Hgr).
  rewrite Hid in Hid'. injection Hid' as <-. destruct o as [i'|]; [|done]. injection Hrest as <- <-.
  split; [done|]. rewrite Hget. destruct (inst_CapacityReservationDetails i') as [d'|] eqn:Ed.
  2: { right. split; [|done]. intros (? & ? & ? & ? & _ & _ & [= <- <-] & ? & _). congruence. }
  destruct (reservation_known nc d') eqn:Hk'.
  { right. split; [|done]. intros (? & ? & ? & ? & _ & _ & [= <- <-] & ? & ?). congruence. }
  left. split; [|done].
  by exists d, (cs_instances s1), i', d'.
Qed.

Lemma isPlacementGroupDrifted_Ok claim nc s s' r :
  isPlacementGroupDrifted claim nc s = Some (s', Ok r) →
  (group_drift claim nc (cs_groups s) ∧ r = PlacementGroupDrift) ∨
  (¬ group_drift claim nc (cs_groups s) ∧ r = "").
Proof.
  unfold isPlacementGroupDrifted, placement_group, group_drift, mbind, M_bind.
  destruct (PlacementGroup.Get_ _ _ _ _ _) as [p [pg e]]. simpl. intros [= _ <-]. case_decide as Hd; [left|right]; split; auto.
Qed.

(** A new NodeClaim is in static drift exactly if the launch changed the hash of the
    NodeClass.  [Create] records the hash of the NodeClass as the launch leaves it, while
    drift compares with the hash of the NodeClass as it is stored.  A launch in a region
    without the IPv6 metadata endpoint does change it ([Resolver.after_template]), so the
    NodeClaim drifts as soon as it exists. *)
Theorem Create_static_drift claim s s' c :
  Create claim s = Some (s', Ok c) →
  ∃ nc tags its instances counts nc' i,
    launchable claim nc ∧
    api_Create nc claim tags its (cs_instances s) (cs_reservations s) = Some (instances, counts, Ok (nc', i)) ∧
    (nc_Annotations nc !! AnnotationEC2NodeClassHash = Some (Hash nc) →
     nc_Annotations nc !! AnnotationEC2NodeClassHashVersion = Some EC2NodeClassHashVersion →
     (Hash nc' = Hash nc → ¬ static_drift c nc) ∧
     (Hash nc' ≠ Hash nc → ∀ sd, isNodeClassDrifted c nc sd = Some (sd, Ok NodeClassDrift))).
Proof.
  intros (nc & tags & its & instances & counts & nc' & i & created & Hl & Hx & _ & -> & _ & _)%Create_Ok.
  exists nc, tags, its, instances, counts, nc', i. split; [done|]. split; [done|]. intros Hhash Hversion.
  set (c := with_annotations nc' created).
  assert (ncl_Annotations c !! AnnotationEC2NodeClassHash = Some (Hash nc')) as Hc
    by (unfold c, with_annotations; simpl; label_lookups).
  assert (ncl_Annotations c !! AnnotationEC2NodeClassHashVersion = Some EC2NodeClassHashVersion) as Hcv
    by (unfold c, with_annotations; simpl; label_lookups).
  split.
  - intros Heq (h & h' & v & Hh & Hh' & _ & _ & Hne). congruence.
  - intros Hne sd. destruct (areStaticFieldsDrifted_spec c nc) as [[_ Hs]|[Hs _]].
    + unfold isNodeClassDrifted. by rewrite Hs, decide_True by done.
    + destruct Hs. exists (Hash nc), (Hash nc'), EC2NodeClassHashVersion. split_and!; done || congruence.
Qed.

(** The reasons found from the instance, in the order they are reported. *)
Definition instance_verdict (claim : NodeClaim) (nc : NodeClass) (id : string) (i : Instance_)
    (instances : I) (groups : PGProvider CP CA) (r : string) : Prop :=
  let sg := security_group_drift nc i in
  let subnet := subnet_drift nc i in
  let reservation := reservation_drift nc id i instances in
  let group := group_drift claim nc groups in
  (sg ∧ r = SecurityGroupDrift) ∨
  (¬ sg ∧ subnet ∧ r = SubnetDrift) ∨
  (¬ sg ∧ ¬ subnet ∧ reservation ∧ r = CapacityReservationDrift) ∨
  (¬ sg ∧ ¬ subnet ∧ ¬ reservation ∧ group ∧ r = PlacementGroupDrift) ∨
  (¬ sg ∧ ¬ subnet ∧ ¬ reservation ∧ ¬ group ∧ r = "").

(** C21: what drift means.  When the checks succeed, a NodeClaim is drifted exactly if its
    NodeClass was changed (the hashes of the same version differ), its image is not the one
    its instance type would be launched with, its instance's security groups are not those
    of the NodeClass, its subnet is not one of them, EC2 confirms a reservation the
    NodeClass does not select, or its placement group changed.  The first of these is the
    reason; the first two are found without looking at the instance. *)
Theorem isNodeClassDrifted_spec claim nc s s' r :
  isNodeClassDrifted claim nc s = Some (s', Ok r) →
  (static_drift claim nc ∧ r = NodeClassDrift ∧ s' = s) ∨
  (¬ static_drift claim nc ∧
   ∃ it, instanceTypes_Get nc (default "" (ncl_Labels claim !! LabelInstanceTypeStable)) = Ok it ∧
     ((ami_drift claim nc it ∧ r = AMIDrift ∧ s' = s) ∨
      (¬ ami_drift claim nc it ∧
       ∃ id i instances,
         ParseInstanceID (ncl_ProviderID claim) = Ok id ∧
         api_Get id false (cs_instances s) = Some (instances, Ok (Some i)) ∧
         instance_verdict claim nc id i instances (cs_groups s) r))).
Proof.
  hide_parameters.
  unfold isNodeClassDrifted. destruct (areStaticFieldsDrifted_spec claim nc) as [[Hst ->]|[Hst ->]].
  { rewrite decide_True by done. intros [= <- <-]. by left. }
  rewrite decide_False by (intros Hn; by apply Hn). intros (s1 & ami & Hami & Hrest)%bind_Ok. right.
  split; [done|]. apply wrapping_Ok, isAMIDrifted_Ok in Hami as (-> & it & Hit & [[Ha ->]|[Ha ->]]); exists it; split; try done.
  { rewrite decide_True in Hrest by done. injection Hrest as <- <-. by left. }
  right. split; [done|]. rewrite decide_False in Hrest by (intros Hn; by apply Hn).
  apply bind_Ok in Hrest as (s2 & o & Hget & Hrest). apply getInstance_Ok in Hget as (id & Hid & Hget & Hg).
  apply bind_Ok in Hrest as (s3 & sg & Hsg & Hrest).
  apply wrapping_Ok, areSecurityGroupsDrifted_Ok in Hsg as (-> & i & -> & Hsg).
  exists id, i, (cs_instances s2). split; [done|]. split; [done|].
  apply bind_Ok in Hrest as (s4 & sub & Hsub & Hrest).
  apply wrapping_Ok, of_result_inv in Hsub as [-> Hsub].
  destruct (isSubnetDrifted i nc) as [sub'|] eqn:Esub; [|done]. injection Hsub as ->.
  apply isSubnetDrifted_Ok in Esub.
  apply bind_Ok in Hrest as (s5 & res & Hres & Hrest).
  apply wrapping_Ok, (isCapacityReservationDrifted_Ok _ _ _ _ _ _ _ Hid) in Hres as [Hg5 Hres].
  apply bind_Ok in Hrest as (s6 & grp & Hgrp & Hrest). apply isPlacementGroupDrifted_Ok in Hgrp.
  rewrite Hg5, Hg in Hgrp. injection Hrest as _ <-. unfold instance_verdict.
  destruct Hsg as [[? ->]|[? ->]], Esub as [[? ->]|[? ->]], Hres as [[? ->]|[? ->]], Hgrp as [[? ->]|[? ->]];
    cbn; tauto.
Qed.
End cloudprovider.
Arguments InstanceAPI {_} _.
Arguments CPState : clear implicits.

(** ** The instance provider of the repository *)

Section implementation.
Context `{IR : ImageRequirements} `{Inhabited Requirements}.
Context {C CU CL CT : Type}.
Context `{GoCache (option Instance_) C, GoCache unit CU, GoCache positive CL, GoCache unit CT}.

(** Annotation keys of the core API. *)
Variable PriceOverlayAppliedAnnotationKey : string.
Variable NodeClaimMinValuesRelaxedAnnotationKey : string.
Variable DRADriversAnnotationKey : string.

(** [efadra.Requested] and [efa.DefaultProvider.Enabled] *)
Definition Requested (claim : NodeClaim) : bool :=
  existsb (λ driver, bool_decide (TrimSpace driver = "dra.net"))
    (Split (default "" (ncl_Annotations claim !! DRADriversAnnotationKey)) ",").
Definition Enabled (claim : NodeClaim) : bool :=
  bool_decide (is_Some (ncl_Requests claim !! ResourceEFA)) || Requested claim.

(** What a launch reads of the NodeClaim and the NodeClass. *)
Definition launch_spec (nc : NodeClass) (claim : NodeClaim) (tags : gmap string string) : LaunchSpec :=
  {| sp_requirements := ncl_Requirements claim; sp_requests := ncl_Requests claim; sp_tags := tags;
     sp_overlay := bool_decide (is_Some (ncl_Annotations claim !! PriceOverlayAppliedAnnotationKey));
     sp_context := Context_ (Spec nc);
     sp_minValuesRelaxed :=
       bool_decide (ncl_Annotations claim !! NodeClaimMinValuesRelaxedAnnotationKey = Some "true");
     sp_tenancy := Some (Get (ncl_Requirements claim) LabelInstanceTenancy) |}.

(** The instance types, each behind a pointer. *)
Definition pointers (its : list InstanceType) : list (ptr * InstanceType) :=
  zip (Pos.of_succ_nat <$> seq 0 (length its)) its.

(** The parts of [instance.DefaultProvider] that change, less the shared counts. *)
Record DefaultInstances := {
  di_offerings : UnavailableOfferings.UnavailableOfferings CU;
  di_trace : list event;
  di_instances : InstanceProvider C;
}.
Definition with_provider (d : DefaultInstances) (p : InstanceProvider C) : DefaultInstances :=
  {| di_offerings := di_offerings d; di_trace := di_trace d; di_instances := p |}.
Definition on_provider {A} (f : InstanceProvider C → option (InstanceProvider C * A)) (d : DefaultInstances) :
    option (DefaultInstances * A) :=
  '(p, a) ← f (di_instances d); Some (with_provider d p, a).

Variable now : Z.
Variable region : string.
Variable reservedCapacity : bool.
Variable IsZonalShifted : string → bool.
Variable DescribeInstances : string → result error (list (list ec2_Instance)).
Variable DescribeInstances_list : list (result error (list (list ec2_Instance))).
Variable TerminateInstances : string → option error.
Variable RebootInstances : string → option error.
Variable ZonalSubnetsForLaunch : nat → list InstanceType → string → result error (gmap string LaunchSubnet).
Variable EnsureAll : nat → list InstanceType → string → string → result error (list LaunchTemplate).
Variable CreateFleet :
  nat → BatchExecutors.CreateFleetInput (Body := FleetRequest) →
  result error (BatchExecutors.CreateFleetOutput (Overrides := FleetOverrides) (Meta := unit)).
Variable placementGroupID : nat → option string.
Variable partitionValues : Requirements → list string.
Variable lowest : list string → string.

Definition default_create (nc : NodeClass) (claim : NodeClaim) (tags : gmap string string)
    (its : list InstanceType) (d : DefaultInstances) (counts : availabilityCache CL CT) :
    option (DefaultInstances * availabilityCache CL CT * result cp_error (NodeClass * Instance_)) :=
  '(s, r) ← Launch.Create now ZonalSubnetsForLaunch EnsureAll CreateFleet placementGroupID partitionValues
              lowest (Enabled claim) (launch_spec nc claim tags) (list_to_map (pointers its))
              (pointers its).*1
              {| st_offerings := di_offerings d; st_reservations := counts; st_trace := di_trace d |};
  Some ({| di_offerings := st_offerings s; di_trace := st_trace s; di_instances := di_instances d |},
        st_reservations s,
        match r with Ok i => Ok (after_template region nc, i) | Err e => Err e end).

(** The launch leaves the NodeClass as the resolution of launch templates does. *)
Lemma default_create_class nc claim tags its d counts d' counts' nc' i :
  default_create nc claim tags its d counts = Some (d', counts', Ok (nc', i)) → nc' = after_template region nc.
Proof.
  unfold default_create. destruct (Launch.Create _ _ _ _ _ _ _ _ _ _ _ _) as [[s [i'|e]]|]; [|done..].
  by intros [= _ _ <- _].
Qed.

Definition default_instances : InstanceAPI CL CT DefaultInstances := {|
  api_Create := default_create;
  api_Get id skip := on_provider (Instances.Get_ now reservedCapacity IsZonalShifted DescribeInstances id skip);
  api_List := on_provider (Instances.List_ now reservedCapacity IsZonalShifted DescribeInstances_list);
  api_Delete id :=
    on_provider (Instances.Delete_ now reservedCapacity IsZonalShifted DescribeInstances TerminateInstances id);
  api_Reboot id _ :=
    on_provider (Instances.Reboot now reservedCapacity IsZonalShifted DescribeInstances RebootInstances id);
|}.
End implementation.
Arguments DefaultInstances : clear implicits.

(** ** Concrete executions *)

Section example.

(** The launch of [Launch]'s example: a NodeClaim that may use the reservations. *)
Definition example_types : list InstanceType := (λ p, w_store !!! p) <$> w_types.
Definition example_class : EC2NodeClass Z := invalidation_nodeclass "uid" "ami-1".
Definition example_claim : NodeClaim :=
  {| ncl_Name := "claim"; ncl_Labels := {[ NodePoolLabelKey := "pool" ]}; ncl_Annotations := ∅;
     ncl_CreationTimestamp := 0; ncl_DeletionTimestamp := None; ncl_NodeClassRef := Some "default";
     ncl_Requirements := w_requirements; ncl_Requests := ∅; ncl_ProviderID := ""; ncl_ImageID := "";
     ncl_NodeName := ""; ncl_Conditions := ∅;
     ncl_Capacity := ∅; ncl_Allocatable := ∅ |}.
Definition example_ready (_ : EC2NodeClass Z) : Condition :=
  {| cond_Status := ConditionTrue; cond_Reason := ""; cond_Message := ""; cond_ObservedGeneration := 0 |}.

Definition example_api :
    InstanceAPI (RefCache.t positive) (RefCache.t unit)
      (DefaultInstances (RefCache.t (option Instance_)) (RefCache.t unit)) :=
  default_instances "overlay" "relaxed" "drivers" 5 "us-iso-east-1" true (λ _, false) (λ _, Ok []) [] (λ _, None) (λ _, None)
    (λ _ _ _, Ok w_subnets) (λ _ _ _ _, Ok [w_lt]) w_fleet (λ _, None) (λ _, []) (λ _, "").

Definition example_state :
    CPState (RefCache.t positive) (RefCache.t unit) (RefCache.t unit) (RefCache.t PlacementGroup)
      (DefaultInstances (RefCache.t (option Instance_)) (RefCache.t unit)) :=
  {| cs_instances :=
       {| di_offerings := UnavailableOfferings.NewUnavailableOfferings; di_trace := [];
          di_instances := {| instanceCache := New 0; api_calls := [] |} |};
     cs_reservations := SetAvailableInstanceCount w_ac 5 5 "cr-2" 2;
     cs_groups := example_pgs; cs_events := [] |}.

Definition example_create :=
  Create (H5 := example_api) 5 (λ _, Ok example_class) (λ _, Ok example_types) (λ _ its, Ok its)
    example_key ec2_empty (λ _, "hash") example_ready "cluster" false
    (λ r : gmap string (list string), (λ kv, (kv.1, Some kv.2)) <$> map_to_list r)
    (λ r, Z.of_nat (length (ref_values r))) Capacity example_claim example_state.

Example example_create_result :
  match example_create with
  | Some (s, Ok c) => Some (ncl_ProviderID c, ncl_Labels c !! ReservationIDLabel,
                            GetAvailableInstanceCount (cs_reservations s) 6 "cr-2")
  | _ => None
  end = Some ("aws:///a/i-1", Some "cr-2", 1).
Proof. vm_compute. reflexivity. Qed.

Lemma example_create_Ok :
  match example_create with Some (_, Ok _) => true | _ => false end = true.
Proof. by vm_compute. Qed.

Lemma Create_gated_witness :
  ∃ nc counts (x : result cp_error (EC2NodeClass Z * Instance_)),
    launchable (λ _, Ok example_class) example_ready example_claim nc ∧
    match example_create with
    | Some (s', _) => cs_reservations s' = match x with Ok (_, i) => after_launch 5 i counts | Err _ => counts end
    | _ => False
    end.
Proof.
  pose proof example_create_Ok as Hok.
  destruct example_create as [[s' [c|e]]|] eqn:E; [|discriminate Hok..].
  destruct (Create_gated (H5 := example_api) 5 (λ _, Ok example_class) (λ _, Ok example_types) (λ _ its, Ok its)
    example_key ec2_empty (λ _, "hash") example_ready "cluster" false _ _ _ _ _ _ _ E)
    as [(_ & _ & Hf)|(nc & tags & its & ins & counts & x & Hl & Hx & Hi & Hr)]; [discriminate Hf|].
  exists nc, counts, x. split; [exact Hl|exact Hr].
Defined.

Lemma Create_Delete_roundtrip_witness :
  ∃ i, match example_create with
       | Some (_, Ok c) =>
           free_of newline (provider_id i) → free_of slash (inst_ID i) →
           Delete_ (H5 := example_api) 7 c example_state =
           '(instances, e) ← api_Delete (InstanceAPI := example_api) (inst_ID i) (cs_instances example_state);
           Some (after_delete 7 i instances e example_state, Ok e)
       | _ => False
       end.
Proof.
  pose proof example_create_Ok as Hok.
  destruct example_create as [[s' [c|e]]|] eqn:E; [|discriminate Hok..].
  destruct (Create_Delete_roundtrip (H5 := example_api) 5 (λ _, Ok example_class) (λ _, Ok example_types)
    (λ _ its, Ok its) example_key ec2_empty (λ _, "hash") example_ready "cluster" false _ _ _ _ _ _ _ E)
    as (nc & tags & its & ins & counts & nc' & i & _ & _ & _ & Hd).
  exists i. intros Hn Hs. exact (Hd Hn Hs 7 example_state).
Defined.

(** A NodeClass that lost the subnet of its instance. *)
Definition drift_class : EC2NodeClass Z :=
  {| nc_Name := "default"; nc_UID := "uid"; nc_Generation := 1; nc_DeletionTimestamp := None;
     nc_Annotations := {[ AnnotationEC2NodeClassHash := "h"; AnnotationEC2NodeClassHashVersion := "v6" ]};
     Spec := Spec example_class;
     Status :=
       {| Subnets := [{| sn_ID := "subnet-2"; sn_Zone := "a"; sn_ZoneID := "use1-az1" |}];
          SecurityGroups := [{| sg_ID := "sg-1"; sg_Name := "default" |}];
          CapacityReservations_ := [];
          AMIs_ := [{| ami_ID := "ami-1"; ami_Deprecated := false; ami_Name := "x";
                       ami_Requirements := [] |}];
          InstanceProfile := ""; Conditions := ∅ |} |}.
Definition drift_claim : NodeClaim :=
  {| ncl_Name := "claim"; ncl_Labels := {[ LabelInstanceTypeStable := "m5.large" ]};
     ncl_Annotations := {[ AnnotationEC2NodeClassHash := "h"; AnnotationEC2NodeClassHashVersion := "v6" ]};
     ncl_CreationTimestamp := 0; ncl_DeletionTimestamp := None; ncl_NodeClassRef := Some "default";
     ncl_Requirements := w_requirements; ncl_Requests := ∅; ncl_ProviderID := "aws:///a/i-1";
     ncl_ImageID := "ami-1"; ncl_NodeName := ""; ncl_Conditions := ∅; ncl_Capacity := ∅; ncl_Allocatable := ∅ |}.
Definition drift_ec2 (id : string) : ec2_Instance :=
  {| ei_LaunchTime := 0; ei_State := "running"; ei_InstanceId := id; ei_ImageId := "ami-1";
     ei_InstanceType := "m5.large"; ei_AvailabilityZone := "a"; ei_AvailabilityZoneId := "use1-az1";
     ei_Tenancy := ""; ei_PartitionNumber := None; ei_SpotInstanceRequestId := None;
     ei_CapacityReservationId := None; ei_CapacityReservationPreference := "";
     ei_InstanceLifecycle := ""; ei_SecurityGroups := ["sg-1"]; ei_SubnetId := "subnet-1";
     ei_Tags := []; ei_InterfaceTypes := [] |}.
Definition drift_api :
    InstanceAPI (RefCache.t positive) (RefCache.t unit)
      (DefaultInstances (RefCache.t (option Instance_)) (RefCache.t unit)) :=
  default_instances "overlay" "relaxed" "drivers" 5 "us-iso-east-1" true (λ _, false) (λ id, Ok [[drift_ec2 id]]) []
    (λ _, None) (λ _, None) (λ _ _ _, Ok w_subnets) (λ _ _ _ _, Ok [w_lt]) w_fleet (λ _, None) (λ _, [])
    (λ _, "").
Definition example_drift :=
  isNodeClassDrifted (H5 := drift_api) 5 (λ _ name, Ok (example_type name "amd64" "0")) example_key ec2_empty
    drift_claim drift_class example_state.

Lemma isNodeClassDrifted_spec_witness :
  from_option snd (Err (PlainError (errorf ""))) example_drift = Ok SubnetDrift ∧
  ∃ it, ¬ ami_drift drift_claim drift_class it ∧
    ∃ id i instances, ParseInstanceID "aws:///a/i-1" = Ok id ∧
      instance_verdict (H5 := drift_api) 5 example_key ec2_empty drift_claim drift_class id i instances
        (cs_groups example_state) SubnetDrift.
Proof.
  assert (from_option snd (Err (PlainError (errorf ""))) example_drift = Ok SubnetDrift) as Hok by by vm_compute.
  split; [exact Hok|]. destruct example_drift as [[s' r]|] eqn:E; [|discriminate Hok]. simpl in Hok. subst r.
  destruct (isNodeClassDrifted_spec (H5 := drift_api) 5 (λ _ name, Ok (example_type name "amd64" "0"))
    example_key ec2_empty drift_claim drift_class example_state s' SubnetDrift E)
    as [(_ & Hr & _)|(_ & it & _ & [(_ & Hr & _)|(Ha & id & i & ins & Hid & _ & Hv)])];
    [discriminate Hr|discriminate Hr|].
  exists it. split; [exact Ha|]. exists id, i, ins. split; [exact Hid|exact Hv].
Defined.

(** A NodeClass in an isolated region, with the hash the controller records.  The hash
    depends on the metadata options, as the structural hash does. *)
Definition isolated_hash (nc : EC2NodeClass Z) : string :=
  default "no options" (m ← MetadataOptions_ (Spec nc); HTTPProtocolIPv6 m).
Definition isolated_class : EC2NodeClass Z :=
  let nc := example_nodeclass in
  {| nc_Name := "default"; nc_UID := "uid"; nc_Generation := 0; nc_DeletionTimestamp := None;
     nc_Annotations := {[ AnnotationEC2NodeClassHash := "disabled";
                          AnnotationEC2NodeClassHashVersion := "v6" ]};
     Spec := Spec nc; Status := Status nc |}.
Definition isolated_create :=
  Create (H5 := example_api) 5 (λ _, Ok isolated_class) (λ _, Ok example_types) (λ _ its, Ok its)
    example_key ec2_empty isolated_hash example_ready "cluster" false
    (λ r : gmap string (list string), (λ kv, (kv.1, Some kv.2)) <$> map_to_list r)
    (λ r, Z.of_nat (length (ref_values r))) Capacity example_claim example_state.
Example isolated_create_drifts :
  match isolated_create with
  | Some (_, Ok c) => areStaticFieldsDrifted c isolated_class
  | _ => ""
  end = NodeClassDrift.
Proof. vm_compute. reflexivity. Qed.

Lemma Create_static_drift_witness :
  match isolated_create with
  | Some (_, Ok c) =>
      isNodeClassDrifted (H5 := example_api) 5 (λ _ name, Ok (example_type name "amd64" "0")) example_key ec2_empty
        c isolated_class example_state = Some (example_state, Ok NodeClassDrift)
  | _ => False
  end.
Proof.
  assert (match isolated_create with Some (_, Ok _) => true | _ => false end = true) as Hok
    by (vm_compute; reflexivity).
  destruct isolated_create as [[s' [c|e]]|] eqn:E; [|discriminate Hok..]. unfold isolated_create in E.
  destruct (Create_static_drift (H5 := example_api) 5 (λ _, Ok isolated_class) (λ _, Ok example_types)
    (λ _ name, Ok (example_type name "amd64" "0")) (λ _ its, Ok its) example_key ec2_empty isolated_hash
    example_ready "cluster" false _ _ _ _ _ _ _ E)
    as (nc & tags & its & ins & counts & nc' & i & Hl & Hx & Hd).
  destruct (la_found _ _ _ _ Hl) as (name & _ & Hnc). injection Hnc as <-.
  apply default_create_class in Hx. subst nc'.
  refine (proj2 (Hd _ _) _ example_state); [reflexivity|reflexivity|discriminate].
Defined.
End example.
