(* ===== verification/Interruption.v ===== *)
(** * [pkg/controllers/interruption] and [pkg/providers/instancestatus]

    [parser.go] and [messages/]: the events of the interruption queue.  [utils.go]: what a
    message does to the NodeClaims of the instances it names.  [controller.go]: one round
    of the queue.  [instancestatus.go] and [instancestatus_controller.go]: the same for the
    status checks EC2 reports.  The JSON decoders, the queue, EC2 and the rendering of an
    instant are parameters; the parallel workers are taken one after the other.  Published
    events are recorded; metrics and logging are left out, but for the count of unhealthy
    instances. *)
From S2P Require Import Prelude GoStd GoCache AwsErrors ApiV1 UnavailableOfferings CapacityReservation Scheduling Kube Filters Launch Utils Offerings CloudProvider.

(** ** Messages *)

Inductive Kind :=
  | RebalanceRecommendationKind | ScheduledChangeKind | SpotInterruptionKind
  | InstanceStoppedKind | InstanceTerminatedKind | CapacityReservationInterruptionKind
  | InstanceStatusKind | SystemStatusKind | EventStatusKind | NoOpKind.
#[export] Instance Kind_eq_dec : EqDecision Kind.
Proof. solve_decision. Defined.

Record Message := {
  msg_EC2InstanceIDs : list string;
  msg_Kind : Kind;
  msg_StartTime : Z;
}.

Record Metadata := { md_Time : Z; md_Version : string; md_Source : string; md_DetailType : string }.

(** The details of the events the parsers read. *)
Record StateDetail := { sd_InstanceID : string; sd_State : string }.
Record HealthDetail := {
  hd_Service : string;
  hd_EventTypeCategory : string;
  hd_AffectedEntities : list string;
}.

Inductive Parser :=
  StateChangeParser | SpotInterruptionParser | ScheduledChangeParser | RebalanceParser | CapacityReservationParser.

Definition Parser_Version (p : Parser) : string := "0".
Definition Parser_Source (p : Parser) : string :=
  match p with ScheduledChangeParser => "aws.health" | _ => "aws.ec2" end.
Definition Parser_DetailType (p : Parser) : string :=
  match p with
  | StateChangeParser => "EC2 Instance State-change Notification"
  | SpotInterruptionParser => "EC2 Spot Instance Interruption Warning"
  | ScheduledChangeParser => "AWS Health Event"
  | RebalanceParser => "EC2 Instance Rebalance Recommendation"
  | CapacityReservationParser => "EC2 Capacity Reservation Instance Interruption Warning"
  end.

(** [parserKey]: version, source and detail type. *)
Definition parserKey : Type := string * string * string.
Definition newParserKey (md : Metadata) : parserKey := (md_Version md, md_Source md, md_DetailType md).
Definition newParserKeyFromParser (p : Parser) : parserKey :=
  (Parser_Version p, Parser_Source p, Parser_DetailType p).
Definition DefaultParsers : list Parser :=
  [StateChangeParser; SpotInterruptionParser; ScheduledChangeParser; RebalanceParser; CapacityReservationParser].
Definition NewEventParser (parsers : list Parser) : gmap parserKey Parser :=
  foldl (λ m p, <[newParserKeyFromParser p := p]> m) ∅ parsers.

Definition acceptedStates : list string := ["stopping"; "stopped"; "shutting-down"; "terminated"].

(** [Kind] of a state change: the state is compared as it is written. *)
Definition state_kind (state : string) : Kind :=
  if decide (state ∈ ["stopping"; "stopped"]) then InstanceStoppedKind else InstanceTerminatedKind.

Definition noop : Message := {| msg_EC2InstanceIDs := []; msg_Kind := NoOpKind; msg_StartTime := 0 |}.

Section parsing.
(** [json.Unmarshal] into the structures of the parsers. *)
Variable UnmarshalMetadata : string → result error Metadata.
Variable UnmarshalState : string → result error (Metadata * StateDetail).
Variable UnmarshalHealth : string → result error (Metadata * HealthDetail).
Variable UnmarshalInstance : Parser → string → result error (Metadata * string).

(** [None]: an event the parser ignores. *)
Definition Parser_Parse (p : Parser) (raw : string) : result error (option Message) :=
  let of_instance kind :=
    match UnmarshalInstance p raw with
    | Err e => Err (wrap ("unmarhsalling the message as " +:+ Parser_DetailType p) e)
    | Ok (md, id) => Ok (Some {| msg_EC2InstanceIDs := [id]; msg_Kind := kind; msg_StartTime := md_Time md |})
    end in
  match p with
  | StateChangeParser =>
      match UnmarshalState raw with
      | Err e => Err (wrap "unmarhsalling the message as EC2InstanceStateChangeNotification" e)
      | Ok (md, d) =>
          Ok (if decide (ToLower (sd_State d) ∈ acceptedStates) then
                Some {| msg_EC2InstanceIDs := [sd_InstanceID d]; msg_Kind := state_kind (sd_State d);
                        msg_StartTime := md_Time md |}
              else None)
      end
  | ScheduledChangeParser =>
      match UnmarshalHealth raw with
      | Err e => Err (wrap "unmarhsalling the message as AWSHealthEvent" e)
      | Ok (md, d) =>
          Ok (if decide (hd_Service d ≠ "EC2" ∨ hd_EventTypeCategory d ≠ "scheduledChange") then None
              else Some {| msg_EC2InstanceIDs := hd_AffectedEntities d; msg_Kind := ScheduledChangeKind;
                           msg_StartTime := md_Time md |})
      end
  | SpotInterruptionParser => of_instance SpotInterruptionKind
  | RebalanceParser => of_instance RebalanceRecommendationKind
  | CapacityReservationParser => of_instance CapacityReservationInterruptionKind
  end.

Definition Parse (parserMap : gmap parserKey Parser) (msg : string) : result error Message :=
  if decide (msg = "") then Ok noop
  else
    match UnmarshalMetadata msg with
    | Err e => Err (wrap "unmarshalling the message as Metadata" e)
    | Ok md =>
        match parserMap !! newParserKey md with
        | Some p =>
            match Parser_Parse p msg with
            | Err e => Err (wrap "parsing event message" e)
            | Ok evt => Ok (default noop evt)
            end
        | None => Ok {| msg_EC2InstanceIDs := []; msg_Kind := NoOpKind; msg_StartTime := md_Time md |}
        end
    end.

(** [None] is a missing body. *)
Definition parseMessage (parserMap : gmap parserKey Parser) (body : option string) : result error Message :=
  match body with
  | None => Err (errorf "message or message body is nil")
  | Some raw => match Parse parserMap raw with
                | Err e => Err (wrap "parsing sqs message" e)
                | Ok msg => Ok msg
                end
  end.
End parsing.

(** ** Acting on NodeClaims *)

Inductive Action := CordonAndDrain | ForcefulTermination | NoAction.
#[export] Instance Action_eq_dec : EqDecision Action.
Proof. solve_decision. Defined.

Definition actionForMessage (k : Kind) : Action :=
  match k with
  | InstanceStatusKind | SystemStatusKind => ForcefulTermination
  | ScheduledChangeKind | EventStatusKind | SpotInterruptionKind | InstanceStoppedKind
  | InstanceTerminatedKind | CapacityReservationInterruptionKind => CordonAndDrain
  | _ => NoAction
  end.

(** The published events, with the NodeClaim and the Node if there is one. *)
Inductive InterruptionEvent :=
  | RebalanceRecommendation | Unhealthy | SpotInterrupted | CapacityReservationInstanceInterrupted
  | Stopping | Terminating | TerminatingOnInterruption.
Definition event_of (k : Kind) : option InterruptionEvent :=
  match k with
  | RebalanceRecommendationKind => Some RebalanceRecommendation
  | ScheduledChangeKind | EventStatusKind | InstanceStatusKind | SystemStatusKind => Some Unhealthy
  | SpotInterruptionKind => Some SpotInterrupted
  | CapacityReservationInterruptionKind => Some CapacityReservationInstanceInterrupted
  | InstanceStoppedKind => Some Stopping
  | InstanceTerminatedKind => Some Terminating
  | NoOpKind => None
  end.

Definition NodeClaimTerminationTimestampAnnotationKey := "karpenter.sh/nodeclaim-termination-timestamp".

(** The index of objects by instance ID ([operator.go]): objects without a provider ID that
    parses are not in it. *)
Definition instance_index (providerID : string) : option string :=
  if decide (providerID = "") then None
  else match ParseInstanceID providerID with
       | Ok id => if decide (id = "") then None else Some id
       | Err _ => None
       end.

(** [multierr.Combine]; [errors.As] finds the first API error. *)
Definition Combine (es : list error) : option error :=
  match es with
  | [] => None
  | [e] => Some e
  | es => Some {| Error := join_errors (Error <$> es); asAPIError := head (omap asAPIError es) |}
  end.

Section handler.
Context `{SchedulingTypes} {K C : Type} `{!KubeAPI NodeClaim K} `{!KubeAPI Node K} `{GoCache unit C}.
Variable now : Z.
(** [Format(time.RFC3339)] *)
Variable Format : Z → string.

(** [InterruptionHandler]: the API server, the ICE cache if there is one, and the events. *)
Record Handler := {
  ih_kube : K;
  ih_ice : option (UnavailableOfferings C);
  ih_events : list (InterruptionEvent * string * option string);
}.
Definition with_kube (k : K) (h : Handler) : Handler :=
  {| ih_kube := k; ih_ice := ih_ice h; ih_events := ih_events h |}.
Definition publish_ (e : InterruptionEvent) (claim : NodeClaim) (node : option Node) (h : Handler) : Handler :=
  {| ih_kube := ih_kube h; ih_ice := ih_ice h;
     ih_events := ih_events h ++ [(e, ncl_Name claim, nd_Name <$> node)] |}.
Definition with_ice (f : UnavailableOfferings C → UnavailableOfferings C) (h : Handler) : Handler :=
  {| ih_kube := ih_kube h; ih_ice := f <$> ih_ice h; ih_events := ih_events h |}.

Definition markUnavailableOfferings (k : Kind) (claim : NodeClaim) (h : Handler) : Handler :=
  let zone := default "" (ncl_Labels claim !! LabelTopologyZone) in
  let instanceType := default "" (ncl_Labels claim !! LabelInstanceTypeStable) in
  let reservationID := default "" (ncl_Labels claim !! ReservationIDLabel) in
  match k with
  | SpotInterruptionKind =>
      if decide (zone ≠ "" ∧ instanceType ≠ "")
      then with_ice (λ u, MarkUnavailable u now instanceType zone CapacityTypeSpot []) h else h
  | CapacityReservationInterruptionKind =>
      if decide (zone ≠ "" ∧ instanceType ≠ "" ∧ reservationID ≠ "")
      then with_ice (λ u, MarkUnavailable u now instanceType zone CapacityTypeReserved
                            [WithReservationID reservationID]) h else h
  | _ => h
  end.

Definition notifyForMessage (k : Kind) (claim : NodeClaim) (node : option Node) (h : Handler) : Handler :=
  match event_of k with Some e => publish_ e claim node h | None => h end.

(** The claim as the patch returns it, or as it was modified if the claim is gone. *)
Definition annotateTerminationTimestamp (claim : NodeClaim) (h : Handler) :
    Handler * result kube_error NodeClaim :=
  match ncl_Annotations claim !! NodeClaimTerminationTimestampAnnotationKey with
  | Some _ => (h, Ok claim)
  | None =>
      let modified := obj_with (ncl_Labels claim)
        (<[NodeClaimTerminationTimestampAnnotationKey := Format now]> (ncl_Annotations claim)) claim in
      let '(k, r) := kPatch claim modified (ih_kube h) in
      (with_kube k h, match r with Err (KubeNotFound _) => Ok modified | r => r end)
  end.

Definition deleteNodeClaim (claim : NodeClaim) (node : option Node) (h : Handler) :
    Handler * option kube_error :=
  match ncl_DeletionTimestamp claim with
  | Some _ => (h, None)
  | None =>
      match kDelete claim (ih_kube h) with
      | (k, Some e) =>
          (with_kube k h,
           ignore_kube_not_found (Some (wrap_kube "deleting the node on interruption message" e)))
      | (k, None) => (publish_ TerminatingOnInterruption claim node (with_kube k h), None)
      end
  end.

Definition handleNodeClaim (k : Kind) (claim : NodeClaim) (node : option Node) (h : Handler) :
    Handler * option kube_error :=
  let h := markUnavailableOfferings k claim (notifyForMessage k claim node h) in
  match actionForMessage k with
  | ForcefulTermination =>
      match annotateTerminationTimestamp claim h with
      | (h, Err e) => (h, Some e)
      | (h, Ok claim) => deleteNodeClaim claim node h
      end
  | CordonAndDrain => deleteNodeClaim claim node h
  | NoAction => (h, None)
  end.

Definition claims_of_instance (id : string) (k : K) : result kube_error (list NodeClaim) :=
  match kList NodeClaim k with
  | Ok l => Ok (filter (λ c, instance_index (ncl_ProviderID c) = Some id) l)
  | Err e => Err e
  end.
Definition nodes_of_instance (id : string) (k : K) : result kube_error (list Node) :=
  match kList Node k with
  | Ok l => Ok (filter (λ n, instance_index (nd_ProviderID n) = Some id) l)
  | Err e => Err e
  end.

(** The NodeClaims of one instance. *)
Fixpoint handle_claims (k : Kind) (id : string) (cs : list NodeClaim) (h : Handler) :
    Handler * list kube_error :=
  match cs with
  | [] => (h, [])
  | claim :: cs' =>
      let '(h, es) := match nodes_of_instance id (ih_kube h) with
                      | Err e => (h, [e])
                      | Ok nodes => let '(h, e) := handleNodeClaim k claim (head nodes) h in (h, option_list e)
                      end in
      let '(h, es') := handle_claims k id cs' h in (h, es ++ es')
  end.

(** The instances of a message; the flag says whether a NodeClaim was found. *)
Fixpoint handle_instances (k : Kind) (dryRun : bool) (ids : list string) (h : Handler) :
    Handler * (bool * list kube_error) :=
  match ids with
  | [] => (h, (false, []))
  | id :: ids' =>
      let '(h, (found, es)) :=
        match claims_of_instance id (ih_kube h) with
        | Err e => (h, (false, [e]))
        | Ok [] => (h, (false, []))
        | Ok cs => if dryRun then (h, (true, []))
                   else let '(h, es) := handle_claims k id cs h in (h, (true, es))
        end in
      let '(h, (found', es')) := handle_instances k dryRun ids' h in
      (h, (found || found', es ++ es'))
  end.

Definition handleMessage (msg : Message) (dryRun : bool) (h : Handler) : Handler * (bool * option error) :=
  if decide (msg_Kind msg = NoOpKind) then (h, (false, None))
  else
    let '(h, (found, es)) := handle_instances (msg_Kind msg) dryRun (msg_EC2InstanceIDs msg) h in
    (h, (found, wrap "acting on NodeClaims" <$> Combine (kube_cause <$> es))).
End handler.
Arguments Handler : clear implicits.

(** ** The interruption queue *)

(** [sqstypes.Message] *)
Record SQSMessage := { sqs_Body : option string; sqs_ReceiptHandle : string }.

Section queue.
Context `{SchedulingTypes} {K C : Type} `{!KubeAPI NodeClaim K} `{!KubeAPI Node K} `{GoCache unit C}.
Variable now : Z.
Variable Format : Z → string.
Variable parse : option string → result error Message.
(** Whether the queue deletes a message. *)
Variable DeleteSQSMessage : SQSMessage → option error.

(** The handler, and the messages that were deleted. *)
Record QueueController := {
  qc_handler : Handler K C;
  qc_deleted : list SQSMessage;
}.

Definition deleteMessage (m : SQSMessage) (c : QueueController) : QueueController * option error :=
  match DeleteSQSMessage m with
  | Some e => (c, Some (wrap "deleting sqs message" e))
  | None => ({| qc_handler := qc_handler c; qc_deleted := qc_deleted c ++ [m] |}, None)
  end.

(** One worker item: a message that does not parse is deleted, one that could not be
    handled stays. *)
Definition process_message (m : SQSMessage) (c : QueueController) : QueueController * option error :=
  match parse (sqs_Body m) with
  | Err _ => deleteMessage m c
  | Ok msg =>
      let '(h, (_, e)) := handleMessage now Format msg false (qc_handler c) in
      let c := {| qc_handler := h; qc_deleted := qc_deleted c |} in
      match e with
      | Some e => (c, Some (wrap "handling message" e))
      | None => deleteMessage m c
      end
  end.

Fixpoint process_messages (ms : list SQSMessage) (c : QueueController) : QueueController * list error :=
  match ms with
  | [] => (c, [])
  | m :: ms' =>
      let '(c, e) := process_message m c in
      let '(c, es) := process_messages ms' c in
      (c, option_list e ++ es)
  end.

(** One round; [provider] is the error of creating the provider. *)
Definition Reconcile_queue (provider : option error) (messages : result error (list SQSMessage))
    (c : QueueController) : QueueController * option error :=
  match provider, messages with
  | Some e, _ => (c, Some (wrap "creating sqs provider" e))
  | None, Err e => (c, Some (wrap "getting messages from queue" e))
  | None, Ok ms => let '(c, es) := process_messages ms c in (c, Combine es)
  end.
End queue.
Arguments QueueController : clear implicits.

(** ** Status checks *)

Inductive Category := InstanceStatus | SystemStatus | EventStatus.
#[export] Instance Category_eq_dec : EqDecision Category.
Proof. solve_decision. Defined.

Definition UnhealthyThreshold : Z := 120 * Second.

(** [instancestatus.Details] and [HealthStatus]; [None] is the zero time. *)
Record Details := {
  dt_Category : Category;
  dt_Name : string;
  dt_ImpairedSince : option Z;
  dt_Status : string;
}.
Record HealthStatus := {
  hs_InstanceID : string;
  hs_ImpairedSince : option Z;
  hs_Details : list Details;
}.

(** [ec2types.InstanceStatus]: the details of the two checks, and the codes of the events. *)
Record StatusDetails := { isd_Name : string; isd_Status : string; isd_ImpairedSince : option Z }.
Record EC2InstanceStatus := {
  eis_InstanceId : string;
  eis_InstanceStatus : option (list StatusDetails);
  eis_SystemStatus : option (list StatusDetails);
  eis_Events : list string;
}.

Definition EarliestImpairedSince (ds : list Details) : option Z :=
  match omap dt_ImpairedSince ds with
  | [] => None
  | t :: ts => Some (foldl Z.min t ts)
  end.

Section status.
Variable now : Z.
(** The pages of the call for one category. *)
Variable DescribeInstanceStatus : Category → list (result error (list EC2InstanceStatus)).

Definition Category_string (c : Category) : string :=
  match c with InstanceStatus => "InstanceStatus" | SystemStatus => "SystemStatus" | EventStatus => "EventStatus" end.
Definition newDetails (c : Category) (d : StatusDetails) : Details :=
  {| dt_Category := c; dt_Name := isd_Name d; dt_ImpairedSince := isd_ImpairedSince d; dt_Status := isd_Status d |}.
(** Scheduled events count as failures from now on. *)
Definition event_details (code : string) : Details :=
  {| dt_Category := EventStatus; dt_Name := code; dt_ImpairedSince := Some now; dt_Status := "failed" |}.

Definition newHealthStatus (s : EC2InstanceStatus) : HealthStatus :=
  {| hs_InstanceID := eis_InstanceId s; hs_ImpairedSince := None;
     hs_Details := (newDetails InstanceStatus <$> default [] (eis_InstanceStatus s))
                   ++ (newDetails SystemStatus <$> default [] (eis_SystemStatus s))
                   ++ (event_details <$> eis_Events s) |}.

(** The statuses of the pages, an instance counted once. *)
Definition add_status (acc : gset string * list EC2InstanceStatus) (s : EC2InstanceStatus) :
    gset string * list EC2InstanceStatus :=
  if decide (eis_InstanceId s ∈ acc.1) then acc
  else ({[ eis_InstanceId s ]} ∪ acc.1, acc.2 ++ [s]).
Fixpoint add_status_pages (c : Category) (pages : list (result error (list EC2InstanceStatus)))
    (acc : gset string * list EC2InstanceStatus) : result error (gset string * list EC2InstanceStatus) :=
  match pages with
  | [] => Ok acc
  | Err e :: _ => Err (wrap ("failed describing ec2 " +:+ Category_string c +:+ " checks") e)
  | Ok page :: pages' => add_status_pages c pages' (foldl add_status acc page)
  end.
Fixpoint add_categories (cs : list Category) (acc : gset string * list EC2InstanceStatus) :
    result error (gset string * list EC2InstanceStatus) :=
  match cs with
  | [] => Ok acc
  | c :: cs' => match add_status_pages c (DescribeInstanceStatus c) acc with
                | Ok acc => add_categories cs' acc
                | Err e => Err e
                end
  end.

Definition with_details (ds : list Details) (hs : HealthStatus) : option HealthStatus :=
  if decide (ds = []) then None
  else Some {| hs_InstanceID := hs_InstanceID hs; hs_ImpairedSince := EarliestImpairedSince ds; hs_Details := ds |}.

(** [instancestatus.List] *)
Definition ListStatuses (cs : list Category) : result error (list HealthStatus) :=
  match add_categories cs (∅, []) with
  | Err e => Err e
  | Ok (_, statuses) =>
      Ok (omap (λ s, let hs := newHealthStatus s in
                     with_details (filter (λ d, dt_Status d = "failed" ∧ dt_Category d ∈ cs) (hs_Details hs)) hs)
               statuses)
  end.

(** *** The controller *)

Definition unhealthyKey : Type := string * Category.
Definition categoryToKind (c : Category) : Kind :=
  match c with
  | InstanceStatus => InstanceStatusKind
  | SystemStatus => SystemStatusKind
  | EventStatus => EventStatusKind
  end.

(** The zero time is longer ago than any threshold. *)
Definition persists (d : Details) : Prop :=
  dt_Category d = EventStatus ∨
  match dt_ImpairedSince d with Some t => UnhealthyThreshold ≤ now - t | None => True end.
#[global] Instance persists_dec d : Decision (persists d).
Proof. unfold persists. destruct (dt_ImpairedSince d); apply _. Defined.
Definition over_threshold (hs : HealthStatus) : option HealthStatus := with_details (filter persists (hs_Details hs)) hs.

Context `{SchedulingTypes} {K C : Type} `{!KubeAPI NodeClaim K} `{!KubeAPI Node K} `{GoCache unit C}.
Variable Format : Z → string.
Variable dryRun : bool.

(** The handler, the keys seen in the last round, and how often each key was counted. *)
Record StatusController := {
  sc_handler : Handler K C;
  sc_seen : list unhealthyKey;
  sc_counted : list unhealthyKey;
}.

Definition recordUnhealthyInstance (key : unhealthyKey) (currentKeys : list unhealthyKey) (c : StatusController) :
    StatusController * list unhealthyKey :=
  (if decide (key ∈ sc_seen c) then c
   else {| sc_handler := sc_handler c; sc_seen := key :: sc_seen c; sc_counted := key :: sc_counted c |},
   key :: currentKeys).

(** The categories of a status: a map in the code, so that each is handled once. *)
Fixpoint handle_categories (hs : HealthStatus) (cs : list Category) (currentKeys : list unhealthyKey)
    (c : StatusController) : StatusController * list unhealthyKey * option error :=
  match cs with
  | [] => (c, currentKeys, None)
  | category :: cs' =>
      let msg := {| msg_EC2InstanceIDs := [hs_InstanceID hs]; msg_Kind := categoryToKind category;
                    msg_StartTime := default 0 (hs_ImpairedSince hs) |} in
      let '(h, (f, e)) := handleMessage now Format msg dryRun (sc_handler c) in
      let c := {| sc_handler := h; sc_seen := sc_seen c; sc_counted := sc_counted c |} in
      match e with
      | Some e => (c, currentKeys, Some (wrap "handling instance status check message" e))
      | None =>
          let '(c, currentKeys) :=
            if f then recordUnhealthyInstance (hs_InstanceID hs, category) currentKeys c else (c, currentKeys) in
          handle_categories hs cs' currentKeys c
      end
  end.
Definition handleHealthStatus (hs : HealthStatus) (currentKeys : list unhealthyKey) (c : StatusController) :
    StatusController * list unhealthyKey * option error :=
  handle_categories hs (remove_dups (dt_Category <$> hs_Details hs)) currentKeys c.

Fixpoint handle_statuses (l : list HealthStatus) (currentKeys : list unhealthyKey) (c : StatusController) :
    StatusController * list unhealthyKey * list error :=
  match l with
  | [] => (c, currentKeys, [])
  | hs :: l' =>
      let '(c, currentKeys, e) := handleHealthStatus hs currentKeys c in
      let '(c, currentKeys, es) := handle_statuses l' currentKeys c in
      (c, currentKeys, option_list e ++ es)
  end.

Definition poll_categories (nodeRepair legacyNodeRepair : bool) : list Category :=
  if nodeRepair && negb legacyNodeRepair then [EventStatus] else [InstanceStatus; SystemStatus; EventStatus].

(** One round: without the permission there is none, and no retry. *)
Definition Reconcile_status (nodeRepair legacyNodeRepair : bool) (c : StatusController) :
    StatusController * option error :=
  match ListStatuses (poll_categories nodeRepair legacyNodeRepair) with
  | Err e => (c, if IsUnauthorizedOperationError (Some e) then None
                 else Some (wrap "getting instance statuses" e))
  | Ok statuses =>
      let '(c, currentKeys, es) := handle_statuses (omap over_threshold statuses) [] c in
      ({| sc_handler := sc_handler c; sc_seen := filter (λ k, k ∈ currentKeys) (sc_seen c);
          sc_counted := sc_counted c |}, Combine es)
  end.
End status.
Arguments StatusController : clear implicits.

(** ** Properties *)

Section properties.
Context `{SchedulingTypes} {K C : Type}.
Context `{!KubeAPI NodeClaim K} `{!KubeLaws NodeClaim K} `{!KubeAPI Node K} `{GoCacheLaws unit C}.
Variable now : Z.
Variable Format : Z → string.
Implicit Types (k : K) (c claim : NodeClaim) (h : Handler K C) (P : string → Prop).
Abbreviation at_ k n := (stored NodeClaim k !! n).

(** *** What happens to NodeClaims *)

(** From [k] to [k'] NodeClaims are only deleted, and only those whose provider ID is in
    [P]; nothing is created or relabelled. *)
Record effect P k k' : Prop := {
  eff_sub n c' : at_ k' n = Some c' →
    ∃ c, at_ k n = Some c ∧ ncl_ProviderID c' = ncl_ProviderID c ∧ ncl_Labels c' = ncl_Labels c;
  eff_leaving n : leaving (at_ k n) → leaving (at_ k' n);
  eff_only n c : at_ k n = Some c → ncl_DeletionTimestamp c = None → leaving (at_ k' n) → P (ncl_ProviderID c);
}.

Lemma effect_refl P k : effect P k k.
Proof. split; [eauto|done|]. intros n c Hc Hd. rewrite Hc. simpl. rewrite Hd. by intros [? ?]. Qed.

Lemma effect_trans P k1 k2 k3 : effect P k1 k2 → effect P k2 k3 → effect P k1 k3.
Proof.
  intros [S1 L1 O1] [S2 L2 O2]. split.
  - intros n c3 Hc. destruct (S2 _ _ Hc) as (c2 & Hc2 & ? & ?). destruct (S1 _ _ Hc2) as (c1 & ? & ? & ?).
    exists c1. split; [done|]. split; congruence.
  - eauto.
  - intros n c Hc Hd Hl. destruct (at_ k2 n) as [c2|] eqn:E.
    + destruct (S1 _ _ E) as (c1 & Hc1 & Hp & _). rewrite Hc in Hc1; simplify_eq.
      destruct (ncl_DeletionTimestamp c2) as [d|] eqn:E2.
      * apply (O1 n c1 Hc Hd). rewrite E. simpl. by rewrite E2.
      * rewrite <- Hp. by apply (O2 n).
    + apply (O1 n c Hc Hd). by rewrite E.
Qed.

Lemma effect_weaken P P' k k' : (∀ x, P x → P' x) → effect P k k' → effect P' k k'.
Proof. intros HP [S L O]. split; eauto. Qed.

(** What is known of a NodeClaim that was listed earlier. *)
Record tracked k claim : Prop := {
  tr_id c : at_ k (ncl_Name claim) = Some c → ncl_ProviderID c = ncl_ProviderID claim;
  tr_leaving : is_Some (ncl_DeletionTimestamp claim) → leaving (at_ k (ncl_Name claim));
}.

Lemma tracked_stored k claim : at_ k (ncl_Name claim) = Some claim → tracked k claim.
Proof. intros Hs. split; rewrite Hs; [congruence|done]. Qed.

Lemma tracked_effect P k k' claim : effect P k k' → tracked k claim → tracked k' claim.
Proof.
  intros [S L _] [Hi Hl]. split; [|eauto]. intros c Hc. destruct (S _ _ Hc) as (c0 & Hc0 & -> & _). eauto.
Qed.

Lemma effect_delete P k claim :
  tracked k claim → P (ncl_ProviderID claim) → effect P k (kDelete claim k).1.
Proof.
  intros [Hi _] HP. split.
  - intros n c' Hc. destruct (kDelete_marks _ _ _ _ Hc) as (c & ? & [->|[t ->]]); exists c; done.
  - intros n. apply kDelete_keeps.
  - intros n c Hc Hd Hl. destruct (decide (n = ncl_Name claim)) as [->|Hn].
    + by rewrite (Hi _ Hc).
    + exfalso. rewrite kDelete_frame in Hl by done. rewrite Hc in Hl. simpl in Hl. rewrite Hd in Hl.
      by destruct Hl.
Qed.

(** A patch that adds an annotation; with an error but for a missing object it changes
    nothing. *)
Definition annotated (an : gmap string string) claim : NodeClaim := obj_with (ncl_Labels claim) an claim.

Lemma annotate_stored k claim an :
  let '(k', r) := kPatch claim (annotated an claim) k in
  match r with
  | Ok c' => ∃ c, at_ k (ncl_Name claim) = Some c ∧ at_ k' (ncl_Name claim) = Some c' ∧
      ncl_Name c' = ncl_Name claim ∧ ncl_ProviderID c' = ncl_ProviderID c ∧ ncl_Labels c' = ncl_Labels c ∧
      ncl_DeletionTimestamp c' = ncl_DeletionTimestamp c
  | Err e => at_ k' (ncl_Name claim) = at_ k (ncl_Name claim) ∧
             (is_kube_not_found e = true → at_ k (ncl_Name claim) = None)
  end.
Proof.
  pose proof (kPatch_Ok claim (annotated an claim) k) as Hok. pose proof (kPatch_Err claim (annotated an claim) k) as He.
  pose proof (kPatch_NotFound claim (annotated an claim) k) as Hn. destruct (kPatch _ _ _) as [k' [c'|e]]; simpl in *.
  - destruct (Hok _ eq_refl) as (c & Hc & Hs & ->). exists c. pose proof (stored_Name _ _ _ Hc) as Hname.
    repeat split; try done. simpl. by rewrite merge_patch_id.
  - split; [by eapply He|]. destruct e; [intros _; by eapply Hn|done..].
Qed.

Lemma effect_annotate P k claim an : effect P k (kPatch claim (annotated an claim) k).1.
Proof.
  pose proof (annotate_stored k claim an) as Ha. pose proof (kPatch_frame claim (annotated an claim) k) as Hf.
  pose proof (kPatch_keeps claim (annotated an claim) k) as Hl.
  destruct (kPatch _ _ _) as [k' r]; simpl in *.
  assert (∀ n, at_ k' n = at_ k n ∨ ∃ c c', at_ k n = Some c ∧ at_ k' n = Some c' ∧
    ncl_ProviderID c' = ncl_ProviderID c ∧ ncl_Labels c' = ncl_Labels c ∧
    ncl_DeletionTimestamp c' = ncl_DeletionTimestamp c) as Hall.
  { intros n. destruct (decide (n = ncl_Name claim)) as [->|Hn]; [|left; by apply Hf].
    destruct r as [c'|e]; [|left; by destruct Ha]. right. destruct Ha as (c & ? & ? & _ & ? & ? & ?). by exists c, c'. }
  split; [|done|].
  - intros n c' Hc. destruct (Hall n) as [E|(c & c2 & ? & ? & ? & ? & ?)]; [rewrite E in Hc; eauto|].
    exists c. by simplify_eq.
  - intros n c Hc Hd Hle. exfalso. destruct (Hall n) as [E|(c1 & c2 & ? & Hc2 & _ & _ & Hd2)].
    + rewrite E, Hc in Hle. simpl in Hle. rewrite Hd in Hle. by destruct Hle.
    + simplify_eq. rewrite Hc2 in Hle. simpl in Hle. rewrite Hd2, Hd in Hle. by destruct Hle.
Qed.

(** *** The ICE cache *)

(** At the instant of the round everything that was unavailable stays unavailable. *)
Definition ice_ok (o : option (UnavailableOfferings C)) : Prop :=
  match o with Some u => 0 < defaultTTL (offeringCache u) | None => True end.
Definition ice_keeps (o o' : option (UnavailableOfferings C)) : Prop :=
  match o, o' with
  | Some u, Some u' => defaultTTL (offeringCache u') = defaultTTL (offeringCache u) ∧
      ∀ x, found (offeringCache u) now x = true → found (offeringCache u') now x = true
  | None, None => True
  | _, _ => False
  end.
#[local] Instance ice_keeps_preorder : PreOrder ice_keeps.
Proof.
  split; [by intros [u|]|]. intros [u1|] [u2|] [u3|]; simpl; try done. intros [-> H1'] [-> H2']. eauto.
Qed.

(** What an interruption says about the offering of its NodeClaim. *)
Definition blocked (k : Kind) claim (o : option (UnavailableOfferings C)) : Prop :=
  ∀ u zone instanceType,
    o = Some u → ncl_Labels claim !! LabelTopologyZone = Some zone →
    ncl_Labels claim !! LabelInstanceTypeStable = Some instanceType → zone ≠ "" → instanceType ≠ "" →
    match k with
    | SpotInterruptionKind => ∀ subs, IsUnavailable u now instanceType zone subs CapacityTypeSpot [] = true
    | CapacityReservationInterruptionKind =>
        ∀ id subs, ncl_Labels claim !! ReservationIDLabel = Some id → id ≠ "" →
          IsUnavailable u now instanceType zone subs CapacityTypeReserved [WithReservationID id] = true
    | _ => True
    end.

Lemma found_mark (u : UnavailableOfferings C) it z ct opts x :
  0 < defaultTTL (offeringCache u) → found (offeringCache u) now x = true ∨ x = key it z ct opts →
  found (offeringCache (MarkUnavailable u now it z ct opts)) now x = true.
Proof.
  intros Ht Hx. unfold MarkUnavailable, found in *; simpl. apply bool_decide_eq_true.
  destruct (decide (key it z ct opts = x)) as [<-|Hne].
  - rewrite Get_SetDefault_eq, decide_True by (done || lia). done.
  - rewrite Get_SetDefault_ne by done. destruct Hx as [Hx%bool_decide_eq_true|]; [done|congruence].
Qed.

Lemma found_unavailable (u : UnavailableOfferings C) it z ct opts :
  found (offeringCache u) now (key it z ct opts) = true → ∀ subs, IsUnavailable u now it z subs ct opts = true.
Proof. intros Hf subs. unfold IsUnavailable. by rewrite Hf. Qed.

Lemma mark_keeps o it z ct opts :
  ice_ok o → ice_keeps o ((λ u, MarkUnavailable u now it z ct opts) <$> o).
Proof.
  destruct o as [u|]; simpl; [|done]. intros Ht. split; [apply SetDefault_ttl|]. intros x Hx.
  apply found_mark; [done|by left].
Qed.

Lemma markUnavailableOfferings_ice kind claim h :
  ice_ok (ih_ice h) →
  ice_keeps (ih_ice h) (ih_ice (markUnavailableOfferings now kind claim h)) ∧
  ∀ o, ice_keeps (ih_ice (markUnavailableOfferings now kind claim h)) o → blocked kind claim o.
Proof.
  intros Ht. unfold markUnavailableOfferings.
  split; [destruct kind; try done; case_decide; try done; by apply mark_keeps|].
  intros o Ho u zone it -> Hz Hi Hzne Hine. rewrite Hz, Hi in Ho. simpl in Ho.
  destruct kind; try done; [intros subs|intros id subs Hid Hidne; rewrite Hid in Ho; simpl in Ho];
    rewrite decide_True in Ho by done; simpl in Ho; (destruct (ih_ice h) as [u0|]; [|done]);
    destruct Ho as [_ Ho]; apply found_unavailable, Ho, found_mark; auto.
Qed.

(** *** One NodeClaim *)

Record progress P h h' : Prop := {
  pr_kube : effect P (ih_kube h) (ih_kube h');
  pr_ice : ice_keeps (ih_ice h) (ih_ice h');
}.
Lemma progress_refl P h : progress P h h.
Proof. split; [apply effect_refl|done]. Qed.
Lemma progress_trans P h1 h2 h3 : progress P h1 h2 → progress P h2 h3 → progress P h1 h3.
Proof. intros [K1 I1] [K2 I2]. split; [by eapply effect_trans|by etransitivity]. Qed.
Lemma ice_ok_keeps o o' : ice_keeps o o' → ice_ok o → ice_ok o'.
Proof. destruct o, o'; simpl; try done. by intros [-> _]. Qed.

Lemma deleteNodeClaim_spec P claim node h h' e :
  tracked (ih_kube h) claim → P (ncl_ProviderID claim) →
  deleteNodeClaim claim node h = (h', e) →
  progress P h h' ∧ (e = None → leaving (at_ (ih_kube h') (ncl_Name claim))).
Proof.
  intros Ht HP. unfold deleteNodeClaim. destruct (ncl_DeletionTimestamp claim) as [t|] eqn:Hd.
  { intros [= <- <-]. split; [apply progress_refl|]. intros _. apply Ht. by rewrite Hd. }
  pose proof (effect_delete P _ _ Ht HP) as He. pose proof (kDelete_leaving claim (ih_kube h)) as Hl.
  destruct (kDelete claim (ih_kube h)) as [k' [e'|]]; simpl in *; intros [= <- <-]; (split; [by split|]).
  - intros Hn. apply Hl. by destruct e'.
  - auto.
Qed.

Lemma annotate_spec P claim h h' r :
  tracked (ih_kube h) claim → annotateTerminationTimestamp now Format claim h = (h', r) →
  progress P h h' ∧ ∀ c', r = Ok c' →
    tracked (ih_kube h') c' ∧ ncl_Name c' = ncl_Name claim ∧ ncl_ProviderID c' = ncl_ProviderID claim.
Proof.
  intros Ht. unfold annotateTerminationTimestamp. destruct (ncl_Annotations claim !! _) as [v|].
  { intros [= <- <-]. split; [apply progress_refl|]. intros c' [= <-]. auto. }
  set (an := <[_ := _]> _). pose proof (effect_annotate P (ih_kube h) claim an) as He.
  pose proof (annotate_stored (ih_kube h) claim an) as Ha. fold (annotated an claim).
  destruct (kPatch _ _ _) as [k' r']. simpl in He. intros [= <- <-]. split; [by split|]. intros c' Hc'.
  destruct r' as [c2|e].
  - injection Hc' as ->. destruct Ha as (c & Hc & Hs & Hn & Hp & _). split; [|split; [done|]].
    + apply tracked_stored. by rewrite Hn.
    + rewrite Hp. by apply Ht.
  - destruct e; try done. injection Hc' as <-. destruct Ha as [Hs Hnone]. specialize (Hnone eq_refl).
    split; [|by auto]. split; simpl; rewrite Hs, Hnone; done.
Qed.

Lemma handleNodeClaim_spec P kind claim node h h' e :
  tracked (ih_kube h) claim → (actionForMessage kind ≠ NoAction → P (ncl_ProviderID claim)) → ice_ok (ih_ice h) →
  handleNodeClaim now Format kind claim node h = (h', e) →
  progress P h h' ∧
  (e = None → actionForMessage kind ≠ NoAction → leaving (at_ (ih_kube h') (ncl_Name claim))) ∧
  (∀ o, ice_keeps (ih_ice h') o → blocked kind claim o).
Proof.
  intros Ht HP Hi. unfold handleNodeClaim.
  assert (∀ h0, ih_kube (notifyForMessage kind claim node h0) = ih_kube h0 ∧
                ih_ice (notifyForMessage kind claim node h0) = ih_ice h0) as Hnot.
  { intros h0. unfold notifyForMessage. by destruct (event_of kind). }
  destruct (Hnot h) as [Hk0 Hi0]. set (h0 := notifyForMessage _ _ _ _) in *. clearbody h0.
  destruct (markUnavailableOfferings_ice kind claim h0) as [Hi1 Hb]; [by rewrite Hi0|].
  assert (ih_kube (markUnavailableOfferings now kind claim h0) = ih_kube h0) as Hk1
    by (unfold markUnavailableOfferings; destruct kind; try done; by case_decide).
  set (h1 := markUnavailableOfferings _ _ _ _) in *. clearbody h1. rewrite Hi0 in Hi1. rewrite Hk0 in Hk1.
  assert (progress P h h1) as Hp1 by (split; [rewrite Hk1; apply effect_refl|done]).
  assert (tracked (ih_kube h1) claim) as Ht1 by (by rewrite Hk1).
  assert (∀ h2, progress P h1 h2 → progress P h h2 ∧ ∀ o, ice_keeps (ih_ice h2) o → blocked kind claim o) as Hfin.
  { intros h2 Hp2. split; [by eapply progress_trans|]. intros o Ho. apply Hb. etransitivity; [apply Hp2|done]. }
  destruct (actionForMessage kind) eqn:Ha.
  - intros Hd. destruct (deleteNodeClaim_spec P _ _ _ _ _ Ht1 (HP ltac:(done)) Hd) as [Hp2 Hl].
    destruct (Hfin _ Hp2). by auto.
  - destruct (annotateTerminationTimestamp now Format claim h1) as [h2 r] eqn:Ea.
    destruct (annotate_spec P _ _ _ _ Ht1 Ea) as [Hp2 Hr]. destruct r as [c2|e2].
    + destruct (Hr _ eq_refl) as (Ht2 & Hn & Hpid). intros Hd.
      destruct (deleteNodeClaim_spec P _ _ _ _ _ Ht2 ltac:(rewrite Hpid; by apply HP) Hd) as [Hp3 Hl].
      destruct (Hfin h' (progress_trans _ _ _ _ Hp2 Hp3)). rewrite <- Hn. by auto.
    + intros [= <- <-]. destruct (Hfin _ Hp2). by split; [|split].
  - intros [= <- <-]. destruct (Hfin _ (progress_refl P h1)). by split; [|split].
Qed.

(** *** The NodeClaims of a message *)

Definition of_instances (ids : list string) (providerID : string) : Prop :=
  ∃ id, instance_index providerID = Some id ∧ id ∈ ids.

Lemma handle_claims_spec P kind id cs h h' es :
  Forall (λ c, tracked (ih_kube h) c ∧ (actionForMessage kind ≠ NoAction → P (ncl_ProviderID c))) cs →
  ice_ok (ih_ice h) → handle_claims now Format kind id cs h = (h', es) →
  progress P h h' ∧
  (es = [] → actionForMessage kind ≠ NoAction → Forall (λ c, leaving (at_ (ih_kube h') (ncl_Name c))) cs) ∧
  (es = [] → ∀ o, ice_keeps (ih_ice h') o → Forall (λ c, blocked kind c o) cs).
Proof.
  revert h es. induction cs as [|c cs IH]; intros h es Hcs Hi; simpl.
  { intros [= <- <-]. split; [apply progress_refl|]. by split. }
  inversion Hcs as [|? ? [Ht HP] Hcs']; subst.
  assert (∀ h1 es1, (match nodes_of_instance id (ih_kube h) with
            | Err e => (h, [e])
            | Ok nodes => let '(h, e) := handleNodeClaim now Format kind c (head nodes) h in (h, option_list e)
            end) = (h1, es1) →
      progress P h h1 ∧ (es1 = [] → (actionForMessage kind ≠ NoAction → leaving (at_ (ih_kube h1) (ncl_Name c))) ∧
        ∀ o, ice_keeps (ih_ice h1) o → blocked kind c o)) as Hone.
  { intros h1 es1. destruct (nodes_of_instance id (ih_kube h)) as [nodes|e].
    - destruct (handleNodeClaim _ _ _ _ _ _) as [h2 e] eqn:E. intros [= <- <-].
      destruct (handleNodeClaim_spec P _ _ _ _ _ _ Ht HP Hi E) as (Hp & Hl & Hb). split; [done|].
      intros He. assert (e = None) as -> by (by destruct e). auto.
    - intros [= <- <-]. split; [apply progress_refl|done]. }
  destruct (match nodes_of_instance id (ih_kube h) with Ok _ => _ | Err _ => _ end) as [h1 es1].
  destruct (Hone _ _ eq_refl) as [Hp1 H1']. clear Hone.
  destruct (handle_claims now Format kind id cs h1) as [h2 es2] eqn:E. intros [= <- <-].
  destruct (IH h1 es2) as (Hp2 & Hl2 & Hb2); [|by eapply ice_ok_keeps; [apply Hp1|]|done|].
  { eapply Forall_impl; [exact Hcs'|]. intros c' [? ?]. split; [|done]. by eapply tracked_effect; [apply Hp1|]. }
  split; [by eapply progress_trans|].
  split; intros [-> ->]%app_nil; destruct (H1' eq_refl) as [Hl1 Hb1].
  - intros Ha. constructor; [|by apply Hl2]. apply Hp2. by apply Hl1.
  - intros o Ho. constructor; [|by apply Hb2]. apply Hb1. etransitivity; [apply Hp2|done].
Qed.

(** The claims of an instance, as they are listed. *)
Lemma claims_of_instance_spec id k cs :
  claims_of_instance id k = Ok cs →
  ∀ c, c ∈ cs ↔ at_ k (ncl_Name c) = Some c ∧ instance_index (ncl_ProviderID c) = Some id.
Proof.
  unfold claims_of_instance. destruct (kList NodeClaim k) as [l|e] eqn:E; [|done]. intros [= <-] c.
  rewrite list_elem_of_filter, (kList_current _ _ _ E). naive_solver.
Qed.

(** What handling a message without an error does for the NodeClaims that were there. *)
Definition drained (kind : Kind) (ids : list string) k h' : Prop :=
  actionForMessage kind ≠ NoAction →
  ∀ n c, at_ k n = Some c → of_instances ids (ncl_ProviderID c) → leaving (at_ (ih_kube h') n).
Definition fenced (kind : Kind) (ids : list string) k' o : Prop :=
  ∀ n c, at_ k' n = Some c → of_instances ids (ncl_ProviderID c) → blocked kind c o.

Lemma blocked_labels kind c c' o : ncl_Labels c' = ncl_Labels c → blocked kind c o → blocked kind c' o.
Proof. intros Hl Hb u zone it. rewrite Hl. apply Hb. Qed.

Definition acts kind (dryRun : bool) (ids : list string) (providerID : string) : Prop :=
  actionForMessage kind ≠ NoAction ∧ dryRun = false ∧ of_instances ids providerID.

(** One instance of a message. *)
Definition handle_instance (kind : Kind) (dryRun : bool) (id : string) h : Handler K C * (bool * list kube_error) :=
  match claims_of_instance id (ih_kube h) with
  | Err e => (h, (false, [e]))
  | Ok [] => (h, (false, []))
  | Ok cs => if dryRun then (h, (true, []))
             else let '(h, es) := handle_claims now Format kind id cs h in (h, (true, es))
  end.

Lemma handle_instance_spec kind dryRun id h h' f es :
  ice_ok (ih_ice h) → handle_instance kind dryRun id h = (h', (f, es)) →
  progress (acts kind dryRun [id]) h h' ∧
  (dryRun = false → es = [] → ∀ n c, at_ (ih_kube h) n = Some c → instance_index (ncl_ProviderID c) = Some id →
     (actionForMessage kind ≠ NoAction → leaving (at_ (ih_kube h') n)) ∧
     ∀ o, ice_keeps (ih_ice h') o → blocked kind c o).
Proof.
  intros Hi. unfold handle_instance. destruct (claims_of_instance id (ih_kube h)) as [cs|e] eqn:E.
  2: { intros [= <- <- <-]. split; [apply progress_refl|done]. }
  pose proof (claims_of_instance_spec _ _ _ E) as Hcs.
  assert (∀ n c, at_ (ih_kube h) n = Some c → instance_index (ncl_ProviderID c) = Some id → c ∈ cs ∧ ncl_Name c = n) as Hin.
  { intros n c Hc Hidx. pose proof (stored_Name _ _ _ Hc) as Hn. simpl in Hn. split; [|done].
    apply Hcs. by rewrite Hn. }
  destruct cs as [|c0 cs].
  { intros [= <- <- <-]. split; [apply progress_refl|]. intros _ _ n c Hc Hidx.
    destruct (Hin n c Hc Hidx) as [[]%elem_of_nil _]. }
  destruct dryRun; [intros [= <- <- <-]; split; [apply progress_refl|done]|].
  destruct (handle_claims _ _ _ _ _ _) as [h2 es2] eqn:Eh. intros [= <- <- <-].
  edestruct (handle_claims_spec (acts kind false [id])) as (Hp & Hl & Hb); [|exact Hi|exact Eh|].
  { apply Forall_forall. intros c Hc%Hcs. destruct Hc as [Hc Hidx]. split; [by apply tracked_stored|].
    intros Ha. split; [done|]. split; [done|]. exists id. split; [done|by left]. }
  split; [done|]. intros _ -> n c Hc Hidx. destruct (Hin n c Hc Hidx) as [Hc' <-].
  specialize (Hl eq_refl). specialize (Hb eq_refl). split.
  - intros Ha. specialize (Hl Ha). rewrite Forall_forall in Hl. by apply Hl.
  - intros o Ho. specialize (Hb o Ho). rewrite Forall_forall in Hb. by apply Hb.
Qed.

Lemma handle_instances_spec kind dryRun ids h h' f es :
  ice_ok (ih_ice h) → handle_instances now Format kind dryRun ids h = (h', (f, es)) →
  progress (acts kind dryRun ids) h h' ∧
  (dryRun = false → es = [] → drained kind ids (ih_kube h) h' ∧
     ∀ k' o, effect (λ _, True) (ih_kube h') k' → ice_keeps (ih_ice h') o → fenced kind ids k' o).
Proof.
  revert h f es. induction ids as [|id ids IH]; intros h f es Hi; simpl.
  { intros [= <- <- <-]. split; [apply progress_refl|]. intros _ _.
    split; [intros _ n c _ (id & _ & []%elem_of_nil)|intros k' o _ _ n c _ (id & _ & []%elem_of_nil)]. }
  fold (handle_instance kind dryRun id h).
  destruct (handle_instance kind dryRun id h) as [h1 [f1 es1]] eqn:E1.
  destruct (handle_instances _ _ _ _ _ h1) as [h2 [f2 es2]] eqn:E2. intros [= <- <- <-].
  destruct (handle_instance_spec _ _ _ _ _ _ _ Hi E1) as [Hp1 Hd1].
  destruct (IH _ _ _ (ice_ok_keeps _ _ (pr_ice _ _ _ Hp1) Hi) E2) as [Hp2 Hd2].
  assert (∀ ids', (∀ x, x ∈ ids' → x ∈ id :: ids) → ∀ x, acts kind dryRun ids' x → acts kind dryRun (id :: ids) x) as Hw.
  { intros ids' Hs x (? & ? & i & ? & ?). split; [done|]. split; [done|]. exists i. auto. }
  split.
  { destruct Hp1 as [K1 I1], Hp2 as [K2 I2]. split; [|by etransitivity].
    eapply effect_trans; (eapply effect_weaken; [apply Hw|done]); set_solver. }
  intros Hdry [-> ->]%app_nil. specialize (Hd1 Hdry eq_refl). destruct (Hd2 Hdry eq_refl) as [Hdr2 Hf2].
  destruct Hp1 as [K1 I1], Hp2 as [K2 I2]. split.
  - intros Ha n c Hc (i & Hidx & [->|Hin]%elem_of_cons).
    + apply (eff_leaving _ _ _ K2). by apply (proj1 (Hd1 n c Hc Hidx)).
    + destruct (at_ (ih_kube h1) n) as [c1|] eqn:Hc1.
      * destruct (eff_sub _ _ _ K1 _ _ Hc1) as (c0 & Hc0 & Hpid & _). rewrite Hc in Hc0. simplify_eq.
        apply (Hdr2 Ha n c1 Hc1). exists i. by rewrite Hpid.
      * apply (eff_leaving _ _ _ K2). by rewrite Hc1.
  - intros k' o Hk' Ho n c' Hc' (i & Hidx & [->|Hin]%elem_of_cons).
    + destruct (eff_sub _ _ _ Hk' _ _ Hc') as (c2 & Hc2 & Hp2' & Hl2).
      destruct (eff_sub _ _ _ K2 _ _ Hc2) as (c1 & Hc1 & Hp1' & Hl1).
      destruct (eff_sub _ _ _ K1 _ _ Hc1) as (c & Hc & Hp0 & Hl0).
      apply (blocked_labels _ c); [congruence|].
      apply (proj2 (Hd1 n c Hc ltac:(congruence))). etransitivity; [exact I2|exact Ho].
    + apply (Hf2 k' o Hk' Ho n c' Hc'). by exists i.
Qed.

Lemma drained_widen P P' kind ids k k1 h' :
  effect P k k1 → effect P' k1 (ih_kube h') → drained kind ids k1 h' → drained kind ids k h'.
Proof.
  intros K1 K2 Hd Ha n c Hc Hids. destruct (at_ k1 n) as [c1|] eqn:E.
  - destruct (eff_sub _ _ _ K1 _ _ E) as (c0 & Hc0 & Hp & _). apply (Hd Ha n c1 E).
    rewrite Hp. by simplify_eq.
  - apply (eff_leaving _ _ _ K2). by rewrite E.
Qed.

Lemma Combine_None es : Combine es = None ↔ es = [].
Proof. destruct es as [|? [|? ?]]; done. Qed.

(** A message that was handled, from the round's first state to its last. *)
Definition settled (msg : Message) k h' : Prop :=
  drained (msg_Kind msg) (msg_EC2InstanceIDs msg) k h' ∧
  fenced (msg_Kind msg) (msg_EC2InstanceIDs msg) (ih_kube h') (ih_ice h').

Lemma handleMessage_spec msg dryRun h h' f e :
  ice_ok (ih_ice h) → handleMessage now Format msg dryRun h = (h', (f, e)) →
  progress (acts (msg_Kind msg) dryRun (msg_EC2InstanceIDs msg)) h h' ∧
  (dryRun = false → e = None → ∀ h2, progress (λ _, True) h' h2 → settled msg (ih_kube h) h2).
Proof.
  intros Hi. unfold handleMessage. case_decide as Hk.
  { intros [= <- <- <-]. split; [apply progress_refl|]. intros _ _ h2 _. unfold settled. rewrite Hk. split; [by intros []|].
    by intros n c Hc Hids u zone it. }
  destruct (handle_instances _ _ _ _ _ h) as [h1 [f1 es]] eqn:E. intros [= <- <- <-].
  destruct (handle_instances_spec _ _ _ _ _ _ _ Hi E) as [Hp Hd]. split; [done|].
  intros Hdry He h2 [K2 I2].
  assert (es = []) as -> by (apply fmap_None, Combine_None in He; by apply fmap_nil_inv in He).
  destruct (Hd Hdry eq_refl) as [Hdr Hf]. split; [|by apply Hf].
  intros Ha n c Hc Hids. apply (eff_leaving _ _ _ K2). by apply (Hdr Ha n c).
Qed.

(** *** Rounds of the queue *)

Section queue.
Variable parse : option string → result error Message.
Variable DeleteSQSMessage : SQSMessage → option error.
Abbreviation process := (process_message now Format parse DeleteSQSMessage).
Abbreviation process_all := (process_messages now Format parse DeleteSQSMessage).
Implicit Types (m : SQSMessage) (ms : list SQSMessage) (q : QueueController K C).

(** A message of the round that names the instance and asks for its NodeClaims to go. *)
Definition requested ms (providerID : string) : Prop :=
  ∃ m msg, m ∈ ms ∧ parse (sqs_Body m) = Ok msg ∧
    acts (msg_Kind msg) false (msg_EC2InstanceIDs msg) providerID.

(** The messages taken off the queue from [q] to [q'] were settled, or could not be read. *)
Definition answered ms k q q' : Prop :=
  ∀ m, m ∈ qc_deleted q' → m ∈ qc_deleted q ∨
    m ∈ ms ∧ match parse (sqs_Body m) with
             | Ok msg => settled msg k (qc_handler q')
             | Err _ => True
             end.

Lemma deleteMessage_spec m q q' e :
  deleteMessage DeleteSQSMessage m q = (q', e) →
  qc_handler q' = qc_handler q ∧ (∀ m', m' ∈ qc_deleted q' → m' ∈ qc_deleted q ∨ m' = m) ∧
  (∀ m', m' ∈ qc_deleted q → m' ∈ qc_deleted q') ∧ (e = None → m ∈ qc_deleted q').
Proof.
  unfold deleteMessage. destruct (DeleteSQSMessage m); intros [= <- <-]; simpl; (split; [done|]).
  { split; [by left|]. by split. }
  split; [intros m' [?| ->%list_elem_of_singleton]%elem_of_app; auto|].
  split; intros; apply elem_of_app; [by left|right; by left].
Qed.

Lemma process_message_spec m q q' e :
  ice_ok (ih_ice (qc_handler q)) → process m q = (q', e) →
  progress (requested [m]) (qc_handler q) (qc_handler q') ∧
  (∀ m', m' ∈ qc_deleted q → m' ∈ qc_deleted q') ∧ (e = None → m ∈ qc_deleted q') ∧
  ∀ m', m' ∈ qc_deleted q' → m' ∈ qc_deleted q ∨
    m' = m ∧ match parse (sqs_Body m) with
             | Ok msg => ∀ h2, progress (λ _, True) (qc_handler q') h2 → settled msg (ih_kube (qc_handler q)) h2
             | Err _ => True
             end.
Proof.
  intros Hi. unfold process_message. destruct (parse (sqs_Body m)) as [msg|e1] eqn:Hparse.
  2: { intros Hd. destruct (deleteMessage_spec _ _ _ _ Hd) as (-> & Hd1 & Hd2 & Hd3).
       split; [apply progress_refl|]. split; [done|]. split; [done|].
       intros m' [?| ->]%Hd1; auto. }
  destruct (handleMessage _ _ _ _ _) as [h1 [f e1]] eqn:Eh.
  destruct (handleMessage_spec _ _ _ _ _ _ Hi Eh) as [Hp Hs].
  assert (progress (requested [m]) (qc_handler q) h1) as Hp'.
  { destruct Hp as [K1 I1]. split; [|done]. eapply effect_weaken; [|exact K1]. intros x Hx.
    exists m, msg. split; [by left|]. by split. }
  destruct e1 as [e1|].
  - intros [= <- <-]. simpl. split; [done|]. split; [done|]. split; [done|]. by left.
  - intros Hd. destruct (deleteMessage_spec _ _ _ _ Hd) as (Hh & Hd1 & Hd2 & Hd3). simpl in *. rewrite Hh.
    split; [done|]. split; [done|]. split; [done|]. intros m' [?| ->]%Hd1; [by left|right]. split; [done|]. auto.
Qed.

Lemma progress_any P h h' : progress P h h' → progress (λ _, True) h h'.
Proof. intros [K1 I1]. split; [|done]. by eapply effect_weaken; [|exact K1]. Qed.

Lemma process_messages_spec ms q q' es :
  ice_ok (ih_ice (qc_handler q)) → process_all ms q = (q', es) →
  progress (requested ms) (qc_handler q) (qc_handler q') ∧
  (∀ m', m' ∈ qc_deleted q → m' ∈ qc_deleted q') ∧ (es = [] → ∀ m, m ∈ ms → m ∈ qc_deleted q') ∧
  answered ms (ih_kube (qc_handler q)) q q'.
Proof.
  revert q es. induction ms as [|m ms IH]; intros q es Hi; simpl.
  { intros [= <- <-]. split; [apply progress_refl|]. split; [done|]. split; [set_solver|]. by left. }
  destruct (process m q) as [q1 e1] eqn:E1. destruct (process_all ms q1) as [q2 es2] eqn:E2. intros [= <- <-].
  destruct (process_message_spec _ _ _ _ Hi E1) as (Hp1 & Hk1 & Hd1 & Ha1).
  destruct (IH _ _ (ice_ok_keeps _ _ (pr_ice _ _ _ Hp1) Hi) E2) as (Hp2 & Hk2 & Hd2 & Ha2).
  assert (∀ ms', (∀ x, x ∈ ms' → x ∈ m :: ms) → ∀ x, requested ms' x → requested (m :: ms) x) as Hw.
  { intros ms' Hs x (m' & msg & ? & ? & ?). exists m', msg. auto. }
  split.
  { destruct Hp1 as [K1 I1], Hp2 as [K2 I2]. split; [|by etransitivity].
    eapply effect_trans; (eapply effect_weaken; [apply Hw|done]); set_solver. }
  split; [by auto|]. split.
  - intros [He ->]%app_nil. intros m' [->|?]%elem_of_cons; [apply Hk2, Hd1; by destruct e1|auto].
  - intros m' [Hm'|[Hin Hm']]%Ha2.
    + destruct (Ha1 _ Hm') as [?|[-> Hs]]; [by left|right]. split; [by left|].
      destruct (parse (sqs_Body m)) as [msg|]; [|done]. apply Hs. by eapply progress_any.
    + right. split; [by right|]. destruct (parse (sqs_Body m')) as [msg|]; [|done].
      destruct Hm' as [Hdr Hf]. split; [|done]. eapply drained_widen; [apply Hp1|apply Hp2|done].
Qed.

(** C27: No interruption is lost, and none is made up.  In a round of the interruption queue
    a message leaves the queue only if it could not be read, or if in the end every
    NodeClaim of the instances it names that was there at the start is gone or on its way
    out (for the kinds that ask for it), and the offering of each one that is left reads
    unavailable after a spot or reservation interruption.  Only NodeClaims a message of
    the round names are deleted; none is created or relabelled.  Without an error every
    message of the round has left the queue. *)
Theorem Reconcile_queue_spec provider messages q q' e :
  ice_ok (ih_ice (qc_handler q)) →
  Reconcile_queue now Format parse DeleteSQSMessage provider messages q = (q', e) →
  let ms := match messages with Ok ms => ms | Err _ => [] end in
  effect (requested ms) (ih_kube (qc_handler q)) (ih_kube (qc_handler q')) ∧
  answered ms (ih_kube (qc_handler q)) q q' ∧
  (e = None → is_ok messages = true ∧ ∀ m, m ∈ ms → m ∈ qc_deleted q').
Proof.
  intros Hi. unfold Reconcile_queue. destruct provider as [e1|].
  { intros [= <- <-]. split; [apply effect_refl|]. split; [by left|done]. }
  destruct messages as [ms|e1].
  2: { intros [= <- <-]. split; [apply effect_refl|]. split; [by left|done]. }
  destruct (process_all ms q) as [q1 es] eqn:E. intros [= <- <-].
  destruct (process_messages_spec _ _ _ _ Hi E) as (Hp & _ & Hd & Ha). split; [apply Hp|]. split; [done|].
  intros Hn%Combine_None. auto.
Qed.
End queue.

(** *** Rounds of the status checks *)

Section status_rounds.
Variable DescribeInstanceStatus : Category → list (result error (list EC2InstanceStatus)).
Variable dryRun : bool.
Implicit Types (q : StatusController K C) (hs : HealthStatus) (d : Details).

(** Among the polled categories, an instance EC2 reports a failure for that persists. *)
Definition failing (cs : list Category) (sts : list EC2InstanceStatus) (id : string) (cat : Category) : Prop :=
  ∃ s d, s ∈ sts ∧ eis_InstanceId s = id ∧ d ∈ hs_Details (newHealthStatus now s) ∧
    dt_Status d = "failed" ∧ dt_Category d = cat ∧ cat ∈ cs ∧ persists now d.

Lemma with_details_Some ds hs hs' :
  with_details ds hs = Some hs' ↔
  ds ≠ [] ∧ hs' = {| hs_InstanceID := hs_InstanceID hs; hs_ImpairedSince := EarliestImpairedSince ds; hs_Details := ds |}.
Proof. unfold with_details. case_decide; naive_solver. Qed.

Lemma with_details_elem ds hs d :
  d ∈ ds → with_details ds hs =
    Some {| hs_InstanceID := hs_InstanceID hs; hs_ImpairedSince := EarliestImpairedSince ds; hs_Details := ds |}.
Proof. intros Hd. apply with_details_Some. split; [|done]. intros ->. by apply elem_of_nil in Hd. Qed.

(** The statuses a round acts on, with their details. *)
Lemma ListStatuses_spec cs l :
  ListStatuses now DescribeInstanceStatus cs = Ok l →
  ∃ ids sts, add_categories DescribeInstanceStatus cs (∅, []) = Ok (ids, sts) ∧
    ∀ id cat, failing cs sts id cat ↔
      ∃ hs d, hs ∈ omap (over_threshold now) l ∧ hs_InstanceID hs = id ∧ d ∈ hs_Details hs ∧ dt_Category d = cat.
Proof.
  unfold ListStatuses. destruct (add_categories _ _ _) as [[ids sts]|]; [|done]. intros [= <-].
  exists ids, sts. split; [done|]. intros id cat. split.
  - intros (s & d & Hs & Hid & Hd & Hf & Hc & Hcs & Hp). set (hs := newHealthStatus now s) in *.
    set (ds := filter (λ d, dt_Status d = "failed" ∧ dt_Category d ∈ cs) (hs_Details hs)).
    assert (d ∈ ds) as Hds by (apply list_elem_of_filter; by subst cat).
    assert (d ∈ filter (persists now) ds) as Hps by (by apply list_elem_of_filter).
    set (hs' := {| hs_InstanceID := hs_InstanceID hs; hs_ImpairedSince := EarliestImpairedSince (filter (persists now) ds);
                   hs_Details := filter (persists now) ds |}).
    exists hs', d. split; [|done]. apply list_elem_of_omap.
    exists {| hs_InstanceID := hs_InstanceID hs; hs_ImpairedSince := EarliestImpairedSince ds; hs_Details := ds |}.
    split.
    + apply list_elem_of_omap. exists s. split; [done|]. exact (with_details_elem _ hs _ Hds).
    + exact (with_details_elem _ _ _ Hps).
  - intros (hs & d & Hhs & Hid & Hd & Hc). apply list_elem_of_omap in Hhs as (hs1 & Hhs1 & Hhs).
    apply list_elem_of_omap in Hhs1 as (s & Hs & Hhs1). apply with_details_Some in Hhs1 as [_ ->].
    apply with_details_Some in Hhs as [_ ->]. simpl in *. apply list_elem_of_filter in Hd as [Hp Hd].
    apply list_elem_of_filter in Hd as [[Hf Hcs] Hd]. exists s, d. by subst cat.
Qed.

(** What a round asks for: the NodeClaims of the instances [on] names. *)
Definition named_by (on : string → Category → Prop) (providerID : string) : Prop :=
  dryRun = false ∧ ∃ id cat, on id cat ∧ of_instances [id] providerID.
Definition cleared (on : string → Category → Prop) k h' : Prop :=
  ∀ n c, at_ k n = Some c → named_by on (ncl_ProviderID c) → leaving (at_ (ih_kube h') n).

Lemma cleared_trans P1 P2 on1 on2 k h1 h2 :
  effect P1 k (ih_kube h1) → effect P2 (ih_kube h1) (ih_kube h2) → cleared on1 k h1 → cleared on2 (ih_kube h1) h2 →
  cleared (λ id cat, on1 id cat ∨ on2 id cat) k h2.
Proof.
  intros K1 K2 C1 C2 n c Hc (Hdry & id & cat & [Ho|Ho] & Hof).
  - apply (eff_leaving _ _ _ K2), (C1 n c Hc). split; [done|]. by exists id, cat.
  - destruct (at_ (ih_kube h1) n) as [c1|] eqn:E; [|by apply (eff_leaving _ _ _ K2); rewrite E].
    destruct (eff_sub _ _ _ K1 _ _ E) as (c0 & Hc0 & Hp & _). simplify_eq.
    apply (C2 n c1 E). split; [done|]. exists id, cat. by rewrite Hp.
Qed.

Lemma cleared_weaken (on on' : string → Category → Prop) k h :
  (∀ id cat, on' id cat → on id cat) → cleared on k h → cleared on' k h.
Proof. intros Ho Hc n c ? (? & id & cat & ? & ?). apply (Hc n c); [done|]. split; [done|]. exists id, cat. auto. Qed.

Lemma handle_categories_spec hs cs keys q q' keys' e :
  ice_ok (ih_ice (sc_handler q)) →
  handle_categories now Format dryRun hs cs keys q = (q', keys', e) →
  let on id cat := id = hs_InstanceID hs ∧ cat ∈ cs in
  progress (named_by on) (sc_handler q) (sc_handler q') ∧
  (e = None → cleared on (ih_kube (sc_handler q)) (sc_handler q')).
Proof.
  simpl. revert keys q. induction cs as [|cat cs IH]; intros keys q Hi; simpl.
  { intros [= <- <- <-]. split; [apply progress_refl|]. intros _ n c _ (_ & id & cat' & [_ []%elem_of_nil] & _). }
  set (msg := {| msg_Kind := categoryToKind cat |}).
  destruct (handleMessage now Format msg dryRun (sc_handler q)) as [h1 [f e1]] eqn:E.
  destruct (handleMessage_spec _ _ _ _ _ _ Hi E) as [Hp Hs].
  assert (progress (named_by (λ id cat', id = hs_InstanceID hs ∧ cat' ∈ cat :: cs)) (sc_handler q) h1) as Hp1.
  { destruct Hp as [K1 I1]. split; [|done]. eapply effect_weaken; [|exact K1]. intros x (_ & ? & Hof).
    split; [done|]. exists (hs_InstanceID hs), cat. split; [split; [done|by left]|done]. }
  destruct e1 as [e1|]; [by intros [= <- <- <-]|]. intros Hrec.
  match type of Hrec with (let '(_, _) := ?b in _) = _ => set (step := b) in Hrec end.
  destruct step as [q1 keys1] eqn:Estep.
  assert (sc_handler q1 = h1) as Hh.
  { subst step. destruct f; [|by injection Estep as <- <-]. unfold recordUnhealthyInstance in Estep.
    by destruct (decide _); injection Estep as <- <-. }
  rewrite <- Hh in Hp1, Hs, Hp. clear Estep step.
  destruct (IH _ _ (ice_ok_keeps _ _ (pr_ice _ _ _ Hp1) Hi) Hrec) as [Hp2 Hc2]. split.
  { eapply progress_trans; [exact Hp1|]. destruct Hp2 as [K2 I2]. split; [|done].
    eapply effect_weaken; [|exact K2]. intros x (? & id & cat' & [-> ?] & ?). split; [done|].
    exists (hs_InstanceID hs), cat'. split; [split; [done|by right]|done]. }
  intros He. eapply cleared_weaken; [|eapply (cleared_trans _ _ (λ id cat', id = hs_InstanceID hs ∧ cat' = cat));
    [apply Hp1|apply Hp2| |by apply Hc2]].
  { intros id cat' [-> [->|?]%elem_of_cons]; auto. }
  intros n cl Hcl (Hdry & id & cat' & [-> ->] & Hof).
  destruct (Hs Hdry eq_refl _ (progress_refl _ _)) as [Hd _]. apply (Hd ltac:(by destruct cat) n cl Hcl Hof).
Qed.

Lemma handle_statuses_spec l keys q q' keys' es :
  ice_ok (ih_ice (sc_handler q)) →
  handle_statuses now Format dryRun l keys q = (q', keys', es) →
  let on id cat := ∃ hs d, hs ∈ l ∧ hs_InstanceID hs = id ∧ d ∈ hs_Details hs ∧ dt_Category d = cat in
  progress (named_by on) (sc_handler q) (sc_handler q') ∧
  (es = [] → cleared on (ih_kube (sc_handler q)) (sc_handler q')).
Proof.
  simpl. revert keys q es. induction l as [|hs l IH]; intros keys q es Hi; simpl.
  { intros [= <- <- <-]. split; [apply progress_refl|]. intros _ n c _ (_ & id & cat & (? & ? & []%elem_of_nil & _) & _). }
  destruct (handleHealthStatus now Format dryRun hs keys q) as [[q1 keys1] e1] eqn:E1.
  destruct (handle_statuses _ _ _ l keys1 q1) as [[q2 keys2] es2] eqn:E2. intros [= <- <- <-].
  destruct (handle_categories_spec _ _ _ _ _ _ _ Hi E1) as [Hp1 Hc1].
  destruct (IH _ _ _ (ice_ok_keeps _ _ (pr_ice _ _ _ Hp1) Hi) E2) as [Hp2 Hc2]. split.
  - eapply progress_trans; [destruct Hp1 as [K1 I1]|destruct Hp2 as [K1 I1]]; (split; [|exact I1]);
      (eapply effect_weaken; [|exact K1]).
    + intros x (? & id & cat & [-> (d & -> & Hd)%elem_of_remove_dups%list_elem_of_fmap] & ?). split; [done|].
      eexists _, _. split; [|done]. exists hs, d. split; [by left|done].
    + intros x (? & id & cat & (hs' & d & ? & ? & ? & ?) & ?). split; [done|].
      exists id, cat. split; [|done]. exists hs', d. split; [by right|done].
  - intros [He ->]%app_nil. eapply cleared_weaken; [|eapply cleared_trans;
      [apply Hp1|apply Hp2|apply Hc1; by destruct e1|by apply Hc2]].
    intros id cat (hs' & d & [->|?]%elem_of_cons & ? & ? & <-); [left|right; by exists hs', d].
    split; [done|]. apply elem_of_remove_dups, list_elem_of_fmap. by exists d.
Qed.

(** A round of the status checks deletes only NodeClaims of instances with a failure in
    a polled category that persists: a scheduled event, or a check that has failed for two
    minutes, or for an unknown time.  None in a dry run, and with node repair only scheduled
    events count.  Without an error every NodeClaim of such an instance is gone or on its
    way out, unless EC2 refused to list the statuses; then nothing happens. *)
Theorem Reconcile_status_spec nodeRepair legacyNodeRepair q q' e :
  ice_ok (ih_ice (sc_handler q)) →
  Reconcile_status now DescribeInstanceStatus Format dryRun nodeRepair legacyNodeRepair q = (q', e) →
  let cs := poll_categories nodeRepair legacyNodeRepair in
  match add_categories DescribeInstanceStatus cs (∅, []) with
  | Err e' => q' = q ∧ (e = None ↔ IsUnauthorizedOperationError (Some e') = true)
  | Ok (_, sts) =>
      effect (named_by (failing cs sts)) (ih_kube (sc_handler q)) (ih_kube (sc_handler q')) ∧
      (e = None → cleared (failing cs sts) (ih_kube (sc_handler q)) (sc_handler q'))
  end.
Proof.
  simpl. intros Hi. unfold Reconcile_status. set (cs := poll_categories _ _).
  destruct (ListStatuses now DescribeInstanceStatus cs) as [l|e1] eqn:El.
  - destruct (ListStatuses_spec _ _ El) as (ids & sts & -> & Hf).
    destruct (handle_statuses _ _ _ _ [] q) as [[q1 keys] es] eqn:E. intros [= <- <-]. simpl.
    destruct (handle_statuses_spec _ _ _ _ _ _ Hi E) as [Hp Hc]. split.
    + eapply effect_weaken; [|apply Hp]. intros x (? & id & cat & Ho & ?). split; [done|]. exists id, cat.
      by rewrite Hf.
    + intros He%Combine_None. eapply cleared_weaken; [|by apply Hc]. intros id cat. by rewrite Hf.
  - unfold ListStatuses in El. destruct (add_categories _ _ _) as [[? ?]|e2]; [done|]. injection El as ->.
    intros [= <- <-]. split; [done|]. by destruct (IsUnauthorizedOperationError _).
Qed.
End status_rounds.
End properties.

(** ** An example *)

Section example.
Definition example_node_claim (name id : string) : NodeClaim :=
  {| ncl_Name := name;
     ncl_Labels := {[ LabelTopologyZone := "us-west-2a"; LabelInstanceTypeStable := "m5.large" ]};
     ncl_Annotations := ∅; ncl_CreationTimestamp := 0; ncl_DeletionTimestamp := None;
     ncl_NodeClassRef := Some "default"; ncl_Requirements := ∅; ncl_Requests := ∅;
     ncl_ProviderID := "aws:///us-west-2a/" +:+ id; ncl_ImageID := ""; ncl_NodeName := name;
     ncl_Conditions := ∅; ncl_Capacity := ∅; ncl_Allocatable := ∅ |}.

(** One event of each kind the example sends; the body is the detail type. *)
Definition example_metadata (detail : string) : Metadata :=
  {| md_Time := 1; md_Version := "0"; md_Source := "aws.ec2"; md_DetailType := detail |}.
Definition example_parse : option string → result error Message :=
  parseMessage (λ raw, Ok (example_metadata raw))
    (λ raw, Ok (example_metadata raw, {| sd_InstanceID := "i-2"; sd_State := "running" |}))
    (λ raw, Err (errorf "unused")) (λ _ raw, Ok (example_metadata raw, "i-1")) (NewEventParser DefaultParsers).
Definition example_message (body : option string) : SQSMessage :=
  {| sqs_Body := body; sqs_ReceiptHandle := "handle" |}.
Definition example_messages : list SQSMessage :=
  example_message <$> [Some (Parser_DetailType SpotInterruptionParser); None;
                       Some (Parser_DetailType StateChangeParser)].

Definition example_ice : UnavailableOfferings (RefCache.t unit) := NewUnavailableOfferings.
Definition example_queue : QueueController RefKube.server (RefCache.t unit) :=
  {| qc_handler := {| ih_kube := (RefKube.of_list [example_node_claim "one" "i-1"; example_node_claim "two" "i-2"],
                                  RefKube.empty);
                      ih_ice := Some example_ice; ih_events := [] |};
     qc_deleted := [] |}.
Definition example_round :=
  Reconcile_queue 5 (λ _, "now") example_parse (λ _, None) None (Ok example_messages) example_queue.

Lemma Reconcile_queue_spec_witness :
  leaving (stored NodeClaim (ih_kube (qc_handler example_round.1)) !! "one") ∧
  ¬ leaving (stored NodeClaim (ih_kube (qc_handler example_round.1)) !! "two") ∧
  Forall (λ m, m ∈ qc_deleted example_round.1) example_messages.
Proof.
  assert (example_round.2 = None) as He by (vm_compute; reflexivity).
  destruct example_round as [q' e] eqn:E. simpl in He. subst e. unfold example_round in E.
  assert (ice_ok (ih_ice (qc_handler example_queue))) as Hi by (vm_compute; reflexivity).
  destruct (Reconcile_queue_spec _ _ _ _ _ _ _ _ _ Hi E) as (Heff & Hans & Hdel). destruct (Hdel eq_refl) as [_ Hin]. simpl.
  assert (example_parse (Some (Parser_DetailType SpotInterruptionParser)) =
          Ok {| msg_EC2InstanceIDs := ["i-1"]; msg_Kind := SpotInterruptionKind; msg_StartTime := 1 |}) as Hp
    by (vm_compute; reflexivity).
  assert (example_message (Some (Parser_DetailType SpotInterruptionParser)) ∈ example_messages) as Hm1 by by left.
  split; [|split].
  - pose proof (Hin _ Hm1) as Hq. pose proof (Hans _ Hq) as Ho. clear Hans Hin Hdel.
    destruct Ho as [Hn|[_ Hs]]; [destruct (not_elem_of_nil _ Hn)|].
    cbn [example_message sqs_Body] in Hs. rewrite Hp in Hs.
    apply (proj1 Hs ltac:(discriminate) "one" (example_node_claim "one" "i-1")); [vm_compute; reflexivity|].
    exists "i-1". split; [vm_compute; reflexivity|by left].
  - intros Hl. destruct (eff_only _ _ _ Heff "two" (example_node_claim "two" "i-2")
      ltac:(vm_compute; reflexivity) eq_refl Hl) as (m & msg & Hm & Hpm & Ha & _ & id & Hid & Hids).
    apply list_elem_of_In in Hm. destruct Hm as [<-|[<-|[<-|[]]]]; vm_compute in Hpm; [|discriminate Hpm|].
    + injection Hpm as <-. vm_compute in Hid. injection Hid as <-. apply list_elem_of_In in Hids.
      destruct Hids as [[=]|[]].
    + injection Hpm as <-. by apply Ha.
  - by apply Forall_forall.
Defined.

(** The first instance has failed its check long enough, the second has not. *)
Definition example_status (id : string) (since : Z) : EC2InstanceStatus :=
  {| eis_InstanceId := id;
     eis_InstanceStatus := Some [{| isd_Name := "reachability"; isd_Status := "failed"; isd_ImpairedSince := Some since |}];
     eis_SystemStatus := None; eis_Events := [] |}.
Definition example_describe (c : Category) : list (result error (list EC2InstanceStatus)) :=
  match c with InstanceStatus => [Ok [example_status "i-1" 0; example_status "i-2" (100 * Second)]] | _ => [] end.
Definition example_checks : StatusController RefKube.server (RefCache.t unit) :=
  {| sc_handler := qc_handler example_queue; sc_seen := []; sc_counted := [] |}.
Definition example_poll :=
  Reconcile_status (130 * Second) example_describe (λ _, "now") false false false example_checks.

Lemma Reconcile_status_spec_witness :
  leaving (stored NodeClaim (ih_kube (sc_handler example_poll.1)) !! "one") ∧
  ¬ leaving (stored NodeClaim (ih_kube (sc_handler example_poll.1)) !! "two").
Proof.
  assert (example_poll.2 = None) as He by (vm_compute; reflexivity).
  destruct example_poll as [q' e] eqn:E. simpl in He. subst e. unfold example_poll in E.
  assert (ice_ok (ih_ice (sc_handler example_checks))) as Hi by (vm_compute; reflexivity).
  pose proof (Reconcile_status_spec _ _ _ _ _ _ _ _ _ Hi E) as Hr. clear E.
  assert (add_categories example_describe (poll_categories false false) (∅, []) =
          Ok ({[ "i-1"; "i-2" ]}, [example_status "i-1" 0; example_status "i-2" (100 * Second)])) as Ha
    by (vm_compute; reflexivity).
  cbv zeta in Hr. rewrite Ha in Hr. destruct Hr as [Heff Hc]. cbn [fst].
  split.
  - apply (Hc eq_refl "one" (example_node_claim "one" "i-1")); [vm_compute; reflexivity|].
    split; [reflexivity|]. exists "i-1", InstanceStatus. split.
    + exists (example_status "i-1" 0), (newDetails InstanceStatus
        {| isd_Name := "reachability"; isd_Status := "failed"; isd_ImpairedSince := Some 0 |}).
      split; [by left|]. split; [reflexivity|]. split; [by left|]. split; [reflexivity|].
      split; [reflexivity|]. split; [by left|]. right. vm_compute. discriminate.
    + exists "i-1". split; [vm_compute; reflexivity|by left].
  - intros Hl. destruct (eff_only _ _ _ Heff "two" (example_node_claim "two" "i-2")
      ltac:(vm_compute; reflexivity) eq_refl Hl) as (_ & id & cat & (s & d & Hs & Hid & Hd & _ & _ & _ & Hp) & i & Hi' & Hin).
    vm_compute in Hi'. injection Hi' as <-. apply list_elem_of_singleton in Hin. subst id.
    apply list_elem_of_In in Hs. destruct Hs as [<-|[<-|[]]]; [discriminate Hin|].
    apply list_elem_of_In in Hd. destruct Hd as [<-|[]]. destruct Hp as [Hp|Hp]; [discriminate Hp|].
    vm_compute in Hp. by apply Hp.
Defined.
End example.
