(* ===== verification/InstanceProfile.v ===== *)
(** * [pkg/providers/instanceprofile], and the controllers that use it

    [instanceprofile.go]: the instance profiles of NodeClasses, cached, in IAM (a class
    [IAMAPI] with the laws the provider relies on).  [controllers/nodeclass/instanceprofile.go]:
    the profile of a NodeClass.  [controllers/nodeclass/garbagecollection]: deleting the
    profiles nothing uses.  A generated profile name is an argument; the values [serrors]
    attaches to errors are left out. *)
From S2P Require Import Prelude AwsErrors ApiV1 UnavailableOfferings Scheduling Kube GoCache.

(** ** IAM *)

(** [iamtypes.InstanceProfile] *)
Record IamProfile := {
  ip_Name : string;
  ip_Path : string;
  ip_Roles : list string;
  ip_Tags : gmap string string;
}.
Definition with_roles (roles : list string) (p : IamProfile) : IamProfile :=
  {| ip_Name := ip_Name p; ip_Path := ip_Path p; ip_Roles := roles; ip_Tags := ip_Tags p |}.

(** The calls, and the profiles of the account by name.  [ListInstanceProfiles] gives the
    pages of a path prefix. *)
Class IAMAPI (W : Type) := {
  profiles : W → gmap string IamProfile;
  GetInstanceProfile : string → W → result error IamProfile;
  CreateInstanceProfile : string → option string → gmap string string → W → W * result error IamProfile;
  AddRoleToInstanceProfile : string → string → W → W * option error;
  RemoveRoleFromInstanceProfile : string → string → W → W * option error;
  DeleteInstanceProfile : string → W → W * option error;
  ListInstanceProfiles : string → W → list (result error (list IamProfile));
}.
#[global] Hint Mode IAMAPI ! : typeclass_instances.

(** A call that fails may still have had its effect, so that only the other profiles are
    known to be as they were. *)
Class IAMLaws (W : Type) `{IAMAPI W} := {
  profiles_Name (w : W) n p : profiles w !! n = Some p → ip_Name p = n;
  profiles_one_role (w : W) n p : profiles w !! n = Some p → (length (ip_Roles p) ≤ 1)%nat;
  (** A role name has no slash. *)
  profiles_role_name (w : W) n p r : profiles w !! n = Some p → r ∈ ip_Roles p → free_of "/" r;
  Get_Ok (w : W) n p : GetInstanceProfile n w = Ok p → profiles w !! n = Some p;
  Get_NotFound (w : W) n e :
    GetInstanceProfile n w = Err e → IsNotFound (Some e) = true → profiles w !! n = None;
  Create_frame (w : W) n path tags n' :
    n' ≠ n → profiles (CreateInstanceProfile n path tags w).1 !! n' = profiles w !! n';
  Create_keeps (w : W) n path tags p :
    profiles w !! n = Some p → profiles (CreateInstanceProfile n path tags w).1 !! n = Some p;
  Create_Ok (w : W) n path tags p :
    (CreateInstanceProfile n path tags w).2 = Ok p →
    profiles (CreateInstanceProfile n path tags w).1 !! n = Some p ∧ ip_Roles p = [] ∧
    ip_Tags p = tags ∧ ip_Path p = default "/" path;
  Add_frame (w : W) n role n' :
    n' ≠ n → profiles (AddRoleToInstanceProfile n role w).1 !! n' = profiles w !! n';
  Add_Ok (w : W) n role :
    (AddRoleToInstanceProfile n role w).2 = None →
    ∃ p, profiles w !! n = Some p ∧ ip_Roles p = [] ∧
      profiles (AddRoleToInstanceProfile n role w).1 !! n = Some (with_roles [role] p);
  Remove_frame (w : W) n role n' :
    n' ≠ n → profiles (RemoveRoleFromInstanceProfile n role w).1 !! n' = profiles w !! n';
  Remove_Ok (w : W) n role :
    (RemoveRoleFromInstanceProfile n role w).2 = None →
    ∃ p, profiles w !! n = Some p ∧ ip_Roles p = [role] ∧
      profiles (RemoveRoleFromInstanceProfile n role w).1 !! n = Some (with_roles [] p);
  Delete_frame (w : W) n n' :
    n' ≠ n → profiles (DeleteInstanceProfile n w).1 !! n' = profiles w !! n';
  Delete_Ok (w : W) n :
    (DeleteInstanceProfile n w).2 = None → profiles (DeleteInstanceProfile n w).1 !! n = None;
  Delete_NotFound (w : W) n e :
    (DeleteInstanceProfile n w).2 = Some e → IsNotFound (Some e) = true →
    profiles (DeleteInstanceProfile n w).1 !! n = None;
  List_Ok (w : W) prefix pages :
    ListInstanceProfiles prefix w = Ok <$> pages →
    ∀ p, p ∈ concat pages ↔ profiles w !! ip_Name p = Some p ∧ HasPrefix (ip_Path p) prefix = true;
}.

(** ** The provider *)

Definition GetProfileCacheKey (profileName : string) : string := "instance-profile:" +:+ profileName.
Definition FormatPath (segments : list string) : string :=
  match segments with [] => "/" | _ => "/" +:+ Join segments "/" +:+ "/" end.

(** [IsRoleNotFoundError]; the profile itself can be what was not found. *)
Definition IsRoleNotFoundError : error → bool := λ e,
  match asAPIError e with
  | Some a => bool_decide (ErrorCode a = "NoSuchEntity") && Contains (ErrorMessage a) "role"
  | None => false
  end.

(** A role without its path. *)
Definition role_name (role : string) : string := default role (last (Split role "/")).

Section provider.
Context {W C CR CP : Type} `{IAMAPI W} `{GoCache IamProfile C} `{GoCache error CR} `{GoCache unit CP}.
Variable now : Z.

(** IAM and the three caches: profiles, role-not-found errors by role, and the profiles that
    are not to be collected. *)
Record Profiles := {
  pf_iam : W;
  pf_cache : C;
  pf_roleErrors : CR;
  pf_protected : CP;
}.
Definition with_iam (w : W) (s : Profiles) : Profiles :=
  {| pf_iam := w; pf_cache := pf_cache s; pf_roleErrors := pf_roleErrors s; pf_protected := pf_protected s |}.
Definition remember_profile (name : string) (p : IamProfile) (s : Profiles) : Profiles :=
  {| pf_iam := pf_iam s; pf_cache := SetDefault (pf_cache s) now (GetProfileCacheKey name) p;
     pf_roleErrors := pf_roleErrors s; pf_protected := pf_protected s |}.
Definition forget_profile (name : string) (s : Profiles) : Profiles :=
  {| pf_iam := pf_iam s; pf_cache := (Delete (pf_cache s) (GetProfileCacheKey name)).1;
     pf_roleErrors := pf_roleErrors s; pf_protected := pf_protected s |}.

Definition HasError (role : string) (s : Profiles) : option error := Get (pf_roleErrors s) now role.
Definition SetError (role : string) (e : error) (s : Profiles) : Profiles :=
  {| pf_iam := pf_iam s; pf_cache := pf_cache s; pf_roleErrors := SetDefault (pf_roleErrors s) now role e;
     pf_protected := pf_protected s |}.

Definition IsProtected (name : string) (s : Profiles) : bool :=
  bool_decide (is_Some (Get (pf_protected s) now name)).
Definition SetProtectedState (name : string) (protected : bool) (s : Profiles) : Profiles :=
  {| pf_iam := pf_iam s; pf_cache := pf_cache s; pf_roleErrors := pf_roleErrors s;
     pf_protected := if protected then SetDefault (pf_protected s) now name tt
                     else (Delete (pf_protected s) name).1 |}.

Definition Get_ (name : string) (s : Profiles) : Profiles * result error IamProfile :=
  match Get (pf_cache s) now (GetProfileCacheKey name) with
  | Some p => (s, Ok p)
  | None => match GetInstanceProfile name (pf_iam s) with
            | Err e => (s, Err e)
            | Ok p => (remember_profile name p s, Ok p)
            end
  end.

(** Whether the role had to be attached; an error to do so is kept if the role is missing. *)
Definition add_role (p : IamProfile) (role : string) (s : Profiles) : Profiles * result error bool :=
  let role := role_name role in
  match AddRoleToInstanceProfile (ip_Name p) role (pf_iam s) with
  | (w, None) => (with_iam w s, Ok true)
  | (w, Some e) =>
      let e := wrap "adding role to instance profile" e in
      (if IsRoleNotFoundError e then SetError role e (with_iam w s) else with_iam w s, Err e)
  end.
Definition ensureRole (p : IamProfile) (role : string) (s : Profiles) : Profiles * result error bool :=
  match ip_Roles p with
  | [r] =>
      if decide (r = role) then (s, Ok false)
      else match RemoveRoleFromInstanceProfile (ip_Name p) r (pf_iam s) with
           | (w, Some e) => (with_iam w s, Err (wrap "removing role for instance profile" e))
           | (w, None) => add_role p role (with_iam w s)
           end
  | _ => add_role p role s
  end.

(** The cached profile gets the role as the NodeClass writes it. *)
Definition attach (name role : string) (shouldUpdate : bool) (p : IamProfile) (s : Profiles) :
    Profiles * option error :=
  match ensureRole p role s with
  | (s, Err e) => (s, Some (wrap "ensuring role attached" e))
  | (s, Ok updatedRole) =>
      (if shouldUpdate || updatedRole then remember_profile name (with_roles [role] p) s else s, None)
  end.

Definition Create (name role : string) (tags : gmap string string) (path : string) (s : Profiles) :
    Profiles * option error :=
  match HasError role s with
  | Some e => (s, Some (wrap "role not found" e))
  | None =>
      match Get_ name s with
      | (s, Ok p) => attach name role false p s
      | (s, Err e) =>
          if IsNotFound (Some e) then
            match CreateInstanceProfile name (if decide (path = "") then None else Some path) tags (pf_iam s) with
            | (w, Err e) => (with_iam w s, Some e)
            | (w, Ok p) => attach name role true p (with_iam w s)
            end
          else (s, Some (wrap "getting instance profile" e))
      end
  end.

Definition delete_profile (name : string) (s : Profiles) : Profiles * option error :=
  match DeleteInstanceProfile name (pf_iam s) with
  | (w, Some e) => (with_iam w s, IgnoreNotFound (Some (wrap "deleting instance profile" e)))
  | (w, None) => (SetProtectedState name false (forget_profile name (with_iam w s)), None)
  end.
Definition Delete_ (name : string) (s : Profiles) : Profiles * option error :=
  match GetInstanceProfile name (pf_iam s) with
  | Err e => (s, IgnoreNotFound (Some (wrap "getting instance profile" e)))
  | Ok p =>
      match ip_Roles p with
      | [r] => match RemoveRoleFromInstanceProfile name r (pf_iam s) with
               | (w, Some e) => (with_iam w s, Some (wrap "removing role from instance profile" e))
               | (w, None) => delete_profile name (with_iam w s)
               end
      | _ => delete_profile name s
      end
  end.

Fixpoint list_pages (pages : list (result error (list IamProfile))) : result error (list IamProfile) :=
  match pages with
  | [] => Ok []
  | Err e :: _ => Err (wrap "listing instance profiles" e)
  | Ok l :: pages' => match list_pages pages' with Ok l' => Ok (l ++ l') | Err e => Err e end
  end.
Definition ListProfiles (pathPrefix : string) (s : Profiles) : result error (list IamProfile) :=
  list_pages (ListInstanceProfiles pathPrefix (pf_iam s)).
End provider.
Arguments Profiles : clear implicits.

(** ** The profile of a NodeClass *)

Definition generateCacheKey {Q} (nc : EC2NodeClass Q) : string := Role (Spec nc) +:+ "/" +:+ nc_UID nc.
Definition with_profile {Q} (name : string) (nc : EC2NodeClass Q) : EC2NodeClass Q :=
  let st := Status nc in
  with_status {| Subnets := Subnets st; SecurityGroups := SecurityGroups st;
                 CapacityReservations_ := CapacityReservations_ st; AMIs_ := AMIs_ st;
                 InstanceProfile := name; Conditions := Conditions st |} nc.

Section reconciler.
Context {W C CR CP CN Q : Type} `{IAMAPI W} `{GoCache IamProfile C} `{GoCache error CR} `{GoCache unit CP}.
Context `{GoCache string CN} `{ConditionSet}.
Variable now : Z.
Variable ClusterName region : string.
(** [InstanceProfileName]: the cluster and the hash of a fresh UUID. *)
Variable newProfileName : string.
Abbreviation S := (Profiles W C CR CP).

(** The provider, and the profiles made in the last minute by role and NodeClass. *)
Record ProfileReconciler := { pc_profiles : S; pc_recreation : CN }.
Definition with_profiles (s : S) (c : ProfileReconciler) : ProfileReconciler :=
  {| pc_profiles := s; pc_recreation := pc_recreation c |}.

Definition protectProfile (profile : string) (c : ProfileReconciler) : ProfileReconciler :=
  if decide (profile = "") then c
  else with_profiles (SetProtectedState now profile true (pc_profiles c)) c.

(** The role the profile of the NodeClass has, if there is one. *)
Definition current_role (name : string) (s : S) : S * result error string :=
  if decide (name = "") then (s, Ok "")
  else match Get_ now name s with
       | (s, Ok p) => (s, Ok (default "" (head (ip_Roles p))))
       | (s, Err e) => (s, if IsNotFound (Some e) then Ok ""
                           else Err (wrap ("getting instance profile " +:+ name) e))
       end.

Definition recreate (nc : EC2NodeClass Q) (c : ProfileReconciler) :
    ProfileReconciler * result error (EC2NodeClass Q) :=
  match Create now newProfileName (InstanceProfileRole nc) (InstanceProfileTags nc ClusterName region)
          (FormatPath ["karpenter"; region; ClusterName; nc_UID nc]) (pc_profiles c) with
  | (s, Some e) => (with_profiles (Delete_ now newProfileName s).1 c, Err (wrap "creating instance profile" e))
  | (s, None) =>
      let c := {| pc_profiles := s;
                  pc_recreation := SetDefault (pc_recreation c) now (generateCacheKey nc) newProfileName |} in
      (protectProfile newProfileName c, Ok (with_profile newProfileName nc))
  end.

(** The NodeClass as it is left, and the error. *)
Definition Reconcile_profile (nc : EC2NodeClass Q) (c : ProfileReconciler) :
    ProfileReconciler * (EC2NodeClass Q * option error) :=
  let ready nc := SetTrue ConditionTypeInstanceProfileReady nc in
  let old := InstanceProfile (Status nc) in
  if decide (Role (Spec nc) ≠ "") then
    let nc := match Get (pc_recreation c) now (generateCacheKey nc) with
              | Some name => with_profile name nc
              | None => nc
              end in
    let '(s, r) := current_role (InstanceProfile (Status nc)) (pc_profiles c) in
    let c := with_profiles s c in
    match r with
    | Err e => (c, (nc, Some e))
    | Ok role =>
        let '(c, r) := if decide (role ≠ Role (Spec nc)) then recreate nc c else (c, Ok nc) in
        match r with
        | Err e => (c, (nc, Some e))
        | Ok nc => (if decide (old ≠ InstanceProfile (Status nc)) then protectProfile old c else c,
                    (ready nc, None))
        end
    end
  else (protectProfile old c, (ready (with_profile (default "" (InstanceProfile_ (Spec nc))) nc), None)).
End reconciler.
Arguments ProfileReconciler : clear implicits.

(** ** Garbage collection *)

Section collector.
Context `{SchedulingTypes} {W C CR CP Q : Type}.
Context `{IAMAPI W} `{GoCache IamProfile C} `{GoCache error CR} `{GoCache unit CP}.
Variable now : Z.
Variable ClusterName region : string.
Abbreviation S := (Profiles W C CR CP).

(** The profiles of the NodeClaims and of the NodeClasses. *)
Definition getActiveProfiles (claims : result error (list NodeClaim)) : result error (gset string) :=
  match claims with
  | Err e => Err (wrap "listing nodeclaims" e)
  | Ok l => Ok (list_to_set (omap (λ c, ncl_Annotations c !! AnnotationInstanceProfile) l))
  end.
Definition getCurrentProfiles (classes : result error (list (EC2NodeClass Q))) : result error (gset string) :=
  match classes with
  | Err e => Err (wrap "listing nodeclasses" e)
  | Ok l => Ok (list_to_set (filter (λ n, n ≠ "") ((λ nc, InstanceProfile (Status nc)) <$> l)))
  end.

Definition shouldDeleteProfile (name : string) (current active : gset string) (s : S) : bool :=
  negb (bool_decide (name ∈ current)) && negb (IsProtected now name s) && negb (bool_decide (name ∈ active)).

Fixpoint collect (current active : gset string) (l : list IamProfile) (s : S) : S * option error :=
  match l with
  | [] => (s, None)
  | p :: l' =>
      if shouldDeleteProfile (ip_Name p) current active s then
        match Delete_ now (ip_Name p) s with
        | (s, Some e) => (s, Some (wrap "deleting instance profile" e))
        | (s, None) => collect current active l' s
        end
      else collect current active l' s
  end.

Definition cleanupInactiveProfiles (claims : result error (list NodeClaim))
    (classes : result error (list (EC2NodeClass Q))) (s : S) : S * option error :=
  match getActiveProfiles claims, getCurrentProfiles classes with
  | Err e, _ => (s, Some e)
  | Ok _, Err e => (s, Some e)
  | Ok active, Ok current =>
      match ListProfiles (FormatPath ["karpenter"; region; ClusterName]) s with
      | Err e => (s, Some (wrap "listing instance profiles" e))
      | Ok l => collect current active l s
      end
  end.
End collector.

(** ** Properties of the provider *)

Lemma role_name_free r : free_of "/" r → role_name r = r.
Proof. intros Hr. unfold role_name. by rewrite Split_free. Qed.

Section properties.
Context {W C CR CP : Type} `{IAMLaws W} `{GoCacheLaws IamProfile C} `{GoCacheLaws error CR} `{GoCacheLaws unit CP}.
Implicit Types (s : Profiles W C CR CP) (n name role : string) (p q : IamProfile) (now : Z).
Abbreviation iam s n := (profiles (pf_iam s) !! n).

(** What the cache says of a profile is what IAM has, but for the path of the role. *)
Definition coherent now s n : Prop :=
  ∀ p, Get (pf_cache s) now (GetProfileCacheKey n) = Some p →
    ip_Name p = n ∧ ∃ q, iam s n = Some q ∧ ip_Roles q = role_name <$> ip_Roles p.

Lemma coherent_later now now' s n : now ≤ now' → coherent now s n → coherent now' s n.
Proof.
  intros Ht Hc p Hp. apply Hc. by eapply Get_earlier.
Qed.

Lemma key_ne n n' : n' ≠ n → GetProfileCacheKey n' ≠ GetProfileCacheKey n.
Proof. unfold GetProfileCacheKey. intros Hn Heq. apply Hn. by injection Heq. Qed.

(** A step that leaves a profile, its cache entry and its protection as they were. *)
Record untouched s s' n : Prop := {
  un_iam : iam s' n = iam s n;
  un_cache t : Get (pf_cache s') t (GetProfileCacheKey n) = Get (pf_cache s) t (GetProfileCacheKey n);
  un_protected t : Get (pf_protected s') t n = Get (pf_protected s) t n;
}.
Lemma untouched_refl s n : untouched s s n.
Proof. done. Qed.
Lemma untouched_trans s1 s2 s3 n : untouched s1 s2 n → untouched s2 s3 n → untouched s1 s3 n.
Proof. intros [I1 C1 P1] [I2 C2 P2]. split; intros; by rewrite ?I2, ?C2, ?P2. Qed.
Lemma untouched_coherent now s s' n : untouched s s' n → coherent now s n → coherent now s' n.
Proof. intros [Hi Hc _] Hco p. rewrite Hi, Hc. apply Hco. Qed.

Lemma untouched_remember now name p s n : n ≠ name → untouched s (remember_profile now name p s) n.
Proof. intros Hn. split; intros; simpl; try done. apply Get_SetDefault_ne, key_ne. done. Qed.
Lemma untouched_forget name s n : n ≠ name → untouched s (forget_profile name s) n.
Proof.
  intros Hn. split; intros; simpl; try done. rewrite Get_Delete, decide_False; [done|].
  apply key_ne. done.
Qed.
Lemma untouched_SetProtected now name b s n : n ≠ name → untouched s (SetProtectedState now name b s) n.
Proof.
  intros Hn. split; intros; simpl; try done. destruct b; [by apply Get_SetDefault_ne|].
  by rewrite Get_Delete, decide_False.
Qed.
Lemma untouched_iam w s n : profiles w !! n = iam s n → untouched s (with_iam w s) n.
Proof. by split. Qed.
Lemma untouched_SetError now role e s n : untouched s (SetError now role e s) n.
Proof. done. Qed.

(** *** Reading *)

Lemma Get_spec now name s s' r :
  Get_ now name s = (s', r) →
  pf_iam s' = pf_iam s ∧ (∀ n, n ≠ name → untouched s s' n) ∧
  pf_protected s' = pf_protected s ∧
  (coherent now s name → coherent now s' name) ∧
  match r with
  | Ok p => coherent now s name →
      ip_Name p = name ∧ ∃ q, iam s' name = Some q ∧ ip_Roles q = role_name <$> ip_Roles p
  | Err e => s' = s ∧ Get (pf_cache s) now (GetProfileCacheKey name) = None ∧
             (IsNotFound (Some e) = true → iam s name = None)
  end.
Proof.
  unfold Get_. destruct (Get (pf_cache s) now _) as [p|] eqn:Ec.
  { intros [= <- <-]. split; [done|]. split; [done|]. split; [done|]. split; [done|]. intros Hc. by apply Hc. }
  destruct (GetInstanceProfile name (pf_iam s)) as [p|e] eqn:Eg; intros [= <- <-].
  2: { split; [done|]. split; [done|]. split; [done|]. split; [done|]. split; [done|]. split; [done|].
       by apply Get_NotFound. }
  apply Get_Ok in Eg.
  assert (ip_Roles p = role_name <$> ip_Roles p) as Hroles.
  { assert (∀ r, r ∈ ip_Roles p → free_of "/" r) as Hf by (intros r; by eapply profiles_role_name).
    induction (ip_Roles p) as [|r l IH]; simpl; [done|]. rewrite role_name_free by (apply Hf; left).
    f_equal. apply IH. intros r' Hr'. apply Hf. by right. }
  pose proof (profiles_Name _ _ _ Eg) as Hn.
  split; [done|]. split; [intros n ?; by apply untouched_remember|]. split; [done|]. split; [|eauto].
  intros Hc p' [[_ ->]|[Hne _]]%Get_SetDefault_Some; [eauto|done].
Qed.

(** *** Attaching the role *)

Lemma add_role_spec now p role s s' r :
  add_role now p role s = (s', r) →
  (∀ n, n ≠ ip_Name p → untouched s s' n) ∧ pf_cache s' = pf_cache s ∧ pf_protected s' = pf_protected s ∧
  ∀ b, r = Ok b → b = true ∧ ∃ q, iam s' (ip_Name p) = Some q ∧ ip_Roles q = [role_name role].
Proof.
  unfold add_role. pose proof (Add_frame (pf_iam s) (ip_Name p) (role_name role)) as Hf.
  pose proof (Add_Ok (pf_iam s) (ip_Name p) (role_name role)) as Hok.
  destruct (AddRoleToInstanceProfile _ _ _) as [w [e|]]; simpl in *; intros [= <- <-].
  - split; [|by destruct (IsRoleNotFoundError _)]. intros n Hn.
    destruct (IsRoleNotFoundError _); [eapply untouched_trans; [|apply untouched_SetError]|];
      by apply untouched_iam, Hf.
  - split; [intros n Hn; by apply untouched_iam, Hf|]. split; [done|]. split; [done|].
    intros b [= <-]. destruct (Hok eq_refl) as (q & _ & _ & Hq). split; [done|]. by exists (with_roles [role_name role] q).
Qed.

Lemma ensureRole_spec now p role s s' r :
  ensureRole now p role s = (s', r) →
  (∀ n, n ≠ ip_Name p → untouched s s' n) ∧ pf_cache s' = pf_cache s ∧ pf_protected s' = pf_protected s ∧
  ∀ b, r = Ok b →
    if b then ∃ q, iam s' (ip_Name p) = Some q ∧ ip_Roles q = [role_name role]
    else s' = s ∧ ip_Roles p = [role].
Proof.
  assert (∀ s0, (∀ n, n ≠ ip_Name p → untouched s s0 n) → pf_cache s0 = pf_cache s →
    pf_protected s0 = pf_protected s → add_role now p role s0 = (s', r) →
    (∀ n, n ≠ ip_Name p → untouched s s' n) ∧ pf_cache s' = pf_cache s ∧ pf_protected s' = pf_protected s ∧
    ∀ b, r = Ok b → if b then ∃ q, iam s' (ip_Name p) = Some q ∧ ip_Roles q = [role_name role]
                    else s' = s ∧ ip_Roles p = [role]) as Hadd.
  { intros s0 Hu Hc Hp Ha. destruct (add_role_spec _ _ _ _ _ _ Ha) as (Hu' & Hc' & Hp' & Hr).
    split; [intros n Hn; by eapply untouched_trans; [apply Hu|apply Hu']|]. split; [congruence|]. split; [congruence|].
    intros b Hb. by destruct (Hr b Hb) as [-> ?]. }
  unfold ensureRole. destruct (ip_Roles p) as [|r0 [|]] eqn:Er; [by apply Hadd| |by apply Hadd].
  case_decide as Hr0.
  { intros [= <- <-]. split; [done|]. split; [done|]. split; [done|]. intros b [= <-]. by subst. }
  pose proof (Remove_frame (pf_iam s) (ip_Name p) r0) as Hf.
  destruct (RemoveRoleFromInstanceProfile _ _ _) as [w [e|]]; simpl in *.
  - intros [= <- <-]. split; [intros n Hn; by apply untouched_iam, Hf|]. done.
  - apply Hadd; [|done..]. intros n Hn. by apply untouched_iam, Hf.
Qed.

(** The profile has the role, without its path, and the cache knows. *)
Definition attached now s name role : Prop :=
  (∃ q, iam s name = Some q ∧ ip_Roles q = [role_name role]) ∧ coherent now s name.

Lemma attach_spec now name role should p s s' e :
  attach now name role should p s = (s', e) → ip_Name p = name →
  (∀ n, n ≠ name → untouched s s' n) ∧ pf_protected s' = pf_protected s ∧
  (e = None → coherent now s name → (∃ q, iam s name = Some q ∧ ip_Roles q = role_name <$> ip_Roles p) →
   attached now s' name role).
Proof.
  unfold attach. destruct (ensureRole now p role s) as [s1 [b|e1]] eqn:E; intros Hs Hn;
    destruct (ensureRole_spec _ _ _ _ _ _ E) as (Hu & Hc & Hp & Hr); rewrite Hn in *.
  2: { injection Hs as <- <-. done. }
  injection Hs as <- <-. specialize (Hr b eq_refl). split; [|split].
  - intros n Hne. eapply untouched_trans; [by apply Hu|]. destruct (should || b); [by apply untouched_remember|done].
  - by destruct (should || b).
  - intros _ Hco (q & Hq & Hroles).
    assert (∃ q', iam s1 name = Some q' ∧ ip_Roles q' = [role_name role]) as Hq'.
    { destruct b; [done|]. destruct Hr as [-> Hr]. exists q. by rewrite Hroles, Hr. }
    destruct (should || b) eqn:Eb.
    + split; [done|]. intros p' [[_ ->]|[? _]]%Get_SetDefault_Some; [|done]. by split.
    + apply orb_false_iff in Eb as [_ ->]. destruct Hr as [-> _]. by split.
Qed.

Lemma Create_spec now name role tags path s s' e :
  coherent now s name → Create now name role tags path s = (s', e) →
  (∀ n, n ≠ name → untouched s s' n) ∧
  pf_protected s' = pf_protected s ∧ (e = None → attached now s' name role).
Proof.
  intros Hco0. unfold Create. destruct (HasError now role s) as [e1|]; [by intros [= <- <-]|].
  destruct (Get_ now name s) as [s1 [p|e1]] eqn:Eg;
    destruct (Get_spec _ _ _ _ _ Eg) as (Hi & Hu & Hp & Hco & Hr).
  - destruct (Hr Hco0) as (Hn & q & Hq & Hroles). intros Ha.
    destruct (attach_spec _ _ _ _ _ _ _ _ Ha Hn) as (Hu' & Hp' & Hat).
    split; [intros n ?; eapply untouched_trans; auto|]. split; [congruence|]. eauto.
  - destruct Hr as (-> & Hnone & Hnf). destruct (IsNotFound (Some e1)); [|by intros [= <- <-]].
    set (path' := if decide (path = "") then None else Some path).
    pose proof (Create_frame (pf_iam s) name path' tags) as Hf. pose proof (Create_Ok (pf_iam s) name path' tags) as Hok.
    destruct (CreateInstanceProfile _ _ _ _) as [w [p|e2]]; simpl in *.
    2: { intros [= <- <-]. split; [intros n ?; by apply untouched_iam, Hf|done]. }
    destruct (Hok _ eq_refl) as (Hq & Hroles & _). intros Ha.
    destruct (attach_spec _ _ _ _ _ _ _ _ Ha (profiles_Name _ _ _ Hq)) as (Hu' & Hp' & Hat).
    split; [|split; [by rewrite Hp'|]].
    + intros n ?. eapply untouched_trans; [by apply untouched_iam, Hf|by apply Hu'].
    + intros He. apply Hat; [done| |].
      * intros p' Hp''. simpl in Hp''. by rewrite Hnone in Hp''.
      * exists p. split; [done|]. by rewrite Hroles.
Qed.

(** *** Deleting *)

Lemma delete_profile_spec name s s' e now :
  delete_profile now name s = (s', e) →
  (∀ n, n ≠ name → untouched s s' n) ∧ (e = None → iam s' name = None).
Proof.
  unfold delete_profile. pose proof (Delete_frame (pf_iam s) name) as Hf. pose proof (Delete_Ok (pf_iam s) name) as Hok.
  pose proof (Delete_NotFound (pf_iam s) name) as Hnf.
  destruct (DeleteInstanceProfile _ _) as [w [e1|]]; simpl in *; intros [= <- <-].
  - split; [intros n ?; by apply untouched_iam, Hf|]. unfold IgnoreNotFound, IsNotFound. rewrite on_api_wrap.
    intros He. apply (Hnf e1); [done|]. unfold IsNotFound. by destruct (on_api _ _).
  - split; [|auto]. intros n ?. eapply untouched_trans; [by apply untouched_iam, Hf|].
    eapply untouched_trans; [by apply untouched_forget|by apply untouched_SetProtected].
Qed.

Lemma Delete_spec now name s s' e :
  Delete_ now name s = (s', e) →
  (∀ n, n ≠ name → untouched s s' n) ∧ (e = None → iam s' name = None).
Proof.
  unfold Delete_. destruct (GetInstanceProfile name (pf_iam s)) as [p|e1] eqn:Eg.
  2: { intros [= <- <-]. split; [done|]. unfold IgnoreNotFound, IsNotFound. rewrite on_api_wrap. intros He.
       apply (Get_NotFound _ _ _ Eg). unfold IsNotFound. by destruct (on_api _ _). }
  destruct (ip_Roles p) as [|r [|]]; [apply delete_profile_spec| |apply delete_profile_spec].
  pose proof (Remove_frame (pf_iam s) name r) as Hf.
  destruct (RemoveRoleFromInstanceProfile _ _ _) as [w [e1|]]; simpl in *.
  - intros [= <- <-]. split; [|done]. intros n ?. by apply untouched_iam, Hf.
  - intros Hd. destruct (delete_profile_spec _ _ _ _ _ Hd) as [Hu Hg]. split; [|done].
    intros n ?. eapply untouched_trans; [by apply untouched_iam, Hf|by apply Hu].
Qed.

Lemma list_pages_Ok pages l : list_pages pages = Ok l → ∃ ls, pages = Ok <$> ls ∧ l = concat ls.
Proof.
  revert l. induction pages as [|[l0|e] pages IH]; intros l; simpl; [intros [= <-]; by exists []| |done].
  destruct (list_pages pages) as [l1|]; [|done]. intros [= <-]. destruct (IH _ eq_refl) as (ls & -> & ->).
  by exists (l0 :: ls).
Qed.

Lemma ListProfiles_spec prefix s l :
  ListProfiles prefix s = Ok l → ∀ p, p ∈ l ↔ iam s (ip_Name p) = Some p ∧ HasPrefix (ip_Path p) prefix = true.
Proof. intros (ls & Hls & ->)%list_pages_Ok. by apply List_Ok. Qed.

Lemma Delete_unprotected now name s s' e t n :
  Delete_ now name s = (s', e) → Get (pf_protected s) t n = None → Get (pf_protected s') t n = None.
Proof.
  intros Hd Hn.
  assert (∀ s0, pf_protected s0 = pf_protected s → ∀ s1 e1, delete_profile now name s0 = (s1, e1) →
    Get (pf_protected s1) t n = None) as Hp.
  { intros s0 Hs0 s1 e1. unfold delete_profile. destruct (DeleteInstanceProfile _ _) as [w [?|]]; intros [= <- <-]; simpl.
    - by rewrite Hs0.
    - rewrite Get_Delete, Hs0. by case_decide. }
  unfold Delete_ in Hd. destruct (GetInstanceProfile _ _) as [p|e1]; [|by injection Hd as <- <-].
  destruct (ip_Roles p) as [|r [|]]; [by eapply Hp| |by eapply Hp].
  destruct (RemoveRoleFromInstanceProfile _ _ _) as [w [e1|]]; [by injection Hd as <- <-|]. by eapply Hp in Hd.
Qed.

(** *** Garbage collection *)

(** What keeps a profile from being collected. *)
Definition kept now (current active : gset string) s n : Prop :=
  n ∈ current ∨ n ∈ active ∨ is_Some (Get (pf_protected s) now n).
#[local] Instance kept_dec now current active s n : Decision (kept now current active s n).
Proof. unfold kept. apply _. Defined.

Lemma shouldDeleteProfile_spec now name current active s :
  shouldDeleteProfile now name current active s = true ↔ ¬ kept now current active s name.
Proof.
  unfold shouldDeleteProfile, IsProtected, kept. rewrite !andb_true_iff, !negb_true_iff, !bool_decide_eq_false. tauto.
Qed.

Lemma collect_spec now current active l s s' e :
  collect now current active l s = (s', e) →
  (∀ n, kept now current active s n ∨ n ∉ ip_Name <$> l → untouched s s' n) ∧
  (e = None → ∀ n, n ∈ ip_Name <$> l → ¬ kept now current active s n → iam s' n = None).
Proof.
  revert s. induction l as [|p l IH]; intros s; simpl.
  { intros [= <- <-]. split; [done|]. intros _ n Hn. by apply elem_of_nil in Hn. }
  destruct (shouldDeleteProfile now (ip_Name p) current active s) eqn:Es.
  - apply shouldDeleteProfile_spec in Es.
    destruct (Delete_ now (ip_Name p) s) as [s1 [e1|]] eqn:Ed; destruct (Delete_spec _ _ _ _ _ Ed) as [Hu Hg].
    { intros [= <- <-]. split; [|done]. intros n [Hk|Hn]; apply Hu; [by intros ->|].
      intros ->. apply Hn. by left. }
    intros Hc. destruct (IH _ Hc) as [IHu IHg]. split.
    + intros n Hk. assert (n ≠ ip_Name p) as Hn.
      { intros ->. destruct Hk as [Hk|Hk]; [done|]. apply Hk. by left. }
      eapply untouched_trans; [by apply Hu|]. apply IHu.
      destruct Hk as [Hk|Hk]; [left|right; intros Hin; apply Hk; by right].
      unfold kept in *. by rewrite (un_protected _ _ _ (Hu n Hn)).
    + intros He n Hin Hk. assert (¬ kept now current active s1 n) as Hk1.
      { intros [?|[?|Hp]]; apply Hk; [by left|by right; left|]. right; right.
        destruct (Get (pf_protected s) now n) eqn:E; [done|].
        by rewrite (Delete_unprotected _ _ _ _ _ _ _ Ed E) in Hp; apply is_Some_None in Hp. }
      destruct (decide (n ∈ ip_Name <$> l)) as [|Hnin]; [by apply IHg|].
      rewrite (un_iam _ _ _ (IHu _ (or_intror Hnin))). apply elem_of_cons in Hin as [->|]; [by apply Hg|done].
  - assert (kept now current active s (ip_Name p)) as Hkp.
    { destruct (decide (kept now current active s (ip_Name p))) as [|Hn]; [done|].
      apply shouldDeleteProfile_spec in Hn. congruence. }
    intros Hc. destruct (IH _ Hc) as [IHu IHg]. split.
    + intros n [Hk|Hn]; apply IHu; [by left|]. right. intros Hin. apply Hn. by right.
    + intros He n [->|Hin]%elem_of_cons Hk; [done|]. by apply IHg.
Qed.
End properties.

Section controllers.
Context `{SchedulingTypes} `{ConditionSet} {W C CR CP CN Q : Type}.
Context `{IAMLaws W} `{GoCacheLaws IamProfile C} `{GoCacheLaws error CR} `{GoCacheLaws unit CP} `{GoCacheLaws string CN}.
Variable ClusterName region : string.
Implicit Types (s : Profiles W C CR CP) (c : ProfileReconciler W C CR CP CN) (nc : EC2NodeClass Q) (n name : string) (now : Z).
Abbreviation iam s n := (profiles (pf_iam s) !! n).

(** The profiles NodeClasses and NodeClaims use, as they were listed, and the profiles of the
    cluster. *)
Definition current_profiles (cls : list (EC2NodeClass Q)) : gset string :=
  list_to_set (filter (λ n, n ≠ "") ((λ nc, InstanceProfile (Status nc)) <$> cls)).
Definition active_profiles (ncs : list NodeClaim) : gset string :=
  list_to_set (omap (λ claim, ncl_Annotations claim !! AnnotationInstanceProfile) ncs).
Definition ours s n : Prop :=
  ∃ p, iam s n = Some p ∧ HasPrefix (ip_Path p) (FormatPath ["karpenter"; region; ClusterName]) = true.

Lemma cleanup_protected now claims classes s s' e n :
  cleanupInactiveProfiles (Q := Q) now ClusterName region claims classes s = (s', e) →
  is_Some (Get (pf_protected s) now n) → untouched s s' n.
Proof.
  unfold cleanupInactiveProfiles. destruct (getActiveProfiles claims) as [active|]; [|by intros [= <- <-]].
  destruct (getCurrentProfiles classes) as [current|]; [|by intros [= <- <-]].
  destruct (ListProfiles _ s) as [l|e1] eqn:El; [|by intros [= <- <-]]. intros Hc Hp.
  apply (collect_spec _ _ _ _ _ _ _ Hc). left. by right; right.
Qed.

(** Garbage collection deletes exactly the unused profiles of the cluster.  A profile that
    a listed NodeClass or NodeClaim uses, that is protected, or that is not under the path of
    the cluster is left as it is; without an error every other profile is gone; and if
    NodeClaims or NodeClasses cannot be listed nothing is deleted. *)
Theorem cleanupInactiveProfiles_spec now claims classes s s' e :
  cleanupInactiveProfiles (Q := Q) now ClusterName region claims classes s = (s', e) →
  match claims, classes with
  | Ok ncs, Ok cls =>
      let kept := kept now (current_profiles cls) (active_profiles ncs) s in
      (∀ n, kept n ∨ ¬ ours s n → iam s' n = iam s n) ∧
      (e = None → ∀ n, ours s n → ¬ kept n → iam s' n = None)
  | _, _ => s' = s ∧ is_Some e
  end.
Proof.
  unfold cleanupInactiveProfiles, getActiveProfiles, getCurrentProfiles.
  destruct claims as [ncs|e1]; [|by intros [= <- <-]]. destruct classes as [cls|e1]; [|by intros [= <- <-]].
  destruct (ListProfiles _ s) as [l|e1] eqn:El; [|by intros [= <- <-]]. intros Hc.
  destruct (collect_spec _ _ _ _ _ _ _ Hc) as [Hu Hg]. pose proof (ListProfiles_spec _ _ _ El) as Hl. split.
  - intros n [Hk|Hn]; apply (un_iam s s'), Hu; [by left|right]. intros (p & -> & Hin)%list_elem_of_fmap. apply Hn.
    exists p. by apply Hl.
  - intros He n (p & Hp & Hpre) Hk. apply Hg; [done| |done]. apply list_elem_of_fmap. exists p.
    pose proof (profiles_Name _ _ _ Hp) as <-. split; [done|]. by apply Hl.
Qed.

(** *** The profile of a NodeClass *)

Lemma protectProfile_spec now name c :
  (∀ n, n ≠ name → untouched (pc_profiles c) (pc_profiles (protectProfile now name c)) n) ∧
  (∀ n, iam (pc_profiles (protectProfile now name c)) n = iam (pc_profiles c) n) ∧
  pf_cache (pc_profiles (protectProfile now name c)) = pf_cache (pc_profiles c) ∧
  (name ≠ "" → 0 < defaultTTL (pf_protected (pc_profiles c)) → ∀ t,
   t ≤ now + defaultTTL (pf_protected (pc_profiles c)) →
   is_Some (Get (pf_protected (pc_profiles (protectProfile now name c))) t name)).
Proof.
  unfold protectProfile. case_decide as Hn; [done|]. simpl. split; [intros n ?; by apply untouched_SetProtected|].
  split; [done|]. split; [done|]. intros _ Ht t Hle. rewrite Get_SetDefault_eq by done. by rewrite decide_True.
Qed.

Lemma current_role_spec now name s s' r :
  coherent now s name → current_role now name s = (s', r) →
  pf_iam s' = pf_iam s ∧ (∀ n, coherent now s n → coherent now s' n) ∧ pf_protected s' = pf_protected s ∧
  ∀ role, r = Ok role → role ≠ "" → attached now s' name role.
Proof.
  intros Hco. unfold current_role. case_decide as Hn.
  { intros [= <- <-]. split; [done|]. split; [done|]. split; [done|]. by intros role [= <-]. }
  destruct (Get_ now name s) as [s1 [p|e]] eqn:Eg; destruct (Get_spec _ _ _ _ _ Eg) as (Hi & Hu & Hp & Hc & Hr);
    intros [= <- <-].
  - split; [done|]. split.
    { intros n Hcn. destruct (decide (n = name)) as [->|Hne]; [by apply Hc|].
      by eapply untouched_coherent; [apply Hu|]. }
    split; [done|]. intros role [= Hrole] Hne.
    destruct (Hr Hco) as (_ & q & Hq & Hroles). split; [|by apply Hc]. exists q. split; [done|].
    pose proof (profiles_one_role _ _ _ Hq) as Hlen. rewrite Hroles in *.
    destruct (ip_Roles p) as [|r0 [|]]; simpl in *; [congruence|congruence|lia].
  - destruct Hr as (-> & _ & _). split; [done|]. split; [done|]. split; [done|].
    destruct (IsNotFound _); [|done]. by intros role [= <-].
Qed.

Variable newProfileName : string.
Hypothesis newProfileName_ne : newProfileName ≠ "".

(** A new profile is attached, current, and protected. *)
Lemma recreate_spec now nc c c' nc' :
  coherent now (pc_profiles c) newProfileName → recreate now ClusterName region newProfileName nc c = (c', Ok nc') →
  let ttl := defaultTTL (pf_protected (pc_profiles c)) in
  nc' = with_profile newProfileName nc ∧ attached now (pc_profiles c') newProfileName (Role (Spec nc)) ∧
  (∀ n, n ≠ newProfileName → untouched (pc_profiles c) (pc_profiles c') n) ∧
  defaultTTL (pf_protected (pc_profiles c')) = ttl ∧
  (0 < ttl → ∀ t, t ≤ now + ttl → is_Some (Get (pf_protected (pc_profiles c')) t newProfileName)).
Proof.
  intros Hco. unfold recreate. destruct (Create _ _ _ _ _ _) as [s1 [e|]] eqn:Ec; [done|]. intros [= <- <-].
  destruct (Create_spec _ _ _ _ _ _ _ _ Hco Ec) as (Hu & Hp & Ha). destruct (Ha eq_refl) as [Hq Hc1].
  set (c1 := {| pc_profiles := s1 |}). destruct (protectProfile_spec now newProfileName c1) as (Hu2 & Hi2 & Hc2 & Hp2).
  split; [done|]. split.
  { split; [by rewrite Hi2|]. intros p. rewrite Hc2, Hi2. apply Hc1. }
  split; [intros n ?; eapply untouched_trans; [by apply Hu|by apply Hu2]|].
  rewrite <- Hp. split; [|intros Ht t Hle; by apply Hp2].
  unfold protectProfile. rewrite decide_False by done. apply SetDefault_ttl.
Qed.

(** Protecting the old profile as well. *)
Lemma protect_old now c old name :
  let ttl := defaultTTL (pf_protected (pc_profiles c)) in
  let c' := if decide (old ≠ name) then protectProfile now old c else c in
  (∀ n, iam (pc_profiles c') n = iam (pc_profiles c) n) ∧
  (0 < ttl → old ≠ name → old ≠ "" → ∀ t, t ≤ now + ttl → is_Some (Get (pf_protected (pc_profiles c')) t old)) ∧
  ∀ t, is_Some (Get (pf_protected (pc_profiles c)) t name) → is_Some (Get (pf_protected (pc_profiles c')) t name).
Proof.
  simpl. case_decide as Ho; [|by split; [|split]].
  destruct (protectProfile_spec now old c) as (Hu & Hi & _ & Hp). split; [done|]. split; [by auto|].
  intros t Hs. by rewrite (un_protected _ _ _ (Hu _ (not_eq_sym Ho))).
Qed.

(** The profile a reconciliation looks at first. *)
Definition candidate now nc c : string :=
  default (InstanceProfile (Status nc)) (Get (pc_recreation c) now (generateCacheKey nc)).


End controllers.

(** ** An implementation of IAM *)

Module RefIAM.
Definition well_formed (n : string) (p : IamProfile) : Prop :=
  ip_Name p = n ∧ (length (ip_Roles p) ≤ 1)%nat ∧ Forall (free_of "/") (ip_Roles p).
#[local] Instance well_formed_dec n p : Decision (well_formed n p).
Proof. unfold well_formed. apply _. Defined.
Record t := { ps : gmap string IamProfile; ok : map_Forall well_formed ps }.

Lemma ok_empty : map_Forall well_formed (∅ : gmap string IamProfile).
Proof. apply map_Forall_empty. Qed.
Definition empty : t := {| ps := ∅; ok := ok_empty |}.
Definition put (n : string) (p : IamProfile) (w : t) : t :=
  match decide (well_formed n p) with
  | left Hp => {| ps := <[n := p]> (ps w); ok := map_Forall_insert_2 _ _ _ _ Hp (ok w) |}
  | right _ => w
  end.
Definition remove (n : string) (w : t) : t :=
  {| ps := delete n (ps w); ok := map_Forall_delete _ _ _ (ok w) |}.

Definition api_error (code message : string) : error :=
  {| Error := code +:+ ": " +:+ message;
     asAPIError := Some {| ErrorCode := code; ErrorMessage := message; ErrorFault := FaultClient |} |}.
Definition no_profile : error := api_error "NoSuchEntity" "instance profile not found".

(** The account has every role whose name is not empty. *)
#[global] Instance ref_iam : IAMAPI t := {|
  profiles := ps;
  GetInstanceProfile n w := match ps w !! n with Some p => Ok p | None => Err no_profile end;
  CreateInstanceProfile n path tags w :=
    match ps w !! n with
    | Some _ => (w, Err (api_error "EntityAlreadyExists" "instance profile exists"))
    | None => let p := {| ip_Name := n; ip_Path := default "/" path; ip_Roles := []; ip_Tags := tags |} in
              (put n p w, Ok p)
    end;
  AddRoleToInstanceProfile n role w :=
    match ps w !! n with
    | Some p => if decide (ip_Roles p = [] ∧ free_of "/" role ∧ role ≠ "") then (put n (with_roles [role] p) w, None)
                else (w, Some (api_error "NoSuchEntity" "role not found"))
    | None => (w, Some no_profile)
    end;
  RemoveRoleFromInstanceProfile n role w :=
    match ps w !! n with
    | Some p => if decide (ip_Roles p = [role]) then (put n (with_roles [] p) w, None)
                else (w, Some (api_error "NoSuchEntity" "role not found"))
    | None => (w, Some no_profile)
    end;
  DeleteInstanceProfile n w :=
    match ps w !! n with
    | Some p => if decide (ip_Roles p = []) then (remove n w, None)
                else (w, Some (api_error "DeleteConflict" "profile has a role"))
    | None => (w, Some no_profile)
    end;
  ListInstanceProfiles prefix w := [Ok (filter (λ p, HasPrefix (ip_Path p) prefix = true) (map_to_list (ps w)).*2)];
|}.

Lemma put_frame n p w n' : n' ≠ n → ps (put n p w) !! n' = ps w !! n'.
Proof. intros Hn. unfold put. destruct (decide _); simpl; [by rewrite lookup_insert_ne|done]. Qed.
Lemma put_eq n p w : well_formed n p → ps (put n p w) !! n = Some p.
Proof. intros Hp. unfold put. destruct (decide _); simpl; [by rewrite lookup_insert_eq|done]. Qed.
Lemma ps_Name w n p : ps w !! n = Some p → ip_Name p = n.
Proof. intros Hp. by apply (ok w). Qed.

#[global] Instance ref_iam_laws : IAMLaws t.
Proof.
  split; simpl.
  - apply ps_Name.
  - intros w n p Hp. by apply (ok w n p).
  - intros w n p r Hp Hr. destruct (ok w n p Hp) as (_ & _ & Hf). by eapply Forall_forall in Hf.
  - intros w n p. destruct (ps w !! n); naive_solver.
  - intros w n e. by destruct (ps w !! n).
  - intros w n path tags n' Hn. destruct (ps w !! n); [done|]. by apply put_frame.
  - intros w n path tags p Hp. by rewrite Hp.
  - intros w n path tags p. destruct (ps w !! n); [done|]. intros [= <-]. simpl. split; [|done].
    apply put_eq. by repeat constructor.
  - intros w n role n' Hn. destruct (ps w !! n); [|done]. case_decide; [by apply put_frame|done].
  - intros w n role. destruct (ps w !! n) as [p|] eqn:E; [|done]. case_decide as Hd; [|done]. intros _.
    exists p. split; [done|]. split; [apply Hd|]. apply put_eq. unfold well_formed. simpl. split; [by eapply ps_Name|].
    split; [simpl; lia|]. constructor; [apply Hd|done].
  - intros w n role n' Hn. destruct (ps w !! n); [|done]. case_decide; [by apply put_frame|done].
  - intros w n role. destruct (ps w !! n) as [p|] eqn:E; [|done]. case_decide as Hd; [|done]. intros _.
    exists p. split; [done|]. split; [done|]. apply put_eq. unfold well_formed; simpl. split; [by eapply ps_Name|]. split; [lia|done].
  - intros w n n' Hn. destruct (ps w !! n); [|done]. case_decide; [by apply lookup_delete_ne|done].
  - intros w n. destruct (ps w !! n) as [p|] eqn:E; [|done]. case_decide; [|done]. intros _. apply lookup_delete_eq.
  - intros w n e. destruct (ps w !! n) as [p|] eqn:E; [|done]. case_decide; [done|]. intros [= <-] Hnf.
    by vm_compute in Hnf.
  - intros w prefix pages. destruct pages as [|l [|]]; intros Hl; [discriminate Hl| |discriminate Hl]. injection Hl as <-. intros p. simpl. rewrite app_nil_r.
    rewrite list_elem_of_filter, list_elem_of_fmap. split.
    + intros [Hp ([n p'] & -> & Hin)]. apply elem_of_map_to_list in Hin. simpl in *.
      by rewrite (ps_Name _ _ _ Hin).
    + intros [Hin Hp]. split; [done|]. exists (ip_Name p, p). split; [done|]. by apply elem_of_map_to_list.
Qed.
End RefIAM.

(** ** Examples *)

Section example.
Abbreviation S0 := (Profiles RefIAM.t (RefCache.t IamProfile) (RefCache.t error) (RefCache.t unit)).
Abbreviation R0 :=
  (ProfileReconciler RefIAM.t (RefCache.t IamProfile) (RefCache.t error) (RefCache.t unit) (RefCache.t string)).

Definition example_profiles : R0 :=
  {| pc_profiles := {| pf_iam := RefIAM.empty; pf_cache := New InstanceProfileTTL; pf_roleErrors := New Minute;
                       pf_protected := New ProtectedProfilesTTL |};
     pc_recreation := New RecreationTTL |}.
Definition example_role_class (role : string) : EC2NodeClass Z :=
  {| nc_Name := "default"; nc_UID := "uid"; nc_Generation := 0; nc_DeletionTimestamp := None; nc_Annotations := ∅;
     Spec :=
       {| SubnetSelectorTerms := []; SecurityGroupSelectorTerms := []; CapacityReservationSelectorTerms := [];
          PlacementGroupSelector_ := None; AssociatePublicIPAddress := None; IPPrefixCount := None;
          AMISelectorTerms := []; AMIFamily_ := None; UserData := None; Role := role; InstanceProfile_ := None;
          Tags := ∅; Kubelet := ∅; BlockDeviceMappings_ := []; InstanceStorePolicy_ := None;
          NetworkInterfaces_ := []; DetailedMonitoring := None; MetadataOptions_ := None; EnclaveOptions_ := None;
          ConnectionTracking_ := None; Context_ := None; CPUOptions_ := None |};
     Status := {| Subnets := []; SecurityGroups := []; CapacityReservations_ := []; AMIs_ := [];
                  InstanceProfile := ""; Conditions := ∅ |} |}.

(** The first profile of a NodeClass, and the second when its role changes. *)
Definition example_first (role : string) : R0 * (EC2NodeClass Z * option error) :=
  Reconcile_profile 0 "cluster" "region" "profile-1" (example_role_class role) example_profiles.
Definition example_role_changes : R0 * (EC2NodeClass Z * option error) :=
  Reconcile_profile (10 * Minute) "cluster" "region" "profile-2"
    (with_profile "profile-1" (example_role_class "other-role")) (example_first "node-role").1.
Definition example_collection :=
  cleanupInactiveProfiles (Q := Z) (40 * Minute) "cluster" "region" (Ok []) (Ok [])
    (pc_profiles example_role_changes.1).

Lemma no_profiles_coherent now n : coherent now (pc_profiles example_profiles) n.
Proof. intros p Hp. apply Get_Some_items in Hp as [e Hp]. vm_compute in Hp. discriminate Hp. Qed.

Lemma example_coherent n : coherent (10 * Minute) (pc_profiles (example_first "node-role").1) n.
Proof.
  destruct (decide (n = "profile-1")) as [->|Hn].
  - intros p. assert (Get (pf_cache (pc_profiles (example_first "node-role").1)) (10 * Minute)
      (GetProfileCacheKey "profile-1") = profiles (pf_iam (pc_profiles (example_first "node-role").1)) !! "profile-1") as ->
      by (vm_compute; reflexivity).
    intros Hp. split; [by eapply profiles_Name|]. exists p. split; [done|]. vm_compute in Hp. by injection Hp as <-.
  - intros p Hp. apply Get_Some_items in Hp as [e Hp].
    assert (items (pf_cache (pc_profiles (example_first "node-role").1)) !! GetProfileCacheKey n = None) as E; [|congruence].
    apply not_elem_of_dom. assert (dom (items (pf_cache (pc_profiles (example_first "node-role").1))) =
      {[ GetProfileCacheKey "profile-1" ]}) as -> by (vm_compute; reflexivity).
    apply not_elem_of_singleton, key_ne. done.
Qed.



(** A profile of the cluster nothing uses is deleted once its protection ends. *)
Lemma cleanupInactiveProfiles_spec_witness :
  profiles (pf_iam (cleanupInactiveProfiles (Q := Z) (2 * Hour) "cluster" "region" (Ok []) (Ok [])
    (pc_profiles (example_first "node-role").1)).1) !! "profile-1" = None.
Proof.
  destruct (cleanupInactiveProfiles _ _ _ _ _ _) as [s e] eqn:E.
  assert (e = None) as -> by (apply (f_equal snd) in E; vm_compute in E; congruence).
  destruct (cleanupInactiveProfiles_spec _ _ _ _ _ _ _ _ E) as [_ Hg].
  apply Hg; [reflexivity| |].
  - eexists. split; vm_compute; reflexivity.
  - intros [Hk|[Hk|[x Hk]]]; [by apply elem_of_empty in Hk..|vm_compute in Hk; discriminate Hk].
Defined.

(** A role with a path is compared with the name IAM knows once the cached profile expires, so
    a NodeClass that does not change gets a new profile. *)
Definition example_path_again : R0 * (EC2NodeClass Z * option error) :=
  let '(c, (nc, _)) := example_first "team/node-role" in
  Reconcile_profile (16 * Minute) "cluster" "region" "profile-2" nc c.
Example role_path_recreates :
  InstanceProfile (Status (example_first "team/node-role").2.1) = "profile-1" ∧
  InstanceProfile (Status example_path_again.2.1) = "profile-2" ∧
  ip_Roles <$> profiles (pf_iam (pc_profiles example_path_again.1)) !! "profile-1" = Some ["node-role"].
Proof. by vm_compute. Qed.
End example.
