(* ===== verification/SecurityGroup.v ===== *)
(** * [pkg/providers/securitygroup]: the security groups of a NodeClass

    One set of filters per tag selector, and one each for the IDs and the names; the described
    groups are cached by the hash of the NodeClass.  EC2 is a parameter: the pages of a set of
    filters, each a list of groups or an error. *)
From S2P Require Import Prelude GoCache AwsErrors ApiV1 CapacityReservation.

(** [ec2types.SecurityGroup] *)
Record EC2SecurityGroup := { esg_GroupId : option string; esg_GroupName : option string }.
Definition group_id (g : EC2SecurityGroup) : string := default "" (esg_GroupId g).

(** A term selects by its ID, else by its name, else by its tags. *)
Definition add_group_term (st : list string * list string * list (list Filter)) (term : SecurityGroupSelectorTerm) :
    list string * list string * list (list Filter) :=
  let '(ids, names, res) := st in
  if decide (sgst_ID term ≠ "") then (ids ++ [sgst_ID term], names, res)
  else if decide (sgst_Name term ≠ "") then (ids, names ++ [sgst_Name term], res)
  else (ids, names, res ++ [tag_filter <$> map_to_list (sgst_Tags term)]).
Definition getFilterSets (terms : list SecurityGroupSelectorTerm) : list (list Filter) :=
  let '(ids, names, res) := foldl add_group_term ([], [], []) terms in
  let by_value name values := if decide (values ≠ []) then [[{| f_Name := name; f_Values := values |}]] else [] in
  res ++ by_value "group-id" ids ++ by_value "group-name" names.

Section provider.
Context {C : Type} `{GoCache (list EC2SecurityGroup) C}.
Variable DescribeSecurityGroups : list Filter → list (result error (list EC2SecurityGroup)).
Variable now : Z.

(** The groups of the pages by ID; a later page wins. *)
Fixpoint add_group_pages (pages : list (result error (list EC2SecurityGroup))) (m : gmap string EC2SecurityGroup) :
    result error (gmap string EC2SecurityGroup) :=
  match pages with
  | [] => Ok m
  | Err e :: _ => Err (wrap "describing security groups" e)
  | Ok l :: pages' => add_group_pages pages' (foldl (λ m g, <[group_id g := g]> m) m l)
  end.
Fixpoint describe_filter_sets (filterSets : list (list Filter)) (m : gmap string EC2SecurityGroup) :
    result error (gmap string EC2SecurityGroup) :=
  match filterSets with
  | [] => Ok m
  | filters :: rest => match add_group_pages (DescribeSecurityGroups filters) m with
                       | Ok m => describe_filter_sets rest m
                       | Err e => Err e
                       end
  end.

(** [List]; the returned slice is a copy of the cached one. *)
Definition getSecurityGroups (hash : string) (terms : list SecurityGroupSelectorTerm) (c : C) :
    C * result error (list EC2SecurityGroup) :=
  match Get c now hash with
  | Some groups => (c, Ok groups)
  | None => match describe_filter_sets (getFilterSets terms) ∅ with
            | Err e => (c, Err e)
            | Ok m => let groups := (map_to_list m).*2 in (SetDefault c now hash groups, Ok groups)
            end
  end.
End provider.

(** ** Properties *)

Section properties.
Context {C : Type} `{GoCacheLaws (list EC2SecurityGroup) C}.
Variable DescribeSecurityGroups : list Filter → list (result error (list EC2SecurityGroup)).
Implicit Types (m : gmap string EC2SecurityGroup) (g : EC2SecurityGroup) (c : C).

(** The groups EC2 describes for a set of filters. *)
Definition described_groups (filters : list Filter) : list EC2SecurityGroup :=
  concat (omap (λ r, match r with Ok l => Some l | Err _ => None end) (DescribeSecurityGroups filters)).

(** The map holds described groups under their IDs, and one for every described ID. *)
Record holds (l : list EC2SecurityGroup) m : Prop := {
  ho_from id g : m !! id = Some g → group_id g = id ∧ g ∈ l;
  ho_all g : g ∈ l → is_Some (m !! group_id g);
}.

Lemma holds_insert l m g : holds l m → holds (l ++ [g]) (<[group_id g := g]> m).
Proof.
  intros [Hf Ha]. split.
  - intros id g' [[<- <-]|[_ Hg]]%lookup_insert_Some; [split; [done|]|destruct (Hf _ _ Hg); split; [done|]];
      apply elem_of_app; [right; by left|by left].
  - intros g' [Hg|Hg]%elem_of_app; apply lookup_insert_is_Some'.
    + right. by apply Ha.
    + left. by apply list_elem_of_singleton in Hg as ->.
Qed.

Lemma holds_page l page m : holds l m → holds (l ++ page) (foldl (λ m g, <[group_id g := g]> m) m page).
Proof.
  revert l m. induction page as [|g page IH]; intros l m Hm; simpl; [by rewrite app_nil_r|].
  rewrite cons_middle, app_assoc. apply IH. by apply holds_insert.
Qed.

Lemma add_group_pages_holds pages l m m' :
  holds l m → add_group_pages pages m = Ok m' →
  holds (l ++ concat (omap (λ r, match r with Ok l => Some l | Err _ => None end) pages)) m'.
Proof.
  revert l m. induction pages as [|[page|e] pages IH]; intros l m Hm; simpl; [|intros Ha|done].
  - intros [= <-]. by rewrite app_nil_r.
  - rewrite app_assoc. eapply IH; [|done]. by apply holds_page.
Qed.

Lemma describe_filter_sets_holds fs l m m' :
  holds l m → describe_filter_sets DescribeSecurityGroups fs m = Ok m' →
  holds (l ++ concat (described_groups <$> fs)) m'.
Proof.
  revert l m. induction fs as [|f fs IH]; intros l m Hm; simpl; [intros [= <-]; by rewrite app_nil_r|].
  destruct (add_group_pages _ m) as [m1|] eqn:E; [|done]. rewrite app_assoc. apply IH.
  by eapply add_group_pages_holds.
Qed.

(** [List] asks EC2 when it does not remember the NodeClass.  It returns one group per
    described ID, each described for one of the sets of filters, and remembers them. *)
Lemma getSecurityGroups_spec now t hash terms c c' groups :
  Get c now hash = None → 0 < defaultTTL c → t ≤ now + defaultTTL c →
  getSecurityGroups DescribeSecurityGroups now hash terms c = (c', Ok groups) →
  NoDup (group_id <$> groups) ∧
  (∀ g, g ∈ groups → ∃ f, f ∈ getFilterSets terms ∧ g ∈ described_groups f) ∧
  (∀ f g, f ∈ getFilterSets terms → g ∈ described_groups f → group_id g ∈ group_id <$> groups) ∧
  getSecurityGroups DescribeSecurityGroups t hash terms c' = (c', Ok groups).
Proof.
  intros Hmiss Httl Ht. unfold getSecurityGroups at 1. rewrite Hmiss.
  destruct (describe_filter_sets _ _ ∅) as [m|e] eqn:E; [|done]. intros [= <- <-].
  assert (holds [] ∅) as Hempty.
  { split; [intros id g; by rewrite lookup_empty|intros g; by intros ?%elem_of_nil]. }
  destruct (describe_filter_sets_holds _ _ _ _ Hempty E) as [Hf Ha]. simpl in Hf, Ha.
  assert (∀ g, g ∈ (map_to_list m).*2 → m !! group_id g = Some g) as Hin.
  { intros g ([id g'] & -> & Hg%elem_of_map_to_list)%list_elem_of_fmap. simpl. by destruct (Hf _ _ Hg) as [-> _]. }
  split; [|split; [|split]].
  - rewrite <- list_fmap_compose. apply NoDup_fmap_2_strong; [|apply NoDup_map_to_list].
    intros [i g] [j g'] Hi%elem_of_map_to_list Hj%elem_of_map_to_list. simpl.
    destruct (Hf _ _ Hi) as [-> _], (Hf _ _ Hj) as [-> _]. intros ->. congruence.
  - intros g Hg%Hin. destruct (Hf _ _ Hg) as [_ Hl]. apply list_elem_of_In, in_concat in Hl as (l & Hl & Hgl).
    apply list_elem_of_In, list_elem_of_fmap in Hl as (f & -> & Hfs). exists f. split; [done|by apply list_elem_of_In].
  - intros f g Hfs Hg. destruct (Ha g) as [g' Hg'].
    { apply list_elem_of_In, in_concat. exists (described_groups f). split; apply list_elem_of_In; [|done].
      apply list_elem_of_fmap. by exists f. }
    apply list_elem_of_fmap. exists g'. split; [by destruct (Hf _ _ Hg')|]. apply list_elem_of_fmap.
    exists (group_id g, g'). split; [done|]. by apply elem_of_map_to_list.
  - unfold getSecurityGroups. by rewrite Get_SetDefault_eq, decide_True.
Qed.
End properties.
