(* ===== verification/NodeClassStatus.v ===== *)
(** * [pkg/controllers/nodeclass]: the status of a NodeClass

    The reconcilers that resolve what a NodeClass selects ([ami.go], [subnet.go],
    [securitygroup.go], [capacityreservation.go], [placementgroup.go]); that of the instance
    profile is in [InstanceProfile].  Each takes the answer of its provider, in which EC2
    sets the fields that are dereferenced.  A reconciler leaves the NodeClass changed also
    when it fails.  Change monitors and logging are left out. *)
From stdpp Require Import sorting.
From S2P Require Import Prelude GoCache AwsErrors ApiV1 CapacityReservation Scheduling Kube Compatibility AmiFamily Subnet SecurityGroup InstanceProfile.

(** ** Results *)

(** [reconcile.Result], and an error that is not retried if it is terminal. *)
Record Result := { Requeue : bool; RequeueAfter : Z }.
Definition no_result : Result := {| Requeue := false; RequeueAfter := 0 |}.
Definition requeue_after (d : Z) : Result := {| Requeue := false; RequeueAfter := d |}.
Definition requeue : Result := {| Requeue := true; RequeueAfter := 0 |}.
Inductive reconcile_error := RetryError (e : error) | TerminalError (e : error).
#[export] Instance Result_eq_dec : EqDecision Result.
Proof. solve_decision. Defined.

Section fields.
Context {Q : Type}.
Implicit Types nc : EC2NodeClass Q.
Definition set_Subnets (l : list ApiV1.Subnet) nc : EC2NodeClass Q :=
  let st := Status nc in
  with_status {| Subnets := l; SecurityGroups := SecurityGroups st; CapacityReservations_ := CapacityReservations_ st;
                 AMIs_ := AMIs_ st; InstanceProfile := InstanceProfile st; Conditions := Conditions st |} nc.
Definition set_SecurityGroups (l : list ApiV1.SecurityGroup) nc : EC2NodeClass Q :=
  let st := Status nc in
  with_status {| Subnets := Subnets st; SecurityGroups := l; CapacityReservations_ := CapacityReservations_ st;
                 AMIs_ := AMIs_ st; InstanceProfile := InstanceProfile st; Conditions := Conditions st |} nc.
Definition set_CapacityReservations (l : list ApiV1.CapacityReservation) nc : EC2NodeClass Q :=
  let st := Status nc in
  with_status {| Subnets := Subnets st; SecurityGroups := SecurityGroups st; CapacityReservations_ := l;
                 AMIs_ := AMIs_ st; InstanceProfile := InstanceProfile st; Conditions := Conditions st |} nc.
Definition set_AMIs (l : list AMI) nc : EC2NodeClass Q :=
  let st := Status nc in
  with_status {| Subnets := Subnets st; SecurityGroups := SecurityGroups st;
                 CapacityReservations_ := CapacityReservations_ st; AMIs_ := l;
                 InstanceProfile := InstanceProfile st; Conditions := Conditions st |} nc.
End fields.

Section reconcilers.
Context `{IR : ImageRequirements} `{ConditionSet} {Q : Type}.
Variable now : Z.
Implicit Types nc : EC2NodeClass Q.
Abbreviation outcome := (EC2NodeClass Q * (Result * option reconcile_error))%type.

(** *** Images *)

(** [Requirements.NodeSelectorRequirements], third-party; their order is not specified. *)
Variable NodeSelectorRequirements : Requirements → list NodeSelectorRequirement.

(** The shorter keys first. *)
Definition requirement_before (a b : NodeSelectorRequirement) : Prop :=
  if decide (String.length (nsr_Key a) = String.length (nsr_Key b)) then String.le (nsr_Key a) (nsr_Key b)
  else (String.length (nsr_Key a) < String.length (nsr_Key b))%nat.
#[global] Instance requirement_before_dec a b : Decision (requirement_before a b).
Proof. unfold requirement_before. case_decide; apply _. Defined.

Definition ami_of_image (i : Image) : AMI :=
  {| ami_ID := im_AmiID i; ami_Deprecated := im_Deprecated i; ami_Name := im_Name i;
     ami_Requirements := merge_sort requirement_before (NodeSelectorRequirements (im_Requirements i)) |}.

Definition ami_cause (e : ami_error) : error :=
  match e with AL2DeprecationError e | WS2025UnsupportedVersionError e | ImageError e => e end.

Definition Reconcile_ami (amis : result ami_error (list Image)) nc : outcome :=
  match amis with
  | Err (ImageError e) => (nc, (no_result, Some (RetryError (wrap "getting amis" e))))
  | Err e => (SetFalse ConditionTypeAMIsReady "UnsupportedAlias" (Error (ami_cause e)) nc,
              (no_result, Some (TerminalError (wrap "getting amis" (ami_cause e)))))
  | Ok [] => (SetFalse ConditionTypeAMIsReady "AMINotFound" "AMISelector did not match any AMIs" (set_AMIs [] nc),
              (requeue_after Minute, None))
  | Ok l => (SetTrue ConditionTypeAMIsReady (set_AMIs (ami_of_image <$> l) nc), (requeue_after (5 * Minute), None))
  end.

(** *** Subnets: those with the most addresses first *)

Definition subnet_before (a b : EC2Subnet) : Prop :=
  if decide (subnet_count a = subnet_count b) then String.le (subnet_id a) (subnet_id b)
  else subnet_count b < subnet_count a.
#[global] Instance subnet_before_dec a b : Decision (subnet_before a b).
Proof. unfold subnet_before. case_decide; apply _. Defined.
Definition subnet_of_ec2 (s : EC2Subnet) : ApiV1.Subnet :=
  {| sn_ID := subnet_id s; sn_Zone := default "" (es_AvailabilityZone s);
     sn_ZoneID := default "" (es_AvailabilityZoneId s) |}.

Definition Reconcile_subnet (subnets : result error (list EC2Subnet)) nc : outcome :=
  match subnets with
  | Err e => (nc, (no_result, Some (RetryError (wrap "getting subnets" e))))
  | Ok [] => (SetFalse ConditionTypeSubnetsReady "SubnetsNotFound" "SubnetSelector did not match any Subnets"
                (set_Subnets [] nc), (requeue_after Minute, None))
  | Ok l => (SetTrue ConditionTypeSubnetsReady (set_Subnets (subnet_of_ec2 <$> merge_sort subnet_before l) nc),
             (requeue_after Minute, None))
  end.

(** *** Security groups *)

Definition group_before (a b : EC2SecurityGroup) : Prop := String.le (group_id a) (group_id b).
#[global] Instance group_before_dec a b : Decision (group_before a b).
Proof. unfold group_before. apply _. Defined.
Definition group_of_ec2 (g : EC2SecurityGroup) : ApiV1.SecurityGroup :=
  {| sg_ID := group_id g; sg_Name := default "" (esg_GroupName g) |}.

Definition Reconcile_securitygroup (groups : result error (list EC2SecurityGroup)) nc : outcome :=
  match groups with
  | Err e => (nc, (no_result, Some (RetryError (wrap "getting security groups" e))))
  | Ok l =>
      if decide (l = [] ∧ SecurityGroupSelectorTerms (Spec nc) ≠ []) then
        (SetFalse ConditionTypeSecurityGroupsReady "SecurityGroupsNotFound"
           "SecurityGroupSelector did not match any SecurityGroups" (set_SecurityGroups [] nc),
         (requeue_after Minute, None))
      else (SetTrue ConditionTypeSecurityGroupsReady
              (set_SecurityGroups (group_of_ec2 <$> merge_sort group_before l) nc),
            (requeue_after (5 * Minute), None))
  end.

(** *** Capacity reservations *)

Definition capacityReservationPollPeriod : Z := Minute.
Definition reservation_before (a b : Ec2CapacityReservation) : Prop :=
  String.le (CapacityReservationId a) (CapacityReservationId b).
#[global] Instance reservation_before_dec a b : Decision (reservation_before a b).
Proof. unfold reservation_before. apply _. Defined.

(** [singleton.RequeueImmediately] *)
Variable RequeueImmediately : Z.
(** The nearest end of a reservation; one in the past requeues at once. *)
Definition requeueAfter (reservations : list Ec2CapacityReservation) : Z :=
  match omap EndDate reservations with
  | [] => capacityReservationPollPeriod
  | d :: ds =>
      let d := foldl Z.min d ds - now in
      if decide (d < capacityReservationPollPeriod) then if decide (d < 0) then RequeueImmediately else d
      else capacityReservationPollPeriod
  end.

(** Reservations that do not parse are left out. *)
Definition Reconcile_capacityreservation (reservations : result error (list Ec2CapacityReservation)) nc : outcome :=
  match reservations with
  | Err e => (nc, (no_result, Some (RetryError (wrap "getting capacity reservations" e))))
  | Ok [] => (SetTrue ConditionTypeCapacityReservationsReady (set_CapacityReservations [] nc),
              (requeue_after capacityReservationPollPeriod, None))
  | Ok l =>
      let l := merge_sort reservation_before l in
      (SetTrue ConditionTypeCapacityReservationsReady
         (set_CapacityReservations
            (omap (λ r, match CapacityReservationFromEC2 now r with Ok cr => Some cr | Err _ => None end) l) nc),
       (requeue_after (requeueAfter l), None))
  end.

(** *** Placement groups *)

(** The answer of the provider is a group and an error. *)
Definition Reconcile_placementgroup (pg : option PlacementGroup) (e : option error) nc : outcome :=
  let selector := PlacementGroupSelector_ (Spec nc) in
  let name := match selector with
              | Some t => default "" (match pgs_Name t with Some n => Some n | None => pgs_ID t end)
              | None => ""
              end in
  match e, pg, selector with
  | Some e, _, _ =>
      (SetFalse ConditionTypePlacementGroupReady "PlacementGroupResolutionFailed" "Failed to resolve placement group" nc,
       (no_result, Some (RetryError (wrap "resolving placement group" e))))
  | None, None, Some _ =>
      (SetFalse ConditionTypePlacementGroupReady "PlacementGroupNotFound"
         ("Placement group " +:+ GoStd.json_string name +:+ " not found") nc, (no_result, None))
  | None, _, _ => (SetTrue ConditionTypePlacementGroupReady nc, (no_result, None))
  end.
End reconcilers.
