(* ===== verification/Validation.v ===== *)
(** * [pkg/controllers/nodeclass/validation.go]: whether a NodeClass can launch

    The last reconciler of a NodeClass: its kubelet configuration, annotations and tags, the
    conditions it needs, and dry runs of the calls of a launch, whose outcome is cached.  The
    providers and EC2 are an interface, [ValidationDeps]; the hash of the cache key is a
    parameter.  [ParseConsumableCapacity] is from [pkg/providers/nvidiadra].  Go's map
    iteration order is that of [map_to_list]; [None] is a panic or the end of the process. *)
From stdpp Require Import sorting.
From S2P Require Import Prelude GoStd AwsErrors ApiV1 Quantities Scheduling BatchExecutors Launch Compatibility InstanceTypes AmiFamily Kubelet KubeletValidation Resolver Utils Kube NodeClassStatus GoCache.

Definition requeueAfterTime : Z := 10 * Minute.
Definition ConditionReasonCreateFleetAuthFailed := "CreateFleetAuthCheckFailed".
Definition ConditionReasonCreateLaunchTemplateAuthFailed := "CreateLaunchTemplateAuthCheckFailed".
Definition ConditionReasonRunInstancesAuthFailed := "RunInstancesAuthCheckFailed".
Definition ConditionReasonInstanceProfileNotFound := "InstanceProfileNotFound".
Definition ConditionReasonDependenciesNotReady := "DependenciesNotReady".
Definition ConditionReasonTagValidationFailed := "TagValidationFailed".
Definition ConditionReasonInvalidKubeletConfiguration := "InvalidKubeletConfiguration".
Definition ConditionReasonKubeletExpressionInvalid := "KubeletExpressionInvalid".
Definition ConditionReasonKubeletExpressionEvalFailed := "KubeletExpressionEvaluationFailed".
Definition ConditionReasonKubeletExpressionsDisabled := "KubeletExpressionsDisabled".
Definition ConditionReasonUnsupportedKubeletConfiguration := "UnsupportedKubeletConfiguration".
Definition ConditionReasonUserDataTooLarge := "UserDataSizeLimitExceeded".
Definition ConditionReasonConsumableCapacityInvalid := "NVIDIAConsumableCapacityInvalid".
Definition ConditionReasonDRADisabled := "DRADisabled".
Definition ValidationConditionMessages : gmap string string :=
  list_to_map
    [(ConditionReasonCreateFleetAuthFailed, "Controller isn't authorized to call ec2:CreateFleet");
     (ConditionReasonCreateLaunchTemplateAuthFailed, "Controller isn't authorized to call ec2:CreateLaunchTemplate");
     (ConditionReasonRunInstancesAuthFailed, "Controller isn't authorized to call ec2:RunInstances");
     (ConditionReasonUserDataTooLarge, "ec2:CreateLaunchTemplate rejected the rendered user data as too large")].
Definition AnnotationNVIDIAConsumableCapacity := "karpenter.k8s.aws/nvidia-consumable-capacity".

(** ** Sharing of GPUs *)

Record ConsumableCapacityMode := { Shares : Z; Memory : bool; FullMemoryDefault : bool }.
Definition ConsumableCapacityDisabled := "disabled".
Definition ConsumableCapacityMemory := "memory".
Definition ConsumableCapacityUnlimited := "unlimited".
Definition ParseConsumableCapacity (value : string) : result error (option ConsumableCapacityMode) :=
  if decide (value = "" ∨ value = ConsumableCapacityDisabled) then Ok None
  else if decide (value = ConsumableCapacityMemory) then
    Ok (Some {| Shares := 0; Memory := true; FullMemoryDefault := true |})
  else if decide (value = ConsumableCapacityUnlimited) then
    Ok (Some {| Shares := 0; Memory := true; FullMemoryDefault := false |})
  else match Atoi value with
       | Some shares =>
           if decide (shares < 1) then Err (errorf "not a positive integer share count")
           else Ok (Some {| Shares := shares; Memory := false; FullMemoryDefault := false |})
       | None => Err (errorf "not a positive integer share count")
       end.

(** ** Requests *)

(** [ec2.RunInstancesInput], with the fields a dry run sets. *)
Record InterfaceInput := {
  ii_NetworkCardIndex : option Z;
  ii_DeviceIndex : Z;
  ii_InterfaceType : option string;
  ii_SubnetId : string;
}.
Record RunInstancesInput := {
  ri_DryRun : bool;
  ri_LaunchTemplateName : string;
  ri_InstanceType : string;
  ri_NetworkInterfaces : list InterfaceInput;
  ri_Tags : gmap string string;
}.

Definition getNetworkInterfacesInput (ncNetworkInterfaces : option (list ResolvedNetworkInterface))
    (subnet : ApiV1.Subnet) : list InterfaceInput :=
  match ncNetworkInterfaces with
  | None => [{| ii_NetworkCardIndex := None; ii_DeviceIndex := 0; ii_InterfaceType := None;
                ii_SubnetId := sn_ID subnet |}]
  | Some nis => (λ ni, {| ii_NetworkCardIndex := Some (rni_NetworkCardIndex ni);
                          ii_DeviceIndex := rni_DeviceIndex ni;
                          ii_InterfaceType := Some (rni_InterfaceType ni);
                          ii_SubnetId := sn_ID subnet |}) <$> nis
  end.

(** The [Spec.Template] of a NodePool; its labels may be nil. *)
Record PoolTemplate `{SchedulingTypes} := {
  pt_Requirements : Requirements;
  pt_Labels : option (gmap string string);
}.

(** The error of evaluating expressions for every instance type. *)
Inductive evaluation_error := InstanceTypesNotHydrated | EvaluationFailed (e : error).

(** ** The providers, as operations on the state they keep *)
Class ValidationDeps `{S : Scheduling} (W : Type) := {
  vd_ResolveClusterCIDR : W → W * option error;
  vd_ValidateExpression : string → W → W * option error;
  vd_ValidateKubeletExpressions : EC2NodeClass Z → W → W * option evaluation_error;
  vd_ListNodePools : EC2NodeClass Z → W → result error (list PoolTemplate);
  vd_ListInstanceTypes : EC2NodeClass Z → W → W * result error (list Scheduling.InstanceType);
  vd_FilterForNodeClass : list Scheduling.InstanceType → EC2NodeClass Z → W → list Scheduling.InstanceType;
  (** The NodeClass is passed by reference. *)
  vd_EnsureAll : EC2NodeClass Z → list Scheduling.InstanceType → gmap string string → string → W →
    option (W * EC2NodeClass Z * result error (list LaunchTemplate));
  (** [CreateFleet] and [RunInstances] as dry runs. *)
  vd_CreateFleet : CreateFleetInput (Body := FleetRequest) → W → W * option error;
  vd_RunInstances : RunInstancesInput → W → W * option error;
}.
#[global] Hint Mode ValidationDeps - - ! : typeclass_instances.

Record validationCacheEntry := { vce_reason : string; vce_message : string }.

(** The operator's options. *)
Record ValidationOptions := {
  vo_NodeClassCEL : bool;
  vo_DRANVIDIAGPU : bool;
  vo_ClusterName : string;
  vo_dryRunDisabled : bool;
}.

(** What the cache key is the hash of. *)
Record cacheKeyInput := {
  ck_Subnets : list ApiV1.Subnet;
  ck_SecurityGroups : list ApiV1.SecurityGroup;
  ck_AMIs : list AMI;
  ck_InstanceProfile : string;
  ck_Spec : EC2NodeClassSpec Z;
  ck_Annotations : gmap string string;
  ck_tags : gmap string string;
}.

Section validation.
Context `{IR : ImageRequirements} `{Inhabited Requirements} `{QuantityParser} `{ConditionSet}.
Context {W C : Type} `{!ValidationDeps W} `{GoCache validationCacheEntry C}.
Variable decode_map : string → option (gmap string string).
Variable decode_int : string → option Z.
Variable isJSONString : string → bool.
Variable JSONZero : string.
Variable UnmarshalStrict : KubeletConfiguration → result error (list error).
Variable ParseFloat : string → option (option float64).
Variable ParseDuration : string → option Z.
Variable Unmarshal : KubeletConfiguration → result error ParsedKubeletConfig.
(** [Requirements.Intersects] (no error), and [Add] of label requirements. *)
Variable Intersects : Requirements → Requirements → bool.
Variable AddLabels : gmap string string → Requirements → Requirements.
(** The sixteen hexadecimal digits of the hash. *)
Variable Hash : cacheKeyInput → string.
Variable opts : ValidationOptions.
Variable now : Z.

Abbreviation NodeClass := (EC2NodeClass Z).
Abbreviation IType := Scheduling.InstanceType.
(** What a round leaves of the NodeClass, its result and its error. *)
Abbreviation outcome := (NodeClass * (Result * option reconcile_error))%type.

Definition set_invalid (reason message : string) (nc : NodeClass) : NodeClass :=
  SetFalse ConditionTypeValidationSucceeded reason message nc.

(** *** Checks of the NodeClass alone: [None] passes *)

Definition cluster_cidr (family : string) (nc : NodeClass) (w : W) : W * option outcome :=
  if decide (family = AMIFamilyAL2023) then
    match vd_ResolveClusterCIDR w with
    | (w, None) => (w, None)
    | (w, Some e) =>
        (w, Some (if IsServerError (Some e) then (nc, (requeue, None))
                  else (set_invalid "ClusterCIDRResolutionFailed" "Failed to detect the cluster CIDR" nc,
                        (no_result, Some (RetryError (wrap "failed to detect the cluster CIDR" e))))))
    end
  else (w, None).

(** The parsed configuration, unless it is invalid or has expressions that are not enabled. *)
Definition kubelet_check (nc : NodeClass) : outcome + ParsedKubeletConfig :=
  match ValidateKubeletConfig decode_map decode_int isJSONString JSONZero UnmarshalStrict ParseFloat ParseDuration
          (Kubelet (Spec nc)) with
  | [] =>
      match ParseKubeletConfig Unmarshal (Kubelet (Spec nc)) with
      | Err e => inl (set_invalid ConditionReasonInvalidKubeletConfiguration
                        ("parsing spec.kubelet, " +:+ Error e) nc,
                      (no_result, Some (TerminalError (wrap "parsing spec.kubelet" e))))
      | Ok parsed =>
          if HasExpressions parsed && negb (vo_NodeClassCEL opts) then
            inl (set_invalid ConditionReasonKubeletExpressionsDisabled
                   "spec.kubelet contains a CEL expression, but the NodeClassCEL feature gate is disabled" nc,
                 (no_result, Some (TerminalError (errorf "kubelet expressions are disabled"))))
          else inr parsed
      end
  | errs => inl (set_invalid ConditionReasonInvalidKubeletConfiguration (JoinWith "; " (Error <$> errs)) nc,
                 (no_result, None))
  end.

Fixpoint validate_entries (l : list (string * string)) (w : W) : W * option error :=
  match l with
  | [] => (w, None)
  | (_, v) :: l' =>
      if is_expression v then
        match vd_ValidateExpression v w with
        | (w, Some e) => (w, Some (wrap "validating expression" e))
        | (w, None) => validate_entries l' w
        end
      else validate_entries l' w
  end.
Definition validateKubeletExpressions (kc : ParsedKubeletConfig) (w : W) : W * option error :=
  let reserved w :=
    match validate_entries (map_to_list (KubeReserved kc)) w with
    | (w, Some e) => (w, Some e)
    | (w, None) => validate_entries (map_to_list (SystemReserved kc)) w
    end in
  match pk_MaxPods kc with
  | Some (StrVal v) => match vd_ValidateExpression v w with
                       | (w, Some e) => (w, Some (wrap "validating expression" e))
                       | (w, None) => reserved w
                       end
  | _ => reserved w
  end.
Definition expressions_check (kc : ParsedKubeletConfig) (nc : NodeClass) (w : W) : W * option outcome :=
  match validateKubeletExpressions kc w with
  | (w, None) => (w, None)
  | (w, Some e) => (w, Some (set_invalid ConditionReasonKubeletExpressionInvalid (Error e) nc,
                             (no_result, Some (TerminalError (wrap "validating kubelet expressions" e)))))
  end.

Definition unsupported_fields (flags : FeatureFlags) (nc : NodeClass) (parsed : ParsedKubeletConfig) : list string :=
  UnmanagedKubeletFields (Kubelet (Spec nc))
  ++ (if bool_decide (is_Some (PodsPerCore parsed)) && negb (PodsPerCoreEnabled flags) then ["podsPerCore"] else []).
Definition validateKubeletFieldsSupported (family : string) (nc : NodeClass) (parsed : ParsedKubeletConfig) :
    option error :=
  let flags := family_flags (GetAMIFamily family) in
  if decide (Kubelet (Spec nc) = ∅ ∨ family = AMIFamilyCustom) then None
  else if SupportsArbitraryKubeletConfig flags then None
  else
    let unsupported := merge_sort String.le (unsupported_fields flags nc parsed) in
    let messages :=
      (if decide (unsupported = []) then []
       else ["spec.kubelet has fields not applied by the " +:+ family +:+
             " AMI family that would be silently dropped: " +:+ JoinWith ", " unsupported])
      ++ (if decide (1 < length (ClusterDNS parsed))%nat then
            ["spec.kubelet.clusterDNS: the " +:+ family +:+ " AMI family doesn't accept multiple entries, only one, but "
             +:+ fmt_int (Z.of_nat (length (ClusterDNS parsed))) +:+ " were set"]
          else []) in
    if decide (messages = []) then None else Some (errorf (JoinWith "; " messages)).
Definition supported_check (family : string) (kc : ParsedKubeletConfig) (nc : NodeClass) : option outcome :=
  match validateKubeletFieldsSupported family nc kc with
  | None => None
  | Some e => Some (set_invalid ConditionReasonUnsupportedKubeletConfiguration (Error e) nc,
                    (no_result, Some (TerminalError e)))
  end.

Definition consumable_check (nc : NodeClass) : option outcome :=
  match nc_Annotations nc !! AnnotationNVIDIAConsumableCapacity with
  | None => None
  | Some value =>
      match ParseConsumableCapacity value with
      | Err e => Some (set_invalid ConditionReasonConsumableCapacityInvalid
                         ("annotation " +:+ AnnotationNVIDIAConsumableCapacity +:+ ", " +:+ Error e) nc,
                       (no_result, None))
      | Ok (Some _) =>
          if vo_DRANVIDIAGPU opts then None
          else Some (set_invalid ConditionReasonDRADisabled
                       ("annotation " +:+ AnnotationNVIDIAConsumableCapacity +:+
                        " enables GPU sharing, but the DRANVIDIAGPU feature gate is disabled") nc, (no_result, None))
      | Ok None => None
      end
  end.

Definition requiredConditions : list string :=
  [ConditionTypeAMIsReady; ConditionTypeInstanceProfileReady; ConditionTypeSecurityGroupsReady;
   ConditionTypeSubnetsReady].
Definition awaiting := "Awaiting AMI, Instance Profile, Security Group, and Subnet resolution".
Definition dependencies (nc : NodeClass) : option outcome :=
  if existsb (λ t, bool_decide (condition t nc = ConditionFalse)) requiredConditions then
    Some (set_invalid ConditionReasonDependenciesNotReady awaiting nc, (requeue_after requeueAfterTime, None))
  else if existsb (λ t, bool_decide (condition t nc = ConditionUnknown)) requiredConditions then
    Some (SetUnknownWithReason ConditionTypeValidationSucceeded ConditionReasonDependenciesNotReady awaiting nc,
          (requeue_after requeueAfterTime, None))
  else None.

Definition evaluation_check (nc : NodeClass) (w : W) : W * option outcome :=
  match vd_ValidateKubeletExpressions nc w with
  | (w, None) => (w, None)
  | (w, Some InstanceTypesNotHydrated) => (w, Some (nc, (requeue, None)))
  | (w, Some (EvaluationFailed e)) =>
      (w, Some (set_invalid ConditionReasonKubeletExpressionEvalFailed (Error e) nc,
                (no_result, Some (TerminalError (wrap "evaluating kubelet expressions" e)))))
  end.

(** A NodeClaim without a NodePool. *)
Definition tags_check (nc : NodeClass) : outcome + gmap string string :=
  match GetTags nc "" (vo_ClusterName opts) with
  | Ok tags => inr tags
  | Err e => inl (set_invalid ConditionReasonTagValidationFailed (Error e) nc,
                  (no_result, Some (TerminalError (wrap "validating tags" e))))
  end.

(** *** Choosing an instance type *)

Definition getTenancyType (pools : list PoolTemplate) : string :=
  if existsb (λ np, HasKey (pt_Requirements np) LabelInstanceTenancy
                    && req_Has (Scheduling.Get (pt_Requirements np) LabelInstanceTenancy) TenancyDedicated) pools
  then TenancyDedicated else TenancyDefault.

Definition pool_requirements (np : PoolTemplate) : Requirements :=
  match pt_Labels np with Some ls => AddLabels ls (pt_Requirements np) | None => pt_Requirements np end.
(** The names so far, and their instance types. *)
Definition add_compatible (reqs : Requirements) (acc : gset string * list IType) (it : IType) :
    gset string * list IType :=
  if negb (Intersects (it_Requirements it) reqs) then acc
  else if decide (Name it ∈ acc.1) then acc
  else ({[ Name it ]} ∪ acc.1, acc.2 ++ [it]).
Definition getNodePoolCompatibleInstanceTypes (its : list IType) (pools : list PoolTemplate) : list IType :=
  (foldl (λ acc np, foldl (add_compatible (pool_requirements np)) acc its) (∅, []) pools).2.

(** A default instance type; only its name and requirements are set. *)
Definition fallback_type (name arch : string) : IType :=
  {| Name := name;
     it_Requirements := NewNodeSelectorRequirements
       [NewRequirement LabelInstanceAcceleratorCount "DoesNotExist" [];
        NewRequirement LabelInstanceGPUCount "DoesNotExist" [];
        NewRequirement LabelArchStable "In" [arch];
        NewRequirement LabelOSStable "Exists" [];
        NewRequirement LabelWindowsBuild "Exists" []];
     Offerings := []; Capacity := ∅ |}.
Definition getFallbackInstanceTypes (its : list IType) : list IType :=
  match filter (λ f, existsb (λ it, bool_decide (Name it = Name f)) its = true)
          [fallback_type "m5.large" "amd64"; fallback_type "m6g.large" "arm64"] with
  | [] => its
  | fallback => fallback
  end.

(** The types of the images without a GPU variant, or else of all images. *)
Definition getAMICompatibleInstanceTypes (its : list IType) (nc : NodeClass) : list IType :=
  let amiMap := MapToInstanceTypes its (AMIs_ (Status nc)) in
  let selected :=
    concat ((λ ami, if StrictlyCompatible (NewNodeSelectorRequirements (ami_Requirements ami))
                         (Variant_Requirements VariantStandard)
                    then default [] (amiMap !! ami_ID ami) else []) <$> AMIs_ (Status nc)) in
  match selected with
  | [] => concat (map_to_list amiMap).*2
  | _ => selected
  end.

Definition is_windows (family : string) : bool :=
  bool_decide (family ∈ [AMIFamilyWindows2019; AMIFamilyWindows2022; AMIFamilyWindows2025]).
Definition getPrioritizedInstanceTypes (family : string) (nc : NodeClass) (pools : list PoolTemplate) (w : W) :
    W * result error (list IType) :=
  match vd_ListInstanceTypes nc w with
  | (w, Err e) => (w, Err (wrap "listing instance types for nodeclass" e))
  | (w, Ok its) =>
      let its := vd_FilterForNodeClass its nc w in
      let compatible := getNodePoolCompatibleInstanceTypes its pools in
      let compatible :=
        if decide (compatible = [] ∨ is_windows family = true) then getFallbackInstanceTypes its else compatible in
      (w, Ok (getAMICompatibleInstanceTypes compatible nc))
  end.

(** *** Dry runs *)

Definition cacheKey (nc : NodeClass) (tags : gmap string string) : string :=
  nc_Name nc +:+ ":" +:+
  Hash {| ck_Subnets := Subnets (Status nc); ck_SecurityGroups := SecurityGroups (Status nc);
          ck_AMIs := AMIs_ (Status nc); ck_InstanceProfile := InstanceProfile (Status nc);
          ck_Spec := Spec nc; ck_Annotations := nc_Annotations nc; ck_tags := tags |}.

(** The world and the cache. *)
Record Validator := { va_world : W; va_cache : C }.
Definition with_world (w : W) (v : Validator) : Validator := {| va_world := w; va_cache := va_cache v |}.
Definition remember (nc : NodeClass) (tags : gmap string string) (reason message : string) (v : Validator) : Validator :=
  {| va_world := va_world v;
     va_cache := SetDefault (va_cache v) now (cacheKey nc tags) {| vce_reason := reason; vce_message := message |} |}.

(** A refusal is remembered. *)
Definition updateCacheOnFailure (nc : NodeClass) (tags : gmap string string) (reason : string) (e : error)
    (v : Validator) : Validator * outcome :=
  let message := default "" (ValidationConditionMessages !! reason) +:+ ": " +:+ (ToReasonMessage e).2 in
  (remember nc tags reason message v, (set_invalid reason message nc, (requeue_after requeueAfterTime, None))).

(** What a failed call means: try again, a refusal, or an error. *)
Definition dry_run_failure (nc : NodeClass) (tags : gmap string string) (reason what : string) (e : error)
    (v : Validator) : Validator * outcome :=
  if IsRateLimitedError (Some e) || IsServerError (Some e) then (v, (nc, (requeue, None)))
  else if IsUnauthorizedOperationError (Some e) then updateCacheOnFailure nc tags reason e v
  else (v, (nc, (no_result, Some (RetryError (wrap ("validating " +:+ what +:+ " authorization") e))))).

Definition validateCreateLaunchTemplateAuthorization (family : string) (nc : NodeClass) (tags : gmap string string)
    (v : Validator) : option (Validator * (outcome + NodeClass * LaunchTemplate)) :=
  let failed nc e := inl (nc, (no_result, Some (RetryError e))) in
  match vd_ListNodePools nc (va_world v) with
  | Err e => Some (v, failed nc (wrap "listing nodepools for nodeclass" e))
  | Ok pools =>
      match getPrioritizedInstanceTypes family nc pools (va_world v) with
      | (w, Err e) => Some (with_world w v, failed nc (wrap "generating options" e))
      | (_, Ok []) => None
      | (w, Ok (it :: _)) =>
          '(w, nc, r) ← vd_EnsureAll nc [it] tags (getTenancyType pools) w;
          let v := with_world w v in
          Some match r with
               | Err e =>
                   let '(v, o) :=
                     if IsRateLimitedError (Some e) || IsServerError (Some e) then (v, (nc, (requeue, None)))
                     else if IsUserDataTooLarge (Some e) then
                       updateCacheOnFailure nc tags ConditionReasonUserDataTooLarge e v
                     else dry_run_failure nc tags ConditionReasonCreateLaunchTemplateAuthFailed
                            "ec2:CreateLaunchTemplate" e v in
                   (v, inl o)
               | Ok [] => (v, failed nc (errorf "no compatible launch templates created"))
               | Ok (lt :: _) => (v, inr (nc, lt))
               end
      end
  end.

(** Fields that are not set are empty. *)
Definition getFleetLaunchTemplateConfig (nc : NodeClass) (lt : LaunchTemplate) : list LaunchTemplateConfig :=
  [{| lc_LaunchTemplateName := lt_Name lt; lc_Version := "$Latest";
      lc_Overrides :=
        it ← lt_InstanceTypes lt;
        subnet ← Subnets (Status nc);
        [{| ov_InstanceType := Name it; ov_SubnetId := Some (sn_ID subnet); ov_ImageId := "";
            ov_AvailabilityZone := ""; ov_Priority := 0 |}] |}].
Definition validateCreateFleetAuthorization (nc : NodeClass) (tags : gmap string string) (lt : LaunchTemplate)
    (v : Validator) : option (Validator * option outcome) :=
  input ← Build (NewCreateFleetInputBuilder CapacityTypeOnDemand tags (getFleetLaunchTemplateConfig nc lt));
  let '(w, e) := vd_CreateFleet input (va_world v) in
  let v := with_world w v in
  Some match IgnoreDryRunError e with
       | None => (v, None)
       | Some e => let '(v, o) := dry_run_failure nc tags ConditionReasonCreateFleetAuthFailed "ec2:CreateFleet" e v in
                   (v, Some o)
       end.

(** An empty list of interfaces is nil; an instance type is dereferenced. *)
Definition getRunInstancesInput (nc : NodeClass) (tags : gmap string string) (lt : LaunchTemplate)
    (subnet : ApiV1.Subnet) : option RunInstancesInput :=
  it ← head (lt_InstanceTypes lt);
  let nis := if decide (NetworkInterfaces_ (Spec nc) = []) then None else Some (NetworkInterfaces_ (Spec nc)) in
  Some {| ri_DryRun := true; ri_LaunchTemplateName := lt_Name lt; ri_InstanceType := Name it;
          ri_NetworkInterfaces := getNetworkInterfacesInput (ResolveNetworkInterfaces nis) subnet; ri_Tags := tags |}.

(** The subnets in order until one is accepted ([Ok]); the error of the first one counts, and
    is nil without subnets. *)
Fixpoint try_subnets (nc : NodeClass) (tags : gmap string string) (lt : LaunchTemplate)
    (subnets : list ApiV1.Subnet) (firstErr : option error) (w : W) : option (W * result (option error) unit) :=
  match subnets with
  | [] => Some (w, Err firstErr)
  | subnet :: rest =>
      input ← getRunInstancesInput nc tags lt subnet;
      let '(w, e) := vd_RunInstances input w in
      match IgnoreDryRunError e with
      | None => Some (w, Ok tt)
      | Some e => try_subnets nc tags lt rest (Some (default e firstErr)) w
      end
  end.

Definition validateRunInstancesAuthorization (nc : NodeClass) (tags : gmap string string) (lt : LaunchTemplate)
    (v : Validator) : option (Validator * option outcome) :=
  '(w, r) ← try_subnets nc tags lt (Subnets (Status nc)) None (va_world v);
  let v := with_world w v in
  match r with
  | Ok _ => Some (v, None)
  | Err None => None
  | Err (Some e) =>
      Some (if IsInstanceProfileNotFound (Some e) then
              (v, Some (match InstanceProfile_ (Spec nc) with
                        | Some p => set_invalid ConditionReasonInstanceProfileNotFound
                                      ("Instance profile " +:+ json_string p +:+ " not found") nc
                        | None => nc
                        end, (requeue, None)))
            else let '(v, o) := dry_run_failure nc tags ConditionReasonRunInstancesAuthFailed "ec2:RunInstances" e v in
                 (v, Some o))
  end.

(** *** The round *)

(** The outcome of the cached entry. *)
Definition from_cache (entry : validationCacheEntry) (nc : NodeClass) : outcome :=
  (if decide (vce_reason entry = "") then SetTrue ConditionTypeValidationSucceeded nc
   else set_invalid (vce_reason entry) (vce_message entry) nc, (requeue_after requeueAfterTime, None)).

Definition dry_runs (family : string) (nc : NodeClass) (tags : gmap string string) (v : Validator) :
    option (Validator * outcome) :=
  '(v, r) ← validateCreateLaunchTemplateAuthorization family nc tags v;
  match r with
  | inl o => Some (v, o)
  | inr (nc, lt) =>
      '(v, r) ← validateCreateFleetAuthorization nc tags lt v;
      match r with
      | Some o => Some (v, o)
      | None =>
          '(v, r) ← validateRunInstancesAuthorization nc tags lt v;
          match r with
          | Some o => Some (v, o)
          | None => Some (remember nc tags "" "" v,
                          (SetTrue ConditionTypeValidationSucceeded nc, (requeue_after requeueAfterTime, None)))
          end
      end
  end.

(** With the checks of the NodeClass behind it. *)
Definition authorize (family : string) (nc : NodeClass) (tags : gmap string string) (v : Validator) :
    option (Validator * outcome) :=
  match GoCache.Get (va_cache v) now (cacheKey nc tags) with
  | Some entry => Some (v, from_cache entry nc)
  | None =>
      if vo_dryRunDisabled opts then
        Some (remember nc tags "" "" v,
              (SetTrue ConditionTypeValidationSucceeded nc, (requeue_after requeueAfterTime, None)))
      else dry_runs family nc tags v
  end.

(** The checks up to the tags, in order: the first that does not pass ends the round. *)
Definition checks (family : string) (nc : NodeClass) (w : W) : W * (outcome + gmap string string) :=
  match cluster_cidr family nc w with
  | (w, Some o) => (w, inl o)
  | (w, None) =>
  match kubelet_check nc with
  | inl o => (w, inl o)
  | inr parsed =>
  match expressions_check parsed nc w with
  | (w, Some o) => (w, inl o)
  | (w, None) =>
  match supported_check family parsed nc with
  | Some o => (w, inl o)
  | None =>
  match consumable_check nc with
  | Some o => (w, inl o)
  | None =>
  match dependencies nc with
  | Some o => (w, inl o)
  | None =>
  match evaluation_check nc w with
  | (w, Some o) => (w, inl o)
  | (w, None) => (w, tags_check nc)
  end end end end end end end.

Definition Reconcile (nc : NodeClass) (v : Validator) : option (Validator * outcome) :=
  family ← AMIFamily nc;
  match checks family nc (va_world v) with
  | (w, inl o) => Some (with_world w v, o)
  | (w, inr tags) => authorize family nc tags (with_world w v)
  end.

(** [Items] are the entries that have not expired. *)
Definition clear_key (nc : NodeClass) (key : string) : bool :=
  match Split key ":" with [name; _] => bool_decide (name = nc_Name nc) | _ => false end.
Definition clearCacheEntries (nc : NodeClass) (c : C) : C :=
  let live := filter (λ kv : string * (validationCacheEntry * option Z), expired now kv.2.2 = false) (items c) in
  foldl (λ c key, (Delete c key).1) c (filter (λ key, clear_key nc key = true) (map_to_list live).*1).
End validation.
Arguments Validator : clear implicits.

(** ** Properties *)

(** [EnsureAll] changes what it is given only in what a launch may change; see
    [Resolver.Resolve_templates]. *)
Class ValidationLaws `{S : Scheduling} (W : Type) `{!ValidationDeps W} := {
  EnsureAll_keeps nc its tags tenancy (w w' : W) nc' r :
    vd_EnsureAll nc its tags tenancy w = Some (w', nc', r) →
    nc_Name nc' = nc_Name nc ∧ nc_Generation nc' = nc_Generation nc ∧
    nc_Annotations nc' = nc_Annotations nc ∧ Status nc' = Status nc ∧
    InstanceProfile_ (Spec nc') = InstanceProfile_ (Spec nc);
}.

Section properties.
Context `{IR : ImageRequirements} `{Inhabited Requirements} `{QuantityParser} `{ConditionSet}.
Context {W C : Type} `{!ValidationDeps W} `{!ValidationLaws W} `{GoCacheLaws validationCacheEntry C}.
Variable decode_map : string → option (gmap string string).
Variable decode_int : string → option Z.
Variable isJSONString : string → bool.
Variable JSONZero : string.
Variable UnmarshalStrict : KubeletConfiguration → result error (list error).
Variable ParseFloat : string → option (option float64).
Variable ParseDuration : string → option Z.
Variable Unmarshal : KubeletConfiguration → result error ParsedKubeletConfig.
Variable Intersects : Requirements → Requirements → bool.
Variable AddLabels : gmap string string → Requirements → Requirements.
Variable Hash : cacheKeyInput → string.
Variable opts : ValidationOptions.
Abbreviation NodeClass := (EC2NodeClass Z).
Abbreviation outcome := (NodeClass * (Result * option reconcile_error))%type.
Abbreviation V := (Validator W C).
Abbreviation validate kc :=
  (ValidateKubeletConfig decode_map decode_int isJSONString JSONZero UnmarshalStrict ParseFloat ParseDuration kc).
Abbreviation checks_ := (checks decode_map decode_int isJSONString JSONZero UnmarshalStrict ParseFloat ParseDuration
                           Unmarshal opts).
Abbreviation reconcile now := (Reconcile decode_map decode_int isJSONString JSONZero UnmarshalStrict ParseFloat
                                 ParseDuration Unmarshal Intersects AddLabels Hash opts now).
Abbreviation authorize_ now := (authorize Intersects AddLabels Hash opts now).
Abbreviation runs now := (dry_runs Intersects AddLabels Hash now).
Abbreviation key := (cacheKey Hash).
Implicit Types (nc : NodeClass) (v : V) (w : W) (tags : gmap string string).

Abbreviation VS := ConditionTypeValidationSucceeded.

(** The condition is set, and nothing else of the NodeClass is. *)
Inductive judged nc : NodeClass → Prop :=
  | judged_same : judged nc nc
  | judged_set c reason message : judged nc (with_condition VS c reason message nc).

(** Whether a round ends with the condition true and a result that stands. *)
Definition accepts (o : outcome) : Prop :=
  condition VS o.1 = ConditionTrue ∧ Requeue o.2.1 = false ∧ o.2.2 = None.

Lemma condition_set c reason message nc : condition VS (with_condition VS c reason message nc) = c.
Proof. by apply condition_eq. Qed.

(** An outcome that ends the round early: the NodeClass is not accepted. *)
Lemma invalid_not_accepted reason message nc r : ¬ accepts (set_invalid reason message nc, r).
Proof. intros [Hc _]. cbn [fst] in Hc. unfold set_invalid, SetFalse in Hc. by rewrite condition_set in Hc. Qed.
Lemma requeue_not_accepted nc e : ¬ accepts (nc, (requeue, e)).
Proof. by intros (_ & ? & _). Qed.
Lemma error_not_accepted nc r e : ¬ accepts (nc, (r, Some e)).
Proof. by intros (_ & _ & ?). Qed.

(** *** The checks *)

(** What the checks establish of a NodeClass they pass, with the tags of its resources. *)
Record checked (family : string) nc tags : Prop := {
  ch_kubelet : validate (Kubelet (Spec nc)) = [];
  ch_parsed : ∃ parsed, ParseKubeletConfig Unmarshal (Kubelet (Spec nc)) = Ok parsed ∧
    (HasExpressions parsed = true → vo_NodeClassCEL opts = true) ∧
    validateKubeletFieldsSupported family nc parsed = None;
  ch_consumable : ∀ value, nc_Annotations nc !! AnnotationNVIDIAConsumableCapacity = Some value →
    ∃ mode, ParseConsumableCapacity value = Ok mode ∧ (is_Some mode → vo_DRANVIDIAGPU opts = true);
  ch_conditions : ∀ t, t ∈ requiredConditions → condition t nc = ConditionTrue;
  ch_tags : GetTags nc "" (vo_ClusterName opts) = Ok tags;
}.

Lemma dependencies_None nc :
  dependencies nc = None ↔ ∀ t, t ∈ requiredConditions → condition t nc = ConditionTrue.
Proof.
  unfold dependencies.
  assert (∀ c, existsb (λ t, bool_decide (condition t nc = c)) requiredConditions = false ↔
               ∀ t, t ∈ requiredConditions → condition t nc ≠ c) as He.
  { intros c. rewrite <- not_true_iff_false, existsb_exists. setoid_rewrite bool_decide_eq_true.
    setoid_rewrite <- list_elem_of_In. naive_solver. }
  split.
  - destruct (existsb _ _) eqn:E1; [done|]. destruct (existsb _ _) eqn:E2 in |- *; [done|]. intros _ t Ht.
    pose proof (proj1 (He _) E1 t Ht). pose proof (proj1 (He _) E2 t Ht). by destruct (condition t nc).
  - intros Hall. rewrite (proj2 (He ConditionFalse)) by (intros t Ht; by rewrite (Hall t Ht)).
    by rewrite (proj2 (He ConditionUnknown)) by (intros t Ht; by rewrite (Hall t Ht)).
Qed.

Lemma consumable_None nc :
  consumable_check opts nc = None →
  ∀ value, nc_Annotations nc !! AnnotationNVIDIAConsumableCapacity = Some value →
  ∃ mode, ParseConsumableCapacity value = Ok mode ∧ (is_Some mode → vo_DRANVIDIAGPU opts = true).
Proof.
  unfold consumable_check. intros Hc value Hv. rewrite Hv in Hc.
  destruct (ParseConsumableCapacity value) as [[mode|]|]; [|by exists None; split; [|intros []]|done].
  exists (Some mode). destruct (vo_DRANVIDIAGPU opts); done.
Qed.

Lemma supported_None family parsed nc :
  supported_check family parsed nc = None → validateKubeletFieldsSupported family nc parsed = None.
Proof. unfold supported_check. by destruct (validateKubeletFieldsSupported family nc parsed). Qed.

Lemma checks_pass family nc w w' tags : checks_ family nc w = (w', inr tags) → checked family nc tags.
Proof.
  unfold checks, kubelet_check, tags_check. intros Hc.
  destruct (cluster_cidr _ _ _) as [w1 [?|]]; [done|]. destruct (validate _) eqn:Hk; [|done].
  destruct (ParseKubeletConfig _ _) as [parsed|] eqn:Hp; [|done].
  destruct (HasExpressions parsed && negb _) eqn:Hx; [done|].
  destruct (expressions_check _ _ _) as [w2 [?|]]; [done|].
  destruct (supported_check _ _ _) eqn:Hs; [done|]. destruct (consumable_check _ _) eqn:Hcc; [done|].
  destruct (dependencies _) eqn:Hd; [done|]. destruct (evaluation_check _ _) as [w3 [?|]]; [done|].
  destruct (GetTags _ _ _) as [ts|] eqn:Ht; [|done]. injection Hc as <- <-. split.
  - done.
  - exists parsed. split; [done|]. split; [|by apply supported_None].
    intros He. rewrite He in Hx. by destruct (vo_NodeClassCEL opts).
  - by apply consumable_None.
  - by apply dependencies_None.
  - done.
Qed.

(** Closes the cases of a round that ends early. *)
Ltac ends_early :=
  repeat match goal with
    | |- ¬ accepts (nil, _) => fail 1
    | |- ¬ accepts (set_invalid _ _ _, _) => apply invalid_not_accepted
    | |- ¬ accepts (SetUnknownWithReason _ _ _ _, _) => intros [Hc _]; revert Hc; cbn [fst]; unfold SetUnknownWithReason; by rewrite condition_set
    | |- ¬ accepts (_, (requeue, _)) => apply requeue_not_accepted
    | |- ¬ accepts (_, (_, Some _)) => apply error_not_accepted
    | |- judged ?nc ?nc => constructor
    | |- judged _ _ => apply judged_set
    | |- _ ∧ _ => split; cbn [fst]
    end.

Lemma cluster_cidr_stop family nc w w' o :
  cluster_cidr family nc w = (w', Some o) → ¬ accepts o ∧ judged nc o.1.
Proof.
  unfold cluster_cidr. case_decide; [|done]. destruct (vd_ResolveClusterCIDR w) as [w1 [e|]]; [|done].
  destruct (IsServerError (Some e)); intros [= _ <-]; ends_early.
Qed.

Lemma checks_stop family nc w w' o : checks_ family nc w = (w', inl o) → ¬ accepts o ∧ judged nc o.1.
Proof.
  unfold checks. destruct (cluster_cidr _ _ _) as [w1 [o1|]] eqn:E.
  { intros [= <- <-]. by eapply cluster_cidr_stop. }
  clear E. unfold kubelet_check. destruct (validate _); [|intros [= _ <-]; ends_early].
  destruct (ParseKubeletConfig _ _) as [parsed|e]; [|intros [= _ <-]; ends_early].
  destruct (_ && _); [intros [= _ <-]; ends_early|]. unfold expressions_check.
  destruct (validateKubeletExpressions _ _) as [w2 [e|]]; [intros [= _ <-]; ends_early|].
  unfold supported_check. destruct (validateKubeletFieldsSupported _ _ _); [intros [= _ <-]; ends_early|].
  unfold consumable_check. set (rest := match dependencies nc with Some _ => _ | None => _ end).
  assert (rest = (w', inl o) → ¬ accepts o ∧ judged nc o.1) as Hrest.
  { unfold rest. unfold dependencies. destruct (existsb _ _); [intros [= _ <-]; ends_early|].
    destruct (existsb _ _); [intros [= _ <-]; ends_early|].
    unfold evaluation_check. destruct (vd_ValidateKubeletExpressions nc w2) as [w3 [[|e]|]];
      [intros [= _ <-]; ends_early..|].
    unfold tags_check. destruct (GetTags _ _ _); [done|intros [= _ <-]; ends_early]. }
  destruct (nc_Annotations nc !! _) as [value|]; [|done].
  destruct (ParseConsumableCapacity value) as [[mode|]|e]; [|done|intros [= _ <-]; ends_early].
  destruct (vo_DRANVIDIAGPU opts); [done|intros [= _ <-]; ends_early].
Qed.

(** *** The dry runs *)

Lemma failure_stop now nc tags reason what e v v' o :
  dry_run_failure Hash now nc tags reason what e v = (v', o) → ¬ accepts o ∧ judged nc o.1.
Proof.
  unfold dry_run_failure. destruct (_ || _); [intros [= _ <-]; ends_early|].
  destruct (IsUnauthorizedOperationError _); intros [= _ <-]; ends_early.
Qed.

(** The calls a launch of the NodeClass consists of were made as dry runs, and granted: the
    launch template, the fleet, and an instance in one of the subnets. *)
Definition granted nc tags : Prop :=
  ∃ it pools w nc' lt lts w1 input subnet ri w2,
    vd_EnsureAll nc [it] tags (getTenancyType pools) w = Some (w1, nc', Ok (lt :: lts)) ∧
    Build (NewCreateFleetInputBuilder CapacityTypeOnDemand tags (getFleetLaunchTemplateConfig nc' lt)) = Some input ∧
    IgnoreDryRunError (vd_CreateFleet input w1).2 = None ∧
    subnet ∈ Subnets (Status nc) ∧ getRunInstancesInput nc' tags lt subnet = Some ri ∧
    IgnoreDryRunError (vd_RunInstances ri w2).2 = None.

Lemma try_subnets_Ok nc tags lt subnets firstErr w w' :
  try_subnets nc tags lt subnets firstErr w = Some (w', Ok tt) →
  ∃ subnet ri w2, subnet ∈ subnets ∧ getRunInstancesInput nc tags lt subnet = Some ri ∧
    IgnoreDryRunError (vd_RunInstances ri w2).2 = None.
Proof.
  revert firstErr w. induction subnets as [|subnet subnets IH]; intros firstErr w; simpl; [done|].
  destruct (getRunInstancesInput nc tags lt subnet) as [ri|] eqn:Eri; simpl; [|done].
  destruct (vd_RunInstances ri w) as [w1 e] eqn:Ew. destruct (IgnoreDryRunError e) as [e'|] eqn:Ee.
  - intros (s & ri' & w2 & Hs & ?)%IH. exists s, ri', w2. split; [by right|done].
  - intros _. exists subnet, ri, w. split; [by left|]. split; [done|]. by rewrite Ew.
Qed.

Lemma template_spec now family nc tags v v' r :
  validateCreateLaunchTemplateAuthorization Intersects AddLabels Hash now family nc tags v = Some (v', r) →
  match r with
  | inl o => ¬ accepts o ∧ ∃ nc', (nc' = nc ∨ ∃ its tenancy w w' r, vd_EnsureAll nc its tags tenancy w = Some (w', nc', r)) ∧ judged nc' o.1
  | inr (nc', lt) => ∃ it pools w lts, vd_EnsureAll nc [it] tags (getTenancyType pools) w = Some (va_world v', nc', Ok (lt :: lts))
  end.
Proof.
  unfold validateCreateLaunchTemplateAuthorization. intros Hv.
  destruct (vd_ListNodePools nc _) as [pools|e].
  2:{ injection Hv as <- <-. split; [ends_early|]. exists nc. split; [by left|constructor]. }
  destruct (getPrioritizedInstanceTypes _ _ _ _ _ _) as [w [[|it its]|e]]; [done| |].
  2:{ injection Hv as <- <-. split; [ends_early|]. exists nc. split; [by left|constructor]. }
  destruct (vd_EnsureAll nc [it] tags (getTenancyType pools) w) as [[[w1 nc1] r1]|] eqn:E; simpl in Hv; [|done].
  assert (∃ its tenancy w w' r, vd_EnsureAll nc its tags tenancy w = Some (w', nc1, r)) as Hen by eauto 10.
  destruct r1 as [[|lt lts]|e].
  - injection Hv as <- <-. split; [ends_early|]. exists nc1. split; [by right|constructor].
  - injection Hv as <- <-. simpl. eauto.
  - destruct (_ || _) eqn:E1.
    { injection Hv as <- <-. split; [ends_early|]. exists nc1. split; [by right|constructor]. }
    destruct (IsUserDataTooLarge _).
    + simpl in Hv. injection Hv as <- <-. split; [ends_early|]. exists nc1. split; [by right|apply judged_set].
    + destruct (dry_run_failure _ _ _ _ _ _ _ _) as [v2 o] eqn:Ef. injection Hv as <- <-.
      destruct (failure_stop _ _ _ _ _ _ _ _ _ Ef) as [Ha Hj]. split; [done|]. exists nc1. split; [by right|done].
Qed.

Lemma fleet_spec now nc tags lt v v' r :
  validateCreateFleetAuthorization Hash now nc tags lt v = Some (v', r) →
  match r with
  | Some o => ¬ accepts o ∧ judged nc o.1
  | None => ∃ input, Build (NewCreateFleetInputBuilder CapacityTypeOnDemand tags (getFleetLaunchTemplateConfig nc lt)) =
      Some input ∧ IgnoreDryRunError (vd_CreateFleet input (va_world v)).2 = None
  end.
Proof.
  unfold validateCreateFleetAuthorization. destruct (Build _) as [input|]; simpl; [|done].
  destruct (vd_CreateFleet input _) as [w e] eqn:E. destruct (IgnoreDryRunError e) as [e'|] eqn:Ee.
  - destruct (dry_run_failure _ _ _ _ _ _ _ _) as [v2 o] eqn:Ef. intros [= <- <-]. by eapply failure_stop.
  - intros [= <- <-]. exists input. split; [done|]. by rewrite E.
Qed.

Lemma instances_spec now nc tags lt v v' r :
  validateRunInstancesAuthorization Hash now nc tags lt v = Some (v', r) →
  match r with
  | Some o => ¬ accepts o ∧ judged nc o.1
  | None => ∃ subnet ri w, subnet ∈ Subnets (Status nc) ∧ getRunInstancesInput nc tags lt subnet = Some ri ∧
      IgnoreDryRunError (vd_RunInstances ri w).2 = None
  end.
Proof.
  unfold validateRunInstancesAuthorization. intros ([w [[]|[e|]]] & Ht & Hv)%bind_Some; [|simpl in Hv|done].
  - injection Hv as <- <-. by eapply try_subnets_Ok.
  - destruct (IsInstanceProfileNotFound _).
    { injection Hv as <- <-. split; [ends_early|]. cbn [fst]. destruct (InstanceProfile_ (Spec nc)); constructor. }
    destruct (dry_run_failure _ _ _ _ _ _ _ _) as [v2 o] eqn:Ef. injection Hv as <- <-. by eapply failure_stop.
Qed.

(** The NodeClass [nc'] is [nc], or what [EnsureAll] made of it. *)
Definition launched nc nc' : Prop :=
  nc' = nc ∨ ∃ its tags tenancy w w' r, vd_EnsureAll nc its tags tenancy w = Some (w', nc', r).

Lemma launched_keeps nc nc' :
  launched nc nc' → nc_Name nc' = nc_Name nc ∧ nc_Generation nc' = nc_Generation nc ∧ Status nc' = Status nc.
Proof.
  intros [->|(its & tags & tenancy & w & w' & r & E)]; [by repeat split|].
  apply EnsureAll_keeps in E as (Hn & Hg & _ & Hs & _). exact (conj Hn (conj Hg Hs)).
Qed.

Lemma dry_runs_spec now family nc tags v v' o :
  runs now family nc tags v = Some (v', o) →
  (accepts o → granted nc tags) ∧ ∃ nc', launched nc nc' ∧ judged nc' o.1.
Proof.
  unfold dry_runs. intros ([v1 r1] & H1' & Hr)%bind_Some. pose proof (template_spec _ _ _ _ _ _ _ H1') as Ht.
  destruct r1 as [o1|[nc1 lt]].
  { injection Hr as <- <-. destruct Ht as [Ha (nc' & Hl & Hj)]. split; [done|]. exists nc'. split; [|done].
    destruct Hl as [->|(its & tenancy & w & w' & r & E)]; [by left|right; eauto 10]. }
  destruct Ht as (it & pools & w & lts & Een).
  assert (launched nc nc1) as Hl by (right; eauto 10). destruct (launched_keeps _ _ Hl) as (_ & _ & Hst).
  apply bind_Some in Hr as ([v2 r2] & H2' & Hr). pose proof (fleet_spec _ _ _ _ _ _ _ H2') as Hf.
  destruct r2 as [o2|].
  { injection Hr as <- <-. destruct Hf as [? ?]. split; [done|]. eauto. }
  destruct Hf as (input & Hb & Hcf). apply bind_Some in Hr as ([v3 r3] & H3' & Hr).
  pose proof (instances_spec _ _ _ _ _ _ _ H3') as Hi. destruct r3 as [o3|].
  { injection Hr as <- <-. destruct Hi as [? ?]. split; [done|]. eauto. }
  injection Hr as <- <-. destruct Hi as (subnet & ri & w2 & Hs & Hri & Hok). rewrite Hst in Hs. split.
  - intros _. exists it, pools, w, nc1, lt, lts, (va_world v1), input, subnet, ri, w2. done.
  - exists nc1. split; [done|]. cbn [fst]. apply judged_set.
Qed.

(** A success that is still remembered. *)
Definition remembered now nc tags v : Prop :=
  ∃ message, GoCache.Get (va_cache v) now (key nc tags) = Some {| vce_reason := ""; vce_message := message |}.

Lemma authorize_spec now family nc tags v v' o :
  authorize_ now family nc tags v = Some (v', o) →
  (accepts o → remembered now nc tags v ∨ vo_dryRunDisabled opts = true ∨ granted nc tags) ∧
  ∃ nc', launched nc nc' ∧ judged nc' o.1.
Proof.
  unfold authorize. destruct (GoCache.Get _ _ _) as [[reason message]|] eqn:Eg.
  { intros [= <- <-]. unfold from_cache. simpl. case_decide as Hr.
    - split; [intros _; left; exists message; by rewrite Eg, Hr|]. exists nc. split; [by left|apply judged_set].
    - split; [by intros ?%invalid_not_accepted|]. exists nc. split; [by left|apply judged_set]. }
  destruct (vo_dryRunDisabled opts) eqn:Ed.
  { intros [= <- <-]. split; [tauto|]. exists nc. split; [by left|apply judged_set]. }
  intros [Ha Hj]%dry_runs_spec. tauto.
Qed.


(** A round sets the condition, and leaves the rest of the status alone. *)
Lemma Reconcile_judged now nc v v' o :
  reconcile now nc v = Some (v', o) → ∃ nc', launched nc nc' ∧ judged nc' o.1.
Proof.
  unfold Reconcile. intros (family & Hf & Hr)%bind_Some.
  destruct (checks _ _ _ _ _ _ _ _ _ family nc (va_world v)) as [w [o1|tags]] eqn:Ec.
  - injection Hr as <- <-. exists nc. split; [by left|]. by destruct (checks_stop _ _ _ _ _ Ec).
  - by destruct (authorize_spec _ _ _ _ _ _ _ Hr).
Qed.

(** *** What is remembered *)

(** The round ended for [nc'] with an outcome that the entry in the cache reproduces. *)
Definition settled now nc' tags v v' (o : outcome) : Prop :=
  ∃ c reason message entry,
    va_cache v' = SetDefault (va_cache v) now (key nc' tags) entry ∧
    o = (with_condition VS c reason message nc', (requeue_after requeueAfterTime, None)) ∧
    ∀ nc2, from_cache entry nc2 = (with_condition VS c reason message nc2, (requeue_after requeueAfterTime, None)).
(** It ended without an outcome to remember. *)
Definition unsettled v v' (o : outcome) : Prop :=
  va_cache v' = va_cache v ∧ o.2 ≠ (requeue_after requeueAfterTime, None).

Lemma update_settled now nc tags reason e v v' o :
  reason ≠ "" → updateCacheOnFailure Hash now nc tags reason e v = (v', o) → settled now nc tags v v' o.
Proof.
  intros Hr [= <- <-]. eexists _, _, _, _. split; [done|]. split; [done|]. intros nc2.
  unfold from_cache. simpl. by rewrite decide_False.
Qed.

Lemma failure_settled now nc tags reason what e v v' o :
  reason ≠ "" → dry_run_failure Hash now nc tags reason what e v = (v', o) →
  settled now nc tags v v' o ∨ unsettled v v' o.
Proof.
  intros Hr. unfold dry_run_failure. destruct (_ || _); [intros [= <- <-]; by right|].
  destruct (IsUnauthorizedOperationError _); [|intros [= <- <-]; by right].
  intros Hu%update_settled; [by left|done].
Qed.

Lemma unsettled_trans v v1 v2 o : va_cache v1 = va_cache v → unsettled v1 v2 o → unsettled v v2 o.
Proof. intros E [Hc ?]. split; [by rewrite Hc|done]. Qed.
Lemma settled_trans now nc tags v v1 v2 o :
  va_cache v1 = va_cache v → settled now nc tags v1 v2 o → settled now nc tags v v2 o.
Proof. intros E (c & r & m & en & Hc & ?). exists c, r, m, en. by rewrite Hc, E. Qed.

Lemma template_settled now family nc tags v v' o :
  validateCreateLaunchTemplateAuthorization Intersects AddLabels Hash now family nc tags v = Some (v', inl o) →
  unsettled v v' o ∨ ∃ nc', launched nc nc' ∧ settled now nc' tags v v' o.
Proof.
  unfold validateCreateLaunchTemplateAuthorization. intros Hv.
  destruct (vd_ListNodePools nc _) as [pools|e]; [|injection Hv as <- <-; by left].
  destruct (getPrioritizedInstanceTypes _ _ _ _ _ _) as [w [[|it its]|e]]; [done| |injection Hv as <- <-; by left].
  destruct (vd_EnsureAll nc [it] tags (getTenancyType pools) w) as [[[w1 nc1] r1]|] eqn:E; simpl in Hv; [|done].
  assert (launched nc nc1) as Hl by (right; eauto 10).
  destruct r1 as [[|lt lts]|e]; [injection Hv as <- <-; by left|done|].
  destruct (_ || _) eqn:E1; [injection Hv as <- <-; by left|].
  destruct (IsUserDataTooLarge _).
  - destruct (updateCacheOnFailure _ _ _ _ _ _ _) as [v2 o2] eqn:Eu. injection Hv as <- <-.
    right. exists nc1. split; [done|]. eapply (settled_trans _ _ _ _ (with_world w1 v)); [done|].
    eapply update_settled; [|exact Eu]. done.
  - destruct (dry_run_failure _ _ _ _ _ _ _ _) as [v2 o2] eqn:Eu. injection Hv as <- <-.
    apply failure_settled in Eu as [Hs|Hs]; [|by left|done]. right. exists nc1. split; [done|].
    by eapply (settled_trans _ _ _ _ (with_world w1 v)).
Qed.

Lemma template_cache now family nc tags v v' r :
  validateCreateLaunchTemplateAuthorization Intersects AddLabels Hash now family nc tags v = Some (v', inr r) →
  va_cache v' = va_cache v.
Proof.
  unfold validateCreateLaunchTemplateAuthorization. intros Hv.
  destruct (vd_ListNodePools nc _) as [pools|e]; [|done].
  destruct (getPrioritizedInstanceTypes _ _ _ _ _ _) as [w [[|it its]|e]]; [done| |done].
  destruct (vd_EnsureAll nc [it] tags (getTenancyType pools) w) as [[[w1 nc1] r1]|]; simpl in Hv; [|done].
  destruct r1 as [[|lt lts]|e]; [done|by injection Hv as <- <-|].
  destruct (_ || _); [done|]. destruct (IsUserDataTooLarge _).
  - done.
  - by destruct (dry_run_failure _ _ _ _ _ _ _ _).
Qed.

Lemma fleet_settled now nc tags lt v v' r :
  validateCreateFleetAuthorization Hash now nc tags lt v = Some (v', r) →
  match r with
  | Some o => settled now nc tags v v' o ∨ unsettled v v' o
  | None => va_cache v' = va_cache v
  end.
Proof.
  unfold validateCreateFleetAuthorization. destruct (Build _) as [input|]; simpl; [|done].
  destruct (vd_CreateFleet input _) as [w e]. destruct (IgnoreDryRunError e) as [e'|]; [|by intros [= <- <-]].
  destruct (dry_run_failure _ _ _ _ _ _ _ _) as [v2 o] eqn:Ef. intros [= <- <-].
  apply failure_settled in Ef as [Hs|Hs]; [by left|by right|done].
Qed.

Lemma instances_settled now nc tags lt v v' r :
  validateRunInstancesAuthorization Hash now nc tags lt v = Some (v', r) →
  match r with
  | Some o => settled now nc tags v v' o ∨ unsettled v v' o
  | None => va_cache v' = va_cache v
  end.
Proof.
  unfold validateRunInstancesAuthorization. intros ([w [[]|[e|]]] & Ht & Hv)%bind_Some; [|simpl in Hv|done].
  - by injection Hv as <- <-.
  - destruct (IsInstanceProfileNotFound _); [injection Hv as <- <-; by right|].
    destruct (dry_run_failure _ _ _ _ _ _ _ _) as [v2 o] eqn:Ef. injection Hv as <- <-.
    apply failure_settled in Ef as [Hs|Hs]; [by left|by right|done].
Qed.

Lemma dry_runs_settled now family nc tags v v' o :
  runs now family nc tags v = Some (v', o) →
  unsettled v v' o ∨ ∃ nc', launched nc nc' ∧ settled now nc' tags v v' o.
Proof.
  unfold dry_runs. intros ([v1 r1] & H1' & Hr)%bind_Some. destruct r1 as [o1|[nc1 lt]].
  { injection Hr as <- <-. by eapply template_settled. }
  pose proof (template_spec _ _ _ _ _ _ _ H1') as (it & pools & w & lts & Een).
  pose proof (template_cache _ _ _ _ _ _ _ H1') as Ec.
  assert (launched nc nc1) as Hl by (right; eauto 10).
  apply bind_Some in Hr as ([v2 r2] & H2'%fleet_settled & Hr). destruct r2 as [o2|].
  { injection Hr as <- <-. destruct H2' as [Hs|Hs].
    - right. exists nc1. split; [done|]. by apply (settled_trans _ _ _ _ v1).
    - left. by apply (unsettled_trans _ v1). }
  rewrite Ec in H2'. apply bind_Some in Hr as ([v3 r3] & H3'%instances_settled & Hr). destruct r3 as [o3|].
  { injection Hr as <- <-. destruct H3' as [Hs|Hs].
    - right. exists nc1. split; [done|]. by apply (settled_trans _ _ _ _ v2).
    - left. by apply (unsettled_trans _ v2). }
  injection Hr as <- <-. right. exists nc1. split; [done|]. eexists _, _, _, _. simpl.
  rewrite H3', H2'. by repeat split.
Qed.

(** What dry runs decide is remembered.  If they end with an outcome to stand for ten
    minutes, the condition is reproduced without any call by every round with the cache key
    of the NodeClass as the launch left it, for as long as the cache keeps it, and rounds
    with another key do not see it.  If they end otherwise, the cache is as it was. *)
Theorem outcome_remembered now family nc tags v v' o :
  runs now family nc tags v = Some (v', o) → 0 < defaultTTL (va_cache v) →
  (va_cache v' = va_cache v ∧ o.2 ≠ (requeue_after requeueAfterTime, None)) ∨
  ∃ nc' c reason message,
    launched nc nc' ∧ o = (with_condition VS c reason message nc', (requeue_after requeueAfterTime, None)) ∧
    (∀ t family2 nc2 tags2 w,
       t ≤ now + defaultTTL (va_cache v) → key nc2 tags2 = key nc' tags →
       authorize_ t family2 nc2 tags2 (with_world w v') =
       Some (with_world w v', (with_condition VS c reason message nc2, (requeue_after requeueAfterTime, None)))) ∧
    (∀ t nc2 tags2, key nc2 tags2 ≠ key nc' tags →
       GoCache.Get (va_cache v') t (key nc2 tags2) = GoCache.Get (va_cache v) t (key nc2 tags2)).
Proof.
  intros [Hu|(nc' & Hl & c & reason & message & entry & Hc & -> & He)]%dry_runs_settled Httl; [by left|right].
  exists nc', c, reason, message. split; [done|]. split; [done|]. split.
  - intros t family2 nc2 tags2 w Ht Hk. unfold authorize. simpl.
    rewrite Hc, Hk, Get_SetDefault_eq, decide_True by done. by rewrite He.
  - intros t nc2 tags2 Hk. rewrite Hc. by apply Get_SetDefault_ne.
Qed.

(** *** No panic *)

Lemma try_subnets_total nc tags lt subnets firstErr w :
  lt_InstanceTypes lt ≠ [] → subnets ≠ [] ∨ is_Some firstErr →
  ∃ w' r, try_subnets nc tags lt subnets firstErr w = Some (w', r) ∧ r ≠ Err None.
Proof.
  intros Hlt. destruct (lt_InstanceTypes lt) as [|it its] eqn:El; [done|]. revert firstErr w.
  induction subnets as [|s subnets IH]; intros firstErr w Hs; simpl.
  - destruct Hs as [?|[e ->]]; [done|]. exists w, (Err (Some e)). done.
  - unfold getRunInstancesInput at 1. rewrite El. simpl. destruct (vd_RunInstances _ w) as [w1 e].
    destruct (IgnoreDryRunError e) as [e'|]; [|by exists w1, (Ok tt)]. apply IH. right. by eexists.
Qed.

Lemma build_on_demand tags configs :
  is_Some (Build (NewCreateFleetInputBuilder CapacityTypeOnDemand tags configs)).
Proof.
  unfold Build, defaultTargetCapacityType, NewCreateFleetInputBuilder. cbn [cb_capacityType].
  rewrite decide_False, decide_True by (done || by left). by eexists.
Qed.

Lemma fleet_total now nc tags lt v :
  ∃ v' r, validateCreateFleetAuthorization Hash now nc tags lt v = Some (v', r).
Proof.
  unfold validateCreateFleetAuthorization. destruct (build_on_demand tags (getFleetLaunchTemplateConfig nc lt)) as [input ->].
  simpl. destruct (vd_CreateFleet _ _) as [w e]. destruct (IgnoreDryRunError e); [|by eexists _, _].
  destruct (dry_run_failure _ _ _ _ _ _ _ _). by eexists _, _.
Qed.

Lemma instances_total now nc tags lt v :
  lt_InstanceTypes lt ≠ [] → Subnets (Status nc) ≠ [] →
  ∃ v' r, validateRunInstancesAuthorization Hash now nc tags lt v = Some (v', r).
Proof.
  intros Hlt Hs. unfold validateRunInstancesAuthorization.
  destruct (try_subnets_total nc tags lt (Subnets (Status nc)) None (va_world v) Hlt (or_introl Hs)) as (w & r & -> & Hr).
  simpl. destruct r as [[]|[e|]]; [by eexists _, _| |done]. destruct (IsInstanceProfileNotFound _); [by eexists _, _|].
  destruct (dry_run_failure _ _ _ _ _ _ _ _). by eexists _, _.
Qed.


(** *** Forgetting a NodeClass *)

Lemma clear_key_spec nc hash name :
  free_of ":" name → free_of ":" hash → clear_key nc (name +:+ ":" +:+ hash) = bool_decide (name = nc_Name nc).
Proof.
  intros Hn Hh. unfold clear_key. change (name +:+ ":" +:+ hash) with (name +:+ String ":" hash).
  by rewrite Split_app_sep, Split_free.
Qed.

Lemma Get_foldl_Delete (c : C) t ks k :
  GoCache.Get (foldl (λ c k, (Delete c k).1) c ks) t k = if decide (k ∈ ks) then None else GoCache.Get c t k.
Proof.
  revert c. induction ks as [|k' ks IH]; intros c; cbn [foldl].
  { case_decide as Hin; [by apply elem_of_nil in Hin|done]. }
  rewrite IH, Get_Delete. repeat case_decide; try done; set_solver.
Qed.

(** Afterwards nothing is remembered of the NodeClass, and all that was of the others. *)
Lemma clearCacheEntries_spec now t nc (c : C) name hash :
  free_of ":" name → free_of ":" hash → now ≤ t →
  GoCache.Get (clearCacheEntries now nc c) t (name +:+ ":" +:+ hash) =
  if decide (name = nc_Name nc) then None else GoCache.Get c t (name +:+ ":" +:+ hash).
Proof.
  intros Hn Hh Ht. unfold clearCacheEntries. rewrite Get_foldl_Delete. set (k := name +:+ _).
  assert (clear_key nc k = bool_decide (name = nc_Name nc)) as Hk by by apply clear_key_spec.
  destruct (decide (name = nc_Name nc)) as [Hname|Hname].
  - destruct (decide (k ∈ _)) as [Hin|Hin]; [done|]. destruct (GoCache.Get c t k) as [v|] eqn:E; [|done]. exfalso. apply Hin.
    apply list_elem_of_filter. split; [by rewrite Hk, bool_decide_eq_true|].
    apply (Get_earlier _ now) in E; [|done]. rewrite Get_items in E.
    destruct (items c !! k) as [[v' e]|] eqn:Ei; simpl in E; [|done]. unfold live_value in E; simpl in E.
    destruct (expired now e) eqn:Ex; [done|]. apply list_elem_of_fmap. exists (k, (v', e)). split; [done|].
    by apply elem_of_map_to_list, map_lookup_filter_Some_2.
  - destruct (decide (k ∈ _)) as [Hin|Hin]; [|done]. apply list_elem_of_filter in Hin as [Hc _]. by rewrite Hk, bool_decide_eq_true in Hc.
Qed.
End properties.

(** ** On concrete values *)

Section example.
(** An account where launches are granted or refused, in a region whose launches clear the
    IPv6 endpoint of the NodeClass or not; the calls to EC2 are logged. *)
Definition example_answer (code : string) : error :=
  {| Error := code; asAPIError := Some {| ErrorCode := code; ErrorMessage := ""; ErrorFault := FaultClient |} |}.
Definition example_type : Scheduling.InstanceType :=
  {| Name := "m5.large"; it_Requirements := ∅; Offerings := []; Capacity := ∅ |}.
Definition example_template : LaunchTemplate :=
  {| lt_Name := "template"; lt_InstanceTypes := [example_type]; lt_ImageID := "ami"; lt_CapacityReservationID := "";
     lt_Zone := "" |}.
Definition example_deps (isolated refused : bool) (types : list Scheduling.InstanceType) :
    ValidationDeps (list string) := {|
  vd_ResolveClusterCIDR w := (w, None);
  vd_ValidateExpression _ w := (w, None);
  vd_ValidateKubeletExpressions _ w := (w, None);
  vd_ListNodePools _ _ := Ok [];
  vd_ListInstanceTypes _ w := (w, Ok types);
  vd_FilterForNodeClass its _ _ := its;
  vd_EnsureAll nc its _ _ w :=
    Some ("CreateLaunchTemplate" :: w,
          if isolated then with_metadata (without_ipv6 <$> MetadataOptions_ (Spec nc)) nc else nc,
          Ok [example_template]);
  vd_CreateFleet _ w := ("CreateFleet" :: w, Some (example_answer "DryRunOperation"));
  vd_RunInstances _ w :=
    ("RunInstances" :: w, Some (example_answer (if refused then "UnauthorizedOperation" else "DryRunOperation")));
|}.
Lemma example_deps_laws isolated refused types :
  @ValidationLaws _ _ (list string) (example_deps isolated refused types).
Proof. split. intros nc its tags tenancy w w' nc' r. simpl. intros [= _ <- _]. by destruct isolated. Qed.

Definition example_condition (t : string) : string * Condition :=
  (t, {| cond_Status := ConditionTrue; cond_Reason := t; cond_Message := ""; cond_ObservedGeneration := 1 |}).
Definition example_class : EC2NodeClass Z :=
  {| nc_Name := "default"; nc_UID := "uid"; nc_Generation := 1; nc_DeletionTimestamp := None; nc_Annotations := ∅;
     Spec :=
       {| SubnetSelectorTerms := []; SecurityGroupSelectorTerms := []; CapacityReservationSelectorTerms := [];
          PlacementGroupSelector_ := None; AssociatePublicIPAddress := None; IPPrefixCount := None;
          AMISelectorTerms := []; AMIFamily_ := Some "AL2023"; UserData := None; Role := "role";
          InstanceProfile_ := None; Tags := ∅; Kubelet := ∅; BlockDeviceMappings_ := [];
          InstanceStorePolicy_ := None; NetworkInterfaces_ := []; DetailedMonitoring := None;
          MetadataOptions_ := Some {| HTTPEndpoint := None; HTTPProtocolIPv6 := Some "disabled";
                                      HTTPPutResponseHopLimit := None; HTTPTokens := None |};
          EnclaveOptions_ := None; ConnectionTracking_ := None; Context_ := None; CPUOptions_ := None |};
     Status := {| Subnets := [{| sn_ID := "subnet-1"; sn_Zone := "a"; sn_ZoneID := "1" |}]; SecurityGroups := [];
                  CapacityReservations_ := [];
                  AMIs_ := [{| ami_ID := "ami"; ami_Deprecated := false; ami_Name := "al2023";
                               ami_Requirements := [] |}];
                  InstanceProfile := "profile";
                  Conditions := list_to_map (example_condition <$> requiredConditions) |} |}.
(** A hash that tells the metadata options apart. *)
Definition example_key (k : cacheKeyInput) : string :=
  match MetadataOptions_ (ck_Spec k) ≫= HTTPProtocolIPv6 with Some s => s | None => "none" end.
Definition example_options : ValidationOptions :=
  {| vo_NodeClassCEL := false; vo_DRANVIDIAGPU := false; vo_ClusterName := "cluster"; vo_dryRunDisabled := false |}.
Definition example_validator : Validator (list string) (RefCache.t validationCacheEntry) :=
  {| va_world := []; va_cache := New (30 * Minute) |}.
Definition example_round (isolated refused : bool) (types : list Scheduling.InstanceType) (now : Z)
    (v : Validator (list string) (RefCache.t validationCacheEntry)) :=
  @Reconcile _ _ _ _ _ (list string) _ (example_deps isolated refused types) _ (λ _, None) (λ _, None) (λ _, false) "0"
    (λ _, Ok []) (λ _, None) (λ _, None) (λ _, Ok empty_config) (λ _ _, true) (λ _ r, r) example_key example_options
    now example_class v.
(** The calls and the condition after a round, and after a second one ten minutes later. *)
Definition example_rounds (isolated refused : bool) : option (list string * ConditionStatus * list string) :=
  '(v1, o1) ← example_round isolated refused [example_type] 0 example_validator;
  '(v2, o2) ← example_round isolated refused [example_type] (10 * Minute) v1;
  Some (va_world v1, condition ConditionTypeValidationSucceeded o1.1, va_world v2).

(** The second round makes no call, whatever the first one decided. *)
Example second_round_cached :
  example_rounds false false =
    Some (["RunInstances"; "CreateFleet"; "CreateLaunchTemplate"], ConditionTrue,
          ["RunInstances"; "CreateFleet"; "CreateLaunchTemplate"]) ∧
  example_rounds false true =
    Some (["RunInstances"; "CreateFleet"; "CreateLaunchTemplate"], ConditionFalse,
          ["RunInstances"; "CreateFleet"; "CreateLaunchTemplate"]).
Proof. split; vm_compute; reflexivity. Qed.

(** In a region whose launches clear the IPv6 endpoint, every round makes all calls again: the
    outcome is stored under the key of the changed NodeClass. *)
Example isolated_never_cached :
  example_rounds true false =
    Some (["RunInstances"; "CreateFleet"; "CreateLaunchTemplate"], ConditionTrue,
          ["RunInstances"; "CreateFleet"; "CreateLaunchTemplate"; "RunInstances"; "CreateFleet"; "CreateLaunchTemplate"]).
Proof. vm_compute; reflexivity. Qed.

(** Without an instance type to try the round panics. *)
Example no_instance_type_panics : example_round false false [] 0 example_validator = None.
Proof. vm_compute; reflexivity. Qed.

Local Instance granting_deps : ValidationDeps (list string) := example_deps false false [example_type].
Local Instance granting_laws : ValidationLaws (list string) := example_deps_laws false false [example_type].
Abbreviation V0 := (Validator (list string) (RefCache.t validationCacheEntry)).
Definition granting_round : option (V0 * (EC2NodeClass Z * (Result * option reconcile_error))) :=
  example_round false false [example_type] 0 example_validator.
Definition granting_runs : option (V0 * (EC2NodeClass Z * (Result * option reconcile_error))) :=
  dry_runs (λ _ _, true) (λ _ r, r) example_key 0 "AL2023" example_class ∅ example_validator.


Lemma outcome_remembered_witness :
  ∃ v' nc', granting_runs = Some (v', (nc', (requeue_after requeueAfterTime, None))) ∧
    ∀ w, ∃ nc'', authorize (λ _ _, true) (λ _ r, r) example_key example_options (20 * Minute) "AL2023" example_class ∅
      (with_world w v') = Some (with_world w v', (nc'', (requeue_after requeueAfterTime, None))).
Proof.
  assert (match granting_runs with
          | Some (_, (_, r)) => r = (requeue_after requeueAfterTime, None)
          | None => False
          end) as Hr by (vm_compute; reflexivity).
  destruct granting_runs as [[v' [nc' r]]|] eqn:E; [|contradiction]. subst r. exists v', nc'. split; [reflexivity|].
  assert (0 < defaultTTL (va_cache example_validator)) as Httl by (vm_compute; reflexivity).
  pose proof (outcome_remembered (λ _ _, true) (λ _ r, r) example_key example_options 0 "AL2023" example_class ∅
    example_validator v' _ E Httl) as [[_ Hn]|(nc1 & c & reason & message & Hl & _ & Hhit & _)]; [contradiction|].
  intros w. eexists. apply Hhit; [vm_compute; discriminate|].
  destruct Hl as [->|(its & tags & tenancy & w1 & w2 & r & [= _ <- _])]; reflexivity.
Defined.

End example.
