(* ===== verification/NodeClassController.v ===== *)
(** * [pkg/controllers/nodeclass/controller.go] and [hash/controller.go]: EC2NodeClass controllers

    A round of the main controller adds the finalizer, runs every reconciler, whatever the
    others answer, and writes the status; a NodeClass that is being deleted is finalized:
    its instance profiles and launch templates are deleted when no NodeClaim uses it.  The
    hash controller keeps the hash annotations that drift is decided by.  The answers the
    providers give in a round are arguments; instance profiles and launch templates are
    [InstanceProfile] and [LaunchTemplateProvider], and the validation is an interface
    ([ValidationReconciler]) that [Validation] implements.  The NodeClass objects of the API
    server are a class ([NodeClassAPI]).  Events and logging are left out. *)
From stdpp Require Import sorting.
From S2P Require Import Prelude GoStd AwsErrors ApiV1 CapacityReservation BatchExecutors Quantities Scheduling Kube Launch Compatibility InstanceTypes AmiFamily Kubelet KubeletValidation Resolver Utils LaunchTemplateProvider Subnet CloudProvider InstanceProfile SecurityGroup NodeClassStatus Validation GoCache.

Create HintDb nodeclass.

Definition TerminationFinalizer := "karpenter.k8s.aws/termination".

(** ** The API server *)

(** A NodeClass with its finalizers. *)
Record NodeClassObject := { no_class : EC2NodeClass Z; no_Finalizers : list string }.
Definition no_Name (o : NodeClassObject) : string := nc_Name (no_class o).
Definition with_class (nc : EC2NodeClass Z) (o : NodeClassObject) : NodeClassObject :=
  {| no_class := nc; no_Finalizers := no_Finalizers o |}.
Definition with_finalizers (l : list string) (o : NodeClassObject) : NodeClassObject :=
  {| no_class := no_class o; no_Finalizers := l |}.
Definition with_nc_annotations (m : gmap string string) (nc : EC2NodeClass Z) : EC2NodeClass Z :=
  {| nc_Name := nc_Name nc; nc_UID := nc_UID nc; nc_Generation := nc_Generation nc;
     nc_DeletionTimestamp := nc_DeletionTimestamp nc; nc_Annotations := m; Spec := Spec nc; Status := Status nc |}.

(** [Patch] of the finalizers and of the status, from the first object to the second, under
    the optimistic lock; and of the annotations, without it. *)
Class NodeClassAPI (A : Type) := {
  nodeclasses : A → gmap string NodeClassObject;
  patch_finalizers : NodeClassObject → NodeClassObject → A → A * result kube_error NodeClassObject;
  patch_status : NodeClassObject → NodeClassObject → A → A * result kube_error NodeClassObject;
  patch_annotations : NodeClassObject → gmap string string → A → A * result kube_error NodeClassObject;
}.
#[global] Hint Mode NodeClassAPI ! : typeclass_instances.

(** An object without finalizers that is being deleted is gone. *)
Definition settle_object (o : NodeClassObject) : option NodeClassObject :=
  match no_Finalizers o, nc_DeletionTimestamp (no_class o) with [], Some _ => None | _, _ => Some o end.

(** With the lock, a patch succeeds only if the object is as it was read. *)
Class NodeClassAPILaws (A : Type) `{NodeClassAPI A} := {
  patch_finalizers_frame (a : A) o o' n :
    n ≠ no_Name o → nodeclasses (patch_finalizers o o' a).1 !! n = nodeclasses a !! n;
  patch_finalizers_Ok (a : A) o o' o'' :
    (patch_finalizers o o' a).2 = Ok o'' →
    nodeclasses a !! no_Name o = Some o ∧ o'' = with_finalizers (no_Finalizers o') o ∧
    nodeclasses (patch_finalizers o o' a).1 !! no_Name o = settle_object o'';
  patch_finalizers_Err (a : A) o o' e :
    (patch_finalizers o o' a).2 = Err e → nodeclasses (patch_finalizers o o' a).1 = nodeclasses a;
  patch_status_frame (a : A) o o' n :
    n ≠ no_Name o → nodeclasses (patch_status o o' a).1 !! n = nodeclasses a !! n;
  patch_status_Ok (a : A) o o' o'' :
    (patch_status o o' a).2 = Ok o'' →
    nodeclasses a !! no_Name o = Some o ∧ o'' = with_class (with_status (Status (no_class o')) (no_class o)) o ∧
    nodeclasses (patch_status o o' a).1 !! no_Name o = Some o'';
  patch_status_Err (a : A) o o' e :
    (patch_status o o' a).2 = Err e → nodeclasses (patch_status o o' a).1 = nodeclasses a;
  patch_annotations_frame (a : A) o m n :
    n ≠ no_Name o → nodeclasses (patch_annotations o m a).1 !! n = nodeclasses a !! n;
  patch_annotations_Ok (a : A) o m o'' :
    (patch_annotations o m a).2 = Ok o'' →
    ∃ o0, nodeclasses a !! no_Name o = Some o0 ∧
      o'' = with_class (with_nc_annotations (merge_patch (nc_Annotations (no_class o)) m (nc_Annotations (no_class o0)))
                          (no_class o0)) o0 ∧
      nodeclasses (patch_annotations o m a).1 !! no_Name o = Some o'';
  patch_annotations_Err (a : A) o m e :
    (patch_annotations o m a).2 = Err e → nodeclasses (patch_annotations o m a).1 = nodeclasses a;
}.

(** ** The hash controller *)

(** The NodeClaims of a NodeClass ([nodeclaimutils.ForNodeClass]). *)
Definition claims_of_class `{SchedulingTypes} {K} `{!KubeAPI NodeClaim K} (name : string) (k : K) :
    result kube_error (list NodeClaim) :=
  match kList NodeClaim k with
  | Ok l => Ok (filter (λ c, ncl_NodeClassRef c = Some name) l)
  | Err e => Err e
  end.

Definition ConditionTypeDrifted := "Drifted".

Section hash.
Context `{SchedulingTypes} {A K : Type} `{NodeClassAPI A} `{!KubeAPI NodeClaim K}.
(** [nodeClass.Hash(caBundle)] *)
Variable Hash : EC2NodeClass Z → string.

Definition hash_annotations (hash : string) (m : gmap string string) : gmap string string :=
  <[AnnotationEC2NodeClassHash := hash]> (<[AnnotationEC2NodeClassHashVersion := EC2NodeClassHashVersion]> m).

(** The new annotations of a NodeClaim: the hash is left to one that has drifted. *)
Definition migrated (nc : EC2NodeClass Z) (claim : NodeClaim) : NodeClaim :=
  let m := <[AnnotationEC2NodeClassHashVersion := EC2NodeClassHashVersion]> (ncl_Annotations claim) in
  obj_with (ncl_Labels claim)
    (if decide (ncl_Conditions claim !! ConditionTypeDrifted = None)
     then <[AnnotationEC2NodeClassHash := Hash nc]> m else m) claim.
(** A NodeClaim of the current version is left alone. *)
Definition migrate (nc : EC2NodeClass Z) (claim : NodeClaim) (k : K) : K * option kube_error :=
  if decide (default "" (ncl_Annotations claim !! AnnotationEC2NodeClassHashVersion) = EC2NodeClassHashVersion) then
    (k, None)
  else match kPatch claim (migrated nc claim) k with
       | (k, Ok _) => (k, None)
       | (k, Err e) => (k, ignore_kube_not_found (Some e))
       end.
Fixpoint migrate_all (nc : EC2NodeClass Z) (l : list NodeClaim) (k : K) : K * list kube_error :=
  match l with
  | [] => (k, [])
  | claim :: l' =>
      let '(k, e) := migrate nc claim k in
      let '(k, es) := migrate_all nc l' k in
      (k, option_list e ++ es)
  end.
Definition updateNodeClaimHash (nc : EC2NodeClass Z) (k : K) : K * list kube_error :=
  match claims_of_class (nc_Name nc) k with
  | Err e => (k, [e])
  | Ok l => migrate_all nc l k
  end.

(** The NodeClaims, the NodeClasses and the errors. *)
Definition Reconcile_hash (o : NodeClassObject) (st : K * A) : (K * A) * list kube_error :=
  let '(k, a) := st in
  let nc := no_class o in
  let '(k, errs) :=
    if decide (default "" (nc_Annotations nc !! AnnotationEC2NodeClassHashVersion) ≠ EC2NodeClassHashVersion)
    then updateNodeClaimHash nc k else (k, []) in
  match errs with
  | [] =>
      let m := hash_annotations (Hash nc) (nc_Annotations nc) in
      if decide (m = nc_Annotations nc) then (k, a, [])
      else match patch_annotations o m a with
           | (a, Ok _) => (k, a, [])
           | (a, Err e) => (k, a, [e])
           end
  | _ => (k, a, errs)
  end.
End hash.

(** ** The main controller *)

(** What the providers answer in a round. *)
Record Answers `{SchedulingTypes} := {
  an_amis : result ami_error (list Image);
  an_reservations : result error (list Ec2CapacityReservation);
  an_placement_group : option PlacementGroup * option error;
  an_subnets : result error (list EC2Subnet);
  an_groups : result error (list EC2SecurityGroup);
}.

(** The validation of a NodeClass: a round of it, and forgetting what it remembers. *)
Class ValidationReconciler (V : Type) := {
  vr_Reconcile : EC2NodeClass Z → V → option (V * (EC2NodeClass Z * (Result * option reconcile_error)));
  vr_clear : EC2NodeClass Z → V → V;
}.
#[global] Hint Mode ValidationReconciler ! : typeclass_instances.
(** A round changes the condition ValidationSucceeded and, outside the status, what a launch
    may change. *)
Class ValidationReconcilerLaws `{ConditionSet} (V : Type) `{ValidationReconciler V} := {
  vr_judged nc (v v' : V) o :
    vr_Reconcile nc v = Some (v', o) →
    ∃ nc', nc_Name nc' = nc_Name nc ∧ nc_Generation nc' = nc_Generation nc ∧ Status nc' = Status nc ∧ judged nc' o.1;
}.

(** The result of a round, or its errors. *)
Inductive round_result := Done (r : Result) | Failed (errs : list reconcile_error).

Section controller.
Context `{IR : ImageRequirements} `{ConditionSet} {A K W C CR CP CN W2 C2 V : Type}.
Context `{NodeClassAPI A} `{!KubeAPI NodeClaim K} `{IAMAPI W} `{GoCache IamProfile C} `{GoCache error CR}.
Context `{GoCache unit CP} `{GoCache string CN} `{LaunchTemplateAPI W2} `{GoCache EC2LaunchTemplate C2}.
Context `{ValidationReconciler V}.
Variable now : Z.
Variable ClusterName region : string.
Variable IsolatedVPC ReservedCapacity : bool.
(** [InstanceProfileName] of the round, [LegacyInstanceProfileName] of a NodeClass, and the
    regular expression of profile names. *)
Variable newProfileName : string.
Variable LegacyInstanceProfileName : EC2NodeClass Z → string.
Variable iamInstanceProfileNameRegex : string → bool.
Variable NodeSelectorRequirements : Requirements → list NodeSelectorRequirement.
Variable RequeueImmediately : Z.
(** [result.Min] of the core library. *)
Variable Min : list Result → Result.

Abbreviation NodeClass := (EC2NodeClass Z).
Abbreviation outcome := (NodeClass * (Result * option reconcile_error))%type.

(** The API server with its NodeClasses and its NodeClaims, and the state of the providers. *)
Record ControllerState := {
  cs_api : A;
  cs_claims : K;
  cs_profiles : ProfileReconciler W C CR CP CN;
  cs_templates : LTProvider W2 C2;
  cs_validation : V;
}.
Definition with_api (a : A) (s : ControllerState) : ControllerState :=
  {| cs_api := a; cs_claims := cs_claims s; cs_profiles := cs_profiles s; cs_templates := cs_templates s;
     cs_validation := cs_validation s |}.
Definition with_profiles_state (p : ProfileReconciler W C CR CP CN) (s : ControllerState) : ControllerState :=
  {| cs_api := cs_api s; cs_claims := cs_claims s; cs_profiles := p; cs_templates := cs_templates s;
     cs_validation := cs_validation s |}.
Definition with_templates (p : LTProvider W2 C2) (s : ControllerState) : ControllerState :=
  {| cs_api := cs_api s; cs_claims := cs_claims s; cs_profiles := cs_profiles s; cs_templates := p;
     cs_validation := cs_validation s |}.
Definition with_validation (v : V) (s : ControllerState) : ControllerState :=
  {| cs_api := cs_api s; cs_claims := cs_claims s; cs_profiles := cs_profiles s; cs_templates := cs_templates s;
     cs_validation := v |}.

(** *** The reconcilers, in order; [None] is a panic *)

Definition reconciler : Type := NodeClass → ControllerState → option (ControllerState * outcome).
Definition stateless (f : NodeClass → outcome) : reconciler := λ nc s, Some (s, f nc).
Definition profile_reconciler : reconciler := λ nc s,
  let '(p, (nc, e)) := Reconcile_profile now ClusterName region newProfileName nc (cs_profiles s) in
  Some (with_profiles_state p s, (nc, (no_result, RetryError <$> e))).
Definition validation_reconciler : reconciler := λ nc s,
  '(v, o) ← vr_Reconcile nc (cs_validation s);
  Some (with_validation v s, o).
Definition reconcilers (an : Answers) : list reconciler :=
  [stateless (Reconcile_ami NodeSelectorRequirements (an_amis an))]
  ++ (if ReservedCapacity
      then [stateless (Reconcile_capacityreservation now RequeueImmediately (an_reservations an))] else [])
  ++ [stateless (Reconcile_placementgroup (an_placement_group an).1 (an_placement_group an).2);
      stateless (Reconcile_subnet (an_subnets an));
      stateless (Reconcile_securitygroup (an_groups an));
      profile_reconciler; validation_reconciler].

(** All of them run; the results and the errors are collected. *)
Fixpoint run_reconcilers (rs : list reconciler) (nc : NodeClass) (s : ControllerState) :
    option (ControllerState * NodeClass * list Result * list reconcile_error) :=
  match rs with
  | [] => Some (s, nc, [], [])
  | r :: rs' =>
      '(s, (nc, (res, e))) ← r nc s;
      '(s, nc, results, errs) ← run_reconcilers rs' nc s;
      Some (s, nc, res :: results, option_list e ++ errs)
  end.

(** *** The round *)

Definition patch_error (e : kube_error) : round_result :=
  if is_conflict e then Done requeue else Failed [RetryError (kube_cause e)].

(** The object to go on with, or the result. *)
Definition add_finalizer (o : NodeClassObject) (s : ControllerState) : ControllerState * (round_result + NodeClassObject) :=
  if decide (TerminationFinalizer ∈ no_Finalizers o) then (s, inr o)
  else
    let o' := with_finalizers (no_Finalizers o ++ [TerminationFinalizer]) o in
    match patch_finalizers o o' (cs_api s) with
    | (a, Ok o'') => (with_api a s, inr o'')
    | (a, Err e) => (with_api a s, if is_kube_not_found e then inr o' else inl (patch_error e))
    end.

Definition round_end (results : list Result) (errs : list reconcile_error) : round_result :=
  match errs with [] => Done (Min results) | _ => Failed errs end.
Definition update_status (o : NodeClassObject) (nc : NodeClass) (results : list Result) (errs : list reconcile_error)
    (s : ControllerState) : ControllerState * round_result :=
  if decide (nc = no_class o) then (s, round_end results errs)
  else match patch_status o (with_class nc o) (cs_api s) with
       | (a, Ok _) => (with_api a s, round_end results errs)
       | (a, Err e) =>
           (with_api a s,
            if is_conflict e then Done requeue
            else round_end results (errs ++ option_list (RetryError ∘ kube_cause <$> ignore_kube_not_found (Some e))))
       end.

(** *** Deleting a NodeClass *)

Fixpoint delete_profiles (l : list IamProfile) (p : Profiles W C CR CP) : Profiles W C CR CP * option error :=
  match l with
  | [] => (p, None)
  | pr :: l' =>
      match InstanceProfile.Delete_ now (ip_Name pr) p with
      | (p, Some e) => (p, Some (wrap "deleting instance profile" e))
      | (p, None) => delete_profiles l' p
      end
  end.
Definition profile_path (nc : NodeClass) : string := FormatPath ["karpenter"; region; ClusterName; nc_UID nc].
Definition cleanupInstanceProfiles (nc : NodeClass) (p : Profiles W C CR CP) : Profiles W C CR CP * option error :=
  match ListProfiles (profile_path nc) p with
  | Err e => (p, Some (wrap "listing instance profiles" e))
  | Ok l => delete_profiles l p
  end.
Definition isValidIAMInstanceProfileName (name : string) : bool :=
  bool_decide (0 < String.length name)%nat && bool_decide (String.length name ≤ 128)%nat
  && iamInstanceProfileNameRegex name.
Definition cleanupLegacyInstanceProfile (nc : NodeClass) (p : Profiles W C CR CP) :
    Profiles W C CR CP * option error :=
  let name := LegacyInstanceProfileName nc in
  if isValidIAMInstanceProfileName name then
    match InstanceProfile.Delete_ now name p with
    | (p, Some e) => (p, Some (wrap "deleting instance profile" e))
    | (p, None) => (p, None)
    end
  else (p, None).
Definition cleanupManagedInstanceProfiles (nc : NodeClass) (p : Profiles W C CR CP) :
    Profiles W C CR CP * option error :=
  if IsolatedVPC then (p, None)
  else match cleanupInstanceProfiles nc p with
       | (p, Some e) => (p, Some e)
       | (p, None) => cleanupLegacyInstanceProfile nc p
       end.

(** The finalizer is removed last; on a conflict the round is repeated. *)
Definition remove_finalizer (o : NodeClassObject) (s : ControllerState) : ControllerState * round_result :=
  let o' := with_finalizers (filter (λ f, f ≠ TerminationFinalizer) (no_Finalizers o)) o in
  match patch_finalizers o o' (cs_api s) with
  | (a, Ok _) => (with_validation (vr_clear (no_class o) (cs_validation s)) (with_api a s), Done no_result)
  | (a, Err e) =>
      (with_api a s,
       if is_conflict e then Done requeue
       else if is_kube_not_found e then Done no_result
       else Failed [RetryError (wrap "removing termination finalizer" (kube_cause e))])
  end.
Definition finalize (o : NodeClassObject) (s : ControllerState) : ControllerState * round_result :=
  let nc := no_class o in
  let failed e := Failed [RetryError e] in
  if decide (TerminationFinalizer ∉ no_Finalizers o) then (s, Done no_result)
  else match claims_of_class (nc_Name nc) (cs_claims s) with
       | Err e => (s, failed (wrap "listing nodeclaims that are using nodeclass" (kube_cause e)))
       | Ok (_ :: _) => (s, Done (requeue_after (10 * Minute)))
       | Ok [] =>
           let '(p, e) := cleanupManagedInstanceProfiles nc (pc_profiles (cs_profiles s)) in
           let s := with_profiles_state (with_profiles p (cs_profiles s)) s in
           match e with
           | Some e => (s, failed e)
           | None =>
               let '(lp, errs) := DeleteAll ClusterName nc (cs_templates s) in
               let s := with_templates lp s in
               match errs with
               | [] => remove_finalizer o s
               | _ => (s, failed (errorf ("deleting launch templates, " +:+ JoinWith "; " (Error <$> errs))))
               end
           end
       end.

Definition Reconcile_nodeclass (an : Answers) (o : NodeClassObject) (s : ControllerState) :
    option (ControllerState * round_result) :=
  if decide (is_Some (nc_DeletionTimestamp (no_class o))) then Some (finalize o s)
  else match add_finalizer o s with
       | (s, inl r) => Some (s, r)
       | (s, inr o) =>
           '(s, nc, results, errs) ← run_reconcilers (reconcilers an) (no_class o) s;
           Some (update_status o nc results errs s)
       end.
End controller.
Arguments ControllerState : clear implicits.

(** ** The status a round leaves *)

Section status.
Context `{IR : ImageRequirements} `{ConditionSet}.
Abbreviation NodeClass := (EC2NodeClass Z).
Implicit Types nc : NodeClass.
Variable now : Z.
Variable NodeSelectorRequirements : Requirements → list NodeSelectorRequirement.
Variable RequeueImmediately : Z.

(** The parts of the status, each with its condition. *)
Inductive part := PAmis | PReservations | PPlacement | PSubnets | PGroups.
#[global] Instance part_eq_dec : EqDecision part.
Proof. solve_decision. Defined.
Definition part_condition (p : part) : string :=
  match p with
  | PAmis => ConditionTypeAMIsReady
  | PReservations => ConditionTypeCapacityReservationsReady
  | PPlacement => ConditionTypePlacementGroupReady
  | PSubnets => ConditionTypeSubnetsReady
  | PGroups => ConditionTypeSecurityGroupsReady
  end.
Record view := {
  vw_AMIs : list AMI;
  vw_Reservations : list ApiV1.CapacityReservation;
  vw_Subnets : list ApiV1.Subnet;
  vw_Groups : list ApiV1.SecurityGroup;
  vw_Condition : ConditionStatus;
}.
Definition part_view (p : part) nc : view :=
  let st := Status nc in
  {| vw_AMIs := match p with PAmis => AMIs_ st | _ => [] end;
     vw_Reservations := match p with PReservations => CapacityReservations_ st | _ => [] end;
     vw_Subnets := match p with PSubnets => Subnets st | _ => [] end;
     vw_Groups := match p with PGroups => SecurityGroups st | _ => [] end;
     vw_Condition := condition (part_condition p) nc |}.

Lemma condition_with t t' c r m nc :
  t' ≠ ConditionReady → t ≠ ConditionReady →
  condition t (with_condition t' c r m nc) = if decide (t = t') then c else condition t nc.
Proof. intros Ht' Ht. case_decide as E; [subst; by apply condition_eq|by apply condition_ne]. Qed.

Lemma part_not_ready p : part_condition p ≠ ConditionReady.
Proof. by destruct p. Qed.

Lemma part_condition_ne p q : q ≠ p → part_condition q ≠ part_condition p.
Proof. intros Hq. destruct q, p; (done || discriminate). Qed.

(** A step that works on one part: it leaves the others and the spec, and what it makes of the
    part depends on the part and the spec only. *)
Record works_on (p : part) (f : NodeClass → NodeClass) : Prop := {
  wo_keeps q nc : q ≠ p → part_view q (f nc) = part_view q nc;
  wo_part nc1 nc2 : part_view p nc1 = part_view p nc2 → Spec nc1 = Spec nc2 → part_view p (f nc1) = part_view p (f nc2);
  wo_spec nc : Spec (f nc) = Spec nc ∧ nc_Name (f nc) = nc_Name nc;
}.

(** Setting the condition of a part, after writing the part. *)
Lemma works_on_condition p (set : NodeClass → NodeClass) c reason message :
  works_on p set → works_on p (λ nc, with_condition (part_condition p) c reason message (set nc)).
Proof.
  intros [Hk Hp Hs]. split.
  - intros q nc Hq. specialize (Hk q nc Hq). unfold part_view in *. simpl. injection Hk as Ha Hr Hsn Hg Hc.
    rewrite condition_with, decide_False by (apply part_not_ready || by apply part_condition_ne).
    by rewrite Ha, Hr, Hsn, Hg, Hc.
  - intros nc1 nc2 Hv Hsp. specialize (Hp nc1 nc2 Hv Hsp). unfold part_view in *. simpl. injection Hp as Ha Hr Hsn Hg Hc.
    rewrite !condition_with, !decide_True by (apply part_not_ready || done). by rewrite Ha, Hr, Hsn, Hg.
  - intros nc. apply Hs.
Qed.

Lemma works_on_id p : works_on p (λ nc, nc).
Proof. split; auto. Qed.
Lemma works_on_set p set (v : ConditionStatus → view) :
  (∀ q nc, q ≠ p → part_view q (set nc) = part_view q nc) →
  (∀ nc, part_view p (set nc) = v (vw_Condition (part_view p nc))) →
  (∀ nc, Spec (set nc) = Spec nc ∧ nc_Name (set nc) = nc_Name nc) → works_on p set.
Proof. intros Hk Hp Hs. split; [done| |done]. intros nc1 nc2 Hv _. by rewrite !Hp, Hv. Qed.
Lemma works_on_set_AMIs l : works_on PAmis (set_AMIs l).
Proof. eapply (works_on_set _ _ (λ c, Build_view l [] [] [] c)); [by intros [] ??|done|done]. Qed.
Lemma works_on_set_Subnets l : works_on PSubnets (set_Subnets l).
Proof. eapply (works_on_set _ _ (λ c, Build_view [] [] l [] c)); [by intros [] ??|done|done]. Qed.
Lemma works_on_set_SecurityGroups l : works_on PGroups (set_SecurityGroups l).
Proof. eapply (works_on_set _ _ (λ c, Build_view [] [] [] l c)); [by intros [] ??|done|done]. Qed.
Lemma works_on_set_CapacityReservations l : works_on PReservations (set_CapacityReservations l).
Proof. eapply (works_on_set _ _ (λ c, Build_view [] l [] [] c)); [by intros [] ??|done|done]. Qed.
#[local] Hint Resolve works_on_id works_on_set_AMIs works_on_set_Subnets works_on_set_SecurityGroups
  works_on_set_CapacityReservations : nodeclass.

Lemma works_on_ami amis : works_on PAmis (λ nc, (Reconcile_ami NodeSelectorRequirements amis nc).1).
Proof.
  unfold Reconcile_ami. destruct amis as [[|i l]|[]]; cbn [fst];
    try apply (works_on_condition PAmis); auto with nodeclass.
Qed.
Lemma works_on_subnet subnets : works_on PSubnets (λ nc, (Reconcile_subnet subnets nc).1).
Proof.
  unfold Reconcile_subnet. destruct subnets as [[|i l]|e]; cbn [fst];
    try apply (works_on_condition PSubnets); auto with nodeclass.
Qed.
Lemma works_on_reservation reservations :
  works_on PReservations (λ nc, (Reconcile_capacityreservation now RequeueImmediately reservations nc).1).
Proof.
  unfold Reconcile_capacityreservation. destruct reservations as [[|i l]|e]; cbn [fst];
    try apply (works_on_condition PReservations); auto with nodeclass.
Qed.
Lemma works_on_if p (b : NodeClass → bool) f g :
  (∀ nc1 nc2, Spec nc1 = Spec nc2 → b nc1 = b nc2) → works_on p f → works_on p g →
  works_on p (λ nc, if b nc then f nc else g nc).
Proof.
  intros Hb [Fk Fp Fs] [Gk Gp Gs]. split.
  - intros q nc Hq. destruct (b nc); auto.
  - intros nc1 nc2 Hv Hs. rewrite (Hb _ _ Hs). destruct (b nc2); auto.
  - intros nc. destruct (b nc); auto.
Qed.

Lemma works_on_group groups : works_on PGroups (λ nc, (Reconcile_securitygroup groups nc).1).
Proof.
  unfold Reconcile_securitygroup. destruct groups as [l|e]; [|cbn [fst]; auto with nodeclass].
  set (b nc := bool_decide (l = [] ∧ SecurityGroupSelectorTerms (Spec nc) ≠ [])).
  set (f nc := SetFalse ConditionTypeSecurityGroupsReady "SecurityGroupsNotFound"
    "SecurityGroupSelector did not match any SecurityGroups" (set_SecurityGroups [] nc)).
  set (g nc := SetTrue ConditionTypeSecurityGroupsReady
    (set_SecurityGroups (group_of_ec2 <$> merge_sort group_before l) nc)).
  assert (works_on PGroups (λ nc, if b nc then f nc else g nc)) as [Hk Hp Hs].
  { apply works_on_if; [intros nc1 nc2 E; unfold b; by rewrite E|
      apply (works_on_condition PGroups); auto with nodeclass..]. }
  assert (∀ nc, (if decide (l = [] ∧ SecurityGroupSelectorTerms (Spec nc) ≠ []) then f nc else g nc) =
                if b nc then f nc else g nc) as Hb by (intros nc; unfold b; by case_decide as Hd; case_bool_decide).
  assert (∀ nc : NodeClass, (if decide (l = [] ∧ SecurityGroupSelectorTerms (Spec nc) ≠ [])
    then (f nc, (requeue_after Minute, None)) else (g nc, (requeue_after (5 * Minute), @None reconcile_error))).1 =
    if b nc then f nc else g nc) as Hfst by (intros nc; rewrite <- Hb; by case_decide).
  split.
  - intros q nc Hq. rewrite Hfst. by apply Hk.
  - intros nc1 nc2 Hv E. rewrite !Hfst. by apply Hp.
  - intros nc. rewrite Hfst. apply Hs.
Qed.

Lemma works_on_placement pg e : works_on PPlacement (λ nc, (Reconcile_placementgroup pg e nc).1).
Proof.
  assert (∀ c r m, works_on PPlacement (λ nc, with_condition (part_condition PPlacement) c r m nc)) as Hc
    by (intros; apply (works_on_condition PPlacement (λ nc, nc)); auto with nodeclass).
  unfold Reconcile_placementgroup. destruct e as [e|]; [apply Hc|]. destruct pg as [pg|]; [apply Hc|]. split.
  - intros q nc Hq. destruct (PlacementGroupSelector_ (Spec nc)); by apply Hc.
  - intros nc1 nc2 Hv E. rewrite E. unfold SetTrue, SetFalse. destruct (PlacementGroupSelector_ (Spec nc2)); by apply Hc.
  - intros nc. by destruct (PlacementGroupSelector_ (Spec nc)).
Qed.

(** The profile of the NodeClass and its condition are no part of these. *)
Lemma part_view_profile p name nc : part_view p (with_profile name nc) = part_view p nc.
Proof. by destruct p. Qed.
Lemma part_view_other p t c r m nc :
  t ≠ ConditionReady → (∀ q, t ≠ part_condition q) → part_view p (with_condition t c r m nc) = part_view p nc.
Proof.
  intros Ht Hq. unfold part_view. f_equal. rewrite condition_with by (apply part_not_ready || done).
  by rewrite decide_False by (intros E; by eapply Hq).
Qed.

Lemma part_view_judged p nc nc' : judged nc nc' → part_view p nc' = part_view p nc.
Proof. intros [|c r m]; [done|]. apply part_view_other; [done|]. by intros []. Qed.
Lemma part_view_Status p nc nc' : Status nc' = Status nc → part_view p nc' = part_view p nc.
Proof. unfold part_view, condition. by intros ->. Qed.
End status.

Section profile.
Context `{ConditionSet} {W C CR CP CN : Type} `{IAMAPI W} `{GoCache IamProfile C} `{GoCache error CR}.
Context `{GoCache unit CP} `{GoCache string CN}.

Lemma Reconcile_profile_view now ClusterName region newProfileName nc (c : ProfileReconciler W C CR CP CN) p :
  part_view p (Reconcile_profile now ClusterName region newProfileName nc c).2.1 = part_view p nc.
Proof.
  assert (∀ nc' : EC2NodeClass Z, part_view p (SetTrue ConditionTypeInstanceProfileReady nc') = part_view p nc') as Hr.
  { intros nc'. apply part_view_other; [done|]. by intros []. }
  unfold Reconcile_profile. case_decide; cbn [snd fst]; [|by rewrite Hr, part_view_profile].
  set (nc1 := match GoCache.Get _ _ _ with Some _ => _ | None => nc end).
  assert (part_view p nc1 = part_view p nc) as H1' by (unfold nc1; destruct (GoCache.Get _ _ _); [apply part_view_profile|done]).
  destruct (current_role _ _ _) as [s [role|e]]; [|done]. case_decide; [|by cbn; rewrite Hr].
  unfold recreate. destruct (Create _ _ _ _ _ _) as [s1 [e|]]; [done|]. cbn. by rewrite Hr, part_view_profile.
Qed.
End profile.

(** ** Rounds *)

Section rounds.
Context `{IR : ImageRequirements} `{ConditionSet} {A K W C CR CP CN W2 C2 V : Type}.
Context `{NodeClassAPILaws A} `{!KubeAPI NodeClaim K} `{!KubeLaws NodeClaim K} `{IAMLaws W} `{GoCacheLaws IamProfile C}.
Context `{GoCacheLaws error CR} `{GoCacheLaws unit CP} `{GoCacheLaws string CN}.
Context `{LaunchTemplateAPILaws W2} `{GoCacheLaws EC2LaunchTemplate C2} `{ValidationReconcilerLaws V}.
Variable now : Z.
Variable ClusterName region : string.
Variable IsolatedVPC ReservedCapacity : bool.
Variable newProfileName : string.
Variable LegacyInstanceProfileName : EC2NodeClass Z → string.
Variable iamInstanceProfileNameRegex : string → bool.
Variable NodeSelectorRequirements : Requirements → list NodeSelectorRequirement.
Variable RequeueImmediately : Z.
Variable Min : list Result → Result.
Abbreviation NodeClass := (EC2NodeClass Z).
Abbreviation St := (ControllerState A K W C CR CP CN W2 C2 V).
Abbreviation all_reconcilers := (reconcilers now ClusterName region ReservedCapacity newProfileName
  NodeSelectorRequirements RequeueImmediately).
Abbreviation reconcile := (Reconcile_nodeclass now ClusterName region IsolatedVPC ReservedCapacity newProfileName
  LegacyInstanceProfileName iamInstanceProfileNameRegex NodeSelectorRequirements RequeueImmediately Min).
Abbreviation finalize_ := (finalize now ClusterName region IsolatedVPC LegacyInstanceProfileName
  iamInstanceProfileNameRegex).
Implicit Types (nc : NodeClass) (s : St) (an : Answers) (o : NodeClassObject).

(** What the reconciler of a part alone makes of a NodeClass. *)
Definition alone an (p : part) nc : NodeClass :=
  match p with
  | PAmis => (Reconcile_ami NodeSelectorRequirements (an_amis an) nc).1
  | PReservations =>
      if ReservedCapacity then (Reconcile_capacityreservation now RequeueImmediately (an_reservations an) nc).1 else nc
  | PPlacement => (Reconcile_placementgroup (an_placement_group an).1 (an_placement_group an).2 nc).1
  | PSubnets => (Reconcile_subnet (an_subnets an) nc).1
  | PGroups => (Reconcile_securitygroup (an_groups an) nc).1
  end.
Lemma works_on_alone an p : works_on p (alone an p).
Proof.
  destruct p; simpl.
  - apply works_on_ami.
  - unfold alone. destruct ReservedCapacity; [apply works_on_reservation|apply works_on_id].
  - apply works_on_placement.
  - apply works_on_subnet.
  - apply works_on_group.
Qed.

Lemma run_cons r rs nc s s' nc' results errs :
  run_reconcilers (r :: rs) nc s = Some (s', nc', results, errs) →
  ∃ s1 nc1 res e results' errs', r nc s = Some (s1, (nc1, (res, e))) ∧
    run_reconcilers rs nc1 s1 = Some (s', nc', results', errs').
Proof.
  simpl. intros ([s1 [nc1 [res e]]] & Hr & ([[[s2 nc2] results2] errs2] & Hrun & [= <- <- _ _])%bind_Some)%bind_Some.
  eauto 10.
Qed.

(** The last two reconcilers leave the parts alone. *)
Lemma run_last nc s s' nc' results errs :
  run_reconcilers [profile_reconciler now ClusterName region newProfileName; validation_reconciler] nc s =
    Some (s', nc', results, errs) →
  (∀ p, part_view p nc' = part_view p nc) ∧ cs_api s' = cs_api s ∧ cs_claims s' = cs_claims s.
Proof.
  intros (s1 & nc1 & res & e & results' & errs' & Hp & Hrun)%run_cons.
  apply run_cons in Hrun as (s2 & nc2 & res2 & e2 & results2 & errs2 & Hv & Hr).
  assert (s2 = s' ∧ nc2 = nc') as [-> ->] by (simpl in Hr; split; congruence). clear Hr.
  unfold profile_reconciler in Hp. destruct (Reconcile_profile _ _ _ _ nc _) as [pr [nc3 e3]] eqn:Ep.
  injection Hp as <- <- _ _. unfold validation_reconciler in Hv.
  apply bind_Some in Hv as ([v [nc4 r4]] & Hv & [= <- <- _]). apply vr_judged in Hv as (nc5 & _ & _ & Hst & Hj).
  split; [|done]. intros p. rewrite (part_view_judged _ _ _ Hj), (part_view_Status _ _ _ Hst).
  pose proof (Reconcile_profile_view now ClusterName region newProfileName nc (cs_profiles s) p) as Hpv. by rewrite Ep in Hpv.
Qed.

(** Steps on different parts, one after the other: each part is as its own step alone leaves
    it. *)
Lemma works_on_list an (ps : list part) nc :
  NoDup ps →
  let nc' := foldl (λ nc p, alone an p nc) nc ps in
  Spec nc' = Spec nc ∧ nc_Name nc' = nc_Name nc ∧
  ∀ p, part_view p nc' = if decide (p ∈ ps) then part_view p (alone an p nc) else part_view p nc.
Proof.
  revert nc. induction ps as [|q ps IH]; intros nc Hnd; cbn [foldl].
  { split_and!; [done..|]. intros p. rewrite decide_False; [done|set_solver]. }
  apply NoDup_cons in Hnd as [Hq Hnd]. destruct (works_on_alone an q) as [Hk _ Hs].
  destruct (IH (alone an q nc) Hnd) as (IHs & IHn & IHp), (Hs nc) as [Hs1 Hs2].
  split_and!; [congruence..|]. intros p. rewrite IHp. clear IHp. destruct (decide (p = q)) as [->|Hne].
  { by rewrite decide_False, decide_True by set_solver. }
  destruct (decide (p ∈ ps)) as [Hin|Hin].
  - rewrite decide_True by set_solver. apply (works_on_alone an p); [by apply Hk|done].
  - rewrite decide_False by set_solver. by apply Hk.
Qed.

Lemma run_stateless f rs nc s s' nc' results errs :
  run_reconcilers (stateless f :: rs) nc s = Some (s', nc', results, errs) →
  ∃ results' errs', run_reconcilers rs (f nc).1 s = Some (s', nc', results', errs').
Proof.
  intros (s1 & nc1 & res & e & results' & errs' & Hf & Hrun)%run_cons. unfold stateless in Hf.
  injection Hf as <- Hf. rewrite Hf. eauto.
Qed.

(** A pass over the reconcilers: every part is as its own reconciler alone makes it. *)
Lemma run_parts an nc s s' nc' results errs :
  run_reconcilers (all_reconcilers an) nc s = Some (s', nc', results, errs) →
  (∀ p, part_view p nc' = part_view p (alone an p nc)) ∧ cs_api s' = cs_api s ∧ cs_claims s' = cs_claims s.
Proof.
  intros Hrun.
  assert (∃ results' errs', run_reconcilers [profile_reconciler now ClusterName region newProfileName; validation_reconciler]
    (foldl (λ nc p, alone an p nc) nc [PAmis; PReservations; PPlacement; PSubnets; PGroups]) s =
    Some (s', nc', results', errs')) as (results' & errs' & Hlast).
  { unfold reconcilers in Hrun. apply run_stateless in Hrun as (? & ? & Hrun). cbn [foldl]. unfold alone.
    destruct ReservedCapacity; simpl app in Hrun; repeat apply run_stateless in Hrun as (? & ? & Hrun); eauto. }
  apply run_last in Hlast as (Hlast & Ha & Hc). split_and!; [|done..]. intros p. rewrite Hlast.
  destruct (works_on_list an [PAmis; PReservations; PPlacement; PSubnets; PGroups] nc) as (_ & _ & Hp).
  { repeat constructor; set_solver. }
  rewrite Hp, decide_True; [done|]. destruct p; set_solver.
Qed.

(** Adding the finalizer changes no NodeClass but in its finalizers. *)
Lemma add_finalizer_spec o s s' x :
  add_finalizer o s = (s', x) →
  (∀ n o', nodeclasses (cs_api s') !! n = Some o' →
     ∃ o0, nodeclasses (cs_api s) !! n = Some o0 ∧ no_class o' = no_class o0) ∧
  cs_claims s' = cs_claims s ∧ (∀ o1, x = inr o1 → no_class o1 = no_class o).
Proof.
  unfold add_finalizer. case_decide; [intros [= <- <-]; naive_solver|].
  set (o' := with_finalizers _ o). destruct (patch_finalizers o o' (cs_api s)) as [a [o1|e]] eqn:Ep; intros [= <- <-].
  - pose proof (patch_finalizers_Ok (cs_api s) o o' o1) as Hok. pose proof (λ n, patch_finalizers_frame (cs_api s) o o' n) as Hf.
    rewrite Ep in Hok, Hf. destruct (Hok eq_refl) as (Hst & -> & Hset). split_and!; [|done|by intros ? [= <-]].
    intros n o2. simpl. destruct (decide (n = no_Name o)) as [->|Hn]; [|simpl in Hf; rewrite (Hf _ Hn); eauto].
    simpl in Hset. rewrite Hset. intros Hs. exists o. split; [done|]. unfold settle_object in Hs.
    simpl in Hs. by repeat case_match; simplify_eq.
  - pose proof (patch_finalizers_Err (cs_api s) o o' e) as He. rewrite Ep in He. simpl in He.
    split_and!; [simpl; rewrite He by done; eauto|done|]. intros o1. by destruct (is_kube_not_found e); intros [= <-].
Qed.

Lemma update_status_spec o nc results errs s s' r n o' :
  update_status Min o nc results errs s = (s', r) → nodeclasses (cs_api s') !! n = Some o' →
  nodeclasses (cs_api s) !! n = Some o' ∨
  n = no_Name o ∧ nodeclasses (cs_api s) !! n = Some o ∧ Status (no_class o') = Status nc.
Proof.
  unfold update_status. case_decide; [intros [= <- _]; auto|].
  destruct (patch_status o (with_class nc o) (cs_api s)) as [a [o1|e]] eqn:Ep; intros [= <- _]; simpl.
  - pose proof (patch_status_Ok (cs_api s) o (with_class nc o) o1) as Hok.
    pose proof (patch_status_frame (cs_api s) o (with_class nc o) n) as Hf. rewrite Ep in Hok, Hf.
    destruct (Hok eq_refl) as (Hst & -> & Hset). simpl in Hset, Hf.
    destruct (decide (n = no_Name o)) as [->|Hn]; [|rewrite (Hf Hn); auto]. rewrite Hset. intros [= <-]. auto.
  - pose proof (patch_status_Err (cs_api s) o (with_class nc o) e) as He. rewrite Ep in He. simpl in He.
    rewrite He by done. auto.
Qed.

(** *** Deleting a NodeClass *)

Abbreviation iam_ s n := (profiles (pf_iam (pc_profiles (cs_profiles s))) !! n).

Lemma delete_profiles_spec l (p p' : Profiles W C CR CP) e :
  delete_profiles now l p = (p', e) →
  (∀ n, n ∉ ip_Name <$> l → untouched p p' n) ∧
  (e = None → ∀ n, n ∈ ip_Name <$> l → profiles (pf_iam p') !! n = None).
Proof.
  revert p. induction l as [|pr l IH]; intros p; cbn [delete_profiles].
  { intros [= <- <-]. split; [intros; apply untouched_refl|set_solver]. }
  destruct (InstanceProfile.Delete_ now (ip_Name pr) p) as [p1 [e1|]] eqn:Ed; apply Delete_spec in Ed as [Hu Hg].
  { intros [= <- <-]. split; [|done]. intros n Hn. apply Hu. set_solver. }
  intros Hl. destruct (IH _ Hl) as [IHu IHg]. split.
  { intros n Hn. eapply untouched_trans; [apply Hu|apply IHu]; set_solver. }
  intros He n Hn. destruct (decide (n ∈ ip_Name <$> l)) as [Hin|Hin]; [by apply IHg|].
  rewrite (un_iam _ _ _ (IHu _ Hin)). rewrite fmap_cons in Hn. apply elem_of_cons in Hn as [->|]; [by apply Hg|done].
Qed.

(** No profile of the NodeClass is left, under its path or under its legacy name. *)
Definition profiles_gone nc (p : Profiles W C CR CP) : Prop :=
  (∀ n pr, profiles (pf_iam p) !! n = Some pr → HasPrefix (ip_Path pr) (profile_path ClusterName region nc) = false) ∧
  (isValidIAMInstanceProfileName iamInstanceProfileNameRegex (LegacyInstanceProfileName nc) = true →
   profiles (pf_iam p) !! LegacyInstanceProfileName nc = None).

Lemma cleanup_spec nc (p p' : Profiles W C CR CP) e :
  cleanupManagedInstanceProfiles now ClusterName region IsolatedVPC LegacyInstanceProfileName iamInstanceProfileNameRegex
    nc p = (p', e) →
  (∀ n pr, profiles (pf_iam p) !! n = Some pr → HasPrefix (ip_Path pr) (profile_path ClusterName region nc) = false →
     n ≠ LegacyInstanceProfileName nc → untouched p p' n) ∧
  (e = None → IsolatedVPC = false → profiles_gone nc p').
Proof.
  unfold cleanupManagedInstanceProfiles. destruct IsolatedVPC.
  { intros [= <- <-]. split; [intros; apply untouched_refl|done]. }
  unfold cleanupInstanceProfiles. destruct (ListProfiles _ p) as [l|e1] eqn:El.
  2: { intros [= <- <-]. split; [intros; apply untouched_refl|done]. }
  pose proof (ListProfiles_spec _ _ _ El) as Hl.
  destruct (delete_profiles now l p) as [p1 e1] eqn:Ed; apply delete_profiles_spec in Ed as [Hu Hg].
  assert (∀ n pr, profiles (pf_iam p) !! n = Some pr →
    HasPrefix (ip_Path pr) (profile_path ClusterName region nc) = false → n ∉ ip_Name <$> l) as Hout.
  { intros n pr Hn Hpre (pr' & -> & [Hpr' Hpre']%Hl)%list_elem_of_fmap. congruence. }
  assert (e1 = None → ∀ n pr, profiles (pf_iam p1) !! n = Some pr →
    HasPrefix (ip_Path pr) (profile_path ClusterName region nc) = false) as Hpath.
  { intros -> n pr Hn. destruct (decide (n ∈ ip_Name <$> l)) as [Hin|Hin]; [by rewrite Hg in Hn|].
    rewrite (un_iam _ _ _ (Hu _ Hin)) in Hn. apply not_true_iff_false. intros Hpre. apply Hin, list_elem_of_fmap.
    exists pr. pose proof (profiles_Name _ _ _ Hn) as Hname. split; [done|]. apply Hl. by rewrite Hname. }
  destruct e1 as [e1|]; [intros [= <- <-]; split; [eauto|done]|]. specialize (Hpath eq_refl).
  unfold cleanupLegacyInstanceProfile. destruct (isValidIAMInstanceProfileName _ _) eqn:Ev.
  2: { intros [= <- <-]. split; [eauto|]. by split; [|rewrite Ev]. }
  destruct (InstanceProfile.Delete_ _ _ p1) as [p2 e2] eqn:Ed; apply Delete_spec in Ed as [Hu2 Hg2]. intros Hres.
  assert (p' = p2 ∧ (e = None → e2 = None)) as [-> He2] by (destruct e2; by injection Hres as <- <-). split.
  { intros n pr Hn Hpre Hne. eapply untouched_trans; [apply Hu; by eapply Hout|by apply Hu2]. }
  intros ->. specialize (He2 eq_refl). subst e2. split; [|auto]. intros n pr Hn.
  destruct (decide (n = LegacyInstanceProfileName nc)) as [->|Hne]; [by rewrite Hg2 in Hn|].
  rewrite (un_iam _ _ _ (Hu2 _ Hne)) in Hn. by eapply Hpath.
Qed.

(** Everything a NodeClass was used by or has made is gone. *)
Record cleaned nc s s' : Prop := {
  cl_claims n claim : stored NodeClaim (cs_claims s') !! n = Some claim → ncl_NodeClassRef claim ≠ Some (nc_Name nc);
  cl_profiles : IsolatedVPC = false → profiles_gone nc (pc_profiles (cs_profiles s'));
  cl_templates page lt :
    Ok page ∈ (DescribePages [cluster_filter ClusterName; nodeclass_filter nc] (lp_ec2 (cs_templates s))).2 → lt ∈ page →
    templates (lp_ec2 (cs_templates s')) (elt_LaunchTemplateName lt) = None;
}.

Lemma claims_of_class_none nc (k : K) :
  claims_of_class (nc_Name nc) k = Ok [] →
  ∀ n claim, stored NodeClaim k !! n = Some claim → ncl_NodeClassRef claim ≠ Some (nc_Name nc).
Proof.
  unfold claims_of_class. destruct (kList NodeClaim k) as [l|] eqn:El; [|done]. intros [= Hf] n claim Hc Href.
  assert (claim ∈ l) as Hin.
  { apply (kList_current k l claim El). by rewrite (stored_Name _ _ _ Hc). }
  assert (claim ∈ filter (λ c, ncl_NodeClassRef c = Some (nc_Name nc)) l) as Hin' by by apply list_elem_of_filter.
  rewrite Hf in Hin'. by apply not_elem_of_nil in Hin'.
Qed.

Definition without_finalizer o : NodeClassObject :=
  with_finalizers (filter (λ f, f ≠ TerminationFinalizer) (no_Finalizers o)) o.

Lemma remove_finalizer_spec o s s' r :
  remove_finalizer o s = (s', r) →
  cs_claims s' = cs_claims s ∧ cs_profiles s' = cs_profiles s ∧ cs_templates s' = cs_templates s ∧
  (∀ n, n ≠ no_Name o → nodeclasses (cs_api s') !! n = nodeclasses (cs_api s) !! n) ∧
  (nodeclasses (cs_api s') = nodeclasses (cs_api s) ∨
   r = Done no_result ∧ nodeclasses (cs_api s) !! no_Name o = Some o ∧
   nodeclasses (cs_api s') !! no_Name o = settle_object (without_finalizer o)).
Proof.
  unfold remove_finalizer. change (with_finalizers _ o) with (without_finalizer o).
  pose proof (λ n, patch_finalizers_frame (cs_api s) o (without_finalizer o) n) as Hf.
  destruct (patch_finalizers o (without_finalizer o) (cs_api s)) as [a [o1|e]] eqn:Ep; intros [= <- <-]; simpl in *.
  - pose proof (patch_finalizers_Ok (cs_api s) o (without_finalizer o) o1) as Hok. rewrite Ep in Hok.
    destruct (Hok eq_refl) as (Hst & -> & Hset). split_and!; auto.
  - pose proof (patch_finalizers_Err (cs_api s) o (without_finalizer o) e) as He. rewrite Ep in He.
    split_and!; auto.
Qed.


(** *** What holds of every stored status *)

Abbreviation sorted_ids l := (Sorted String.le l).
(** What a part says of itself: images and subnets that are ready exist; security groups and
    reservations are in the order of their IDs. *)
Definition part_sound (p : part) (v : view) : Prop :=
  match p with
  | PAmis => vw_Condition v = ConditionTrue → vw_AMIs v ≠ []
  | PSubnets => vw_Condition v = ConditionTrue → vw_Subnets v ≠ []
  | PGroups => sorted_ids (sg_ID <$> vw_Groups v)
  | PReservations => sorted_ids (cr_ID <$> vw_Reservations v)
  | PPlacement => True
  end.
Definition status_sound nc : Prop := ∀ p, part_sound p (part_view p nc).

Lemma set_false p reason message nc : vw_Condition (part_view p (SetFalse (part_condition p) reason message nc)) = ConditionFalse.
Proof. unfold SetFalse. simpl. by rewrite condition_with, decide_True by (apply part_not_ready || done). Qed.

Lemma sorted_fmap {B : Type} (R : relation B) (id : B → string) l :
  (∀ x y, R x y → String.le (id x) (id y)) → Sorted R l → sorted_ids (id <$> l).
Proof.
  intros HR. induction 1 as [|x l Hl IH Hx]; simpl; constructor; [done|]. destruct Hx; simpl; constructor; auto.
Qed.
Lemma sorted_omap {B D : Type} (id : B → string) (id' : D → string) (f : B → option D) l :
  (∀ x y, f x = Some y → id' y = id x) → sorted_ids (id <$> l) → sorted_ids (id' <$> omap f l).
Proof.
  intros Hf Hs. apply Sorted_StronglySorted in Hs; [|apply _].
  apply StronglySorted_Sorted. induction l as [|x l IH]; simpl; [constructor|].
  rewrite fmap_cons in Hs. inversion Hs as [|?? Hs' Hall]; subst.
  destruct (f x) as [y|] eqn:E; simpl; [|auto]. constructor; [auto|]. rewrite (Hf _ _ E).
  rewrite Forall_fmap, Forall_forall. rewrite Forall_fmap, Forall_forall in Hall.
  intros z (x' & Hx' & Hz)%list_elem_of_omap. simpl. rewrite (Hf _ _ Hz). by apply Hall.
Qed.
Lemma FromEC2_ID t r cr : CapacityReservationFromEC2 t r = Ok cr → cr_ID cr = CapacityReservationId r.
Proof.
  unfold CapacityReservationFromEC2. destruct (negb _); [done|].
  destruct (CapacityReservationTypeFromEC2 _); simpl; [|done]. by intros [= <-].
Qed.

Lemma before_sorted {B : Type} (R : relation B) `{!∀ x y, Decision (R x y), !Total R} (id : B → string) l :
  (∀ x y, R x y → String.le (id x) (id y)) → sorted_ids (id <$> merge_sort R l).
Proof. intros HR. by apply (sorted_fmap R), Sorted_merge_sort. Qed.
#[local] Instance group_before_total : Total group_before.
Proof. intros x y. apply String.le_total. Qed.
#[local] Instance reservation_before_total : Total reservation_before.
Proof. intros x y. apply String.le_total. Qed.

Lemma alone_sound an p nc : part_sound p (part_view p nc) → part_sound p (part_view p (alone an p nc)).
Proof.
  intros Hs. destruct p; [| |done| |]; unfold alone.
  - unfold Reconcile_ami. destruct (an_amis an) as [[|i l]|[]]; cbn [fst]; try done;
      intros Hc; by rewrite (set_false PAmis) in Hc.
  - destruct ReservedCapacity; [|done]. unfold Reconcile_capacityreservation.
    destruct (an_reservations an) as [[|r l]|e]; cbn [fst]; [constructor| |done].
    apply (sorted_omap CapacityReservationId); [|by apply (before_sorted reservation_before)].
    intros x y. destruct (CapacityReservationFromEC2 now x) eqn:E; intros [= <-]. by apply FromEC2_ID in E.
  - unfold Reconcile_subnet. destruct (an_subnets an) as [[|i l]|e]; cbn [fst]; [| |done].
    + intros Hc. by rewrite (set_false PSubnets) in Hc.
    + intros _. simpl. intros E%fmap_nil_inv. by apply (f_equal length) in E; rewrite merge_sort_Permutation in E.
  - unfold Reconcile_securitygroup. destruct (an_groups an) as [l|e]; [|done]. case_decide; cbn [fst]; [constructor|].
    simpl. rewrite <- list_fmap_compose. by apply (before_sorted group_before).
Qed.

Lemma finalize_classes o s s' r n o' :
  finalize_ o s = (s', r) → nodeclasses (cs_api s') !! n = Some o' →
  ∃ o0, nodeclasses (cs_api s) !! n = Some o0 ∧ no_class o' = no_class o0.
Proof.
  unfold finalize. case_decide; [intros [= <- _]; eauto|].
  destruct (claims_of_class _ _) as [[|c l]|e]; [|by intros [= <- _]; eauto..].
  destruct (cleanupManagedInstanceProfiles _ _ _ _ _ _ _ _) as [p [e|]]; [by intros [= <- _]; eauto|].
  destruct (DeleteAll _ _ _) as [lp [|]]; [|by intros [= <- _]; eauto]. intros (_ & _ & _ & Hf & Hor)%remove_finalizer_spec.
  simpl in Hf, Hor. destruct Hor as [->|(_ & Hst & Hset)]; [eauto|].
  destruct (decide (n = no_Name o)) as [->|Hn]; [|rewrite Hf by done; eauto]. rewrite Hset. unfold settle_object.
  intros E. exists o. split; [done|]. by repeat case_match; simplify_eq.
Qed.

(** C33: The parts of the status do not depend on each other.  Whatever the providers answer and
    whichever reconciler or patch fails, after a round every stored NodeClass has the status it
    had, except that the one of the round may have the status in which the images, the
    reservations, the placement group, the subnets and the security groups, with their
    conditions, are each what its own reconciler alone makes of the NodeClass read.  So a stored
    status stays sound: images and subnets that are ready exist, and security groups and
    reservations are in order. *)
Theorem Reconcile_resolves an o s s' r n o' :
  reconcile an o s = Some (s', r) → nodeclasses (cs_api s') !! n = Some o' →
  ∃ o0, nodeclasses (cs_api s) !! n = Some o0 ∧
    (Status (no_class o') = Status (no_class o0) ∨
     n = no_Name o ∧ no_class o0 = no_class o ∧
     ∀ p, part_view p (no_class o') = part_view p (alone an p (no_class o))) ∧
    (status_sound (no_class o0) → status_sound (no_class o')).
Proof.
  intros Hrun Ho'.
  assert (∃ o0, nodeclasses (cs_api s) !! n = Some o0 ∧
    (Status (no_class o') = Status (no_class o0) ∨ n = no_Name o ∧ no_class o0 = no_class o ∧
     ∀ p, part_view p (no_class o') = part_view p (alone an p (no_class o)))) as (o0 & Ho0 & Hor).
  2: { exists o0. split_and!; [done..|]. intros Hs p. destruct Hor as [Hst|(_ & E & Hp)].
       - rewrite (part_view_Status _ _ _ Hst). apply Hs.
       - rewrite Hp. apply alone_sound. rewrite <- E. apply Hs. }
  unfold Reconcile_nodeclass in Hrun. case_decide.
  { injection Hrun as Hf. destruct (finalize_classes _ _ _ _ _ _ Hf Ho') as (o0 & Ho0 & E). exists o0. rewrite E. auto. }
  destruct (add_finalizer o s) as [s1 [r1|o1]] eqn:Ea; apply add_finalizer_spec in Ea as (Hkept & _ & Ho1).
  { injection Hrun as <- _. destruct (Hkept _ _ Ho') as (o0 & Ho0 & E). exists o0. rewrite E. auto. }
  apply bind_Some in Hrun as ([[[s2 nc2] results] errs] & Hrun & [= Hup]).
  apply run_parts in Hrun as (Hparts & Ha & _). specialize (Ho1 o1 eq_refl).
  destruct (update_status_spec _ _ _ _ _ _ _ _ _ Hup Ho') as [Hs|(-> & Hs & Hst)]; rewrite Ha in Hs;
    destruct (Hkept _ _ Hs) as (o0 & Ho0 & E); exists o0; (split; [done|]); [by rewrite E; left|right].
  split_and!; [unfold no_Name; by rewrite Ho1|congruence|]. intros p. rewrite (part_view_Status p _ _ Hst), Hparts.
  by rewrite Ho1.
Qed.
End rounds.

(** ** Hashes *)

Section hashes.
Context `{SchedulingTypes} {A K : Type} `{NodeClassAPILaws A} `{!KubeAPI NodeClaim K} `{!KubeLaws NodeClaim K}.
Variable Hash : EC2NodeClass Z → string.
Implicit Types (nc : EC2NodeClass Z) (k : K) (a : A) (claim : NodeClaim) (o : NodeClassObject).
Abbreviation stored_ k n := (stored NodeClaim k !! n).

(** Annotations of an older version. *)
Definition stale (m : gmap string string) : Prop :=
  default "" (m !! AnnotationEC2NodeClassHashVersion) ≠ EC2NodeClassHashVersion.

Lemma migrated_patch nc claim : 
  obj_with (merge_patch (ncl_Labels claim) (ncl_Labels (migrated Hash nc claim)) (ncl_Labels claim))
    (merge_patch (ncl_Annotations claim) (ncl_Annotations (migrated Hash nc claim)) (ncl_Annotations claim)) claim =
  migrated Hash nc claim.
Proof. rewrite !merge_patch_current. unfold migrated. by case_decide. Qed.
Lemma migrated_again nc claim :
  obj_with (merge_patch (ncl_Labels claim) (ncl_Labels (migrated Hash nc claim)) (ncl_Labels (migrated Hash nc claim)))
    (merge_patch (ncl_Annotations claim) (ncl_Annotations (migrated Hash nc claim))
       (ncl_Annotations (migrated Hash nc claim))) (migrated Hash nc claim) = migrated Hash nc claim.
Proof.
  assert (∀ m m' : gmap string string, merge_patch m m' m' = m') as E.
  { intros m m'. apply map_eq. intros i. rewrite merge_patch_lookup. by case_decide. }
  rewrite !E. unfold migrated. by case_decide.
Qed.


(** The stored NodeClaim is as it was listed, or migrated already. *)
Definition listed nc claim k : Prop :=
  stored_ k (ncl_Name claim) = Some claim ∨ stored_ k (ncl_Name claim) = Some (migrated Hash nc claim).

Lemma migrate_other nc claim k n : n ≠ ncl_Name claim → stored_ (migrate Hash nc claim k).1 n = stored_ k n.
Proof.
  intros Hn. unfold migrate. case_decide; [done|].
  pose proof (kPatch_frame claim (migrated Hash nc claim) k n) as Hf.
  destruct (kPatch _ _ _) as [k' [c|e]]; by apply Hf.
Qed.
Lemma migrate_listed nc claim k k' e :
  listed nc claim k → migrate Hash nc claim k = (k', e) →
  (stored_ k' (ncl_Name claim) = stored_ k (ncl_Name claim) ∨
   stale (ncl_Annotations claim) ∧ stored_ k' (ncl_Name claim) = Some (migrated Hash nc claim)) ∧
  (e = None → stale (ncl_Annotations claim) → stored_ k' (ncl_Name claim) = Some (migrated Hash nc claim)).
Proof.
  unfold migrate. intros Hl. case_decide as Hd; [intros [= <- <-]; by split; [left|]|].
  destruct (kPatch claim (migrated Hash nc claim) k) as [k1 [c|e1]] eqn:Ep; intros [= <- <-].
  - destruct (kPatch_Ok claim (migrated Hash nc claim) k c) as (o0 & Ho0 & Hset & ->); [by rewrite Ep|].
    rewrite Ep in Hset. simpl in Ho0, Hset. unfold listed in Hl. rewrite Ho0 in Hl.
    assert (stored_ k1 (ncl_Name claim) = Some (migrated Hash nc claim)) as E.
    { rewrite Hset. f_equal. destruct Hl as [[= ->]|[= ->]]; [exact (migrated_patch nc claim)|exact (migrated_again nc claim)]. }
    split; [by right|done].
  - pose proof (kPatch_Err claim (migrated Hash nc claim) k e1) as He. rewrite Ep in He. simpl in He.
    split; [left; by apply He|]. intros Hi _. destruct e1 as [e1|e1|e1|e1]; [|done..].
    pose proof (kPatch_NotFound claim (migrated Hash nc claim) k e1) as Hnone. rewrite Ep in Hnone. simpl in Hnone.
    specialize (Hnone eq_refl).
    unfold listed in Hl. rewrite Hnone in Hl. naive_solver.
Qed.

Lemma migrate_all_spec nc claim l k k' es :
  (∀ c, c ∈ l → ncl_Name c = ncl_Name claim → c = claim) → listed nc claim k → migrate_all Hash nc l k = (k', es) →
  (stored_ k' (ncl_Name claim) = stored_ k (ncl_Name claim) ∨
   claim ∈ l ∧ stale (ncl_Annotations claim) ∧ stored_ k' (ncl_Name claim) = Some (migrated Hash nc claim)) ∧
  (es = [] → claim ∈ l → stale (ncl_Annotations claim) → stored_ k' (ncl_Name claim) = Some (migrated Hash nc claim)).
Proof.
  revert k es. induction l as [|c l IH]; intros k es Hu Hl; cbn [migrate_all]; [intros [= <- <-]; set_solver|].
  destruct (migrate Hash nc c k) as [k1 e] eqn:Em. destruct (migrate_all Hash nc l k1) as [k2 es'] eqn:Ea. intros [= <- <-].
  assert (∀ c, c ∈ l → ncl_Name c = ncl_Name claim → c = claim) as Hu' by set_solver.
  destruct (decide (ncl_Name claim = ncl_Name c)) as [En|Hn].
  - assert (c = claim) as -> by (apply Hu; [left|done]). destruct (migrate_listed _ _ _ _ _ Hl Em) as [H1c Hok].
    destruct (IH k1 es' Hu') as [IHc IHok]; [|done|].
    { unfold listed in *. destruct H1c as [->|[_ ->]]; auto. }
    assert (claim ∈ claim :: l) as Hin by left. split.
    { destruct IHc as [->|(_ & Hst & E)]; [destruct H1c as [->|[Hst E]]|]; [by left|by right..]. }
    intros [He ->]%app_eq_nil _ Hst. destruct e; [done|]. specialize (Hok eq_refl Hst).
    destruct IHc as [->|(_ & _ & ->)]; done.
  - pose proof (migrate_other nc c k _ Hn) as Hk1. rewrite Em in Hk1. simpl in Hk1.
    destruct (IH k1 es' Hu') as [IHc IHok]; [|done|].
    { unfold listed in *. by rewrite Hk1. }
    rewrite <- Hk1. split; [destruct IHc as [E|(Hin & Hst & E)]; [by left|right; split_and!; [by right|done..]]|].
    intros [_ ->]%app_eq_nil Hin. apply IHok; [done|]. apply elem_of_cons in Hin as [->|]; done.
Qed.

Lemma claims_of_class_listed name k l claim :
  claims_of_class name k = Ok l → claim ∈ l ↔ stored_ k (ncl_Name claim) = Some claim ∧ ncl_NodeClassRef claim = Some name.
Proof.
  unfold claims_of_class. destruct (kList NodeClaim k) as [l'|] eqn:El; [|done]. intros [= <-].
  rewrite list_elem_of_filter. rewrite (kList_current k l' claim El). tauto.
Qed.

(** The NodeClaims a round may migrate. *)
Definition of_old_version nc claim : Prop :=
  ncl_NodeClassRef claim = Some (nc_Name nc) ∧ stale (nc_Annotations nc) ∧ stale (ncl_Annotations claim).

Lemma hash_claims nc k k' (errs : list kube_error) n claim :
  (if decide (stale (nc_Annotations nc)) then updateNodeClaimHash Hash nc k else (k, [])) = (k', errs) →
  stored_ k n = Some claim →
  (stored_ k' n = Some claim ∨ of_old_version nc claim ∧ stored_ k' n = Some (migrated Hash nc claim)) ∧
  (errs = [] → of_old_version nc claim → stored_ k' n = Some (migrated Hash nc claim)).
Proof.
  intros Hrun Hc. pose proof (stored_Name _ _ _ Hc) as Hn. simpl in Hn. subst n. unfold of_old_version.
  case_decide as Hst; [|injection Hrun as <- <-; naive_solver]. unfold updateNodeClaimHash in Hrun.
  destruct (claims_of_class _ k) as [l|e] eqn:El; [|injection Hrun as <- <-; naive_solver].
  pose proof (λ c, claims_of_class_listed _ _ _ c El) as Hl.
  destruct (migrate_all_spec nc claim l k k' errs) as [H1c Hok]; [|by left|done|].
  { intros c [Hin _]%Hl E. rewrite E in Hin. naive_solver. }
  rewrite Hc in H1c. split; [destruct H1c as [->|(Hin%Hl & Hs & ->)]; naive_solver|].
  intros -> (Href & _ & Hs). apply Hok; [done| |done]. by apply Hl.
Qed.

Lemma migrated_not_drifted nc claim :
  ncl_Conditions claim !! ConditionTypeDrifted = None →
  areStaticFieldsDrifted (migrated Hash nc claim)
    (with_nc_annotations (hash_annotations (Hash nc) (nc_Annotations nc)) nc) = "".
Proof.
  intros Hd. unfold areStaticFieldsDrifted, migrated, hash_annotations. rewrite decide_True by done. simpl.
  rewrite !lookup_insert_eq, !(lookup_insert_ne _ AnnotationEC2NodeClassHash) by done. rewrite !lookup_insert_eq.
  rewrite decide_False by (intros Hx; by apply Hx). rewrite decide_False; [done|]. intros Hx. by apply Hx.
Qed.

(** A new version of the hash makes no NodeClaim drift.  A round of the hash controller
    changes only NodeClaims of its NodeClass, and of those only, when the NodeClass has the hash
    of another version, the ones of another version.  Without an error these all have the
    current version, and, unless they had drifted before, the hash of the NodeClass, which then
    carries both itself, so that they are not in static drift; one that had drifted keeps its
    hash. *)
Theorem hash_upgrade o k a k' a' errs n claim :
  let nc := no_class o in
  Reconcile_hash Hash o (k, a) = ((k', a'), errs) →
  nodeclasses a !! no_Name o = Some o → stored_ k n = Some claim →
  (stored_ k' n = Some claim ∨ of_old_version nc claim ∧ stored_ k' n = Some (migrated Hash nc claim)) ∧
  (errs = [] → ∃ o' claim', nodeclasses a' !! no_Name o = Some o' ∧ stored_ k' n = Some claim' ∧
     no_class o' = with_nc_annotations (hash_annotations (Hash nc) (nc_Annotations nc)) nc ∧
     (of_old_version nc claim →
      if decide (ncl_Conditions claim !! ConditionTypeDrifted = None)
      then areStaticFieldsDrifted claim' (no_class o') = ""
      else ncl_Annotations claim' !! AnnotationEC2NodeClassHash = ncl_Annotations claim !! AnnotationEC2NodeClassHash)).
Proof.
  intros nc Hrun Ho Hc. unfold Reconcile_hash in Hrun. fold nc in Hrun.
  destruct (if decide (default _ _ ≠ _) then _ else _) as [k1 errs1] eqn:Ek.
  assert (k1 = k' ∧ (errs = [] → errs1 = [])) as [-> Herr].
  { destruct errs1; [|by injection Hrun as <- _ <-]. case_decide; [by injection Hrun as <- _ _|].
    destruct (patch_annotations _ _ _) as [a1 [|]]; by injection Hrun as <- _ _. }
  destruct (hash_claims nc k k' errs1 n claim Ek Hc) as [Hor Hold]. split; [done|]. intros ->.
  specialize (Hold (Herr eq_refl)). rewrite (Herr eq_refl) in Hrun.
  assert (∃ o', nodeclasses a' !! no_Name o = Some o' ∧
    no_class o' = with_nc_annotations (hash_annotations (Hash nc) (nc_Annotations nc)) nc) as (o' & Ho' & Enc).
  { clear Ek. case_decide as Hm.
    - injection Hrun as <-. exists o. split; [done|]. rewrite Hm. unfold nc. by destruct (no_class o).
    - pose proof (patch_annotations_Ok a o (hash_annotations (Hash nc) (nc_Annotations nc))) as Hok.
      destruct (patch_annotations _ _ _) as [a1 [o1|e]]; [|done]. injection Hrun as <-.
      destruct (Hok _ eq_refl) as (o0 & Ho0 & -> & Hset). rewrite Ho in Ho0. injection Ho0 as <-.
      eexists. split; [exact Hset|]. unfold nc. simpl. by rewrite merge_patch_current. }
  assert (∃ claim', stored_ k' n = Some claim') as [claim' Hs] by (destruct Hor as [|[_ ?]]; eauto).
  exists o', claim'. split_and!; [done..|]. intros Hv. specialize (Hold Hv). rewrite Hs in Hold. injection Hold as ->.
  rewrite Enc. destruct (decide (ncl_Conditions claim !! ConditionTypeDrifted = None)) as [Hd|Hd].
  - by apply migrated_not_drifted.
  - unfold migrated. rewrite decide_False by done. simpl. by rewrite lookup_insert_ne.
Qed.
End hashes.

(** ** The validation is one *)

Section validator.
Context `{IR : ImageRequirements} `{Inhabited Requirements} `{QuantityParser} `{ConditionSet}.
Context {W C : Type} `{!ValidationDeps W} `{!ValidationLaws W} `{GoCacheLaws validationCacheEntry C}.
Variable decode_map : string → option (gmap string string).
Variable decode_int : string → option Z.
Variable isJSONString : string → bool.
Variable JSONZero : string.
Variable UnmarshalStrict : KubeletConfiguration → result error (list error).
Variable ParseFloat : string → option (option float64).
Variable ParseDuration : string → option Z.
Variable Unmarshal : KubeletConfiguration → result error ParsedKubeletConfig.
Variable Intersects : Requirements → Requirements → bool.
Variable AddLabels : gmap string string → Requirements → Requirements.
Variable Hash : cacheKeyInput → string.
Variable opts : ValidationOptions.
Variable now : Z.

Definition Validator_reconciler : ValidationReconciler (Validator W C) := {|
  vr_Reconcile nc v :=
    Validation.Reconcile decode_map decode_int isJSONString JSONZero UnmarshalStrict ParseFloat ParseDuration Unmarshal
      Intersects AddLabels Hash opts now nc v;
  vr_clear nc v := {| va_world := va_world v; va_cache := clearCacheEntries now nc (va_cache v) |};
|}.
Lemma Validator_laws : @ValidationReconcilerLaws _ (Validator W C) Validator_reconciler.
Proof.
  split. intros nc v v' o Hr. simpl in Hr.
  pose proof (Reconcile_judged _ _ _ _ _ _ _ _ _ _ _ _ _ _ _ _ _ Hr) as (nc' & Hl & Hj).
  exists nc'. destruct (launched_keeps _ _ Hl) as (Hn & Hg & Hs). auto.
Qed.
End validator.

(** ** One API server *)

Module RefNodeClasses.
#[local] Instance object_eq_dec : EqDecision NodeClassObject.
Proof. solve_decision. Defined.
(** The NodeClasses by name. *)
Record t := { classes : gmap string NodeClassObject; named n o : classes !! n = Some o → no_Name o = n }.
Lemma no_classes_named n o : (∅ : gmap string NodeClassObject) !! n = Some o → no_Name o = n.
Proof. by rewrite lookup_empty. Qed.
Definition empty : t := {| classes := ∅; named := no_classes_named |}.
Definition put (o : NodeClassObject) (a : t) : t.
Proof.
  refine {| classes := <[no_Name o := o]> (classes a) |}. intros n o' Ho.
  apply lookup_insert_Some in Ho as [[<- <-]|[_ Ho]]; [exact eq_refl|exact (named a _ _ Ho)].
Defined.
Definition remove (n : string) (a : t) : t.
Proof.
  refine {| classes := delete n (classes a) |}. intros n' o Ho.
  apply lookup_delete_Some in Ho as [_ Ho]. exact (named a _ _ Ho).
Defined.
Definition conflict {B} : result kube_error B := Err (KubeConflict (errorf "the object has been modified")).
Definition settle (o : NodeClassObject) (a : t) : t :=
  match settle_object o with Some _ => put o a | None => remove (no_Name o) a end.
Definition locked (o o' : NodeClassObject) (a : t) : t * result kube_error NodeClassObject :=
  match classes a !! no_Name o with
  | Some o0 => if decide (o0 = o) then (settle o' a, Ok o') else (a, conflict)
  | None => (a, Err (KubeNotFound (errorf "not found")))
  end.

#[global] Instance api : NodeClassAPI t := {|
  nodeclasses := classes;
  patch_finalizers o o' a := locked o (with_finalizers (no_Finalizers o') o) a;
  patch_status o o' a :=
    match classes a !! no_Name o with
    | Some o0 =>
        let o'' := with_class (with_status (Status (no_class o')) (no_class o)) o in
        if decide (o0 = o) then (put o'' a, Ok o'') else (a, conflict)
    | None => (a, Err (KubeNotFound (errorf "not found")))
    end;
  patch_annotations o m a :=
    match classes a !! no_Name o with
    | Some o0 =>
        let o'' := with_class (with_nc_annotations (merge_patch (nc_Annotations (no_class o)) m
                                                      (nc_Annotations (no_class o0))) (no_class o0)) o0 in
        (put o'' a, Ok o'')
    | None => (a, Err (KubeNotFound (errorf "not found")))
    end;
|}.

Lemma settle_eq o a : classes (settle o a) !! no_Name o = settle_object o.
Proof.
  unfold settle. destruct (settle_object o) as [o'|] eqn:E; simpl; [|apply lookup_delete_eq].
  rewrite lookup_insert_eq. unfold settle_object in E. by repeat case_match; simplify_eq.
Qed.
Lemma settle_ne o a n : n ≠ no_Name o → classes (settle o a) !! n = classes a !! n.
Proof. intros Hn. unfold settle. destruct (settle_object o); simpl; [by apply lookup_insert_ne|by apply lookup_delete_ne]. Qed.

#[global] Instance api_laws : NodeClassAPILaws t.
Proof.
  split; simpl.
  - intros a o o' n Hn. unfold locked. destruct (classes a !! _) as [o0|]; [|done]. case_decide; [|done].
    simpl. by apply settle_ne.
  - intros a o o' o''. unfold locked. destruct (classes a !! _) as [o0|] eqn:E; [|done]. case_decide as Hd; [|done].
    subst o0. intros [= <-]. split; [done|]. split; [done|]. apply (settle_eq (with_finalizers (no_Finalizers o') o)).
  - intros a o o' e. unfold locked. destruct (classes a !! _) as [o0|]; [|done]. by case_decide.
  - intros a o o' n Hn. destruct (classes a !! no_Name o) as [o0|]; [|done]. case_decide; [|done]. simpl.
    by apply lookup_insert_ne.
  - intros a o o' o''. destruct (classes a !! no_Name o) as [o0|] eqn:E; [|done]. case_decide as Hd; [|done].
    subst o0. intros [= <-]. split; [done|]. split; [done|]. apply lookup_insert_eq.
  - intros a o o' e. destruct (classes a !! no_Name o) as [o0|]; [|done]. by case_decide.
  - intros a o m n Hn. destruct (classes a !! no_Name o) as [o0|] eqn:E; [|done]. simpl.
    apply lookup_insert_ne. intros <-. apply Hn. exact (named a _ _ E).
  - intros a o m o''. destruct (classes a !! no_Name o) as [o0|] eqn:E; [|done]. intros [= <-]. exists o0.
    split; [done|]. split; [done|]. rewrite <- (named a _ _ E). exact (lookup_insert_eq _ _ _).
  - intros a o m e. by destruct (classes a !! no_Name o) as [o0|].
Qed.
End RefNodeClasses.

(** ** On concrete values *)

Section example.
#[local] Instance example_validation : ValidationReconciler (Validator (list string) (RefCache.t validationCacheEntry)) :=
  Validator_reconciler (ValidationDeps0 := example_deps false false [example_type]) (λ _, None) (λ _, None)
    (λ _, false) "0" (λ _, Ok []) (λ _, None) (λ _, None) (λ _, Ok empty_config) (λ _ _, true) (λ _ r, r) example_key
    example_options 0.
#[local] Instance example_validation_laws : ValidationReconcilerLaws (Validator (list string) (RefCache.t validationCacheEntry)).
Proof.
  apply (Validator_laws (ValidationDeps0 := example_deps false false [example_type])
    (ValidationLaws0 := example_deps_laws false false [example_type])).
Defined.

Abbreviation St0 := (ControllerState RefNodeClasses.t (RefKube.t NodeClaim) RefIAM.t (RefCache.t IamProfile)
  (RefCache.t error) (RefCache.t unit) (RefCache.t string) (list (string * bool)) (RefCache.t EC2LaunchTemplate)
  (Validator (list string) (RefCache.t validationCacheEntry))).

(** Two subnets and two groups, and no capacity reservations. *)
Definition example_answers : Answers := {|
  an_amis := Ok [{| im_Name := "al2023"; im_AmiID := "ami"; im_CreationDate := ""; im_Deprecated := false;
                    im_Requirements := ∅ |}];
  an_reservations := Ok [];
  an_placement_group := (None, None);
  an_subnets := Ok [{| es_SubnetId := Some "subnet-1"; es_AvailabilityZone := Some "a"; es_AvailabilityZoneId := Some "1";
                       es_AvailableIpAddressCount := Some 1 |};
                    {| es_SubnetId := Some "subnet-2"; es_AvailabilityZone := Some "b"; es_AvailabilityZoneId := Some "2";
                       es_AvailableIpAddressCount := Some 2 |}];
  an_groups := Ok [{| esg_GroupId := Some "sg-2"; esg_GroupName := None |};
                   {| esg_GroupId := Some "sg-1"; esg_GroupName := None |}];
|}.

(** A NodeClass on which nothing is resolved, and one that is being deleted. *)
Definition fresh : EC2NodeClass Z :=
  with_status {| Subnets := []; SecurityGroups := []; CapacityReservations_ := []; AMIs_ := []; InstanceProfile := "";
                 Conditions := ∅ |} example_class.
Definition example_object (deleted : option Z) : NodeClassObject :=
  {| no_class := {| nc_Name := nc_Name fresh; nc_UID := nc_UID fresh; nc_Generation := nc_Generation fresh;
                    nc_DeletionTimestamp := deleted; nc_Annotations := ∅; Spec := Spec fresh; Status := Status fresh |};
     no_Finalizers := match deleted with Some _ => [TerminationFinalizer] | None => [] end |}.
Definition example_claim (name class : string) (conditions : gmap string ConditionStatus) : NodeClaim :=
  {| ncl_Name := name; ncl_Labels := ∅; ncl_Annotations := {[ AnnotationEC2NodeClassHash := "old" ]};
     ncl_CreationTimestamp := 0; ncl_DeletionTimestamp := None; ncl_NodeClassRef := Some class; ncl_Requirements := ∅;
     ncl_Requests := ∅; ncl_ProviderID := ""; ncl_ImageID := ""; ncl_NodeName := name; ncl_Conditions := conditions;
     ncl_Capacity := ∅; ncl_Allocatable := ∅ |}.
Definition example_state (o : NodeClassObject) (claims : list NodeClaim) (w : RefIAM.t) : St0 := {|
  cs_api := RefNodeClasses.put o RefNodeClasses.empty;
  cs_claims := RefKube.of_list claims;
  cs_profiles := with_profiles (with_iam w (pc_profiles example_profiles)) example_profiles;
  cs_templates := {| lp_cache := New (5 * Minute); lp_ClusterCIDR := None; lp_ec2 := [("karpenter.k8s.aws/1", true)] |};
  cs_validation := example_validator;
|}.
Definition example_round_of (o : NodeClassObject) (s : St0) : option (St0 * round_result) :=
  Reconcile_nodeclass 0 "cluster" "region" false true "profile-1" (λ _, "legacy") (λ _, true) (λ _, []) 0
    (λ results, default no_result (head results)) example_answers o s.

(** The subnet with the most addresses is first, and the groups are in order. *)
Example fresh_round :
  option_map (λ r : St0 * round_result,
    (λ o, (sn_ID <$> Subnets (Status (no_class o)), sg_ID <$> SecurityGroups (Status (no_class o)),
           InstanceProfile (Status (no_class o)), condition ConditionTypeValidationSucceeded (no_class o),
           no_Finalizers o)) <$> nodeclasses (cs_api r.1) !! "default")
    (example_round_of (example_object None) (example_state (example_object None) [] RefIAM.empty)) =
  Some (Some (["subnet-2"; "subnet-1"], ["sg-1"; "sg-2"], "profile-1", ConditionTrue, [TerminationFinalizer])).
Proof. vm_compute. reflexivity. Qed.

Lemma Reconcile_resolves_witness :
  ∃ s' r o', example_round_of (example_object None) (example_state (example_object None) [] RefIAM.empty) = Some (s', r) ∧
    nodeclasses (cs_api s') !! "default" = Some o' ∧ status_sound (no_class o').
Proof.
  assert (is_Some (option_map (λ r : St0 * round_result, nodeclasses (cs_api r.1) !! "default")
    (example_round_of (example_object None) (example_state (example_object None) [] RefIAM.empty)) ≫= id)) as [o' Ho']
    by (vm_compute; eexists; reflexivity).
  destruct (example_round_of _ _) as [[s' r]|] eqn:E; [|discriminate Ho']. exists s', r, o'. split; [reflexivity|].
  split; [exact Ho'|].
  destruct (Reconcile_resolves 0 "cluster" "region" false true "profile-1" (λ _, "legacy") (λ _, true) (λ _, []) 0
    (λ results, default no_result (head results)) example_answers (example_object None)
    (example_state (example_object None) [] RefIAM.empty) s' r "default" o' E Ho') as (o0 & Ho0 & _ & Hs).
  apply Hs. vm_compute in Ho0. injection Ho0 as <-.
  intros []; [intros Hc; vm_compute in Hc; discriminate Hc|constructor|exact I|intros Hc; vm_compute in Hc; discriminate Hc|
              constructor].
Defined.

(** An account with a profile of the NodeClass, its legacy profile and one of another cluster. *)
Definition example_profile (name path : string) : IamProfile :=
  {| ip_Name := name; ip_Path := path; ip_Roles := []; ip_Tags := ∅ |}.
Definition example_account : RefIAM.t :=
  RefIAM.put "profile-1" (example_profile "profile-1" "/karpenter/region/cluster/uid/")
    (RefIAM.put "legacy" (example_profile "legacy" "/")
       (RefIAM.put "other" (example_profile "other" "/karpenter/region/other/uid/") RefIAM.empty)).
Definition example_deletion : option (St0 * round_result) :=
  example_round_of (example_object (Some 0))
    (example_state (example_object (Some 0)) [example_claim "claim" "other" ∅] example_account).


(** One NodeClaim that has drifted, and one that has not. *)
Definition example_hashes := Reconcile_hash (λ _, "new") (example_object None)
  (RefKube.of_list [example_claim "claim" "default" ∅;
                    example_claim "drifted" "default" {[ ConditionTypeDrifted := ConditionTrue ]}],
   RefNodeClasses.put (example_object None) RefNodeClasses.empty).

Lemma hash_upgrade_witness :
  example_hashes.2 = [] ∧
  ∃ o' claim', nodeclasses example_hashes.1.2 !! "default" = Some o' ∧
    stored NodeClaim example_hashes.1.1 !! "claim" = Some claim' ∧ areStaticFieldsDrifted claim' (no_class o') = "".
Proof.
  assert (example_hashes.2 = []) as He by (vm_compute; reflexivity). split; [exact He|].
  destruct example_hashes as [[k' a'] errs] eqn:E. unfold example_hashes in E.
  destruct (hash_upgrade (λ _, "new") (example_object None) _ _ k' a' errs "claim" (example_claim "claim" "default" ∅) E)
    as (_ & Hok); [vm_compute; reflexivity|vm_compute; reflexivity|].
  destruct (Hok He) as (o' & claim' & Ho' & Hc' & _ & Hd). exists o', claim'. split; [exact Ho'|]. split; [exact Hc'|].
  apply Hd. split; [reflexivity|]. split; vm_compute; discriminate.
Defined.
End example.
