(* ===== verification/InstanceTypeLabels.v ===== *)
(** * [pkg/providers/instancetype/types.go]: labels of instance types

    [computeRequirements] and [NewInstanceType].  A requirement here is the finite set of
    values of its key, the empty set being [DoesNotExist]; [NewRequirements] of the
    scheduling library turns the sets into requirements.  [None] is a panic.  The generated
    table of network bandwidths is a parameter. *)
From S2P Require Import Prelude GoStd ApiV1 Quantities Scheduling Compatibility Filters Launch InstanceTypes AmiFamily Resolver Offerings CloudProvider.

(** ** Names *)

Definition LabelInstanceHypervisor := "karpenter.k8s.aws/instance-hypervisor".
Definition LabelInstanceEncryptionInTransitSupported := "karpenter.k8s.aws/instance-encryption-in-transit-supported".
Definition LabelInstanceCategory := "karpenter.k8s.aws/instance-category".
Definition LabelInstanceCapabilityFlex := "karpenter.k8s.aws/instance-capability-flex".
Definition LabelInstanceFamily := "karpenter.k8s.aws/instance-family".
Definition LabelInstanceGeneration := "karpenter.k8s.aws/instance-generation".
Definition LabelInstanceLocalNVME := "karpenter.k8s.aws/instance-local-nvme".
Definition LabelInstanceCPUManufacturer := "karpenter.k8s.aws/instance-cpu-manufacturer".
Definition LabelInstanceCPUSustainedClockSpeedMhz := "karpenter.k8s.aws/instance-cpu-sustained-clock-speed-mhz".
Definition LabelInstanceEBSBandwidth := "karpenter.k8s.aws/instance-ebs-bandwidth".
Definition LabelInstanceNetworkBandwidth := "karpenter.k8s.aws/instance-network-bandwidth".
Definition LabelInstanceGPUName := "karpenter.k8s.aws/instance-gpu-name".
Definition LabelInstanceGPUManufacturer := "karpenter.k8s.aws/instance-gpu-manufacturer".
Definition LabelInstanceGPUMemory := "karpenter.k8s.aws/instance-gpu-memory".
Definition LabelInstanceAcceleratorName := "karpenter.k8s.aws/instance-accelerator-name".
Definition LabelInstanceAcceleratorManufacturer := "karpenter.k8s.aws/instance-accelerator-manufacturer".
Definition ResourcePrivateIPv4Address := "vpc.amazonaws.com/PrivateIPv4Address".

(** [strings.ToLower(strings.ReplaceAll(s, " ", "-"))], on ASCII text. *)
Fixpoint spaces_to_dashes (s : string) : string :=
  match s with
  | EmptyString => ""
  | String c s' => String (if decide (c = " "%char) then "-"%char else c) (spaces_to_dashes s')
  end.
Definition lowerKabobCase (s : string) : string := ToLower (spaces_to_dashes s).

(** The longest prefix of characters of a class, and the rest. *)
Fixpoint span (P : ascii → bool) (s : string) : string * string :=
  match s with
  | EmptyString => ("", "")
  | String c s' => if P c then let '(a, b) := span P s' in (String c a, b) else ("", s)
  end.
Definition in_range (first last : nat) (c : ascii) : bool :=
  let n := Ascii.nat_of_ascii c in bool_decide (first ≤ n ∧ n ≤ last)%nat.
Definition is_lower : ascii → bool := in_range 97 122.
Definition is_digit : ascii → bool := in_range 48 57.
(** [.*\.] matches a prefix; [.] is not a newline. *)
Fixpoint dot_ahead (s : string) : bool :=
  match s with
  | EmptyString => false
  | String c s' => if decide (c = "."%char) then true
                   else if decide (c = Ascii.ascii_of_nat 10) then false else dot_ahead s'
  end.

(** [([0-9]+).*\.] at the start of the string: the digits. *)
Definition generation_ahead (s : string) : option string :=
  let '(digits, rest) := span is_digit s in
  if bool_decide (digits ≠ "") && dot_ahead rest then Some digits else None.
(** What is left after [\-[0-9]+tb], if the string starts with it. *)
Definition terabytes_ahead (s : string) : option string :=
  match s with
  | String "-" s' =>
      match span is_digit s' with
      | (String _ _, String "t" (String "b" rest)) => Some rest
      | _ => None
      end
  | _ => None
  end.
(** The submatches 1 and 3 of [(^[a-z]+)(\-[0-9]+tb)?([0-9]+).*\.]. *)
Definition instanceTypeScheme (name : string) : option (string * string) :=
  let '(category, rest) := span is_lower name in
  if decide (category = "") then None
  else
    let with_tb := terabytes_ahead rest ≫= generation_ahead in
    pair category <$> match with_tb with Some g => Some g | None => generation_ahead rest end.

(** ** Architecture and operating system *)

Definition getArchitecture (p : ProcessorInfo) : string :=
  default ("[" +:+ Join (pi_SupportedArchitectures p) " " +:+ "]")
    (head (omap (AWSToKubeArchitectures !!.) (pi_SupportedArchitectures p))).
Definition getOS (p : ProcessorInfo) (f : Family) : list string :=
  if decide (f = FamilyWindows) then if decide (getArchitecture p = "amd64") then ["windows"] else []
  else ["linux"].

(** ** Requirements *)

Definition Labels : Type := gmap string (gset string).
(** [requirements.Get(key).Insert(value)] *)
Definition insert_value (key value : string) (m : Labels) : Labels := <[key := {[ value ]} ∪ m !!! key]> m.
Definition insert_values (kvs : list (string * string)) (m : Labels) : Labels :=
  foldl (λ m kv, insert_value kv.1 kv.2 m) m kvs.

Section labels.
Context `{Scheduling}.
Variable InstanceTypeBandwidthMegabits : string → option Z.

Definition capacity_types (info : InstanceTypeInfo) (reservations : list CapacityReservation) : list string :=
  let types := filter (λ uc, uc = CapacityTypeOnDemand ∨ uc = CapacityTypeSpot) (info_SupportedUsageClasses info) in
  let types := if decide (CapacityTypeOnDemand ∈ types)
               then types ++ filter (λ ct, ct ≠ CapacityTypeOnDemand) OnDemandCapacityTypes else types in
  if decide (reservations ≠ []) then types ++ [CapacityTypeReserved] else types.

(** The zones of the instance type that the NodeClass has subnets in. *)
Definition available_zones (offeringZones : gset string) (zoneInfo : list ZoneInfo_) : gset string :=
  offeringZones ∩ list_to_set (zi_Zone <$> zoneInfo).

(** The requirements the function starts with. *)
Definition initial_labels (info : InstanceTypeInfo) (region : string) (zones : gset string) (p : ProcessorInfo)
    (net : NetworkInfo) (vcpus : option Z) (f : Family) (reservations : list CapacityReservation) : Labels :=
  list_to_map (
    [(LabelInstanceTypeStable, {[ info_InstanceType info ]});
     (LabelArchStable, {[ getArchitecture p ]});
     (LabelOSStable, list_to_set (getOS p f));
     (LabelTopologyZone, zones);
     (LabelTopologyRegion, {[ region ]});
     (CapacityTypeLabelKey, list_to_set (capacity_types info reservations));
     (LabelInstanceCPU, {[ fmt_int (default 0 vcpus) ]});
     (LabelInstanceMemory, {[ fmt_int (default 0 (info_SizeInMiB info)) ]});
     (LabelInstanceHypervisor, {[ info_Hypervisor info ]});
     (LabelInstanceEncryptionInTransitSupported, {[ fmt_bool (default false (EncryptionInTransitSupported net)) ]});
     (LabelInstanceTenancy, {[ "default"; "dedicated" ]})]
    ++ ((λ k, (k, ∅)) <$>
        [LabelWindowsBuild; LabelInstanceCPUManufacturer; LabelInstanceCPUSustainedClockSpeedMhz;
         LabelInstanceEBSBandwidth; LabelInstanceNetworkBandwidth; LabelInstanceCategory; LabelInstanceCapabilityFlex;
         LabelInstanceFamily; LabelInstanceGeneration; LabelInstanceLocalNVME; LabelInstanceSize; LabelInstanceGPUName;
         LabelInstanceGPUManufacturer; LabelInstanceGPUCount; LabelInstanceGPUMemory; LabelInstanceAcceleratorName;
         LabelInstanceAcceleratorManufacturer; LabelInstanceAcceleratorCount])).

(** Zone IDs, if there are any; reservations, or that there are none. *)
Definition zone_id_labels (zones : gset string) (zoneInfo : list ZoneInfo_) (m : Labels) : Labels :=
  match zi_ZoneID <$> filter (λ i, zi_Zone i ∈ zones) zoneInfo with
  | [] => m
  | ids => <[LabelTopologyZoneID := list_to_set ids]> m
  end.
Definition reservation_labels (reservations : list CapacityReservation) (m : Labels) : Labels :=
  <[LabelCapacityReservationInterruptible := list_to_set (fmt_bool ∘ cr_Interruptible <$> reservations)]>
  (<[LabelCapacityReservationType := list_to_set (cr_ReservationType <$> reservations)]>
  (<[ReservationIDLabel := list_to_set (cr_ID <$> reservations)]> m)).

(** Category and generation, family and size, and whether it is a flex type. *)
Definition name_values (name : string) : list (string * string) :=
  let parts := Split name "." in
  match instanceTypeScheme name with
  | Some (category, generation) => [(LabelInstanceCategory, category); (LabelInstanceGeneration, generation)]
  | None => []
  end
  ++ match parts with
     | [family; size] => [(LabelInstanceFamily, family); (LabelInstanceSize, size)]
     | _ => []
     end
  ++ [(LabelInstanceCapabilityFlex, fmt_bool (Contains (default "" (head parts)) "-flex"))].

Definition nvme_values (info : InstanceTypeInfo) : list (string * string) :=
  match info_TotalSizeInGB info with
  | Some size => if decide (info_NvmeSupport info = "unsupported") then [] else [(LabelInstanceLocalNVME, fmt_int size)]
  | None => []
  end.
Definition bandwidth_values (info : InstanceTypeInfo) : list (string * string) :=
  match InstanceTypeBandwidthMegabits (info_InstanceType info) with
  | Some n => [(LabelInstanceNetworkBandwidth, fmt_int n)]
  | None => []
  end.

(** A single GPU, or a single accelerator. *)
Definition gpu_values (info : InstanceTypeInfo) : option (list (string * string)) :=
  match info_Gpus info with
  | [gpu] =>
      size ← gpu_MemoryInfo gpu;
      Some [(LabelInstanceGPUName, lowerKabobCase (default "" (gpu_Name gpu)));
            (LabelInstanceGPUManufacturer, lowerKabobCase (default "" (gpu_Manufacturer gpu)));
            (LabelInstanceGPUCount, fmt_int (default 0 (gpu_Count gpu)));
            (LabelInstanceGPUMemory, fmt_int (default 0 size))]
  | _ => Some []
  end.
Definition accelerator_values (info : InstanceTypeInfo) : list (string * string) :=
  match info_Accelerators info, info_NeuronDevices info with
  | [a], None =>
      [(LabelInstanceAcceleratorName, lowerKabobCase (default "" (acc_Name a)));
       (LabelInstanceAcceleratorManufacturer, lowerKabobCase (default "" (acc_Manufacturer a)));
       (LabelInstanceAcceleratorCount, fmt_int (default 0 (acc_Count a)))]
  | _, Some [d] =>
      [(LabelInstanceAcceleratorName, lowerKabobCase (default "" (neuron_Name d)));
       (LabelInstanceAcceleratorManufacturer, lowerKabobCase "aws");
       (LabelInstanceAcceleratorCount, fmt_int (default 0 (neuron_Count d)))]
  | _, _ => []
  end.
Definition windows_values (f : Family) (amiFamily : string) : list (string * string) :=
  if decide (f = FamilyWindows) then [(LabelWindowsBuild, (windows_release amiFamily).2)] else [].

(** [math.Round], half away from zero. *)
Definition float64_round (x : float64) : Z := Z.sgn x * ((Z.abs x + float64_one / 2) / float64_one).
Definition processor_values (p : ProcessorInfo) : list (string * string) :=
  [(LabelInstanceCPUManufacturer, lowerKabobCase (default "" (pi_Manufacturer p)));
   (LabelInstanceCPUSustainedClockSpeedMhz,
    fmt_int (float64_round (float64_mul (default 0 (pi_SustainedClockSpeedInGhz p)) (float64_of_int 1000))))].
Definition ebs_values (info : InstanceTypeInfo) : list (string * string) :=
  match info_EbsOptimizedInfo info with
  | Some n => if decide (info_EbsOptimizedSupport info = "default") then [(LabelInstanceEBSBandwidth, fmt_int (default 0 n))]
              else []
  | None => []
  end.

Definition compute_labels (info : InstanceTypeInfo) (region : string) (offeringZones : gset string)
    (zoneInfo : list ZoneInfo_) (amiFamily : string) (reservations : list CapacityReservation) : option Labels :=
  let f := GetAMIFamily amiFamily in
  p ← info_ProcessorInfo info;
  vcpus ← info_VCpuInfo info;
  net ← info_NetworkInfo info;
  gpus ← gpu_values info;
  let zones := available_zones offeringZones zoneInfo in
  let m := initial_labels info region zones p net vcpus f reservations in
  let m := reservation_labels reservations (zone_id_labels zones zoneInfo m) in
  Some (insert_values (name_values (info_InstanceType info) ++ nvme_values info ++ bandwidth_values info ++ gpus
                       ++ accelerator_values info ++ windows_values f amiFamily ++ processor_values p ++ ebs_values info) m).

(** The requirements of a map of labels. *)
Definition requirements_of (m : Labels) : Requirements :=
  let l : list (string * gset string) := map_to_list m in
  NewRequirements ((λ kv, (kv.1, elements kv.2)) <$> filter (λ kv, kv.2 ≠ ∅) l) (filter (λ kv, kv.2 = ∅) l).*1.
Definition computeRequirements (info : InstanceTypeInfo) (region : string) (offeringZones : gset string)
    (zoneInfo : list ZoneInfo_) (amiFamily : string) (reservations : list CapacityReservation) : option Requirements :=
  requirements_of <$> compute_labels info region offeringZones zoneInfo amiFamily reservations.
End labels.

(** ** Instance types *)

(** [cloudprovider.InstanceType] with its overhead and its attachment limits. *)
Record CloudInstanceType `{SchedulingTypes} := {
  ct_type : InstanceType;
  ct_Overhead : Overhead;
  ct_VolumeAttachmentLimits : gmap string Z;
}.

Section new.
Context `{Scheduling} `{QuantityParser}.
Variable InstanceTypeBandwidthMegabits : string → option Z.
Variable Limits : string → option VPCLimits.
Variable ParseFloat : string → option float64.
Variable AsApproximateFloat64 : Quantity → float64.

Definition NewInstanceType (opts : Options_) (info : InstanceTypeInfo) (region : string) (offeringZones : gset string)
    (zoneInfo : list ZoneInfo_) (bdms : list (BlockDeviceMapping Quantity)) (instanceStorePolicy : option string)
    (nis : option (list NetworkInterface)) (ks : KubeletSettings) (amiFamily : string)
    (reservations : list CapacityReservation) : option CloudInstanceType :=
  let f := GetAMIFamily amiFamily in
  labels ← compute_labels InstanceTypeBandwidthMegabits info region offeringZones zoneInfo amiFamily reservations;
  capacity ← computeCapacity Limits opts info f bdms instanceStorePolicy nis (ks_maxPods ks) (ks_podsPerCore ks);
  overhead ← instance_overhead ParseFloat AsApproximateFloat64 opts info f bdms instanceStorePolicy nis ks;
  capacity ← (if decide ("windows" ∈ labels !!! LabelOSStable)
              then address ← privateIPv4Address Limits (info_InstanceType info);
                   Some (<[ResourcePrivateIPv4Address := address]> capacity)
              else Some capacity);
  Some {| ct_type := {| Name := info_InstanceType info; it_Requirements := requirements_of labels; Offerings := [];
                        Capacity := capacity |};
          ct_Overhead := overhead; ct_VolumeAttachmentLimits := volumeAttachmentLimits info |}.
End new.
