(* ===== verification/InstanceTypeProvider.v ===== *)
(** * [pkg/providers/instancetype]: the instance types of a NodeClass

    [DefaultResolver] of [types.go] turns what EC2 says of an instance type into one of the
    scheduler; the provider of [instancetype.go] resolves all of them for a NodeClass, keeps
    the result in a cache, and gives it offerings on every call.  The provider is a client of
    the [TypeResolver] interface.  Compiled expressions are cached without effect
    ([Kubelet.ResolveResourceMap_spec]), so they are evaluated without the cache here.
    Structural hashes, the generated tables, CEL and EC2 are parameters; a nil slice of
    network interfaces is the empty one.  [None] is a panic; metrics, logging and the
    deduplication of concurrent builds are left out. *)
From S2P Require Import Prelude GoStd AwsErrors ApiV1 Quantities UnavailableOfferings Compatibility Validation Scheduling Filters InstanceTypes AmiFamily Kubelet PlacementGroup Offerings CloudProvider InstanceTypeLabels GoCache.

(** ** What a NodeClass says *)

Section nodeclass.
Implicit Types nc : EC2NodeClass Z.
Definition NetworkInterfaces nc : option (list NetworkInterface) :=
  match NetworkInterfaces_ (Spec nc) with [] => None | nis => Some nis end.
Definition zone_info nc : list ZoneInfo_ := ZoneInfo (Subnets (Status nc)).
Definition offerings_view nc : option NodeClassOfferings :=
  family ← AMIFamily nc;
  Some {| nco_view := {| nv_NetworkInterfaces := NetworkInterfaces nc; nv_AMIFamily := family;
                         nv_ConnectionTracking := bool_decide (is_Some (ConnectionTracking_ (Spec nc)));
                         nv_NestedVirtualization := CPUOptions_ (Spec nc) ≫= NestedVirtualization;
                         nv_EnclavesEnabled := bool_decide (ApiV1.Enabled <$> EnclaveOptions_ (Spec nc) = Some true) |};
          nco_ZoneInfo := zone_info nc;
          nco_CapacityReservations := CapacityReservations_ (Status nc) |}.
End nodeclass.

(** ** Resolvers *)

(** [Resolver]; a resolution without an instance type declines to offer it. *)
Class TypeResolver `{SchedulingTypes} := {
  res_CacheKey : EC2NodeClass Z → option string;
  res_Resolve : InstanceTypeInfo → gset string → EC2NodeClass Z → ParsedKubeletConfig →
    option (result error (option CloudInstanceType));
}.

Section resolver.
Context `{Scheduling} `{QuantityParser} {Ast Program : Type}.
Variable env_Compile : string → result error Ast.
Variable OutputType : Ast → CelType.
Variable env_Program : Ast → result error Program.
Variable Eval : Program → InstanceTypeVars → result error CelValue.
Variable out_of_range : float64 → Z.
Variable InstanceTypeBandwidthMegabits : string → option Z.
Variable Limits : string → option VPCLimits.
Variable ParseFloat : string → option float64.
Variable AsApproximateFloat64 : Quantity → float64.
Variable opts : Options_.
Variable region : string.
(** [hashstructure.Hash] of the kubelet configuration and of the slices, as sets but for the
    reservations. *)
Variable hash_kubelet : KubeletConfiguration → Z.
Variable hash_bdms : list (BlockDeviceMapping Quantity) → Z.
Variable hash_reservations : list CapacityReservation → Z.
Variable hash_nis : option (list NetworkInterface) → Z.
Implicit Types (nc : EC2NodeClass Z) (info : InstanceTypeInfo).

Definition CacheKey nc : option string :=
  family ← AMIFamily nc;
  Some (hex016 (hash_kubelet (Kubelet (Spec nc))) +:+ "-" +:+
        hex016 (hash_bdms (BlockDeviceMappings_ (Spec nc))) +:+ "-" +:+
        hex016 (hash_reservations (CapacityReservations_ (Status nc))) +:+ "-" +:+
        hex016 (hash_nis (NetworkInterfaces nc)) +:+ "-" +:+
        default "" (InstanceStorePolicy_ (Spec nc)) +:+ "-" +:+ family).

(** [celEnv.EvaluateExpression] *)
Definition evaluate (expression : string) (vars : InstanceTypeVars) : result error Z :=
  match Compile env_Compile OutputType env_Program expression with
  | Err e => Err e
  | Ok compiled => run_program Eval out_of_range compiled vars
  end.
Definition expression_cause (e : expression_error) : error :=
  match e with
  | EvaluationFailed e => wrap "evaluating expression" e
  | OutOfRange _ => errorf "expression evaluated to a value outside the valid range"
  end.

Definition max_pods info (parsed : ParsedKubeletConfig) (f : Family) (nis : list NetworkInterface) :
    option (result expression_error (option Z)) :=
  resolveMaxPods evaluate opts info (pk_MaxPods parsed) f (PodsPerCore parsed) nis.

(** The variables are needed only if there is an expression. *)
Definition resolveResourceExpressions info (resourceMap : gmap string string) (f : Family)
    (maxPods podsPerCore : option Z) (nis : list NetworkInterface) : option (result error (gmap string string)) :=
  if negb (opt_NodeClassCEL opts) then Some (Ok (staticQuantities resourceMap))
  else if decide (map_Forall (λ _ v, is_expression v = false) resourceMap) then Some (Ok resourceMap)
  else
    vars ← buildCELVars opts info f maxPods podsPerCore nis;
    Some (resolve_map env_Compile OutputType env_Program Eval out_of_range resourceMap (Ok vars)).

Definition Resolve info (zones : gset string) nc (parsed : ParsedKubeletConfig) :
    option (result error (option CloudInstanceType)) :=
  family ← AMIFamily nc;
  let f := GetAMIFamily family in
  let nis := NetworkInterfaces_ (Spec nc) in
  maxPods ← max_pods info parsed f nis;
  match maxPods with
  | Err e => Some (Err (wrap "resolving maxPods" (expression_cause e)))
  | Ok maxPods =>
      kubeReserved ← resolveResourceExpressions info (KubeReserved parsed) f maxPods (PodsPerCore parsed) nis;
      match kubeReserved with
      | Err e => Some (Err (wrap "resolving kubeReserved" e))
      | Ok kubeReserved =>
          systemReserved ← resolveResourceExpressions info (SystemReserved parsed) f maxPods (PodsPerCore parsed) nis;
          match systemReserved with
          | Err e => Some (Err (wrap "resolving systemReserved" e))
          | Ok systemReserved =>
              it ← NewInstanceType InstanceTypeBandwidthMegabits Limits ParseFloat AsApproximateFloat64 opts info region
                     zones (zone_info nc) (BlockDeviceMappings_ (Spec nc)) (InstanceStorePolicy_ (Spec nc))
                     (NetworkInterfaces nc)
                     {| ks_maxPods := maxPods; ks_podsPerCore := PodsPerCore parsed; ks_kubeReserved := kubeReserved;
                        ks_systemReserved := systemReserved; ks_evictionHard := EvictionHard parsed |} family
                     (filter (λ cr, cr_InstanceType cr = info_InstanceType info) (CapacityReservations_ (Status nc)));
              Some (Ok (Some it))
          end
      end
  end.
#[global] Instance DefaultResolver : TypeResolver := {| res_CacheKey := CacheKey; res_Resolve := Resolve |}.

(** *** Validation of expressions *)

(** [evaluateKubeletExpressions] *)
Definition evaluateKubeletExpressions info (parsed : ParsedKubeletConfig) (f : Family) (nis : list NetworkInterface) :
    option (option expression_error) :=
  maxPods ← max_pods info parsed f nis;
  match maxPods with
  | Err e => Some (Some e)
  | Ok maxPods =>
      if HasResourceExpressions parsed then
        vars ← buildCELVars opts info f maxPods (PodsPerCore parsed) nis;
        Some (evaluateResourceExpressions evaluate vars (KubeReserved parsed) (SystemReserved parsed))
      else Some None
  end.
End resolver.

(** ** The provider *)

(** The last value a key was seen with ([pretty.ChangeMonitor]). *)
Class ChangeMonitor (V M : Type) := {
  HasChanged : V → M → M * bool;
  last_seen : M → option V;
}.
#[global] Hint Mode ChangeMonitor - ! : typeclass_instances.

Section provider.
Context `{IR : ImageRequirements} `{!TypeResolver}.
Context {CT CD CU CO CP CA M1 M2 : Type}.
Context `{GoCache (list CloudInstanceType) CT} `{GoCache Quantity CD} `{GoCache unit CU} `{GoCache (list Offering) CO}.
Context `{GoCache unit CP} `{GoCache PlacementGroup CA}.
Context `{ChangeMonitor (list InstanceTypeInfo) M1} `{ChangeMonitor (gmap string (gset string)) M2}.
(** The hashes of the cache keys: of images and of zones, as sets, and those of [Offerings]. *)
Variable hash_amis : list AMI → Z.
Variable hash_zones : list ZoneInfo_ → Z.
Variable hash_interfaces : option (list NetworkInterface) → Z.
Variable hash_set : gset string → Z.
Variable hash_bool : bool → Z.
Variable hash_string : string → Z.
Variable pg_CacheKey : PlacementGroupSelector → string.
Variable DescribePlacementGroups : DescribePlacementGroupsInput_ → result error (list EC2PlacementGroup).
Variable Unmarshal : KubeletConfiguration → result error ParsedKubeletConfig.

(** The tables of EC2, the caches, and the state of the offering and the placement group
    providers. *)
Record TypeProvider := {
  tp_Info : gmap string InstanceTypeInfo;
  tp_TypeOfferings : gmap string (gset string);
  tp_allZones : gset string;
  tp_cache : CT;
  tp_discovered : CD;
  tp_types_seen : M1;
  tp_offerings_seen : M2;
  tp_resolver : BaseResolver (CO := CO);
  tp_groups : PGProvider CP CA;
}.
Implicit Types (p : TypeProvider) (nc : EC2NodeClass Z) (env : Env (CU := CU)).
Definition with_tables (info : gmap string InstanceTypeInfo) (offerings : gmap string (gset string))
    (zones : gset string) (cache : CT) p : TypeProvider :=
  {| tp_Info := info; tp_TypeOfferings := offerings; tp_allZones := zones; tp_cache := cache;
     tp_discovered := tp_discovered p; tp_types_seen := tp_types_seen p; tp_offerings_seen := tp_offerings_seen p;
     tp_resolver := tp_resolver p; tp_groups := tp_groups p |}.
Definition with_cache (cache : CT) p : TypeProvider :=
  with_tables (tp_Info p) (tp_TypeOfferings p) (tp_allZones p) cache p.
Definition with_discovered (c : CD) p : TypeProvider :=
  {| tp_Info := tp_Info p; tp_TypeOfferings := tp_TypeOfferings p; tp_allZones := tp_allZones p; tp_cache := tp_cache p;
     tp_discovered := c; tp_types_seen := tp_types_seen p; tp_offerings_seen := tp_offerings_seen p;
     tp_resolver := tp_resolver p; tp_groups := tp_groups p |}.
Definition with_seen (m1 : M1) (m2 : M2) p : TypeProvider :=
  {| tp_Info := tp_Info p; tp_TypeOfferings := tp_TypeOfferings p; tp_allZones := tp_allZones p; tp_cache := tp_cache p;
     tp_discovered := tp_discovered p; tp_types_seen := m1; tp_offerings_seen := m2;
     tp_resolver := tp_resolver p; tp_groups := tp_groups p |}.
Definition with_offering_state (r : BaseResolver (CO := CO)) (groups : PGProvider CP CA) p : TypeProvider :=
  {| tp_Info := tp_Info p; tp_TypeOfferings := tp_TypeOfferings p; tp_allZones := tp_allZones p; tp_cache := tp_cache p;
     tp_discovered := tp_discovered p; tp_types_seen := tp_types_seen p; tp_offerings_seen := tp_offerings_seen p;
     tp_resolver := r; tp_groups := groups |}.

(** *** Keys *)

(** [lo.UniqBy] on zone and ID: the first of each pair. *)
Fixpoint uniq_zones (seen : list (string * string)) (l : list ZoneInfo_) : list ZoneInfo_ :=
  match l with
  | [] => []
  | z :: l' => let k := (zi_Zone z, zi_ZoneID z) in
               if decide (k ∈ seen) then uniq_zones seen l' else z :: uniq_zones (k :: seen) l'
  end.
Definition cacheKey nc : option string :=
  key ← res_CacheKey nc;
  Some (hex016 (hash_amis (AMIs_ (Status nc))) +:+ "-" +:+ hex016 (hash_zones (uniq_zones [] (zone_info nc)))
        +:+ "-" +:+ key).
Definition discoveredCapacityCacheKey (instanceType : string) nc : string :=
  instanceType +:+ "-" +:+ hex016 (hash_amis (AMIs_ (Status nc))).

(** *** Offerings *)

(** The map gives the zero value for an instance type it does not have. *)
Definition zero_info : InstanceTypeInfo :=
  {| info_InstanceType := ""; info_NetworkInfo := None; info_ProcessorInfo := None; info_NitroEnclavesSupport := "";
     info_SupportedStrategies := []; info_Hypervisor := ""; info_VCpuInfo := None; info_SizeInMiB := None;
     info_TotalSizeInGB := None; info_Gpus := []; info_NeuronDevices := None; info_MaximumEbsAttachments := None;
     info_EbsOptimizedSupport := ""; info_EbsOptimizedInfo := None; info_SupportedUsageClasses := [];
     info_NvmeSupport := ""; info_Accelerators := [] |}.
Definition with_type (it : InstanceType) (ct : CloudInstanceType) : CloudInstanceType :=
  {| ct_type := it; ct_Overhead := ct_Overhead ct; ct_VolumeAttachmentLimits := ct_VolumeAttachmentLimits ct |}.

(** The placement group of a NodeClass that selects one; an error is dropped. *)
Definition placement_group_of (now : Z) nc (groups : PGProvider CP CA) : PGProvider CP CA * option PlacementGroup :=
  let '(groups, (pg, _)) := PlacementGroup.Get_ pg_CacheKey now DescribePlacementGroups (PlacementGroupSelector_ (Spec nc)) groups in
  (groups, pg).

Fixpoint inject_all env (key : InstanceType → string) (info : gmap string InstanceTypeInfo) (view : NodeClassOfferings)
    (allZones : gset string) (pg : option PlacementGroup) (its : list CloudInstanceType) (r : BaseResolver (CO := CO)) :
    option (BaseResolver (CO := CO) * list CloudInstanceType) :=
  match its with
  | [] => Some (r, [])
  | ct :: its' =>
      let it := ct_type ct in
      '(r, it') ← inject_one env (key it) it (default zero_info (info !! Name it)) view allZones pg r;
      '(r, rest) ← inject_all env key info view allZones pg its' r;
      Some (r, with_type it' ct :: rest)
  end.
Definition InjectOfferings env (shiftedZones : gset string) nc (its : list CloudInstanceType) p :
    option (TypeProvider * list CloudInstanceType) :=
  view ← offerings_view nc;
  let '(groups, pg) := placement_group_of (env_now env) nc (tp_groups p) in
  let suffix := newCacheKeyBuilder hash_interfaces hash_set hash_bool hash_string view shiftedZones pg in
  let key it := cacheKeyFromInstanceType hash_set suffix (Name it)
                  (req_Values (Scheduling.Get (it_Requirements it) LabelTopologyZone))
                  (req_Values (Scheduling.Get (it_Requirements it) CapacityTypeLabelKey)) in
  '(r, its') ← inject_all env key (tp_Info p) view (tp_allZones p) pg its (tp_resolver p);
  Some (with_offering_state r groups p, its').

(** *** Building the instance types of a NodeClass *)

Definition parseKubeletConfig nc : result error ParsedKubeletConfig :=
  match ParseKubeletConfig Unmarshal (Kubelet (Spec nc)) with
  | Ok parsed => Ok parsed
  | Err e => Err (wrap "parsing spec.kubelet" e)
  end.

(** The memory that a node of the type had, where one is known, replaces the computed one. *)
Definition with_memory (memory : option Quantity) (ct : CloudInstanceType) : CloudInstanceType :=
  match memory with
  | Some m => let it := ct_type ct in
              with_type {| Name := Name it; it_Requirements := it_Requirements it; Offerings := Offerings it;
                           Capacity := <[ResourceMemory := m]> (Capacity it) |} ct
  | None => ct
  end.

(** [get], given the tables and what is known of the memory of nodes. *)
Definition get_type (info : gmap string InstanceTypeInfo) (offerings : gmap string (gset string))
    (memory : string → option Quantity) nc (parsed : ParsedKubeletConfig) (name : string) :
    option (result error (option CloudInstanceType)) :=
  match info !! name with
  | None => Some (Err (errorf ("instance type " +:+ name +:+ " not found in cache")))
  | Some i =>
      r ← res_Resolve i (default ∅ (offerings !! info_InstanceType i)) nc parsed;
      Some match r with
           | Err e => Err (wrap ("resolving instance type " +:+ name) e)
           | Ok None => Ok None
           | Ok (Some ct) => Ok (Some (with_memory (memory (Name (ct_type ct))) ct))
           end
  end.

(** The first failure ends the build; types that are not offered are skipped. *)
Fixpoint build_types (get : string → option (result error (option CloudInstanceType))) (names : list string) :
    option (result error (list CloudInstanceType)) :=
  match names with
  | [] => Some (Ok [])
  | name :: names' =>
      r ← get name;
      match r with
      | Err e => Some (Err e)
      | Ok ct =>
          rest ← build_types get names';
          Some match rest with Err e => Err e | Ok l => Ok (option_list ct ++ l) end
      end
  end.
Definition buildInstanceTypes (info : gmap string InstanceTypeInfo) (offerings : gmap string (gset string))
    (memory : string → option Quantity) nc : option (result error (list CloudInstanceType)) :=
  match parseKubeletConfig nc with
  | Err e => Some (Err e)
  | Ok parsed => build_types (get_type info offerings memory nc parsed) (map_to_list info).*1
  end.
Definition discovered_memory (now : Z) nc p (name : string) : option Quantity :=
  GoCache.Get (tp_discovered p) now (discoveredCapacityCacheKey name nc).

(** The tables must be filled and the NodeClass must have subnets. *)
Definition unready nc p : option error :=
  if decide (tp_Info p = ∅) then Some (errorf "no instance types found")
  else if decide (tp_TypeOfferings p = ∅) then Some (errorf "no instance types offerings found")
  else if decide (zone_info nc = []) then Some (errorf "no subnets found")
  else None.

(** The cached types, or newly built ones that are cached then. *)
Definition cached_types (now : Z) nc p : option (TypeProvider * result error (list CloudInstanceType)) :=
  key ← cacheKey nc;
  match GoCache.Get (tp_cache p) now key with
  | Some its => Some (p, Ok its)
  | None =>
      r ← buildInstanceTypes (tp_Info p) (tp_TypeOfferings p) (discovered_memory now nc p) nc;
      Some match r with
           | Err e => (p, Err e)
           | Ok its => (with_cache (SetDefault (tp_cache p) now key its) p, Ok its)
           end
  end.

(** *** The operations *)

Definition List env (shiftedZones : gset string) nc p :
    option (TypeProvider * result error (list CloudInstanceType)) :=
  match unready nc p with
  | Some e => Some (p, Err e)
  | None =>
      '(p, r) ← cached_types (env_now env) nc p;
      match r with
      | Err e => Some (p, Err e)
      | Ok its => '(p, its) ← InjectOfferings env shiftedZones nc its p; Some (p, Ok its)
      end
  end.

(** The type is taken from the cached list, or resolved. *)
Definition single_type (now : Z) nc (name : string) p : option (result error CloudInstanceType) :=
  key ← cacheKey nc;
  match GoCache.Get (tp_cache p) now key ≫= Find (λ ct, bool_decide (Name (ct_type ct) = name)) with
  | Some ct => Some (Ok ct)
  | None =>
      match parseKubeletConfig nc with
      | Err e => Some (Err e)
      | Ok parsed =>
          r ← get_type (tp_Info p) (tp_TypeOfferings p) (discovered_memory now nc p) nc parsed name;
          Some match r with
               | Err e => Err e
               | Ok None => Err (errorf ("failed to generate instance type " +:+ name))
               | Ok (Some ct) => Ok ct
               end
      end
  end.
Definition Get_type env (shiftedZones : gset string) nc (name : string) p :
    option (TypeProvider * result error CloudInstanceType) :=
  match unready nc p with
  | Some e => Some (p, Err e)
  | None =>
      r ← single_type (env_now env) nc name p;
      match r with
      | Err e => Some (p, Err e)
      | Ok ct =>
          '(p, its) ← InjectOfferings env shiftedZones nc [ct] p;
          ct ← head its;
          Some (p, Ok ct)
      end
  end.

Fixpoint collect_pages {B} (pages : list (result error (list B))) : result error (list B) :=
  match pages with
  | [] => Ok []
  | Err e :: _ => Err e
  | Ok page :: pages' => match collect_pages pages' with Ok l => Ok (page ++ l) | Err e => Err e end
  end.

(** The cache is dropped when the types are not the ones seen last. *)
Definition UpdateInstanceTypes (pages : list (result error (list InstanceTypeInfo))) p : TypeProvider * option error :=
  match collect_pages pages with
  | Err e => (p, Some (wrap "describing instance types" e))
  | Ok l =>
      let '(m, changed) := HasChanged l (tp_types_seen p) in
      let cache := if changed then Flush (tp_cache p) else tp_cache p in
      let info := foldl (λ m i, <[info_InstanceType i := i]> m) ∅ l in
      (with_tables info (tp_TypeOfferings p) (tp_allZones p) cache (with_seen m (tp_offerings_seen p) p), None)
  end.

(** A type and a zone it is offered in. *)
Definition add_offering (m : gmap string (gset string)) (o : string * option string) : gmap string (gset string) :=
  <[o.1 := {[ default "" o.2 ]} ∪ default ∅ (m !! o.1)]> m.
Definition UpdateInstanceTypeOfferings (pages : list (result error (list (string * option string)))) p :
    TypeProvider * option error :=
  match collect_pages pages with
  | Err e => (p, Some (wrap "describing instance type zone offerings" e))
  | Ok l =>
      let offerings := foldl add_offering ∅ l in
      let '(m, changed) := HasChanged offerings (tp_offerings_seen p) in
      let cache := if changed then Flush (tp_cache p) else tp_cache p in
      let zones := union_list (map_to_list offerings).*2 in
      (with_tables (tp_Info p) offerings zones cache (with_seen (tp_types_seen p) m p), None)
  end.

(** What a node has, if it runs the image its instance type would be launched with now;
    [NewLabelRequirements] of its labels is an argument. *)
Definition UpdateInstanceTypeCapacityFromNode (now : Z) (labels : Requirements) (instanceTypeName imageID : string)
    (memory : Quantity) nc p : TypeProvider :=
  let it := {| Name := instanceTypeName; it_Requirements := labels; Offerings := []; Capacity := ∅ |} in
  let current := default [] (MapToInstanceTypes [it] (AMIs_ (Status nc)) !! imageID) in
  if existsb (λ i, bool_decide (Name i = instanceTypeName)) current then
    let key := discoveredCapacityCacheKey instanceTypeName nc in
    match GoCache.Get (tp_discovered p) now key with
    | Some m => if decide (m < memory) then p else with_discovered (SetDefault (tp_discovered p) now key memory) p
    | None => with_discovered (SetDefault (tp_discovered p) now key memory) p
    end
  else p.

Fixpoint filter_types (check : InstanceType → option bool) (its : list InstanceType) : option (list InstanceType) :=
  match its with
  | [] => Some []
  | it :: its' =>
      keep ← check it;
      rest ← filter_types check its';
      Some (if (keep : bool) then it :: rest else rest)
  end.
Definition FilterForNodeClass (now : Z) (its : list InstanceType) nc p : option (TypeProvider * list InstanceType) :=
  let '(groups, pg) := placement_group_of now nc (tp_groups p) in
  let check (it : InstanceType) := match tp_Info p !! Name it with
                  | Some info =>
                      (λ view : NodeClassOfferings, IsCompatibleWithNodeClass info (nco_view view) pg) <$> offerings_view nc
                  | None => Some false
                  end in
  kept ← filter_types check its;
  Some (with_offering_state (tp_resolver p) groups p, kept).

Definition ENILimits (name : string) p : option (option (Z * Z)) :=
  match tp_Info p !! name with
  | None => Some None
  | Some info => Some <$> extractENILimits info
  end.

Definition ResetProvider p : TypeProvider :=
  with_discovered (Flush (tp_discovered p)) (with_tables ∅ ∅ (tp_allZones p) (Flush (tp_cache p)) p).
End provider.
Arguments TypeProvider : clear implicits.

(** *** Expressions *)

Section expressions.
Context `{QuantityParser} {Ast Program : Type}.
Variable env_Compile : string → result error Ast.
Variable OutputType : Ast → CelType.
Variable env_Program : Ast → result error Program.
Variable Eval : Program → InstanceTypeVars → result error CelValue.
Variable out_of_range : float64 → Z.
Variable opts : Options_.
Variable Unmarshal : KubeletConfiguration → result error ParsedKubeletConfig.

(** The first type for which some expression fails. *)
Fixpoint evaluate_types (parsed : ParsedKubeletConfig) (f : Family) (nis : list NetworkInterface)
    (infos : list InstanceTypeInfo) : option (option evaluation_error) :=
  match infos with
  | [] => Some None
  | info :: infos' =>
      e ← evaluateKubeletExpressions env_Compile OutputType env_Program Eval out_of_range opts info parsed f nis;
      match e with
      | Some e => Some (Some (Validation.EvaluationFailed (expression_cause e)))
      | None => evaluate_types parsed f nis infos'
      end
  end.
Definition ValidateKubeletExpressions (nc : EC2NodeClass Z) (info : gmap string InstanceTypeInfo) :
    option (option evaluation_error) :=
  match ParseKubeletConfig Unmarshal (Kubelet (Spec nc)) with
  | Err _ => Some None
  | Ok parsed =>
      if negb (HasExpressions parsed) || negb (opt_NodeClassCEL opts) then Some None
      else if decide (info = ∅) then Some (Some InstanceTypesNotHydrated)
      else
        family ← AMIFamily nc;
        evaluate_types parsed (GetAMIFamily family) (NetworkInterfaces_ (Spec nc)) (map_to_list info).*2
  end.
End expressions.
