(* ===== verification/InstanceTypeKeys.v ===== *)
(** * What the instance types of a NodeClass depend on

    [DefaultResolver] reads of a NodeClass what its cache key is computed from, and of
    slices that are hashed as sets their elements only: two NodeClasses that agree on that
    get the same instance types.  The exception is the size of the root volume of a family
    without a root device ([Custom]), which is that of the last block device mapping. *)
From S2P Require Import Prelude GoStd AwsErrors ApiV1 Quantities UnavailableOfferings Compatibility Scheduling Filters InstanceTypes AmiFamily Kubelet PlacementGroup Offerings InstanceTypeLabels InstanceTypeProvider GoCache.

(** ** Network interfaces *)

Section interfaces.
Context `{QuantityParser}.
Implicit Types (nis : list NetworkInterface) (info : InstanceTypeInfo).

Lemma numEFAOnly_perm nis nis' : nis ≡ₚ nis' → numEFAOnly nis = numEFAOnly nis'.
Proof. intros Hp. unfold numEFAOnly. by rewrite Hp. Qed.
Lemma ENILimitedPods_perm info n nis nis' : nis ≡ₚ nis' → ENILimitedPods info n nis = ENILimitedPods info n nis'.
Proof. intros Hp. unfold ENILimitedPods. by rewrite (numEFAOnly_perm _ _ Hp). Qed.
Lemma pods_perm opts info f maxPods podsPerCore nis nis' :
  nis ≡ₚ nis' → pods opts info f maxPods podsPerCore nis = pods opts info f maxPods podsPerCore nis'.
Proof. intros Hp. unfold pods. by rewrite (ENILimitedPods_perm _ _ _ _ Hp). Qed.
Lemma buildCELVars_perm opts info f maxPods podsPerCore nis nis' :
  nis ≡ₚ nis' → buildCELVars opts info f maxPods podsPerCore nis = buildCELVars opts info f maxPods podsPerCore nis'.
Proof. intros Hp. unfold buildCELVars. by rewrite (pods_perm _ _ _ _ _ _ _ Hp). Qed.
Lemma efas_perm info nis nis' : nis ≡ₚ nis' → efas info (Some nis) = efas info (Some nis').
Proof. intros Hp. unfold efas. by rewrite Hp. Qed.
End interfaces.

(** ** Ephemeral storage *)

(** At most one mapping is the root volume and has a size, and every device is named once. *)
Definition root_size (bdm : BlockDeviceMapping Quantity) : option Quantity :=
  if RootVolume bdm then EBS bdm ≫= VolumeSize else None.
Record plain_mappings (bdms : list (BlockDeviceMapping Quantity)) : Prop := {
  pm_named bdm : bdm ∈ bdms → is_Some (DeviceName bdm);
  pm_distinct : NoDup (DeviceName <$> bdms);
  pm_root bdm bdm' : bdm ∈ bdms → bdm' ∈ bdms → RootVolume bdm = true → RootVolume bdm' = true → bdm = bdm';
}.
(** The family has a root device, or the mappings decide by themselves. *)
Definition storage_decided (f : Family) (bdms : list (BlockDeviceMapping Quantity)) : Prop :=
  plain_mappings bdms ∧
  (f = FamilyCustom → (length bdms ≤ 1)%nat ∨ ∃ bdm, bdm ∈ bdms ∧ is_Some (root_size bdm)).

Section storage.
Context `{QuantityParser}.
Implicit Types (bdms : list (BlockDeviceMapping Quantity)).

Lemma Find_perm {B : Type} (p : B → bool) (l l' : list B) :
  l ≡ₚ l' → (∀ x y, x ∈ l → y ∈ l → p x = true → p y = true → x = y) → Find p l = Find p l'.
Proof.
  intros Hp Hu. unfold Find.
  assert (filter (λ x, p x = true) l ≡ₚ filter (λ x, p x = true) l') as Hf by by rewrite Hp.
  destruct (filter _ l) as [|x k] eqn:E.
  - apply Permutation_nil in Hf. by rewrite Hf.
  - destruct (filter _ l') as [|y k'] eqn:E'; [by apply Permutation_sym, Permutation_nil in Hf|]. simpl. f_equal.
    assert (x ∈ filter (λ x, p x = true) l) as [Hx Hxl]%list_elem_of_filter by (rewrite E; left).
    assert (y ∈ filter (λ x, p x = true) l') as [Hy Hyl]%list_elem_of_filter by (rewrite E'; left).
    rewrite <- Hp in Hyl. by apply Hu.
Qed.

Lemma find_device_Find device bdms :
  (∀ bdm, bdm ∈ bdms → is_Some (DeviceName bdm)) →
  find_device device bdms = Some (Find (λ bdm, bool_decide (DeviceName bdm = Some device)) bdms).
Proof.
  induction bdms as [|b bdms IH]; intros Hn; [done|]. simpl. destruct (Hn b) as [name Hname]; [by left|].
  rewrite Hname. simpl. unfold Find. rewrite filter_cons, Hname. case_decide as Hd.
  - subst. rewrite decide_True by by rewrite bool_decide_true. done.
  - rewrite decide_False by (rewrite bool_decide_eq_true; congruence). apply IH. intros bdm ?. apply Hn. by right.
Qed.

Lemma named_once bdms bdm bdm' device :
  plain_mappings bdms → bdm ∈ bdms → bdm' ∈ bdms → DeviceName bdm = Some device → DeviceName bdm' = Some device →
  bdm = bdm'.
Proof.
  intros [_ Hd _] [i Hi]%list_elem_of_lookup [j Hj]%list_elem_of_lookup E E'.
  assert (i = j) as ->; [|congruence].
  apply (NoDup_lookup _ _ _ (Some device) Hd); rewrite list_lookup_fmap; [rewrite Hi|rewrite Hj]; simpl; congruence.
Qed.

Lemma plain_perm bdms bdms' : bdms ≡ₚ bdms' → plain_mappings bdms → plain_mappings bdms'.
Proof.
  intros Hp [Hn Hd Hr]. split.
  - intros bdm. rewrite <- Hp. apply Hn.
  - by rewrite <- Hp.
  - intros bdm bdm'. rewrite <- Hp. apply Hr.
Qed.

Lemma find_device_perm device bdms bdms' :
  bdms ≡ₚ bdms' → plain_mappings bdms → find_device device bdms = find_device device bdms'.
Proof.
  intros Hp Hpl. pose proof (plain_perm _ _ Hp Hpl) as Hpl'.
  rewrite (find_device_Find device bdms (pm_named _ Hpl)), (find_device_Find device bdms' (pm_named _ Hpl')). f_equal.
  apply Find_perm; [done|]. intros x y Hx Hy Ex Ey. apply bool_decide_eq_true in Ex, Ey.
  exact (named_once _ _ _ _ Hpl Hx Hy Ex Ey).
Qed.

Lemma root_found bdms bdm size :
  plain_mappings bdms → bdm ∈ bdms → root_size bdm = Some size → found_size (Find RootVolume bdms) = Some (Some size).
Proof.
  intros Hpl Hin. unfold root_size. destruct (RootVolume bdm) eqn:Hr; [|done]. intros Hs.
  assert (Find RootVolume bdms = Some bdm) as ->.
  { destruct (Find RootVolume bdms) as [b|] eqn:E.
    - apply Find_Some in E as [Hb Hrb]. f_equal. by apply (pm_root _ Hpl).
    - exfalso. unfold Find in E. assert (bdm ∈ filter (λ x, RootVolume x = true) bdms) as Hf by by apply list_elem_of_filter.
      destruct (filter _ bdms); [by apply elem_of_nil in Hf|done]. }
  simpl. unfold volume_size. destruct (EBS bdm); simpl in *; congruence.
Qed.

Lemma ephemeralStorage_perm info f bdms bdms' policy :
  bdms ≡ₚ bdms' → storage_decided f bdms →
  ephemeralStorage info f bdms policy = ephemeralStorage info f bdms' policy.
Proof.
  intros Hp [Hpl Hc]. unfold ephemeralStorage.
  assert (Find RootVolume bdms = Find RootVolume bdms') as Hroot.
  { apply Find_perm; [done|]. intros x y. apply (pm_root _ Hpl). }
  assert (bdms = [] ↔ bdms' = []) as Hnil.
  { split; intros ->; [by apply Permutation_nil in Hp|by apply Permutation_sym, Permutation_nil in Hp]. }
  assert (found_size (Find RootVolume bdms) = Some None → configured_storage f bdms = configured_storage f bdms') as Hconf.
  { intros Hnone. unfold configured_storage. case_decide as Hf; [|by destruct (EphemeralBlockDevice f); simpl;
      [rewrite (find_device_perm _ _ _ Hp Hpl)|]].
    destruct (Hc Hf) as [Hlen|(bdm & Hin & [size Hs])]; [|by rewrite (root_found _ _ _ Hpl Hin Hs) in Hnone].
    assert (bdms = bdms') as ->; [|done]. destruct bdms as [|b [|]]; [by apply Permutation_nil in Hp| |simpl in Hlen; lia].
    by apply Permutation_singleton_l in Hp. }
  assert ((if decide (bdms = []) then default_storage f
           else root ← found_size (Find RootVolume bdms);
                match root with
                | Some size => Some size
                | None => configured ← configured_storage f bdms;
                          match configured with Some size => Some size | None => default_storage f end
                end) =
          (if decide (bdms' = []) then default_storage f
           else root ← found_size (Find RootVolume bdms');
                match root with
                | Some size => Some size
                | None => configured ← configured_storage f bdms';
                          match configured with Some size => Some size | None => default_storage f end
                end)) as Hmap.
  { destruct (decide (bdms = [])) as [E|E]; [by rewrite (decide_True (P := bdms' = [])) by by apply Hnil|].
    rewrite (decide_False (P := bdms' = [])) by by rewrite <- Hnil. rewrite <- Hroot.
    destruct (found_size (Find RootVolume bdms)) as [[size|]|]; simpl; [done| |done]. by rewrite <- Hconf. }
  by rewrite Hmap.
Qed.
End storage.

(** ** Zones *)

Definition zone_pairs (l : list ZoneInfo_) : gset (string * string) := list_to_set ((λ i, (zi_Zone i, zi_ZoneID i)) <$> l).

Lemma elem_of_zone_pairs l z id : (z, id) ∈ zone_pairs l ↔ ∃ i, i ∈ l ∧ zi_Zone i = z ∧ zi_ZoneID i = id.
Proof.
  unfold zone_pairs. rewrite elem_of_list_to_set, list_elem_of_fmap. split.
  - intros (i & [= -> ->] & Hi). eauto.
  - intros (i & Hi & <- & <-). eauto.
Qed.
Lemma available_zones_pairs zones l l' :
  zone_pairs l = zone_pairs l' → available_zones zones l = available_zones zones l'.
Proof.
  intros E. unfold available_zones. f_equal. apply set_eq. intros z.
  rewrite !elem_of_list_to_set, !list_elem_of_fmap. split; intros (i & -> & Hi).
  - assert ((zi_Zone i, zi_ZoneID i) ∈ zone_pairs l') as (j & Hj & Hz & _)%elem_of_zone_pairs; [|eauto].
    rewrite <- E. apply elem_of_zone_pairs. eauto.
  - assert ((zi_Zone i, zi_ZoneID i) ∈ zone_pairs l) as (j & Hj & Hz & _)%elem_of_zone_pairs; [|eauto].
    rewrite E. apply elem_of_zone_pairs. eauto.
Qed.

Definition zone_ids (zones : gset string) (l : list ZoneInfo_) : gset string :=
  list_to_set (zi_ZoneID <$> filter (λ i, zi_Zone i ∈ zones) l).
Lemma elem_of_zone_ids zones l id : id ∈ zone_ids zones l ↔ ∃ z, z ∈ zones ∧ (z, id) ∈ zone_pairs l.
Proof.
  unfold zone_ids. rewrite elem_of_list_to_set, list_elem_of_fmap. setoid_rewrite elem_of_zone_pairs. split.
  - intros (i & -> & [Hz Hi]%list_elem_of_filter). eauto 6.
  - intros (z & Hz & i & Hi & <- & <-). exists i. split; [done|]. by apply list_elem_of_filter.
Qed.
Lemma zone_id_labels_ids zones l m :
  zone_id_labels zones l m = if decide (zone_ids zones l = ∅) then m else <[LabelTopologyZoneID := zone_ids zones l]> m.
Proof.
  unfold zone_id_labels, zone_ids. destruct (zi_ZoneID <$> _) as [|id ids] eqn:E; [by rewrite decide_True|].
  rewrite decide_False; [done|]. set_solver.
Qed.
Lemma zone_id_labels_pairs zones l l' m :
  zone_pairs l = zone_pairs l' → zone_id_labels zones l m = zone_id_labels zones l' m.
Proof.
  intros E. rewrite !zone_id_labels_ids.
  assert (zone_ids zones l = zone_ids zones l') as ->; [|done]. apply set_eq. intros id. rewrite !elem_of_zone_ids. by rewrite E.
Qed.

(** ** Resolution *)

(** What two NodeClasses with one key agree on. *)
Record same_inputs (nc nc' : EC2NodeClass Z) : Prop := {
  si_family : AMIFamily nc = AMIFamily nc';
  si_kubelet : Kubelet (Spec nc) = Kubelet (Spec nc');
  si_policy : default "" (InstanceStorePolicy_ (Spec nc)) = default "" (InstanceStorePolicy_ (Spec nc'));
  si_reservations : CapacityReservations_ (Status nc) = CapacityReservations_ (Status nc');
  si_bdms : BlockDeviceMappings_ (Spec nc) ≡ₚ BlockDeviceMappings_ (Spec nc');
  si_nis : NetworkInterfaces_ (Spec nc) ≡ₚ NetworkInterfaces_ (Spec nc');
  si_zones : zone_pairs (zone_info nc) = zone_pairs (zone_info nc');
}.

Section resolution.
Context `{Scheduling} `{QuantityParser} {Ast Program : Type}.
Variable env_Compile : string → result error Ast.
Variable OutputType : Ast → CelType.
Variable env_Program : Ast → result error Program.
Variable Eval : Program → InstanceTypeVars → result error CelValue.
Variable out_of_range : float64 → Z.
Variable InstanceTypeBandwidthMegabits : string → option Z.
Variable Limits : string → option VPCLimits.
Variable ParseFloat : string → option float64.
Variable AsApproximateFloat64 : Quantity → float64.
Variable opts : Options_.
Variable region : string.
Implicit Types (nc : EC2NodeClass Z) (info : InstanceTypeInfo).
Abbreviation resolve := (Resolve env_Compile OutputType env_Program Eval out_of_range InstanceTypeBandwidthMegabits Limits
  ParseFloat AsApproximateFloat64 opts region).

Lemma interfaces_same nc nc' :
  NetworkInterfaces_ (Spec nc) ≡ₚ NetworkInterfaces_ (Spec nc') →
  (NetworkInterfaces nc = None ∧ NetworkInterfaces nc' = None) ∨
  ∃ l l', NetworkInterfaces nc = Some l ∧ NetworkInterfaces nc' = Some l' ∧ l ≡ₚ l'.
Proof.
  unfold NetworkInterfaces. intros Hp.
  destruct (NetworkInterfaces_ (Spec nc)) as [|x l] eqn:E; [apply Permutation_nil in Hp; rewrite Hp; by left|].
  destruct (NetworkInterfaces_ (Spec nc')) as [|y l'] eqn:E'; [by apply Permutation_sym, Permutation_nil in Hp|].
  right. eauto 6.
Qed.

Lemma compute_labels_zones info zones l l' family reservations :
  zone_pairs l = zone_pairs l' →
  compute_labels InstanceTypeBandwidthMegabits info region zones l family reservations =
  compute_labels InstanceTypeBandwidthMegabits info region zones l' family reservations.
Proof.
  intros E. unfold compute_labels. rewrite (available_zones_pairs zones _ _ E).
  destruct (info_ProcessorInfo info), (info_VCpuInfo info), (info_NetworkInfo info), (gpu_values info); simpl; try done.
  by rewrite (zone_id_labels_pairs _ _ _ _ E).
Qed.

Abbreviation expressions info m f maxPods podsPerCore nis :=
  (resolveResourceExpressions env_Compile OutputType env_Program Eval out_of_range opts info m f maxPods podsPerCore nis).
Lemma max_pods_perm info parsed f nis nis' :
  nis ≡ₚ nis' →
  max_pods env_Compile OutputType env_Program Eval out_of_range opts info parsed f nis =
  max_pods env_Compile OutputType env_Program Eval out_of_range opts info parsed f nis'.
Proof. intros Hp. unfold max_pods, resolveMaxPods. by rewrite (buildCELVars_perm _ _ _ _ _ _ _ Hp). Qed.
Lemma expressions_perm info m f maxPods podsPerCore nis nis' :
  nis ≡ₚ nis' → expressions info m f maxPods podsPerCore nis = expressions info m f maxPods podsPerCore nis'.
Proof. intros Hp. unfold resolveResourceExpressions. by rewrite (buildCELVars_perm _ _ _ _ _ _ _ Hp). Qed.

Lemma storage_same info f bdms bdms' policy policy' :
  bdms ≡ₚ bdms' → default "" policy = default "" policy' → storage_decided f bdms →
  ephemeralStorage info f bdms policy = ephemeralStorage info f bdms' policy'.
Proof.
  intros Hp Hpol Hst. rewrite (ephemeralStorage_perm _ _ _ _ policy Hp Hst). unfold ephemeralStorage. by rewrite Hpol.
Qed.

Definition interfaces_alike (nis nis' : option (list NetworkInterface)) : Prop :=
  nis = None ∧ nis' = None ∨ ∃ l l', nis = Some l ∧ nis' = Some l' ∧ l ≡ₚ l'.
Lemma alike_default nis nis' : interfaces_alike nis nis' → default [] nis ≡ₚ default [] nis'.
Proof. by intros [[-> ->]|(l & l' & -> & -> & Hp)]. Qed.
Lemma alike_efas info nis nis' : interfaces_alike nis nis' → efas info nis = efas info nis'.
Proof. intros [[-> ->]|(l & l' & -> & -> & Hp)]; [done|by apply efas_perm]. Qed.

Lemma NewInstanceType_same info zones l l' bdms bdms' policy policy' nis nis' ks family reservations :
  zone_pairs l = zone_pairs l' → bdms ≡ₚ bdms' → default "" policy = default "" policy' → interfaces_alike nis nis' →
  storage_decided (GetAMIFamily family) bdms →
  NewInstanceType InstanceTypeBandwidthMegabits Limits ParseFloat AsApproximateFloat64 opts info region zones l bdms policy
    nis ks family reservations =
  NewInstanceType InstanceTypeBandwidthMegabits Limits ParseFloat AsApproximateFloat64 opts info region zones l' bdms' policy'
    nis' ks family reservations.
Proof.
  intros Hz Hp Hpol Hn Hst. unfold NewInstanceType. rewrite (compute_labels_zones info zones _ _ family reservations Hz).
  assert (∀ f maxPods podsPerCore, f = GetAMIFamily family →
    computeCapacity Limits opts info f bdms policy nis maxPods podsPerCore =
    computeCapacity Limits opts info f bdms' policy' nis' maxPods podsPerCore) as Hcap.
  { intros f maxPods podsPerCore ->. unfold computeCapacity.
    rewrite (storage_same info _ _ _ _ _ Hp Hpol Hst), (alike_efas info _ _ Hn).
    by rewrite (pods_perm _ _ _ _ _ _ _ (alike_default _ _ Hn)). }
  assert (∀ f, f = GetAMIFamily family →
    instance_overhead ParseFloat AsApproximateFloat64 opts info f bdms policy nis ks =
    instance_overhead ParseFloat AsApproximateFloat64 opts info f bdms' policy' nis' ks) as Hov.
  { intros f ->. unfold instance_overhead. rewrite (storage_same info _ _ _ _ _ Hp Hpol Hst).
    by rewrite (ENILimitedPods_perm _ _ _ _ (alike_default _ _ Hn)), (pods_perm _ _ _ _ _ _ _ (alike_default _ _ Hn)). }
  by rewrite (Hcap _ _ _ eq_refl), (Hov _ eq_refl).
Qed.

(** Two resolutions differ in nothing if the inputs agree and the mappings decide the storage. *)
Lemma Resolve_same info zones nc nc' parsed :
  same_inputs nc nc' → (∀ family, AMIFamily nc = Some family → storage_decided (GetAMIFamily family) (BlockDeviceMappings_ (Spec nc))) →
  resolve info zones nc parsed = resolve info zones nc' parsed.
Proof.
  intros [Hfam _ Hpol Hres Hbdms Hnis Hz] Hst. unfold Resolve. rewrite <- Hfam.
  destruct (AMIFamily nc) as [family|] eqn:Ef; [|done]. specialize (Hst family eq_refl). cbn [mbind option_bind].
  rewrite (max_pods_perm _ _ _ _ _ Hnis). destruct (max_pods _ _ _ _ _ _ _ _ _ _) as [[maxPods|e]|]; [|done..].
  cbn [mbind option_bind]. rewrite (expressions_perm info (KubeReserved parsed) _ _ _ _ _ Hnis).
  destruct (resolveResourceExpressions _ _ _ _ _ _ _ (KubeReserved parsed) _ _ _ _) as [[kube|e]|]; [|done..].
  cbn [mbind option_bind]. rewrite (expressions_perm info (SystemReserved parsed) _ _ _ _ _ Hnis).
  destruct (resolveResourceExpressions _ _ _ _ _ _ _ (SystemReserved parsed) _ _ _ _) as [[system|e]|]; [|done..].
  cbn [mbind option_bind]. rewrite <- Hres.
  by rewrite (NewInstanceType_same _ _ _ _ _ _ _ _ _ _ _ _ _ Hz Hbdms Hpol (interfaces_same _ _ Hnis) Hst).
Qed.
End resolution.
