(* ===== verification/InstanceTypeCache.v ===== *)
(** * The cache of instance types

    [List] answers from a cache that is keyed by hashes of what the answer depends on, is
    flushed when the tables of EC2 change, and forgets entries after a while.  Here is
    shown that nobody can tell: whatever was called before, [List] gives the offerings of
    now to the instance types that a build for this very NodeClass, with the tables of now,
    would have given, with the memory of nodes as it was known at most one lifetime ago.
    The provider is treated as a client of [TypeResolverLaws], which [DefaultResolver] is
    shown to satisfy on NodeClasses whose hashes do not collide. *)
From S2P Require Import Prelude GoStd AwsErrors ApiV1 Quantities UnavailableOfferings Compatibility Validation Scheduling Filters InstanceTypes AmiFamily Kubelet PlacementGroup Offerings CloudProvider InstanceTypeLabels InstanceTypeProvider InstanceTypeKeys GoCache.

(** ** Hexadecimal keys *)

Definition uint64 (n : Z) : Prop := 0 ≤ n < 2 ^ 64.

Lemma append_inj (s s' t t' : string) :
  String.length s = String.length s' → s +:+ t = s' +:+ t' → s = s' ∧ t = t'.
Proof.
  revert s'. induction s as [|a s IH]; intros [|a' s'] Hl E; simpl in *; try done.
  injection Hl as Hl. injection E as -> E. destruct (IH s' Hl E) as [-> ->]. done.
Qed.
Lemma append_length (s t : string) : String.length (s +:+ t) = (String.length s + String.length t)%nat.
Proof. induction s as [|a s IH]; simpl; [done|]. by rewrite <- IH. Qed.
Lemma hex_digits_length k n : String.length (hex_digits k n) = k.
Proof. revert n. induction k as [|k IH]; intros n; simpl; [done|]. rewrite append_length, IH. apply Nat.add_1_r. Qed.

Lemma hex_digit_inj m n : 0 ≤ m < 16 → 0 ≤ n < 16 → hex_digit m = hex_digit n → m = n.
Proof.
  intros Hm Hn E. unfold hex_digit in E. apply (f_equal Ascii.nat_of_ascii) in E.
  destruct (decide (m < 10)), (decide (n < 10)); rewrite !Ascii.nat_ascii_embedding in E by lia; lia.
Qed.
Lemma hex_digits_inj k m n :
  0 ≤ m < 16 ^ Z.of_nat k → 0 ≤ n < 16 ^ Z.of_nat k → hex_digits k m = hex_digits k n → m = n.
Proof.
  revert m n. induction k as [|k IH]; intros m n Hm Hn E; [simpl in *; lia|].
  rewrite Nat2Z.inj_succ, Z.pow_succ_r in Hm, Hn by lia. simpl in E.
  apply append_inj in E as [E [= Ed]]; [|by rewrite !hex_digits_length].
  apply hex_digit_inj in Ed; [|by apply Z.mod_pos_bound..].
  apply IH in E; [|split; [apply Z.div_pos; lia|apply Z.div_lt_upper_bound; lia]..].
  rewrite (Z.div_mod m 16), (Z.div_mod n 16) by lia. lia.
Qed.
Lemma key_split a b s t :
  uint64 a → uint64 b → hex016 a +:+ "-" +:+ s = hex016 b +:+ "-" +:+ t → a = b ∧ s = t.
Proof.
  unfold hex016. intros Ha Hb E. apply append_inj in E as [Eh E]; [|by rewrite !hex_digits_length].
  split; [by apply (hex_digits_inj 16)|by injection E].
Qed.

(** ** The interface of resolvers *)

(** On the NodeClasses [U], a key stands for all that a resolution depends on. *)
Class TypeResolverLaws `{TypeResolver} (U : EC2NodeClass Z → Prop) := {
  CacheKey_kubelet nc nc' key :
    U nc → U nc' → res_CacheKey nc = Some key → res_CacheKey nc' = Some key → Kubelet (Spec nc) = Kubelet (Spec nc');
  CacheKey_Resolve nc nc' key info zones parsed :
    U nc → U nc' → res_CacheKey nc = Some key → res_CacheKey nc' = Some key →
    zone_pairs (zone_info nc) = zone_pairs (zone_info nc') →
    res_Resolve info zones nc parsed = res_Resolve info zones nc' parsed;
}.

Section resolver_laws.
Context `{Scheduling} `{QuantityParser} {Ast Program : Type}.
Variable env_Compile : string → result error Ast.
Variable OutputType : Ast → CelType.
Variable env_Program : Ast → result error Program.
Variable Eval : Program → InstanceTypeVars → result error CelValue.
Variable out_of_range : float64 → Z.
Variable InstanceTypeBandwidthMegabits : string → option Z.
Variable Limits : string → option VPCLimits.
Variable ParseFloat : string → option float64.
Variable AsApproximateFloat64 : Quantity → float64.
Variable opts : Options_.
Variable region : string.
Variable hash_kubelet : KubeletConfiguration → Z.
Variable hash_bdms : list (BlockDeviceMapping Quantity) → Z.
Variable hash_reservations : list CapacityReservation → Z.
Variable hash_nis : option (list NetworkInterface) → Z.
Abbreviation key := (CacheKey hash_kubelet hash_bdms hash_reservations hash_nis).

(** The NodeClasses [U] are told apart by their hashes, and block device mappings decide the
    root volume without regard to their order. *)
Record distinguishable (U : EC2NodeClass Z → Prop) : Prop := {
  d_range nc : U nc → uint64 (hash_kubelet (Kubelet (Spec nc))) ∧ uint64 (hash_bdms (BlockDeviceMappings_ (Spec nc))) ∧
    uint64 (hash_reservations (CapacityReservations_ (Status nc))) ∧ uint64 (hash_nis (NetworkInterfaces nc));
  d_kubelet nc nc' : U nc → U nc' → hash_kubelet (Kubelet (Spec nc)) = hash_kubelet (Kubelet (Spec nc')) →
    Kubelet (Spec nc) = Kubelet (Spec nc');
  d_bdms nc nc' : U nc → U nc' → hash_bdms (BlockDeviceMappings_ (Spec nc)) = hash_bdms (BlockDeviceMappings_ (Spec nc')) →
    BlockDeviceMappings_ (Spec nc) ≡ₚ BlockDeviceMappings_ (Spec nc');
  d_reservations nc nc' : U nc → U nc' →
    hash_reservations (CapacityReservations_ (Status nc)) = hash_reservations (CapacityReservations_ (Status nc')) →
    CapacityReservations_ (Status nc) = CapacityReservations_ (Status nc');
  d_nis nc nc' : U nc → U nc' → hash_nis (NetworkInterfaces nc) = hash_nis (NetworkInterfaces nc') →
    NetworkInterfaces_ (Spec nc) ≡ₚ NetworkInterfaces_ (Spec nc');
  d_policy nc : U nc → default "" (InstanceStorePolicy_ (Spec nc)) = "" ∨ default "" (InstanceStorePolicy_ (Spec nc)) = "RAID0";
  d_storage nc family : U nc → AMIFamily nc = Some family →
    storage_decided (GetAMIFamily family) (BlockDeviceMappings_ (Spec nc));
}.

Lemma policy_split (p p' f f' : string) :
  p = "" ∨ p = "RAID0" → p' = "" ∨ p' = "RAID0" → p +:+ "-" +:+ f = p' +:+ "-" +:+ f' → p = p' ∧ f = f'.
Proof. intros [-> | ->] [-> | ->] E; simpl in E; injection E; naive_solver. Qed.

Lemma CacheKey_same (U : EC2NodeClass Z → Prop) nc nc' k :
  distinguishable U → U nc → U nc' → key nc = Some k → key nc' = Some k →
  Kubelet (Spec nc) = Kubelet (Spec nc') ∧
  (zone_pairs (zone_info nc) = zone_pairs (zone_info nc') → same_inputs nc nc').
Proof.
  intros D Hu Hu' Hk Hk'. unfold CacheKey in *.
  destruct (AMIFamily nc) as [f|] eqn:Ef; [|done]. destruct (AMIFamily nc') as [f'|] eqn:Ef'; [|done].
  cbn [mbind option_bind] in *. rewrite <- Hk' in Hk. apply (inj Some) in Hk as E.
  destruct (d_range _ D nc Hu) as (R1 & R2 & R3 & R4), (d_range _ D nc' Hu') as (R1' & R2' & R3' & R4').
  apply key_split in E as [E1 E]; [|done..]. apply key_split in E as [E2 E]; [|done..].
  apply key_split in E as [E3 E]; [|done..]. apply key_split in E as [E4 E]; [|done..].
  apply policy_split in E as [E5 ->]; [|by apply (d_policy _ D)..].
  assert (Kubelet (Spec nc) = Kubelet (Spec nc')) as Hkub by (apply (d_kubelet _ D); congruence).
  split; [done|]. intros Hz. split; [congruence|done|congruence| | | |done].
  - apply (d_reservations _ D); congruence.
  - apply (d_bdms _ D); congruence.
  - apply (d_nis _ D); congruence.
Qed.

(** [DefaultResolver] is a resolver in this sense. *)
Lemma DefaultResolver_laws (U : EC2NodeClass Z → Prop) :
  distinguishable U →
  @TypeResolverLaws _ (DefaultResolver env_Compile OutputType env_Program Eval out_of_range InstanceTypeBandwidthMegabits
    Limits ParseFloat AsApproximateFloat64 opts region hash_kubelet hash_bdms hash_reservations hash_nis) U.
Proof.
  intros D. split.
  - intros nc nc' k Hu Hu' Hk Hk'. by destruct (CacheKey_same U nc nc' k D Hu Hu' Hk Hk').
  - intros nc nc' k info zones parsed Hu Hu' Hk Hk' Hz. destruct (CacheKey_same U nc nc' k D Hu Hu' Hk Hk') as [_ Hs].
    apply Resolve_same; [by apply Hs|]. intros family. by apply (d_storage _ D).
Qed.
End resolver_laws.

(** ** The interface of change monitors *)

(** What is unchanged is alike the value seen last, what is not is the one seen last from
    then on.  (Collisions of hashes are set aside; slices are hashed as sets.) *)
Class ChangeMonitorLaws {V M : Type} `{ChangeMonitor V M} (alike : V → V → Prop) := {
  HasChanged_true v (m m' : M) : HasChanged v m = (m', true) → last_seen m' = Some v;
  HasChanged_false v (m m' : M) : HasChanged v m = (m', false) → ∃ w, last_seen m = Some w ∧ last_seen m' = Some w ∧ alike w v;
}.

(** ** The tables *)

Lemma uniq_zones_pairs seen l :
  ∀ z id, (z, id) ∈ zone_pairs l ↔ (z, id) ∈ zone_pairs (uniq_zones seen l) ∨ (z, id) ∈ seen ∧ (z, id) ∈ zone_pairs l.
Proof.
  revert seen. induction l as [|i l IH]; intros seen z id; [cbn; set_solver|]. cbn [uniq_zones].
  assert (∀ k, (z, id) ∈ zone_pairs (i :: k) ↔ (z, id) = (zi_Zone i, zi_ZoneID i) ∨ (z, id) ∈ zone_pairs k) as Hc.
  { intros k. unfold zone_pairs. rewrite fmap_cons, list_to_set_cons, elem_of_union, elem_of_singleton. done. }
  case_decide as Hd.
  - rewrite Hc. pose proof (IH seen z id).
    destruct (decide ((z, id) = (zi_Zone i, zi_ZoneID i))) as [E|]; [rewrite E in *|]; tauto.
  - rewrite !Hc. pose proof (IH ((zi_Zone i, zi_ZoneID i) :: seen) z id) as IH'. rewrite elem_of_cons in IH'. tauto.
Qed.
Lemma zone_pairs_uniq l : zone_pairs (uniq_zones [] l) = zone_pairs l.
Proof. apply set_eq. intros [z id]. rewrite (uniq_zones_pairs [] l z id). set_solver. Qed.

Definition type_table (l : list InstanceTypeInfo) : gmap string InstanceTypeInfo :=
  foldl (λ m i, <[info_InstanceType i := i]> m) ∅ l.
Lemma type_table_list_to_map l : type_table l = list_to_map ((λ i, (info_InstanceType i, i)) <$> reverse l).
Proof.
  induction l as [|i l IH] using rev_ind; [done|].
  unfold type_table in *. rewrite foldl_app, reverse_snoc. simpl. by rewrite IH.
Qed.
Lemma type_table_perm l l' : NoDup (info_InstanceType <$> l) → l ≡ₚ l' → type_table l = type_table l'.
Proof.
  intros Hn Hp. rewrite !type_table_list_to_map. apply list_to_map_proper.
  - rewrite <- list_fmap_compose. simpl. rewrite fmap_reverse. by rewrite reverse_Permutation.
  - by rewrite !reverse_Permutation, Hp.
Qed.

(** ** The provider *)

Section provider.
Context `{IR : ImageRequirements} `{TR : !TypeResolver}.
Context {CT CD CU CO CP CA M1 M2 : Type}.
Context `{GoCacheLaws (list CloudInstanceType) CT} `{GoCache Quantity CD} `{GoCache unit CU} `{GoCache (list Offering) CO}.
Context `{GoCache unit CP} `{GoCache PlacementGroup CA}.
Context `{ChangeMonitor (list InstanceTypeInfo) M1} `{ChangeMonitor (gmap string (gset string)) M2}.
Context {HM1 : ChangeMonitorLaws (V := list InstanceTypeInfo) (M := M1) Permutation}
        {HM2 : ChangeMonitorLaws (V := gmap string (gset string)) (M := M2) eq}.
Variable hash_amis : list AMI → Z.
Variable hash_zones : list ZoneInfo_ → Z.
Variable hash_interfaces : option (list NetworkInterface) → Z.
Variable hash_set : gset string → Z.
Variable hash_bool : bool → Z.
Variable hash_string : string → Z.
Variable pg_CacheKey : PlacementGroupSelector → string.
Variable DescribePlacementGroups : DescribePlacementGroupsInput_ → result error (list EC2PlacementGroup).
Variable Unmarshal : KubeletConfiguration → result error ParsedKubeletConfig.
(** The NodeClasses there are. *)
Variable U : EC2NodeClass Z → Prop.
Abbreviation Provider := (TypeProvider CT CD CO CP CA M1 M2).
Implicit Types (p : Provider) (nc : EC2NodeClass Z) (env : Env (CU := CU)) (h : list (Z * Provider)).
Abbreviation list_types := (List hash_amis hash_zones hash_interfaces hash_set hash_bool hash_string pg_CacheKey
  DescribePlacementGroups Unmarshal).
Abbreviation get_one := (Get_type hash_amis hash_zones hash_interfaces hash_set hash_bool hash_string pg_CacheKey
  DescribePlacementGroups Unmarshal).
Abbreviation inject := (InjectOfferings hash_interfaces hash_set hash_bool hash_string pg_CacheKey DescribePlacementGroups).
Abbreviation key := (cacheKey hash_amis hash_zones).
Abbreviation build := (buildInstanceTypes Unmarshal).
Abbreviation memory_at t nc p := (discovered_memory hash_amis t nc p).

(** What can happen to the provider at a time; EC2 names every instance type once, and
    others use the offering and placement group providers too. *)
Inductive step (now : Z) : Provider → Provider → Prop :=
  | step_List env shifted nc p p' r :
      env_now env = now → U nc → list_types env shifted nc p = Some (p', r) → step now p p'
  | step_Get env shifted nc name p p' r :
      env_now env = now → U nc → get_one env shifted nc name p = Some (p', r) → step now p p'
  | step_Filter its nc p p' kept :
      FilterForNodeClass pg_CacheKey DescribePlacementGroups now its nc p = Some (p', kept) → step now p p'
  | step_UpdateInstanceTypes pages p :
      (∀ l, collect_pages pages = Ok l → NoDup (info_InstanceType <$> l)) → step now p (UpdateInstanceTypes pages p).1
  | step_UpdateInstanceTypeOfferings pages p : step now p (UpdateInstanceTypeOfferings pages p).1
  | step_Capacity labels name imageID memory nc p :
      step now p (UpdateInstanceTypeCapacityFromNode hash_amis now labels name imageID memory nc p)
  | step_Reset p : step now p (ResetProvider p)
  | step_janitor p : step now p (with_cache (DeleteExpired (tp_cache p) now).1 p)
  | step_discovered_janitor p : step now p (with_discovered (DeleteExpired (tp_discovered p) now).1 p)
  | step_offering_state r groups p : step now p (with_offering_state r groups p).

(** A new provider, and the states it was in with the times it left them, the last first. *)
Inductive reach (ttl : Z) : list (Z * Provider) → Provider → Prop :=
  | reach_new p :
      0 < ttl → defaultTTL (tp_cache p) = ttl → items (tp_cache p) = ∅ → last_seen (tp_types_seen p) = None →
      last_seen (tp_offerings_seen p) = None → reach ttl [] p
  | reach_step h p p' now :
      reach ttl h p → (∀ t q, (t, q) ∈ h → t ≤ now) → step now p p' → reach ttl ((now, p) :: h) p'.

(** A built list: from the tables that are there, with the memory known at some time. *)
Record built (ttl : Z) h p (k : string) (its : list CloudInstanceType) (e : option Z) : Prop := {
  built_from : ∃ nc t q, (t, q) ∈ h ∧ e = Some (t + ttl) ∧ U nc ∧ key nc = Some k ∧
    build (tp_Info p) (tp_TypeOfferings p) (memory_at t nc q) nc = Some (Ok its);
}.
Record invariant (ttl : Z) h p : Prop := {
  inv_positive : 0 < ttl;
  inv_ttl : defaultTTL (tp_cache p) = ttl;
  inv_types w : last_seen (tp_types_seen p) = Some w →
    NoDup (info_InstanceType <$> w) ∧ (tp_Info p = type_table w ∨ items (tp_cache p) = ∅ ∧ tp_Info p = ∅);
  inv_offerings w : last_seen (tp_offerings_seen p) = Some w →
    tp_TypeOfferings p = w ∨ items (tp_cache p) = ∅ ∧ tp_TypeOfferings p = ∅;
  inv_built k its e : items (tp_cache p) !! k = Some (its, e) → built ttl h p k its e;
}.

(** *** Builds for NodeClasses with one key *)

Context (HR : TypeResolverLaws U).
Hypothesis amis_range : ∀ nc, U nc → uint64 (hash_amis (AMIs_ (Status nc))) ∧ uint64 (hash_zones (uniq_zones [] (zone_info nc))).
Hypothesis zones_told_apart : ∀ nc nc', U nc → U nc' →
  hash_zones (uniq_zones [] (zone_info nc)) = hash_zones (uniq_zones [] (zone_info nc')) →
  zone_pairs (uniq_zones [] (zone_info nc)) = zone_pairs (uniq_zones [] (zone_info nc')).

Lemma key_parts nc nc' k :
  U nc → U nc' → key nc = Some k → key nc' = Some k →
  hash_amis (AMIs_ (Status nc)) = hash_amis (AMIs_ (Status nc')) ∧
  zone_pairs (zone_info nc) = zone_pairs (zone_info nc') ∧
  ∃ rk, res_CacheKey nc = Some rk ∧ res_CacheKey nc' = Some rk.
Proof.
  intros Hu Hu' Hk Hk'. unfold cacheKey in *.
  destruct (res_CacheKey nc) as [rk|] eqn:E1; [|done]. destruct (res_CacheKey nc') as [rk'|] eqn:E2; [|done].
  cbn [mbind option_bind] in *. rewrite <- Hk' in Hk. apply (inj Some) in Hk as E.
  destruct (amis_range nc Hu), (amis_range nc' Hu').
  apply key_split in E as [Ea E]; [|done..]. apply key_split in E as [Ez ->]; [|done..].
  apply zones_told_apart in Ez; [|done..]. rewrite !zone_pairs_uniq in Ez. eauto.
Qed.

Lemma build_types_ext (get get' : string → option (result error (option CloudInstanceType))) names :
  (∀ name, get name = get' name) → build_types get names = build_types get' names.
Proof. intros E. induction names as [|name names IH]; simpl; [done|]. by rewrite E, IH. Qed.

Lemma build_same info offerings t (q : Provider) nc nc' k :
  U nc → U nc' → key nc = Some k → key nc' = Some k →
  build info offerings (memory_at t nc q) nc = build info offerings (memory_at t nc' q) nc'.
Proof.
  intros Hu Hu' Hk Hk'. destruct (key_parts nc nc' k Hu Hu' Hk Hk') as (Ha & Hz & rk & E & E').
  unfold buildInstanceTypes, parseKubeletConfig. rewrite (CacheKey_kubelet nc nc' rk) by done.
  destruct (ParseKubeletConfig Unmarshal (Kubelet (Spec nc'))) as [parsed|]; [|done].
  apply build_types_ext. intros name. unfold get_type. destruct (info !! name) as [i|]; [|done].
  rewrite (CacheKey_Resolve nc nc' rk i _ parsed) by done.
  unfold discovered_memory, discoveredCapacityCacheKey. by rewrite Ha.
Qed.

(** *** The invariant *)

Record frame p p' : Prop := {
  fr_Info : tp_Info p' = tp_Info p;
  fr_TypeOfferings : tp_TypeOfferings p' = tp_TypeOfferings p;
  fr_types_seen : tp_types_seen p' = tp_types_seen p;
  fr_offerings_seen : tp_offerings_seen p' = tp_offerings_seen p;
}.

Lemma built_later ttl h p p' k its e x :
  built ttl h p k its e → tp_Info p' = tp_Info p → tp_TypeOfferings p' = tp_TypeOfferings p → built ttl (x :: h) p' k its e.
Proof.
  intros [(nc & t & q & Hin & He & Hu & Hk & Hb)] E1 E2. split. exists nc, t, q. rewrite E1, E2. split_and!; try done. by right.
Qed.

(** Nothing but the offering state changes, and entries are dropped at most. *)
Lemma invariant_frame ttl h p p' now :
  invariant ttl h p → frame p p' → defaultTTL (tp_cache p') = ttl → items (tp_cache p') ⊆ items (tp_cache p) →
  invariant ttl ((now, p) :: h) p'.
Proof.
  intros [Hpos Httl Ht Ho Hb] [E1 E2 E3 E4] Httl' Hsub.
  assert (items (tp_cache p) = ∅ → items (tp_cache p') = ∅) as Hemp by (intros E; rewrite E in Hsub; apply map_empty; intros k; destruct (items (tp_cache p') !! k) eqn:Ek; [by apply (lookup_weaken _ _ _ _ Ek) in Hsub|done]).
  split; [done|done| | |].
  - intros w Hw. rewrite E3 in Hw. rewrite E1. destruct (Ht w Hw) as [Hn [E|[Ec E]]]; auto.
  - intros w Hw. rewrite E4 in Hw. rewrite E2. destruct (Ho w Hw) as [E|[Ec E]]; auto.
  - intros k its e Hk. apply (built_later ttl h p); [|done..]. apply Hb. by eapply lookup_weaken.
Qed.

Lemma InjectOfferings_frame env shifted nc its p p' out :
  inject env shifted nc its p = Some (p', out) → frame p p' ∧ tp_cache p' = tp_cache p.
Proof.
  unfold InjectOfferings. destruct (offerings_view nc) as [view|]; simpl; [|done].
  destruct (placement_group_of _ _ _ _ _) as [groups pg]. destruct (inject_all _ _ _ _ _ _ _ _) as [[r its']|]; simpl; [|done].
  intros [= <- _]. done.
Qed.

Lemma invariant_skip ttl h p now : invariant ttl h p → invariant ttl ((now, p) :: h) p.
Proof. intros Hinv. apply (invariant_frame ttl h p); [done|done|apply Hinv|done]. Qed.

Lemma unready_None nc p : unready nc p = None → tp_Info p ≠ ∅ ∧ tp_TypeOfferings p ≠ ∅.
Proof. unfold unready. repeat case_decide; naive_solver. Qed.

(** What [List] caches keeps the invariant. *)
Lemma cached_types_invariant ttl h p p' now nc r :
  invariant ttl h p → U nc → unready nc p = None → cached_types hash_amis hash_zones Unmarshal now nc p = Some (p', r) →
  invariant ttl ((now, p) :: h) p'.
Proof.
  intros Hinv Hu Hready Hc. pose proof Hinv as [Hpos Httl Ht Ho Hb]. unfold cached_types in Hc.
  destruct (key nc) as [k|] eqn:Hk; [|done]. cbn [mbind option_bind] in Hc.
  assert (invariant ttl ((now, p) :: h) p) as Hsame by by apply invariant_skip.
  destruct (GoCache.Get (tp_cache p) now k) as [its|]; [by injection Hc as <- _|].
  destruct (build _ _ _ nc) as [[its|e]|] eqn:Eb; cbn [mbind option_bind] in Hc; [|by injection Hc as <- _|done].
  injection Hc as <- _. destruct (unready_None nc p Hready) as [Hi Hof]. split; simpl.
  - done.
  - by rewrite SetDefault_ttl.
  - intros w Hw. destruct (Ht w Hw) as [? [|[_ ?]]]; [by auto|done].
  - intros w Hw. destruct (Ho w Hw) as [|[_ ?]]; [by auto|done].
  - intros k' its' e. rewrite SetDefault_items, Httl. intros [[<- [= <- <-]]|[Hne Hl]]%lookup_insert_Some.
    + split. exists nc, now, p. split_and!; [by left| |done|done|done]. unfold expiry. by rewrite decide_True.
    + apply (built_later ttl h p); [by apply Hb|done|done].
Qed.

(** Later steps on the offerings alone change nothing here. *)
Lemma invariant_offerings ttl h p p' :
  invariant ttl h p → frame p p' → tp_cache p' = tp_cache p → invariant ttl h p'.
Proof.
  intros [Hpos Httl Ht Ho Hb] [E1 E2 E3 E4] Ec. split; rewrite ?E1, ?E2, ?E3, ?E4, ?Ec; try done.
  intros k its e Hk. destruct (Hb k its e Hk) as [Hx]. split. by rewrite E1, E2.
Qed.

Lemma List_cases env shifted nc p p' r :
  list_types env shifted nc p = Some (p', r) →
  (∃ e, unready nc p = Some e ∧ p' = p) ∨
  unready nc p = None ∧ ∃ p1 r1, cached_types hash_amis hash_zones Unmarshal (env_now env) nc p = Some (p1, r1) ∧
    frame p1 p' ∧ tp_cache p' = tp_cache p1 ∧
    match r with
    | Ok out => ∃ its, r1 = Ok its ∧ inject env shifted nc its p1 = Some (p', out)
    | Err e => r1 = Err e
    end.
Proof.
  unfold List. destruct (unready nc p) as [e|]; [intros [= <- _]; left; eauto|].
  destruct (cached_types _ _ _ _ _ _) as [[p1 [its|e]]|]; cbn [mbind option_bind]; [| |done].
  - destruct (inject env shifted nc its p1) as [[p2 out]|] eqn:E; cbn [mbind option_bind]; [|done].
    intros [= <- <-]. right. split; [done|]. exists p1, (Ok its). destruct (InjectOfferings_frame _ _ _ _ _ _ _ E). eauto 8.
  - intros [= <- <-]. right. split; [done|]. exists p1, (Err e). split_and!; done.
Qed.

Lemma List_Ok env shifted nc p p' out :
  list_types env shifted nc p = Some (p', Ok out) →
  ∃ p1 its, cached_types hash_amis hash_zones Unmarshal (env_now env) nc p = Some (p1, Ok its) ∧
            inject env shifted nc its p1 = Some (p', out).
Proof.
  unfold List. destruct (unready nc p) as [e|]; [done|].
  destruct (cached_types _ _ _ _ _ _) as [[p1 [its|e]]|]; cbn [mbind option_bind]; [|done|done].
  destruct (inject env shifted nc its p1) as [[p2 out']|] eqn:E; cbn [mbind option_bind]; [|done]. intros [= -> ->]. eauto.
Qed.

Lemma Get_frame env shifted nc name p p' r :
  get_one env shifted nc name p = Some (p', r) → frame p p' ∧ tp_cache p' = tp_cache p.
Proof.
  unfold Get_type. destruct (unready nc p); [by intros [= <- _]|].
  destruct (single_type _ _ _ _ _ _ _) as [[ct|e]|]; cbn [mbind option_bind]; [|by intros [= <- _]|done].
  destruct (inject env shifted nc [ct] p) as [[p2 out]|] eqn:E; cbn [mbind option_bind]; [|done].
  destruct (head out); cbn [mbind option_bind]; [|done]. intros [= <- _]. by apply InjectOfferings_frame in E.
Qed.

Lemma Filter_frame now its nc p p' kept :
  FilterForNodeClass pg_CacheKey DescribePlacementGroups now its nc p = Some (p', kept) →
  frame p p' ∧ tp_cache p' = tp_cache p.
Proof.
  unfold FilterForNodeClass. destruct (placement_group_of _ _ _ _ _) as [groups pg].
  destruct (filter_types _ _); simpl; [|done]. by intros [= <- _].
Qed.

Lemma Capacity_frame now labels name imageID memory nc p :
  frame p (UpdateInstanceTypeCapacityFromNode hash_amis now labels name imageID memory nc p) ∧
  tp_cache (UpdateInstanceTypeCapacityFromNode hash_amis now labels name imageID memory nc p) = tp_cache p.
Proof.
  unfold UpdateInstanceTypeCapacityFromNode. destruct (existsb _ _); [|done].
  destruct (GoCache.Get _ _ _); [|done]. by case_decide.
Qed.

(** A refresh flushes the cache or finds the table that was there. *)
Lemma UpdateInstanceTypes_invariant ttl h p now pages :
  invariant ttl h p → (∀ l, collect_pages pages = Ok l → NoDup (info_InstanceType <$> l)) →
  invariant ttl ((now, p) :: h) (UpdateInstanceTypes pages p).1.
Proof.
  intros Hinv Hnd. unfold UpdateInstanceTypes. destruct (collect_pages pages) as [l|e] eqn:El;
    [|by apply invariant_skip]. specialize (Hnd l eq_refl).
  destruct (HasChanged l (tp_types_seen p)) as [m changed] eqn:Ec. pose proof Hinv as [Hpos Httl Ht Ho Hb]. destruct changed.
  - pose proof (HasChanged_true _ _ _ Ec) as Hl. split; simpl; [done|by rewrite Flush_ttl| | |].
    + intros w Hw. rewrite Hl in Hw. injection Hw as <-. auto.
    + intros w Hw. rewrite Flush_items. destruct (Ho w Hw) as [|[_ ?]]; auto.
    + intros k its e. by rewrite Flush_items, lookup_empty.
  - destruct (HasChanged_false _ _ _ Ec) as (w & Hw & Hw' & Hp). destruct (Ht w Hw) as [Hnw Hsync].
    pose proof (type_table_perm w l Hnw Hp) as Etab. split; simpl; [done|done| |done|].
    + intros w' E. rewrite Hw' in E. injection E as <-. split; [done|]. left. by rewrite Etab.
    + intros k its e Hk. destruct Hsync as [E|[E _]]; [|by rewrite E, lookup_empty in Hk].
      apply (built_later ttl h p); simpl; [by apply Hb| |done]. rewrite E, Etab. done.
Qed.
Lemma UpdateInstanceTypeOfferings_invariant ttl h p now pages :
  invariant ttl h p → invariant ttl ((now, p) :: h) (UpdateInstanceTypeOfferings pages p).1.
Proof.
  intros Hinv. unfold UpdateInstanceTypeOfferings. destruct (collect_pages pages) as [l|e];
    [|by apply invariant_skip]. set (table := foldl add_offering ∅ l).
  destruct (HasChanged table (tp_offerings_seen p)) as [m changed] eqn:Ec. pose proof Hinv as [Hpos Httl Ht Ho Hb]. destruct changed.
  - pose proof (HasChanged_true _ _ _ Ec) as Hl. split; simpl; [done|by rewrite Flush_ttl| | |].
    + intros w Hw. rewrite Flush_items. destruct (Ht w Hw) as [? [|[_ ?]]]; auto.
    + intros w Hw. left. congruence.
    + intros k its e. by rewrite Flush_items, lookup_empty.
  - destruct (HasChanged_false _ _ _ Ec) as (w & Hw & Hw' & ->). split; simpl; [done|done|done| |].
    + intros w' E. left. congruence.
    + intros k its e Hk. destruct (Ho _ Hw) as [E|[E _]]; [|by rewrite E, lookup_empty in Hk].
      apply (built_later ttl h p); simpl; [by apply Hb|done|done].
Qed.

Lemma provider_step_invariant ttl h p p' now : invariant ttl h p → step now p p' → invariant ttl ((now, p) :: h) p'.
Proof.
  intros Hinv Hs. pose proof (inv_ttl _ _ _ Hinv) as Httl.
  assert (∀ p', frame p p' ∧ tp_cache p' = tp_cache p → invariant ttl ((now, p) :: h) p') as Hframe.
  { intros q [Hf Ec]. apply (invariant_frame ttl h p); rewrite ?Ec; done. }
  destruct Hs as [env shifted nc p p' r Ht Hu Hl|env shifted nc name p p' r Ht Hu Hl|its nc p p' kept Hl|pages p Hnd|pages p
                 |labels name imageID memory nc p|p|p|p|r groups p].
  - apply List_cases in Hl as [(e & _ & ->)|(Hready & p1 & r1 & Hc & Hf & Ec & _)]; [by apply Hframe|].
    rewrite Ht in Hc. apply (invariant_offerings ttl _ p1); [|done|done]. by apply (cached_types_invariant _ _ _ _ _ nc r1).
  - apply Hframe. by apply Get_frame in Hl.
  - apply Hframe. by apply Filter_frame in Hl.
  - by apply UpdateInstanceTypes_invariant.
  - by apply UpdateInstanceTypeOfferings_invariant.
  - apply Hframe, Capacity_frame.
  - pose proof Hinv as [Hpos _ Hti Ho Hb]. split; simpl; rewrite ?Flush_ttl, ?Flush_items; try done.
    + intros w Hw. destruct (Hti w Hw). auto.
    + intros w Hw. auto.
  - apply (invariant_frame ttl h p); simpl; [done|done|by rewrite DeleteExpired_ttl|].
    apply map_subseteq_spec. intros k it. rewrite DeleteExpired_items.
    destruct (items (tp_cache p) !! k) as [it'|]; simpl; [|done]. by destruct (expired _ _).
  - by apply Hframe.
  - by apply Hframe.
Qed.

Lemma reach_invariant ttl h p : reach ttl h p → invariant ttl h p.
Proof.
  induction 1 as [p Hpos Httl Hemp H1' H2'|h p p' now Hr IH Hnow Hs]; [|by apply provider_step_invariant].
  split; try done; [by rewrite H1'|by rewrite H2'|by rewrite Hemp].
Qed.

Lemma with_same_cache p : with_cache (tp_cache p) p = p.
Proof. by destruct p. Qed.

(** A cached list is built for this NodeClass, or for one with its key. *)
Lemma cached_types_fresh ttl h p p1 now nc its :
  reach ttl h p → (∀ t q, (t, q) ∈ h → t ≤ now) → U nc →
  cached_types hash_amis hash_zones Unmarshal now nc p = Some (p1, Ok its) →
  ∃ t q c, (t, q) ∈ (now, p) :: h ∧ t ≤ now ≤ t + ttl ∧
    build (tp_Info p) (tp_TypeOfferings p) (memory_at t nc q) nc = Some (Ok its) ∧ p1 = with_cache c p.
Proof.
  intros Hr Hnow Hu Hc. destruct (reach_invariant _ _ _ Hr) as [Hpos Httl _ _ Hb].
  unfold cached_types in Hc. destruct (key nc) as [k|] eqn:Hk; [|done]. cbn [mbind option_bind] in Hc.
  destruct (GoCache.Get (tp_cache p) now k) as [its'|] eqn:Eg.
  - injection Hc as <- <-. rewrite Get_items in Eg.
    destruct (items (tp_cache p) !! k) as [[its'' e]|] eqn:Ei; [|done]. simpl in Eg. unfold live_value in Eg. simpl in Eg.
    destruct (Hb k its'' e Ei) as [(nc' & t & q & Hin & -> & Hu' & Hk' & Hbd)].
    destruct (expired now (Some (t + ttl))) eqn:Ee; [done|]. injection Eg as <-.
    apply bool_decide_eq_false in Ee. exists t, q, (tp_cache p). rewrite with_same_cache.
    rewrite (build_same _ _ t q nc nc' k) by done. split_and!; [by right|by eapply Hnow|lia|done|done].
  - destruct (build _ _ _ nc) as [[its'|e]|] eqn:Eb; cbn [mbind option_bind] in Hc; [|done|done].
    injection Hc as <- <-. exists now, p. eexists. split_and!; [by left|lia|lia|done|done].
Qed.

(** C13: Nobody can tell that [List] answers from a cache.  After any sequence of operations of
    the provider, [List] returns the offerings of now on the instance types that a build for
    this very NodeClass, from the tables of EC2 that the provider has now, gives with the
    memory of nodes as the provider knew it at a moment no further back than the lifetime
    of entries.  Entries of other NodeClasses with the same key are as good, and refreshes
    that change a table flush what was built from the old one. *)
Theorem List_fresh ttl h p env shifted nc p' out :
  reach ttl h p → (∀ t q, (t, q) ∈ h → t ≤ env_now env) → U nc → list_types env shifted nc p = Some (p', Ok out) →
  ∃ t q its c, (t, q) ∈ (env_now env, p) :: h ∧ t ≤ env_now env ≤ t + ttl ∧
    build (tp_Info p) (tp_TypeOfferings p) (memory_at t nc q) nc = Some (Ok its) ∧
    inject env shifted nc its (with_cache c p) = Some (p', out).
Proof.
  intros Hr Hnow Hu (p1 & its & Hc & Hinj)%List_Ok.
  destruct (cached_types_fresh _ _ _ _ _ _ _ Hr Hnow Hu Hc) as (t & q & c & Hin & Ht & Hbd & ->). by exists t, q, its, c.
Qed.
End provider.

(** ** A concrete run *)

Section concrete.
#[local] Instance NetworkCardInfo_eq_dec : EqDecision NetworkCardInfo.
Proof. solve_decision. Defined.
#[local] Instance NetworkInfo_eq_dec : EqDecision NetworkInfo.
Proof. solve_decision. Defined.
#[local] Instance ProcessorInfo_eq_dec : EqDecision ProcessorInfo.
Proof. solve_decision. Defined.
#[local] Instance GpuDeviceInfo_eq_dec : EqDecision GpuDeviceInfo.
Proof. solve_decision. Defined.
#[local] Instance NeuronDeviceInfo_eq_dec : EqDecision NeuronDeviceInfo.
Proof. solve_decision. Defined.
#[local] Instance InferenceDeviceInfo_eq_dec : EqDecision InferenceDeviceInfo.
Proof. solve_decision. Defined.
#[local] Instance InstanceTypeInfo_eq_dec : EqDecision InstanceTypeInfo.
Proof. solve_decision. Defined.

(** A change monitor that remembers the value itself. *)
#[local] Instance RefMonitor {V} `{EqDecision V} : ChangeMonitor V (option V) := {|
  HasChanged v m := if decide (m = Some v) then (m, false) else (Some v, true);
  last_seen m := m;
|}.
#[local] Instance RefMonitorLaws {V} `{EqDecision V} (R : relation V) `{!Reflexive R} :
  ChangeMonitorLaws (V := V) (M := option V) R.
Proof.
  split.
  - intros v m m'. simpl. case_decide; [done|]. by intros [= <-].
  - intros v m m'. simpl. case_decide; [|done]. subst. intros [= <-]. eauto.
Qed.

(** A custom machine image, by NodeClasses that name their devices in this order. *)
Definition w_mapping (device : string) (root : bool) (size : option Z) : BlockDeviceMapping Quantity :=
  {| DeviceName := Some device; RootVolume := root;
     EBS := Some {| DeleteOnTermination := None; Encrypted := None; IOPS := None; KMSKeyID := None; SnapshotID := None;
                    Throughput := None; VolumeInitializationRate := None; VolumeSize := units <$> size;
                    VolumeType := None |} |}.
Definition w_class (name : string) (bdms : list (BlockDeviceMapping Quantity)) : EC2NodeClass Z :=
  {| nc_Name := name; nc_UID := "uid-" +:+ name; nc_Generation := 1; nc_DeletionTimestamp := None; nc_Annotations := ∅;
     Spec :=
       {| SubnetSelectorTerms := []; SecurityGroupSelectorTerms := []; CapacityReservationSelectorTerms := [];
          PlacementGroupSelector_ := None; AssociatePublicIPAddress := None; IPPrefixCount := None;
          AMISelectorTerms := []; AMIFamily_ := Some "Custom"; UserData := None; Role := ""; InstanceProfile_ := None;
          Tags := ∅; Kubelet := ∅; BlockDeviceMappings_ := bdms; InstanceStorePolicy_ := None; NetworkInterfaces_ := [];
          DetailedMonitoring := None; MetadataOptions_ := None; EnclaveOptions_ := None; ConnectionTracking_ := None;
          Context_ := None; CPUOptions_ := None |};
     Status := {| Subnets := [{| sn_ID := "subnet-1"; sn_Zone := "z1"; sn_ZoneID := "id1" |}]; SecurityGroups := [];
                  CapacityReservations_ := []; AMIs_ := []; InstanceProfile := ""; Conditions := ∅ |} |}.
Definition w_root := w_mapping "/dev/xvda" true (Some 100).
Definition w_data := w_mapping "/dev/xvdb" false (Some 20).
Definition w_one : EC2NodeClass Z := w_class "one" [w_root; w_data].
Definition w_two : EC2NodeClass Z := w_class "two" [w_data; w_root].

(** The resolver, on a table of limits with one entry and without expressions. *)
Definition w_limits (name : string) : option VPCLimits :=
  if decide (name = "m7g.xlarge") then Some {| IsTrunkingCompatible := true; BranchInterface := 18; IPv4PerInterface := 15 |}
  else None.
Definition w_count {A} (l : list A) : Z := Z.of_nat (length l).
#[local] Instance w_default : TypeResolver :=
  DefaultResolver (λ _, Err (errorf "syntax")) (λ _ : unit, IntType) (λ _, Ok tt) (λ _ _, Ok (CelInt 0)) (λ _, 0)
    (λ _, Some 1876) w_limits (λ _, None) (λ q, q) w_opts "us-west-2" (λ _, 0) w_count w_count (λ _, 0).
Abbreviation w_provider := (TypeProvider (RefCache.t (list CloudInstanceType)) (RefCache.t Quantity) (RefCache.t (list Offering))
  (RefCache.t unit) (RefCache.t PlacementGroup) (option (list InstanceTypeInfo)) (option (gmap string (gset string)))).
Abbreviation w_List := (List (CU := RefCache.t unit) w_count w_count (λ _, 0) (λ s, Z.of_nat (size s)) (λ b, if b then 1 else 0)
  (λ _, 0) (λ _, "") (λ _, Ok []) (λ _, Err (errorf "no kubelet"))).

Definition w_new : w_provider :=
  {| tp_Info := ∅; tp_TypeOfferings := ∅; tp_allZones := ∅; tp_cache := New (5 * Minute); tp_discovered := New (60 * Hour);
     tp_types_seen := None; tp_offerings_seen := None; tp_resolver := w_resolver;
     tp_groups := {| pgCache := New Minute; pgAvailabilityCache := New Minute; pg_calls := 0 |} |}.
Definition w_filled : w_provider :=
  (UpdateInstanceTypeOfferings [Ok [("m7g.xlarge", Some "z1"); ("m7g.xlarge", Some "z2")]]
    (UpdateInstanceTypes [Ok [w_arm]] w_new).1).1.
Abbreviation w_at := (λ t, w_env t NewUnavailableOfferings).
Definition w_listed (t : Z) (nc : EC2NodeClass Z) (p : w_provider) : w_provider * list CloudInstanceType :=
  match w_List (w_at t) ∅ nc p with Some (p', Ok out) => (p', out) | _ => (p, []) end.
Definition w_after : w_provider := (w_listed 10 w_one w_filled).1.
Definition w_answer : list CloudInstanceType := (w_listed 20 w_two w_after).2.

Lemma w_listed_Ok t nc p : length (w_listed t nc p).2 = 1%nat → w_List (w_at t) ∅ nc p = Some ((w_listed t nc p).1, Ok (w_listed t nc p).2).
Proof. unfold w_listed. by destruct (w_List _ _ _ _) as [[p' [out|e]]|]. Qed.
Example w_answer_value :
  (λ ct, (Name (ct_type ct), Capacity (ct_type ct) !! ResourceEphemeralStorage, length (Scheduling.Offerings (ct_type ct)))) <$> w_answer =
  [("m7g.xlarge", Some (units 100), 4%nat)].
Proof. vm_compute. reflexivity. Qed.

Definition w_universe (nc : EC2NodeClass Z) : Prop := nc = w_one ∨ nc = w_two.
Lemma w_mappings_plain : plain_mappings [w_root; w_data].
Proof.
  split.
  - intros bdm [-> | [-> | []%elem_of_nil]%elem_of_cons]%elem_of_cons; by eexists.
  - apply (bool_decide_unpack _). by vm_compute.
  - intros bdm bdm' [-> | [-> | []%elem_of_nil]%elem_of_cons]%elem_of_cons
      [-> | [-> | []%elem_of_nil]%elem_of_cons]%elem_of_cons; done.
Qed.
Lemma w_distinguishable : distinguishable (λ _, 0) w_count w_count (λ _, 0) w_universe.
Proof.
  assert ([w_root; w_data] ≡ₚ [w_data; w_root]) as Hp by apply Permutation_swap.
  split.
  - intros nc [-> | ->]; vm_compute; split_and!; congruence.
  - by intros nc nc' [-> | ->] [-> | ->].
  - intros nc nc' [-> | ->] [-> | ->] _; cbn; done.
  - by intros nc nc' [-> | ->] [-> | ->].
  - by intros nc nc' [-> | ->] [-> | ->].
  - intros nc [-> | ->]; by left.
  - intros nc family [-> | ->] _; (split; [|intros _; right; exists w_root; split; [cbn; set_solver|by eexists]]); [exact w_mappings_plain|].
    exact (plain_perm _ _ Hp w_mappings_plain).
Qed.
Lemma w_provider_reach : reach (CU := RefCache.t unit) w_count w_count (λ _, 0) (λ s, Z.of_nat (size s)) (λ b, if b then 1 else 0) (λ _, 0) (λ _, "")
  (λ _, Ok []) (λ _, Err (errorf "no kubelet")) w_universe (5 * Minute)
  [(10, w_filled); (5, (UpdateInstanceTypes [Ok [w_arm]] w_new).1); (5, w_new)] w_after.
Proof.
  apply reach_step; [apply reach_step; [apply reach_step; [apply reach_new; done|..]|..]|..].
  - by intros t q ?%elem_of_nil.
  - apply step_UpdateInstanceTypes. intros l [= <-]. apply NoDup_singleton.
  - intros t q [[= -> ->] | []%elem_of_nil]%elem_of_cons. lia.
  - apply step_UpdateInstanceTypeOfferings.
  - intros t q [[= -> ->] | [[= -> ->] | []%elem_of_nil]%elem_of_cons]%elem_of_cons; lia.
  - eapply (step_List _ _ _ _ _ _ _ _ _ _ _ (w_at 10) ∅ w_one); [reflexivity|by left|].
    apply w_listed_Ok. vm_compute. reflexivity.
Qed.

(** The second NodeClass is answered with what was built for the first. *)
Lemma List_fresh_witness :
  ∃ t q its c, (t, q) ∈ [(20, w_after); (10, w_filled); (5, (UpdateInstanceTypes [Ok [w_arm]] w_new).1); (5, w_new)] ∧
    t ≤ 20 ≤ t + 5 * Minute ∧
    buildInstanceTypes (λ _, Err (errorf "no kubelet")) (tp_Info w_after) (tp_TypeOfferings w_after)
      (discovered_memory w_count t w_two q) w_two = Some (Ok its) ∧
    InjectOfferings (λ _, 0) (λ s, Z.of_nat (size s)) (λ b, if b then 1 else 0) (λ _, 0) (λ _, "") (λ _, Ok [])
      (w_at 20) ∅ w_two its (with_cache c w_after) = Some ((w_listed 20 w_two w_after).1, w_answer).
Proof.
  refine (List_fresh (CU := RefCache.t unit) w_count w_count (λ _, 0) (λ s, Z.of_nat (size s)) (λ b, if b then 1 else 0)
    (λ _, 0) (λ _, "") (λ _, Ok []) (λ _, Err (errorf "no kubelet")) w_universe
    (DefaultResolver_laws _ _ _ _ _ _ _ _ _ _ _ _ _ _ _ _ w_distinguishable) _ _ (5 * Minute) _ w_after (w_at 20) ∅ w_two
    _ w_answer w_provider_reach _ _ _).
  - intros nc [-> | ->]; vm_compute; split_and!; congruence.
  - intros nc nc' [-> | ->] [-> | ->] _; reflexivity.
  - intros t q [[= -> _] | [[= -> _] | [[= -> _] | []%elem_of_nil]%elem_of_cons]%elem_of_cons]%elem_of_cons;
      cbn; lia.
  - right. reflexivity.
  - apply w_listed_Ok. vm_compute. reflexivity.
Defined.

(** The order of block device mappings is not part of the key, but decides the size of the
    root volume of a custom image that marks none: the last mapping is the root then. *)
Definition w_unmarked : BlockDeviceMapping Quantity := w_mapping "/dev/xvda" false (Some 100).
Example order_of_mappings_is_lost :
  let a := w_class "a" [w_unmarked; w_data] in let b := w_class "b" [w_data; w_unmarked] in
  cacheKey w_count w_count a = cacheKey w_count w_count b ∧
  (λ ct, Capacity (ct_type ct) !! ResourceEphemeralStorage) <$> (w_listed 20 a w_filled).2 = [Some (units 20)] ∧
  (λ ct, Capacity (ct_type ct) !! ResourceEphemeralStorage) <$> (w_listed 20 b w_filled).2 = [Some (units 100)] ∧
  (λ ct, Capacity (ct_type ct) !! ResourceEphemeralStorage) <$> (w_listed 20 b (w_listed 10 a w_filled).1).2 = [Some (units 20)].
Proof. vm_compute. split_and!; reflexivity. Qed.
End concrete.
