(* ===== verification/NodeClaimControllers.v ===== *)
(** * [pkg/controllers/nodeclaim]: collecting and tagging instances

    [garbagecollection] deletes instances that no NodeClaim of the cluster refers to;
    [tagging] puts the names of the node, the NodeClaim and the cluster on the instance of a
    NodeClaim.  The cloud provider is the interface of Karpenter's core as a class; what the collection relies on are its laws.  Workers that
    run in parallel are taken one after the other: each is about an instance of its own. *)
From S2P Require Import Prelude GoStd AwsErrors ApiV1 Scheduling Launch Instances CloudProvider Kube Utils Interruption GoCache.

(** ** The cloud provider *)

Inductive cloud_error := CloudNotFound (e : error) | CloudError (e : error).
Definition cloud_cause (e : cloud_error) : error := match e with CloudNotFound e | CloudError e => e end.

(** [cloudprovider.CloudProvider], as far as the controllers call it; [None] is a panic. *)
Class CloudAPI `{SchedulingTypes} (C : Type) := {
  cp_List : C → option (C * result error (list NodeClaim));
  cp_Delete : Z → NodeClaim → C → option (C * option cloud_error);
}.
(** What the collection relies on, in terms of the provider IDs of the instances that run. *)
Class CloudLaws `{SchedulingTypes} (C : Type) `{!CloudAPI C} := {
  running : C → gset string;
  cp_List_running (c c' : C) r : cp_List c = Some (c', r) → running c' = running c;
  cp_Delete_frame t claim (c c' : C) e pid :
    cp_Delete t claim c = Some (c', e) → pid ≠ ncl_ProviderID claim → pid ∈ running c' ↔ pid ∈ running c;
  cp_Delete_less t claim (c c' : C) e : cp_Delete t claim c = Some (c', e) → running c' ⊆ running c;
  cp_Delete_gone t claim (c c' : C) e :
    cp_Delete t claim c = Some (c', e) → (e = None ∨ ∃ e', e = Some (CloudNotFound e')) →
    ncl_ProviderID claim ∉ running c';
}.

(** ** Garbage collection *)

Section collection.
Context `{SchedulingTypes} {C K N : Type} `{!CloudAPI C} `{!KubeAPI NodeClaim K} `{!KubeAPI Node N}.
(** [nodeclaimutils.IsManaged] *)
Variable managed : NodeClaim → bool.

(** The cloud provider, the NodeClaims and the nodes of the API server, and the rounds that
    succeeded. *)
Record Collector := { gc_cloud : C; gc_claims : K; gc_nodes : N; gc_successful : Z }.
Definition with_cloud (c : C) (g : Collector) : Collector :=
  {| gc_cloud := c; gc_claims := gc_claims g; gc_nodes := gc_nodes g; gc_successful := gc_successful g |}.
Definition with_nodes (n : N) (g : Collector) : Collector :=
  {| gc_cloud := gc_cloud g; gc_claims := gc_claims g; gc_nodes := n; gc_successful := gc_successful g |}.
Definition count_success (g : Collector) : Collector :=
  {| gc_cloud := gc_cloud g; gc_claims := gc_claims g; gc_nodes := gc_nodes g; gc_successful := u64 (gc_successful g + 1) |}.

(** [nodeclaimutils.ListManaged] *)
Definition ListManaged (k : K) : result kube_error (list NodeClaim) :=
  match kList NodeClaim k with Ok l => Ok (filter (λ c, managed c = true) l) | Err e => Err e end.
Definition clusterProviderIDs (claims : list NodeClaim) : gset string :=
  list_to_set (filter (λ pid, pid ≠ "") (ncl_ProviderID <$> claims)).

Definition garbageCollect (now : Z) (claim : NodeClaim) (nodeList : list Node) (g : Collector) :
    option (Collector * option error) :=
  '(c, e) ← cp_Delete now claim (gc_cloud g);
  let g := with_cloud c g in
  Some match e with
       | Some (CloudNotFound _) => (g, None)
       | Some (CloudError e) => (g, Some e)
       | None =>
           match Find (λ n, bool_decide (nd_ProviderID n = ncl_ProviderID claim)) nodeList with
           | Some node => let '(n, e) := kDelete node (gc_nodes g) in
                          (with_nodes n g, kube_cause <$> ignore_kube_not_found e)
           | None => (g, None)
           end
       end.

(** Not terminating, not known to the cluster, and older than half a minute. *)
Definition collectable (now : Z) (ids : gset string) (claim : NodeClaim) : bool :=
  bool_decide (ncl_ProviderID claim ∉ ids) && bool_decide (30 * Second < now - ncl_CreationTimestamp claim).
Fixpoint collect_all (now : Z) (ids : gset string) (nodeList : list Node) (claims : list NodeClaim) (g : Collector) :
    option (Collector * list error) :=
  match claims with
  | [] => Some (g, [])
  | claim :: claims' =>
      '(g, e) ← (if collectable now ids claim then garbageCollect now claim nodeList g else Some (g, None));
      '(g, es) ← collect_all now ids nodeList claims' g;
      Some (g, option_list e ++ es)
  end.

(** The time until the next round. *)
Definition Reconcile_gc (now : Z) (g : Collector) : option (Collector * result error Z) :=
  '(c, r) ← cp_List (gc_cloud g);
  let g := with_cloud c g in
  match r with
  | Err e => Some (g, Err (wrap "listing cloudprovider nodeclaims" e))
  | Ok cloudNodeClaims =>
      let cloudNodeClaims := filter (λ c, ncl_DeletionTimestamp c = None) cloudNodeClaims in
      match ListManaged (gc_claims g), kList Node (gc_nodes g) with
      | Err e, _ => Some (g, Err (kube_cause e))
      | Ok _, Err e => Some (g, Err (kube_cause e))
      | Ok clusterNodeClaims, Ok nodeList =>
          '(g, es) ← collect_all now (clusterProviderIDs clusterNodeClaims) nodeList cloudNodeClaims g;
          match Combine es with
          | Some e => Some (g, Err e)
          | None => let g := count_success g in
                    Some (g, Ok (if decide (gc_successful g ≤ 20) then 10 * Second else 2 * Minute))
          end
      end
  end.
End collection.
Arguments Collector : clear implicits.

Section collection_properties.
Context `{SchedulingTypes} {C K N : Type} `{!CloudAPI C} `{!CloudLaws C}.
Context `{!KubeAPI NodeClaim K} `{!KubeLaws NodeClaim K} `{!KubeAPI Node N} `{!KubeLaws Node N}.
Variable managed : NodeClaim → bool.
Implicit Types (g : Collector C K N).

(** A listed instance that no managed NodeClaim of the cluster refers to. *)
Definition orphan (now : Z) (k : K) (claim : NodeClaim) : Prop :=
  ncl_DeletionTimestamp claim = None ∧ ncl_CreationTimestamp claim + 30 * Second < now ∧
  ∀ n c, stored NodeClaim k !! n = Some c → managed c = true → ncl_ProviderID c ≠ "" →
         ncl_ProviderID c ≠ ncl_ProviderID claim.

Lemma collectable_orphan now (k : K) l claim :
  ListManaged managed k = Ok l → ncl_DeletionTimestamp claim = None →
  collectable now (clusterProviderIDs l) claim = true ↔ orphan now k claim.
Proof.
  unfold ListManaged. destruct (kList NodeClaim k) as [l0|] eqn:El; [|done]. intros [= <-] Hd.
  unfold collectable, clusterProviderIDs, orphan. rewrite andb_true_iff, !bool_decide_eq_true, elem_of_list_to_set.
  rewrite list_elem_of_filter, list_elem_of_fmap. split.
  - intros [Hn Ht]. split_and!; [done|lia|]. intros n c Hc Hm Hne E. apply Hn. split; [congruence|].
    exists c. split; [done|]. apply list_elem_of_filter. split; [done|].
    apply (kList_current _ _ _ El). by rewrite (stored_Name _ _ _ Hc).
  - intros (_ & Ht & Hn). split; [|lia]. intros [Hne (c & E & [Hm Hc]%list_elem_of_filter)].
    apply (kList_current _ _ _ El) in Hc. apply (Hn _ _ Hc Hm); congruence.
Qed.

(** What one collection, or many, can change: instances and nodes of such claims. *)
Record collects (P : NodeClaim → Prop) g g' : Prop := {
  co_claims : gc_claims g' = gc_claims g;
  co_running pid : (∀ claim, P claim → ncl_ProviderID claim ≠ pid) → pid ∈ running (gc_cloud g') ↔ pid ∈ running (gc_cloud g);
  co_less : running (gc_cloud g') ⊆ running (gc_cloud g);
  co_nodes n : stored Node (gc_nodes g') !! n = stored Node (gc_nodes g) !! n ∨
               ∃ node claim, nd_Name node = n ∧ P claim ∧ nd_ProviderID node = ncl_ProviderID claim;
}.
Lemma collects_refl P g : collects P g g.
Proof. split; [done|done|done|]. by left. Qed.
Lemma collects_trans P g1 g2 g3 : collects P g1 g2 → collects P g2 g3 → collects P g1 g3.
Proof.
  intros [E1 R1 L1 N1] [E2 R2 L2 N2]. split; [congruence| |set_solver|].
  - intros pid Hp. by rewrite (R2 pid Hp), (R1 pid Hp).
  - intros n. destruct (N2 n) as [->|]; [apply N1|by right].
Qed.

Lemma garbageCollect_spec (P : NodeClaim → Prop) now claim nodeList g g' e :
  P claim → garbageCollect now claim nodeList g = Some (g', e) →
  collects P g g' ∧ (e = None → ncl_ProviderID claim ∉ running (gc_cloud g')).
Proof.
  intros HP. unfold garbageCollect. destruct (cp_Delete now claim (gc_cloud g)) as [[c e0]|] eqn:Ed; simpl; [|done].
  assert (∀ n, (∀ m, stored Node n !! m = stored Node (gc_nodes g) !! m ∨
                     ∃ node claim, nd_Name node = m ∧ P claim ∧ nd_ProviderID node = ncl_ProviderID claim) →
               collects P g (with_nodes n (with_cloud c g))) as Hco.
  { intros n Hn. split; simpl; [done| |by eapply cp_Delete_less|done].
    intros pid Hp. eapply cp_Delete_frame; [done|]. intros ->. by apply (Hp claim). }
  assert (collects P g (with_cloud c g)) as Hsame by (apply (Hco (gc_nodes g)); by left).
  destruct e0 as [[e0|e0]|].
  - intros [= <- <-]. split; [done|]. intros _. eapply cp_Delete_gone; eauto.
  - intros [= <- <-]. by split.
  - assert (ncl_ProviderID claim ∉ running c) as Hgone by (eapply cp_Delete_gone; eauto).
    destruct (Find _ nodeList) as [node|] eqn:Ef; [|intros [= <- <-]; by split].
    apply Find_Some in Ef as [_ Hpid%bool_decide_eq_true]. simpl.
    destruct (kDelete node (gc_nodes g)) as [n e1] eqn:En. intros [= <- <-]. split; [|done]. apply Hco. intros m. destruct (decide (m = nd_Name node)) as [->|Hm]; [right; eauto|left].
    change n with (n, e1).1. rewrite <- En. by apply (kDelete_frame (O := Node)).
Qed.

Lemma collect_all_spec (P : NodeClaim → Prop) now ids nodeList claims g g' es :
  (∀ claim, claim ∈ claims → collectable now ids claim = true → P claim) →
  collect_all now ids nodeList claims g = Some (g', es) →
  collects P g g' ∧
  (es = [] → ∀ claim, claim ∈ claims → collectable now ids claim = true → ncl_ProviderID claim ∉ running (gc_cloud g')).
Proof.
  revert g g' es. induction claims as [|claim claims IH]; intros g g' es HP; simpl.
  { intros [= <- <-]. split; [apply collects_refl|]. by intros _ ? ?%elem_of_nil. }
  destruct (if collectable now ids claim then _ else _) as [[g1 e]|] eqn:E1; simpl; [|done].
  destruct (collect_all now ids nodeList claims g1) as [[g2 es2]|] eqn:E2; simpl; [|done]. intros [= <- <-].
  destruct (IH g1 g2 es2) as [Hco Hgone]; [intros; apply HP; [by right|done]|done|].
  assert (collects P g g1 ∧ (e = None → collectable now ids claim = true → ncl_ProviderID claim ∉ running (gc_cloud g1)))
    as [Hco1 Hg1].
  { destruct (collectable now ids claim) eqn:Ec.
    - destruct (garbageCollect_spec P now claim nodeList g g1 e) as [??]; [apply HP; [by left|done]|done|by auto].
    - injection E1 as <- <-. split; [apply collects_refl|done]. }
  split; [by eapply collects_trans|]. intros Hes claim' [-> | Hin]%elem_of_cons Hc; destruct e; try done.
  - intros Hr. apply Hg1; [done|done|]. by apply (co_less _ _ _ Hco).
  - by apply Hgone.
Qed.

Lemma Combine_nil es : Combine es = None → es = [].
Proof. by destruct es as [|? []]. Qed.

End collection_properties.

(** ** Tagging *)

Definition AnnotationInstanceTagged := "karpenter.k8s.aws/tagged".
Definition AnnotationClusterNameTaggedCompatability := "compatibility.karpenter.k8s.aws/cluster-name-tagged".

(** [instance.Provider]: [Get] with [SkipCache], and [CreateTags]. *)
Class TagAPI (I : Type) := {
  tag_Get : string → I → option (I * result cp_error (option Instance_));
  tag_Create : string → gmap string string → I → option (I * option cp_error);
}.
(** What it promises of the tags of instances: a call that fails may have had its effect. *)
Class TagLaws (I : Type) `{!TagAPI I} := {
  tags_of : I → string → option (gmap string string);
  tag_Get_same id (i i' : I) r : tag_Get id i = Some (i', r) → tags_of i' = tags_of i;
  tag_Get_Some id (i i' : I) inst : tag_Get id i = Some (i', Ok (Some inst)) → tags_of i id = Some (inst_Tags inst);
  tag_Get_NotFound id (i i' : I) e : tag_Get id i = Some (i', Err (NodeClaimNotFoundError e)) → tags_of i id = None;
  tag_Create_NotFound id tags (i i' : I) e :
    tag_Create id tags i = Some (i', Some (NodeClaimNotFoundError e)) → tags_of i id = None;
  tag_Create_frame id tags (i i' : I) e id' : tag_Create id tags i = Some (i', e) → id' ≠ id → tags_of i' id' = tags_of i id';
  tag_Create_adds id tags (i i' : I) e :
    tag_Create id tags i = Some (i', e) →
    (e ≠ None ∧ tags_of i' id = tags_of i id) ∨ tags_of i' id = (λ old, tags ∪ old) <$> tags_of i id;
}.

Section tagging.
Context `{SchedulingTypes} {I K : Type} `{!TagAPI I} `{!KubeAPI NodeClaim K}.
Variable ClusterName : string.

Definition isTaggable (claim : NodeClaim) : bool :=
  negb (bool_decide (ncl_Annotations claim !! AnnotationInstanceTagged = Some "true") &&
        bool_decide (ncl_Annotations claim !! AnnotationClusterNameTaggedCompatability = Some "true"))
  && bool_decide (ncl_NodeName claim ≠ "") && bool_decide (ncl_DeletionTimestamp claim = None).

Definition instance_tags (claim : NodeClaim) : gmap string string :=
  list_to_map [(NameTagKey, ncl_NodeName claim); (NodeClaimTagKey, ncl_Name claim); (EKSClusterNameTagKey, ClusterName)].

Definition tagInstance (claim : NodeClaim) (id : string) (i : I) : option (I * option cp_error) :=
  '(i, r) ← tag_Get id i;
  match r with
  | Err e => Some (i, Some (wrap_cp "tagging nodeclaim" e))
  | Ok None => None
  | Ok (Some inst) =>
      let tags : gmap string string := filter (λ kv : string * string, inst_Tags inst !! kv.1 = None) (instance_tags claim) in
      if decide (tags = ∅) then Some (i, None)
      else '(i, e) ← tag_Create id tags i;
           Some (i, match e with Some e => Some (wrap_cp "tagging nodeclaim" e) | None => None end)
  end.

Record Tagger := { tg_instances : I; tg_claims : K }.
Definition tagged_annotations (claim : NodeClaim) : gmap string string :=
  <[AnnotationClusterNameTaggedCompatability := "true"]> (<[AnnotationInstanceTagged := "true"]> (ncl_Annotations claim)).

Definition Reconcile_tagging (claim : NodeClaim) (t : Tagger) : option (Tagger * option error) :=
  if negb (isTaggable claim) then Some (t, None)
  else
    match ParseInstanceID (ncl_ProviderID claim) with
    | Err _ => Some (t, None)
    | Ok id =>
        '(i, e) ← tagInstance claim id (tg_instances t);
        let t := {| tg_instances := i; tg_claims := tg_claims t |} in
        match e with
        | Some (NodeClaimNotFoundError _) => Some (t, None)
        | Some e => Some (t, Some (cp_cause e))
        | None =>
            let modified := obj_with (ncl_Labels claim) (tagged_annotations claim) claim in
            if decide (ncl_Annotations modified = ncl_Annotations claim) then Some (t, None)
            else
              let '(k, r) := kPatch claim modified (tg_claims t) in
              Some ({| tg_instances := tg_instances t; tg_claims := k |},
                    match r with
                    | Err e => kube_cause <$> ignore_kube_not_found (Some e)
                    | Ok _ => None
                    end)
        end
    end.
End tagging.
Arguments Tagger : clear implicits.

Section tagging_properties.
Context `{SchedulingTypes} {I K : Type} `{!TagAPI I} `{!TagLaws I} `{!KubeAPI NodeClaim K} `{!KubeLaws NodeClaim K}.
Variable ClusterName : string.
Implicit Types (claim : NodeClaim) (t : Tagger I K) (ts : gmap string string).

(** All that the controller puts on an instance is there, with whatever value. *)
Definition complete claim ts : Prop := ∀ k, is_Some (instance_tags ClusterName claim !! k) → is_Some (ts !! k).
(** Tags are only added, and only those of the NodeClaim. *)
Definition grows claim (ots ots' : option (gmap string string)) : Prop :=
  match ots, ots' with
  | Some ts, Some ts' => ts ⊆ ts' ∧ ∀ k v, ts' !! k = Some v → ts !! k = Some v ∨ instance_tags ClusterName claim !! k = Some v
  | ots, ots' => ots' = ots
  end.
Lemma grows_refl claim ots : grows claim ots ots.
Proof. destruct ots; simpl; auto. Qed.

Lemma missing_tags claim ts :
  let tags := filter (λ kv : string * string, ts !! kv.1 = None) (instance_tags ClusterName claim) in
  grows claim (Some ts) (Some (tags ∪ ts)) ∧ complete claim (tags ∪ ts).
Proof.
  intros tags. assert (∀ k v, tags !! k = Some v ↔ instance_tags ClusterName claim !! k = Some v ∧ ts !! k = None) as Ht
    by (intros k v; apply map_lookup_filter_Some).
  clearbody tags. split; [split|].
  - apply map_union_subseteq_r. apply map_disjoint_spec. intros k v v' Hv Hv'. apply Ht in Hv as [_ Hv]. congruence.
  - intros k v [Hv|[_ Hv]]%lookup_union_Some_raw; [right; by apply Ht in Hv as [? _]|by left].
  - intros k [v Hv]. destruct (ts !! k) as [v'|] eqn:E.
    + destruct (tags !! k) as [w|] eqn:Ew; [apply Ht in Ew as [_ ?]; congruence|].
      exists v'. apply lookup_union_Some_raw. by right.
    + exists v. apply lookup_union_Some_raw. left. by apply Ht.
Qed.

Lemma tagInstance_spec claim id (i i' : I) e :
  tagInstance ClusterName claim id i = Some (i', e) →
  (∀ id', id' ≠ id → tags_of i' id' = tags_of i id') ∧ grows claim (tags_of i id) (tags_of i' id) ∧
  match e with
  | None => ∃ ts, tags_of i' id = Some ts ∧ complete claim ts
  | Some (NodeClaimNotFoundError _) => tags_of i id = None
  | Some _ => True
  end.
Proof.
  unfold tagInstance. destruct (tag_Get id i) as [[i1 [[inst|]|err]]|] eqn:Eg; cbn [mbind option_bind]; [|done| |done].
  - pose proof (tag_Get_same _ _ _ _ Eg) as Hs. pose proof (tag_Get_Some _ _ _ _ Eg) as Ht.
    destruct (missing_tags claim (inst_Tags inst)) as [Hgr Hco]. case_decide as Hemp.
    + intros [= <- <-]. rewrite Hs. split; [done|]. split; [apply grows_refl|]. exists (inst_Tags inst).
      split; [done|]. by rewrite Hemp, (left_id_L ∅ _) in Hco.
    + destruct (tag_Create _ _ i1) as [[i2 err]|] eqn:Ec; cbn [mbind option_bind]; [|done]. intros [= <- <-].
      rewrite <- Hs in Ht |- *. split; [by intros id' Hne; eapply tag_Create_frame|].
      destruct (tag_Create_adds _ _ _ _ _ Ec) as [[Hne Hsame]|Hadd].
      * rewrite Hsame. split; [apply grows_refl|]. destruct err as [[]|]; simpl; try done. by eapply tag_Create_NotFound.
      * rewrite Hadd, Ht. simpl. split; [exact Hgr|]. destruct err as [[]|]; simpl; try done; [|eauto].
        rewrite <- Ht. by eapply tag_Create_NotFound.
  - intros [= <- <-]. rewrite (tag_Get_same _ _ _ _ Eg). split; [done|]. split; [apply grows_refl|].
    destruct err; simpl; try done. by eapply tag_Get_NotFound.
Qed.

Lemma tagged_annotations_done claim ls : isTaggable (obj_with ls (tagged_annotations claim) claim) = false.
Proof.
  unfold isTaggable. change (ncl_Annotations (obj_with ls (tagged_annotations claim) claim)) with (tagged_annotations claim).
  unfold tagged_annotations. rewrite lookup_insert_ne, !lookup_insert_eq by done. done.
Qed.

(** Tagging only adds tags, and remembers it only when it is done.  In a round for a
    NodeClaim, whatever fails, no instance but its own is touched, no tag of that instance is
    lost or changed, and only its name, its NodeClaim and the cluster are added; the
    NodeClaim changes (and no other) only once the instance has all of them.  If the
    NodeClaim was read as it is stored, its instance exists and nothing fails, the instance
    has them all in the end and the NodeClaim, if it is still there, is not looked at again. *)
Theorem Reconcile_tagging_spec claim t t' e :
  Reconcile_tagging ClusterName claim t = Some (t', e) →
  let mine id := isTaggable claim = true ∧ ParseInstanceID (ncl_ProviderID claim) = Ok id in
  (∀ id, (mine id ∧ grows claim (tags_of (tg_instances t) id) (tags_of (tg_instances t') id)) ∨
         tags_of (tg_instances t') id = tags_of (tg_instances t) id) ∧
  (∀ n, stored NodeClaim (tg_claims t') !! n = stored NodeClaim (tg_claims t) !! n ∨
        n = ncl_Name claim ∧ ∃ id ts, mine id ∧ tags_of (tg_instances t') id = Some ts ∧ complete claim ts) ∧
  (e = None → stored NodeClaim (tg_claims t) !! ncl_Name claim = Some claim →
   ∀ id, mine id → tags_of (tg_instances t) id ≠ None →
   (∃ ts, tags_of (tg_instances t') id = Some ts ∧ complete claim ts) ∧
   ∀ c', stored NodeClaim (tg_claims t') !! ncl_Name claim = Some c' → isTaggable c' = false).
Proof.
  intros Hr mine. unfold Reconcile_tagging in Hr. destruct (isTaggable claim) eqn:Et; simpl in Hr;
    [|injection Hr as <- <-; split_and!; [by right|by left|by intros _ _ id [? _]]].
  destruct (ParseInstanceID (ncl_ProviderID claim)) as [id|err] eqn:Ep;
    [|injection Hr as <- <-; split_and!; [by right|by left|by intros _ _ id [_ ?]]].
  destruct (tagInstance ClusterName claim id (tg_instances t)) as [[i e1]|] eqn:Eg; cbn [mbind option_bind] in Hr; [|done].
  destruct (tagInstance_spec _ _ _ _ _ Eg) as (Hother & Hgrow & Hdone).
  assert (∀ j, mine j ↔ j = id) as Hmine by (intros j; unfold mine; split; [intros [_ ?]|intros ->; split]; congruence).
  assert (∀ j, (mine j ∧ grows claim (tags_of (tg_instances t) j) (tags_of i j)) ∨
               tags_of i j = tags_of (tg_instances t) j) as Htags.
  { intros j. rewrite Hmine. destruct (decide (j = id)) as [->|]; [by left|right; by apply Hother]. }
  destruct e1 as [e1|].
  { assert (t' = {| tg_instances := i; tg_claims := tg_claims t |} ∧ (e = None → tags_of (tg_instances t) id = None))
      as [-> He] by (destruct e1; injection Hr as <- <-; split; try done; by intros).
    split_and!; [done|by left|]. intros H0 _ j ->%Hmine Hne. by apply He in H0. }
  destruct Hdone as (ts & Hts & Hco). change (ncl_Annotations (obj_with _ ?an claim)) with an in Hr. case_decide as Hann.
  { injection Hr as <- <-. split_and!; [done|by left|]. simpl. intros _ Hst j ->%Hmine _. split; [eauto|].
    intros c' Hc'. pose proof (tagged_annotations_done claim (ncl_Labels claim)) as Hd. rewrite Hann in Hd.
    rewrite Hst in Hc'. injection Hc' as <-. rewrite <- (obj_with_same claim). exact Hd. }
  destruct (kPatch claim _ (tg_claims t)) as [k r] eqn:Ek. injection Hr as <- <-.
  pose proof (f_equal fst Ek) as Ek1. pose proof (f_equal snd Ek) as Ek2. simpl in Ek1, Ek2. split_and!; [done| |].
  - intros n. destruct (decide (n = ncl_Name claim)) as [->|Hn].
    + right. split; [done|]. exists id, ts. simpl. by rewrite Hmine.
    + left. simpl. rewrite <- Ek1. by apply (kPatch_frame (O := NodeClaim)).
  - simpl. intros He Hst j ->%Hmine _. split; [eauto|]. intros c' Hc'. rewrite <- Ek1 in Hc'. destruct r as [o|err].
    + destruct (kPatch_Ok _ _ _ _ Ek2) as (o0 & Ho & Hs & ->). change (obj_Name _) with (ncl_Name claim) in Ho, Hs.
      rewrite Hst in Ho. injection Ho as <-. rewrite Hs in Hc'. injection Hc' as <-.
      rewrite !merge_patch_current. exact (tagged_annotations_done claim _).
    + destruct err as [err| | |]; try done. pose proof (kPatch_NotFound _ _ _ _ Ek2) as Hnone.
      change (obj_Name _) with (ncl_Name claim) in Hnone. congruence.
Qed.
End tagging_properties.

(** ** Concrete executions *)

Section concrete.

(** A cloud provider that lists what it has. *)
#[local] Instance RefCloud : CloudAPI (list NodeClaim) := {
  cp_List c := Some (c, Ok c);
  cp_Delete _ claim c :=
    Some (if decide (ncl_ProviderID claim ∈ ncl_ProviderID <$> c)
          then (filter (λ x, ncl_ProviderID x ≠ ncl_ProviderID claim) c, None)
          else (c, Some (CloudNotFound (errorf "not found"))));
}.
#[local] Instance RefCloudLaws : CloudLaws (list NodeClaim).
Proof.
  refine {| running c := list_to_set (ncl_ProviderID <$> c) |}.
  - by intros c c' r [= <- _].
  - simpl. intros _ claim c c' e pid E Hne. assert (c' = c ∨ c' = filter (λ x, ncl_ProviderID x ≠ ncl_ProviderID claim) c)
      as [-> | ->] by (case_decide; injection E; auto); [done|].
    rewrite !elem_of_list_to_set, !list_elem_of_fmap. setoid_rewrite list_elem_of_filter. naive_solver.
  - simpl. intros _ claim c c' e E. assert (c' = c ∨ c' = filter (λ x, ncl_ProviderID x ≠ ncl_ProviderID claim) c)
      as [-> | ->] by (case_decide; injection E; auto); [done|].
    intros pid. rewrite !elem_of_list_to_set, !list_elem_of_fmap. setoid_rewrite list_elem_of_filter. naive_solver.
  - simpl. intros _ claim c c' e E He. rewrite elem_of_list_to_set. case_decide as Hd; injection E as <- <-; [|done].
    rewrite list_elem_of_fmap. setoid_rewrite list_elem_of_filter. naive_solver.
Defined.

Definition w_nodeclaim (name pid node : string) (created : Z) : NodeClaim :=
  {| ncl_Name := name; ncl_Labels := ∅; ncl_Annotations := ∅; ncl_CreationTimestamp := created;
     ncl_DeletionTimestamp := None; ncl_NodeClassRef := Some "default"; ncl_Requirements := (∅ : gmap string (list string));
     ncl_Requests := ∅; ncl_ProviderID := pid; ncl_ImageID := ""; ncl_NodeName := node; ncl_Conditions := ∅;
     ncl_Capacity := ∅; ncl_Allocatable := ∅ |}.
Definition w_cloud : list NodeClaim :=
  [w_nodeclaim "" "aws:///z/i-1" "" 0; w_nodeclaim "" "aws:///z/i-2" "" 0; w_nodeclaim "" "aws:///z/i-3" "" (50 * Second)].
Definition w_collector : Collector (list NodeClaim) (RefKube.t NodeClaim) (RefKube.t Node) :=
  {| gc_cloud := w_cloud; gc_claims := RefKube.of_list [w_nodeclaim "claim" "aws:///z/i-1" "node" 0];
     gc_nodes := RefKube.of_list [{| nd_Name := "orphan"; nd_Labels := ∅; nd_Annotations := ∅; nd_DeletionTimestamp := None;
                                     nd_ProviderID := "aws:///z/i-2" |}]; gc_successful := 19 |}.
Definition w_collected := Reconcile_gc (λ _, true) (60 * Second) w_collector.
Example w_collected_value :
  match w_collected with
  | Some (g, r) => (ncl_ProviderID <$> gc_cloud g, r,
                    (λ n, bool_decide (is_Some (nd_DeletionTimestamp n))) <$> stored Node (gc_nodes g) !! "orphan")
                   = (["aws:///z/i-1"; "aws:///z/i-3"], Ok (10 * Second), Some true)
  | None => False
  end.
Proof. vm_compute. reflexivity. Qed.


(** Instances with their tags. *)
#[local] Instance RefTags : TagAPI (gmap string (gmap string string)) := {
  tag_Get id i :=
    Some (i, match i !! id with
             | Some ts => Ok (Some {| LaunchTime := 0; inst_State := "running"; inst_ID := id; inst_ImageID := "";
                                      inst_Type := ""; inst_Zone := ""; inst_ZoneID := ""; inst_CapacityType := "";
                                      inst_SecurityGroupIDs := []; inst_SubnetID := ""; inst_Tags := ts; inst_EFACount := 0;
                                      inst_CapacityReservationDetails := None; inst_Tenancy := "";
                                      inst_PartitionNumber := None |})
             | None => Err (NodeClaimNotFoundError (errorf "not found"))
             end);
  tag_Create id tags i := Some (match i !! id with
                                | Some ts => (<[id := tags ∪ ts]> i, None)
                                | None => (i, Some (NodeClaimNotFoundError (errorf "not found")))
                                end);
}.
#[local] Instance RefTagLaws : TagLaws (gmap string (gmap string string)).
Proof.
  refine {| tags_of (i : gmap string (gmap string string)) id := i !! id |}; simpl.
  - by intros id i i' r [= <- _].
  - intros id i i' inst [= _ E]. destruct (i !! id) as [ts|]; [|done]. by injection E as <-.
  - intros id i i' e [= _ E]. by destruct (i !! id).
  - intros id tags i i' e [= E]. by destruct (i !! id).
  - intros id tags i i' e id' [= E] Hne. destruct (i !! id); injection E as <- _; [by rewrite lookup_insert_ne|done].
  - intros id tags i i' e [= E]. right. destruct (i !! id) as [ts|] eqn:Ei; injection E as <- <-;
      [by rewrite lookup_insert_eq|by rewrite Ei].
Defined.
Definition w_tagger : Tagger (gmap string (gmap string string)) (RefKube.t NodeClaim) :=
  {| tg_instances := {[ "i-0123456789abcdef0" := {[ "Name" := "mine" ]} ]};
     tg_claims := RefKube.of_list [w_nodeclaim "claim" "aws:///z/i-0123456789abcdef0" "node" 0] |}.
Definition w_taggable : NodeClaim := w_nodeclaim "claim" "aws:///z/i-0123456789abcdef0" "node" 0.
Definition w_tagged := Reconcile_tagging "cluster" w_taggable w_tagger.
Example w_tagged_value :
  match w_tagged with
  | Some (t, e) => (map_to_list <$> tg_instances t !! "i-0123456789abcdef0", e) =
                   (Some [("karpenter.sh/nodeclaim", "claim"); ("eks:eks-cluster-name", "cluster"); ("Name", "mine")], None)
  | None => False
  end.
Proof. vm_compute. reflexivity. Qed.

(** The missing tags are added, the one that is there is kept, and the NodeClaim is done with. *)
Lemma Reconcile_tagging_spec_witness :
  match w_tagged with
  | Some (t, _) =>
      (∃ ts, tags_of (tg_instances t) "i-0123456789abcdef0" = Some ts ∧ complete "cluster" w_taggable ts) ∧
      ∀ c', stored NodeClaim (tg_claims t) !! "claim" = Some c' → isTaggable c' = false
  | None => False
  end.
Proof.
  assert (snd <$> w_tagged = Some None) as He by (vm_compute; reflexivity).
  pose proof (Reconcile_tagging_spec "cluster" w_taggable w_tagger) as Hspec. fold w_tagged in Hspec.
  destruct w_tagged as [[t e]|]; [|discriminate He]. apply (inj Some) in He. cbn [snd] in He.
  destruct (Hspec t e eq_refl) as (_ & _ & Hdone).
  refine (Hdone He _ "i-0123456789abcdef0" _ _); [reflexivity| |].
  - split; vm_compute; reflexivity.
  - vm_compute. discriminate.
Defined.
End concrete.
