(* ===== verification/ReservationControllers.v ===== *)
(** * [pkg/controllers/capacityreservation]: capacity reservations that end

    [expiration] deletes the NodeClaims of reservations that are about to end;
    [capacitytype] relabels a NodeClaim and its nodes when its instance, launched into a
    reservation, runs as an on-demand instance now.  The core's cloud provider and the API
    server are interfaces with laws, [CapacityReservation] lists the reservations.  Workers
    that run in parallel are taken one after the other. *)
From S2P Require Import Prelude GoStd AwsErrors ApiV1 Scheduling CapacityReservation Filters Kube Interruption NodeClaimControllers GoCache.

(** ** Expiration *)

Section expiration.
Context `{SchedulingTypes} {K CL CT CR : Type} `{!KubeAPI NodeClaim K}.
Context `{GoCache positive CL, GoCache unit CT, GoCache (list Ec2CapacityReservation) CR}.
Variable managed : NodeClaim → bool.
Variable CacheKey : Query → string.
Variable Describe : DescribeInput → list (result error (list Ec2CapacityReservation)).

Definition reservation_of (claim : NodeClaim) : option string := ncl_Labels claim !! ReservationIDLabel.
Definition id_term (id : string) : CapacityReservationSelectorTerm :=
  {| crst_Tags := ∅; crst_ID := id; crst_OwnerID := ""; crst_InstanceMatchCriteria := "" |}.

(** A reservation that cannot be parsed is logged. *)
Definition expiring (now : Z) (r : Ec2CapacityReservation) : option string :=
  match CapacityReservationFromEC2 now r with
  | Ok cr => if decide (cr_State cr = CapacityReservationStateExpiring) then Some (cr_ID cr) else None
  | Err _ => None
  end.

Definition must_leave (ids : gset string) (claim : NodeClaim) : bool :=
  match reservation_of claim with Some id => bool_decide (id ∈ ids) | None => false end.
Fixpoint delete_claims (claims : list NodeClaim) (k : K) : K * list error :=
  match claims with
  | [] => (k, [])
  | claim :: claims' =>
      let '(k, e) := kDelete claim k in
      let '(k, es) := delete_claims claims' k in
      (k, option_list (kube_cause <$> ignore_kube_not_found e) ++ es)
  end.

Record Expiration := { ex_claims : K; ex_reservations : DefaultProvider CL CT CR }.
(** [t] is the time of the caches. *)
Definition Reconcile_expiration (now t : Z) (s : Expiration) : Expiration * result error Z :=
  match ListManaged managed (ex_claims s) with
  | Err e => (s, Err (wrap "listing instance types" (kube_cause e)))
  | Ok ncs =>
      let '(p, r) := List_ CacheKey Describe (ex_reservations s) now t (id_term <$> omap reservation_of ncs) in
      let s := {| ex_claims := ex_claims s; ex_reservations := p |} in
      match r with
      | Err e => (s, Err (wrap "getting capacity reservations" e))
      | Ok ec2CRs =>
          let expiringCRs : gset string := list_to_set (omap (expiring now) ec2CRs) in
          let toDelete := filter (λ claim, must_leave expiringCRs claim = true) ncs in
          let '(k, es) := delete_claims toDelete (ex_claims s) in
          ({| ex_claims := k; ex_reservations := p |},
           match Combine es with
           | Some e => Err (wrap "deleting nodeclaims" e)
           | None => Ok Minute
           end)
      end
  end.
End expiration.
Arguments Expiration : clear implicits.

Section expiration_properties.
Context `{SchedulingTypes} {K CL CT CR : Type} `{!KubeAPI NodeClaim K} `{!KubeLaws NodeClaim K}.
Context `{GoCache positive CL, GoCache unit CT, GoCache (list Ec2CapacityReservation) CR}.
Variable managed : NodeClaim → bool.
Variable CacheKey : Query → string.
Variable Describe : DescribeInput → list (result error (list Ec2CapacityReservation)).
Implicit Types (k : K).

(** Deletions leave every other NodeClaim alone. *)
Lemma delete_claims_spec claims k k' es :
  delete_claims claims k = (k', es) →
  (∀ n, stored NodeClaim k' !! n = stored NodeClaim k !! n ∨ ∃ c, c ∈ claims ∧ ncl_Name c = n) ∧
  (∀ n, leaving (stored NodeClaim k !! n) → leaving (stored NodeClaim k' !! n)) ∧
  (es = [] → ∀ c, c ∈ claims → leaving (stored NodeClaim k' !! ncl_Name c)).
Proof.
  revert k k' es. induction claims as [|claim claims IH]; intros k k' es; simpl.
  { intros [= <- <-]. split_and!; [by left|done|]. by intros _ c ?%elem_of_nil. }
  destruct (kDelete claim k) as [k1 e] eqn:Ed. destruct (delete_claims claims k1) as [k2 es2] eqn:Er. intros [= <- <-].
  destruct (IH _ _ _ Er) as (Hframe & Hkeep & Hgone).
  assert (k1 = (kDelete claim k).1) as Ek by by rewrite Ed. assert (e = (kDelete claim k).2) as Ee by by rewrite Ed.
  split_and!.
  - intros n. destruct (decide (n = ncl_Name claim)) as [->|Hn]; [right; exists claim; split; [by left|done]|].
    destruct (Hframe n) as [->|(c & Hc & Hcn)]; [|right; exists c; split; [by right|done]].
    left. rewrite Ek. by apply (kDelete_frame (O := NodeClaim) claim k).
  - intros n Hl. apply Hkeep. rewrite Ek. by apply kDelete_keeps.
  - intros Hes c Hc. destruct (ignore_kube_not_found e) eqn:Ei; [done|]. apply elem_of_cons in Hc as [-> | Hc]; [|by apply Hgone].
    pose proof (kDelete_leaving claim k) as Hl. rewrite <- Ee, <- Ek in Hl. auto.
Qed.

(** The terms select the reservations of the managed NodeClaims. *)
Definition selected (k : K) (terms : list CapacityReservationSelectorTerm) : Prop :=
  ∀ term, term ∈ terms ↔ ∃ n c id, stored NodeClaim k !! n = Some c ∧ managed c = true ∧ reservation_of c = Some id ∧
    term = id_term id.

(** The NodeClaims of expiring reservations, and no others, are deleted.  Whatever
    fails, only managed NodeClaims change whose reservation EC2 lists and reports as about to
    end; a round without an error leaves every one of them gone or on its way out. *)
Theorem Reconcile_expiration_spec now t (s s' : Expiration K CL CT CR) r :
  Reconcile_expiration managed CacheKey Describe now t s = (s', r) →
  let ends c := managed c = true ∧ ∃ id terms p rs ec2CR cr, reservation_of c = Some id ∧
    selected (ex_claims s) terms ∧ List_ CacheKey Describe (ex_reservations s) now t terms = (p, Ok rs) ∧ ec2CR ∈ rs ∧
    CapacityReservationFromEC2 now ec2CR = Ok cr ∧ cr_ID cr = id ∧ cr_State cr = CapacityReservationStateExpiring in
  (∀ n, stored NodeClaim (ex_claims s') !! n = stored NodeClaim (ex_claims s) !! n ∨
        ∃ c, stored NodeClaim (ex_claims s) !! n = Some c ∧ ends c) ∧
  (∀ wait, r = Ok wait → ∃ terms rs,
     selected (ex_claims s) terms ∧ (List_ CacheKey Describe (ex_reservations s) now t terms).2 = Ok rs ∧
     ∀ n c id, stored NodeClaim (ex_claims s) !! n = Some c → managed c = true → reservation_of c = Some id →
       id ∈ omap (expiring now) rs → leaving (stored NodeClaim (ex_claims s') !! n)).
Proof.
  intros Hr ends. unfold Reconcile_expiration, ListManaged in Hr.
  destruct (kList NodeClaim (ex_claims s)) as [l|e] eqn:El; [|injection Hr as <- <-; split; [by left|done]].
  set (ncs := filter (λ c, managed c = true) l) in *. set (terms := id_term <$> omap reservation_of ncs) in *.
  assert (∀ n c, stored NodeClaim (ex_claims s) !! n = Some c → managed c = true → ncl_Name c = n ∧ c ∈ ncs) as Hncs.
  { intros n c Hc Hm. pose proof (stored_Name _ _ _ Hc) as Hn. simpl in Hn. subst n. split; [done|].
    apply list_elem_of_filter. split; [done|]. by apply (kList_current _ _ _ El). }
  assert (∀ c, c ∈ ncs → managed c = true ∧ stored NodeClaim (ex_claims s) !! ncl_Name c = Some c) as Hst.
  { intros c [Hm Hc]%list_elem_of_filter. split; [done|]. by apply (kList_current _ _ _ El). }
  assert (selected (ex_claims s) terms) as Hsel.
  { intros term. unfold terms. rewrite list_elem_of_fmap. setoid_rewrite list_elem_of_omap. split.
    - intros (id & -> & c & Hc & Hid). destruct (Hst c Hc) as [Hm Hs]. by exists (ncl_Name c), c, id.
    - intros (n & c & id & Hc & Hm & Hid & ->). destruct (Hncs n c Hc Hm). eauto. }
  clearbody terms ncs.
  destruct (List_ CacheKey Describe (ex_reservations s) now t terms) as [p [rs|e]] eqn:Es;
    [|injection Hr as <- <-; split; [by left|done]].
  destruct (delete_claims _ (ex_claims _)) as [k es] eqn:Ed. simpl in Ed.
  destruct (delete_claims_spec _ _ _ _ Ed) as (Hframe & _ & Hgone).
  assert (∀ c, must_leave (list_to_set (omap (expiring now) rs)) c = true ↔
               ∃ id, reservation_of c = Some id ∧ id ∈ omap (expiring now) rs) as Hml.
  { intros c. unfold must_leave. destruct (reservation_of c) as [id|]; [|naive_solver].
    rewrite bool_decide_eq_true, elem_of_list_to_set. naive_solver. }
  assert (ex_claims s' = k) as -> by by injection Hr as <- _. split.
  - intros n. destruct (Hframe n) as [->|(c & [(id & Hid & Hexp)%Hml [Hm Hc]%Hst]%list_elem_of_filter & <-)]; [by left|].
    right. exists c. split; [done|]. split; [done|]. apply list_elem_of_omap in Hexp as (cr & Hcr & Hx). unfold expiring in Hx.
    destruct (CapacityReservationFromEC2 now cr) as [cr'|] eqn:Ecr; [|done]. case_decide; [|done]. injection Hx as Hx.
    exists id, terms, p, rs, cr, cr'. done.
  - intros wait ->. destruct (Combine es) eqn:Ec; [done|]. exists terms, rs. split; [done|]. split; [by rewrite Es|].
    intros n c id Hc Hm Hid Hexp. destruct (Hncs n c Hc Hm) as [<- Hin].
    apply (Hgone (Combine_nil _ Ec)). apply list_elem_of_filter. split; [apply Hml; eauto|done].
Qed.
End expiration_properties.

(** ** Capacity types *)

Definition NodeRegisteredLabelKey := "karpenter.sh/registered".
(** [cloudprovider.ReservedCapacityLabels]: what [pkg/apis/v1/doc.go] adds to the labels of the
    core. *)
Definition ReservedCapacityLabels (core_labels : list string) : list string :=
  core_labels ++ [ReservationIDLabel; LabelCapacityReservationType].

(** The time of the next round. *)
Inductive Requeue := RequeueNow | RequeueAfter (d : Z).

Section labels.
Context {O : Type} `{Object O}.
Variable core_labels : list string.
Definition demoted_labels (ls : gmap string string) : gmap string string :=
  foldr delete (<[CapacityTypeLabelKey := CapacityTypeOnDemand]> ls) (ReservedCapacityLabels core_labels).
Definition demoted (o : O) : O := obj_with (demoted_labels (obj_Labels o)) (obj_Annotations o) o.
Definition reserved (o : O) : bool := bool_decide (obj_Labels o !! CapacityTypeLabelKey = Some CapacityTypeReserved).
End labels.

Section capacitytype.
Context `{SchedulingTypes} {C K N : Type} `{!CloudAPI C} `{!KubeAPI NodeClaim K} `{!KubeAPI Node N}.
Variable core_labels : list string.

(** [nodeclaimutils.AllNodesForNodeClaim] *)
Definition AllNodesForNodeClaim (claim : NodeClaim) (nodes : N) : result kube_error (list Node) :=
  if decide (ncl_ProviderID claim = "") then Ok []
  else match kList Node nodes with
       | Ok l => Ok (filter (λ n, nd_ProviderID n = ncl_ProviderID claim) l)
       | Err e => Err e
       end.

Definition node_synced (n : Node) : bool :=
  bool_decide (is_Some (nd_DeletionTimestamp n)) || bool_decide (nd_Labels n !! NodeRegisteredLabelKey ≠ Some "true") ||
  negb (reserved n).
(** The nodes of a NodeClaim; the first error ends it. *)
Fixpoint sync_nodes (l : list Node) (updated : bool) (nodes : N) : N * result kube_error bool :=
  match l with
  | [] => (nodes, Ok updated)
  | n :: l' =>
      if node_synced n then sync_nodes l' updated nodes
      else let '(nodes, r) := kPatch n (demoted core_labels n) nodes in
           match r with
           | Err (KubeNotFound _) | Ok _ => sync_nodes l' true nodes
           | Err e => (nodes, Err (wrap_kube "patching node" e))
           end
  end.

Record CapacityTypes := { ct_cloud : C; ct_claims : K; ct_nodes : N }.
Definition syncCapacityType (capacityType : string) (claim : NodeClaim) (s : CapacityTypes) :
    CapacityTypes * result kube_error bool :=
  if decide (is_Some (ncl_DeletionTimestamp claim)) then (s, Ok false)
  else if decide (capacityType ≠ CapacityTypeOnDemand) then (s, Ok false)
  else
    let '(k, r) := if reserved claim then kPatch claim (demoted core_labels claim) (ct_claims s) else (ct_claims s, Ok claim) in
    let s := {| ct_cloud := ct_cloud s; ct_claims := k; ct_nodes := ct_nodes s |} in
    match ignore_kube_not_found (match r with Err e => Some e | Ok _ => None end) with
    | Some e => (s, Err (wrap_kube "patching nodeclaim" e))
    | None =>
        match AllNodesForNodeClaim claim (ct_nodes s) with
        | Err e => (s, Err (wrap_kube "listing nodes for nodeclaim" e))
        | Ok l => let '(n, r) := sync_nodes l (reserved claim) (ct_nodes s) in
                  ({| ct_cloud := ct_cloud s; ct_claims := ct_claims s; ct_nodes := n |}, r)
        end
    end.

(** The cloud provider's NodeClaims by provider ID; of two with one ID the later counts. *)
Definition capacity_type_of (cpNodeClaims : list NodeClaim) (pid : string) : option string :=
  (λ c, default "" (ncl_Labels c !! CapacityTypeLabelKey)) <$> Find (λ c, bool_decide (ncl_ProviderID c = pid)) (reverse cpNodeClaims).
Fixpoint sync_all (cpNodeClaims ncs : list NodeClaim) (s : CapacityTypes) : CapacityTypes * list kube_error :=
  match ncs with
  | [] => (s, [])
  | claim :: ncs' =>
      let '(s, es) := match capacity_type_of cpNodeClaims (ncl_ProviderID claim) with
                      | None => (s, [])
                      | Some capacityType => let '(s, r) := syncCapacityType capacityType claim s in
                                             (s, match r with Err e => [e] | Ok _ => [] end)
                      end in
      let '(s, es') := sync_all cpNodeClaims ncs' s in (s, es ++ es')
  end.

Definition Reconcile_capacitytype (s : CapacityTypes) : option (CapacityTypes * result error Requeue) :=
  '(c, r) ← cp_List (ct_cloud s);
  let s := {| ct_cloud := c; ct_claims := ct_claims s; ct_nodes := ct_nodes s |} in
  match r with
  | Err e => Some (s, Err (wrap "listing instance types" e))
  | Ok cpNodeClaims =>
      match kList NodeClaim (ct_claims s) with
      | Err e => Some (s, Err (wrap "listing nodeclaims" (kube_cause e)))
      | Ok ncs =>
          let '(s, es) := sync_all cpNodeClaims ncs s in
          Some (s, match es with
                   | [] => Ok (RequeueAfter Minute)
                   | _ => if forallb is_conflict es then Ok RequeueNow
                          else match Combine (kube_cause <$> es) with Some e => Err e | None => Ok RequeueNow end
                   end)
      end
  end.
End capacitytype.
Arguments CapacityTypes : clear implicits.

Section demotion.
Context {O K : Type} `{ObjectLaws O} `{!KubeAPI O K} `{!KubeLaws O K}.
Variable core_labels : list string.
Implicit Types (o : O) (k : K).
Abbreviation demote := (demoted core_labels).

Lemma demoted_labels_lookup ls x :
  demoted_labels core_labels ls !! x =
  if decide (x ∈ ReservedCapacityLabels core_labels) then None
  else if decide (x = CapacityTypeLabelKey) then Some CapacityTypeOnDemand else ls !! x.
Proof.
  unfold demoted_labels. induction (ReservedCapacityLabels core_labels) as [|y l IH]; cbn [foldr].
  { rewrite decide_False by apply not_elem_of_nil. case_decide as Hx; [subst; by rewrite lookup_insert_eq|].
    by rewrite lookup_insert_ne. }
  destruct (decide (x = y)) as [->|Hne]; [rewrite lookup_delete_eq, decide_True; [done|by left]|].
  rewrite lookup_delete_ne, IH by done. destruct (decide (x ∈ l)); [by rewrite decide_True by by right|].
  rewrite (decide_False (P := x ∈ y :: l)); [done|]. by intros [|]%elem_of_cons.
Qed.
Lemma reserved_demoted o : reserved (demote o) = false.
Proof.
  unfold reserved, demoted. rewrite obj_with_Labels, demoted_labels_lookup. apply bool_decide_eq_false.
  case_decide; [done|]. by rewrite decide_True.
Qed.
Lemma demoted_Name o : obj_Name (demote o) = obj_Name o.
Proof. apply obj_with_Name. Qed.

(** With respect to what was stored at first, objects that satisfy [P] are demoted. *)
Definition demotes (P : O → Prop) (k0 k : K) : Prop :=
  ∀ n, stored O k !! n = stored O k0 !! n ∨ ∃ o, stored O k0 !! n = Some o ∧ P o ∧ stored O k !! n = Some (demote o).
Definition is_demoted (k : K) o : Prop := stored O k !! obj_Name o = Some (demote o).

Lemma demotes_refl P k : demotes P k k.
Proof. by left. Qed.

(** Patching an object as it is stored demotes it, or fails. *)
Lemma patch_current P k0 k o k' r :
  demotes P k0 k → stored O k0 !! obj_Name o = Some o → P o → kPatch o (demote o) k = (k', r) →
  demotes P k0 k' ∧ (∀ x, is_demoted k x → is_demoted k' x) ∧
  match r with Ok _ => is_demoted k' o | Err (KubeNotFound _) => False | Err _ => True end.
Proof.
  intros Hd Ho HP Ek. 
  assert (k' = (kPatch o (demote o) k).1) as -> by by rewrite Ek. assert ((kPatch o (demote o) k).2 = r) as Hr by by rewrite Ek.
  clear Ek.
  assert (stored O k !! obj_Name o = Some o ∨ stored O k !! obj_Name o = Some (demote o)) as Hcur.
  { destruct (Hd (obj_Name o)) as [->|(o' & Ho' & _ & ->)]; [by left|right]. congruence. }
  assert (∀ n, n ≠ obj_Name o → stored O (kPatch o (demote o) k).1 !! n = stored O k !! n) as Hframe.
  { intros n Hn. apply kPatch_frame. by rewrite demoted_Name. }
  assert (∀ x, stored O (kPatch o (demote o) k).1 !! obj_Name o = Some (demote o) → is_demoted k x →
               is_demoted (kPatch o (demote o) k).1 x) as Hkeep.
  { intros x Hx Hdx. unfold is_demoted in *. destruct (decide (obj_Name x = obj_Name o)) as [E|]; [|by rewrite Hframe].
    rewrite E in Hdx |- *. rewrite Hx. destruct Hcur as [E'|E']; rewrite E' in Hdx; [|done].
    injection Hdx as Hdx. rewrite Hdx at 1. f_equal. unfold demoted. rewrite obj_with_Labels, obj_with_Annotations, obj_with_with.
    f_equal. apply map_eq. intros y. rewrite !demoted_labels_lookup. by repeat case_decide. }
  destruct r as [o'|e].
  - assert (stored O (kPatch o (demote o) k).1 !! obj_Name o = Some (demote o)) as Hnew.
    { destruct (kPatch_Ok _ _ _ _ Hr) as (o0 & Ho0 & Hs & ->). rewrite demoted_Name in Ho0, Hs. rewrite Hs. f_equal.
      unfold demoted. rewrite obj_with_Labels, obj_with_Annotations.
      destruct Hcur as [E|E]; rewrite E in Ho0; injection Ho0 as <-.
      - by rewrite !merge_patch_current.
      - unfold demoted. rewrite obj_with_Labels, obj_with_Annotations, obj_with_with. f_equal.
        + apply map_eq. intros y. rewrite merge_patch_lookup. by case_decide.
        + by rewrite merge_patch_current. }
    split_and!; [|by intros; apply Hkeep|done]. intros n. destruct (decide (n = obj_Name o)) as [->|Hn]; [right; eauto|].
    rewrite Hframe by done. apply Hd.
  - assert (∀ n, stored O (kPatch o (demote o) k).1 !! n = stored O k !! n) as Hsame.
    { intros n. destruct (decide (n = obj_Name o)) as [->|Hn]; [|by apply Hframe].
      rewrite <- demoted_Name. by eapply kPatch_Err. }
    split_and!; [by intros n; rewrite Hsame|by intros x; unfold is_demoted; rewrite Hsame|].
    destruct e; try done. apply kPatch_NotFound in Hr. rewrite demoted_Name in Hr. destruct Hcur; congruence.
Qed.
End demotion.

Section capacitytype_properties.
Context `{SchedulingTypes} {C K N : Type} `{!CloudAPI C}.
Context `{!KubeAPI NodeClaim K} `{!KubeLaws NodeClaim K} `{!KubeAPI Node N} `{!KubeLaws Node N}.
Variable core_labels : list string.
Implicit Types (s : CapacityTypes C K N).
Abbreviation claim_demoted k c := (is_demoted (O := NodeClaim) core_labels k c).
Abbreviation node_demoted n x := (is_demoted (O := Node) core_labels n x).

Lemma sync_nodes_spec P (n0 nodes nodes' : N) l updated r :
  demotes core_labels P n0 nodes →
  (∀ n, n ∈ l → node_synced n = false → stored Node n0 !! nd_Name n = Some n ∧ P n) →
  sync_nodes core_labels l updated nodes = (nodes', r) →
  demotes core_labels P n0 nodes' ∧ (∀ x, node_demoted nodes x → node_demoted nodes' x) ∧
  (∀ b, r = Ok b → ∀ n, n ∈ l → node_synced n = false → node_demoted nodes' n).
Proof.
  revert updated nodes. induction l as [|n l IH]; intros updated nodes Hd Hl; cbn [sync_nodes].
  { intros [= <- <-]. split_and!; [done|done|]. by intros _ _ n ?%elem_of_nil. }
  destruct (node_synced n) eqn:En.
  { intros Hs. destruct (IH updated nodes Hd) as (H1 & H2 & H3); [by intros; apply Hl; [right|]|done|].
    split_and!; [done|done|]. intros b Hb n' [-> | Hin]%elem_of_cons; [congruence|by eapply H3]. }
  destruct (kPatch n (demoted core_labels n) nodes) as [nodes1 r1] eqn:Ep.
  destruct (Hl n) as [Hst HP]; [by left|done|].
  destruct (patch_current core_labels P n0 nodes n nodes1 r1 Hd Hst HP Ep) as (Hd1 & Hk1 & Hr1).
  destruct r1 as [o|[e|e|e|e]]; [|done|intros [= <- <-]; by split_and!..].
  intros Hs. destruct (IH true nodes1 Hd1) as (H1 & H2 & H3); [by intros; apply Hl; [right|]|done|].
  split_and!; [done|by auto|]. intros b Hb n' [-> | Hin]%elem_of_cons; [by auto|by eapply H3].
Qed.

(** What is due: NodeClaims whose instance is on-demand, and their registered nodes. *)
Definition on_demand (cps : list NodeClaim) (c : NodeClaim) : Prop :=
  ncl_DeletionTimestamp c = None ∧ capacity_type_of cps (ncl_ProviderID c) = Some CapacityTypeOnDemand.
Definition claim_due cps (c : NodeClaim) : Prop := on_demand cps c ∧ reserved c = true.
Definition node_due cps (k0 : K) (n : Node) : Prop :=
  node_synced n = false ∧ ∃ c, stored NodeClaim k0 !! ncl_Name c = Some c ∧ on_demand cps c ∧ ncl_ProviderID c ≠ "" ∧
    nd_ProviderID n = ncl_ProviderID c.

Record synced cps (s0 s : CapacityTypes C K N) : Prop := {
  sy_claims : demotes core_labels (claim_due cps) (ct_claims s0) (ct_claims s);
  sy_nodes : demotes core_labels (node_due cps (ct_claims s0)) (ct_nodes s0) (ct_nodes s);
}.
(** The NodeClaim and its nodes are done. *)
Definition handled cps (s0 s : CapacityTypes C K N) (c : NodeClaim) : Prop :=
  on_demand cps c →
  (reserved c = true → claim_demoted (ct_claims s) c) ∧
  ∀ n, stored Node (ct_nodes s0) !! nd_Name n = Some n → node_synced n = false → ncl_ProviderID c ≠ "" →
    nd_ProviderID n = ncl_ProviderID c → node_demoted (ct_nodes s) n.
Definition keeps s s' : Prop :=
  (∀ x, claim_demoted (ct_claims s) x → claim_demoted (ct_claims s') x) ∧
  (∀ x, node_demoted (ct_nodes s) x → node_demoted (ct_nodes s') x).

(** The nodes of a NodeClaim, as they are listed, are as they were at first or demoted. *)
Lemma listed_nodes cps (k0 : K) (n0 nodes : N) c l :
  demotes core_labels (node_due cps k0) n0 nodes → stored NodeClaim k0 !! ncl_Name c = Some c → on_demand cps c →
  AllNodesForNodeClaim c nodes = Ok l →
  (∀ n, n ∈ l → node_synced n = false → stored Node n0 !! nd_Name n = Some n ∧ node_due cps k0 n) ∧
  (∀ n, stored Node n0 !! nd_Name n = Some n → ncl_ProviderID c ≠ "" → nd_ProviderID n = ncl_ProviderID c →
        n ∈ l ∨ node_demoted nodes n).
Proof.
  intros Hd Hc Hon. unfold AllNodesForNodeClaim. case_decide as Hpid.
  { intros [= <-]. split; [by intros n ?%elem_of_nil|done]. }
  destruct (kList Node nodes) as [l0|] eqn:El; [|done]. intros [= <-]. split.
  - intros n [Hp Hin]%list_elem_of_filter Hs. apply (kList_current _ _ _ El) in Hin. simpl in Hin.
    destruct (Hd (nd_Name n)) as [E|(o & Ho & _ & E)]; rewrite E in Hin.
    + split; [done|]. split; [done|]. by exists c.
    + apply (inj Some) in Hin. unfold node_synced in Hs. rewrite <- Hin, reserved_demoted in Hs.
      rewrite orb_true_r in Hs. done.
  - intros n Hn _ Hp. destruct (Hd (nd_Name n)) as [E|(o & Ho & _ & E)].
    + left. apply list_elem_of_filter. split; [done|]. apply (kList_current _ _ _ El). simpl. congruence.
    + right. unfold is_demoted. change (obj_Name n) with (nd_Name n). congruence.
Qed.

Lemma syncCapacityType_spec cps s0 s s' c ct r :
  synced cps s0 s → stored NodeClaim (ct_claims s0) !! ncl_Name c = Some c →
  capacity_type_of cps (ncl_ProviderID c) = Some ct → syncCapacityType core_labels ct c s = (s', r) →
  synced cps s0 s' ∧ keeps s s' ∧ ∀ b, r = Ok b → handled cps s0 s' c.
Proof.
  intros [Hk Hn] Hc Hct. unfold syncCapacityType. case_decide as Hdel.
  { intros [= <- <-]. split_and!; [by split|by split|]. intros b _ [Hd _]. rewrite Hd in Hdel. by destruct Hdel. }
  case_decide as Hod.
  { intros [= <- <-]. split_and!; [by split|by split|]. intros b _ [_ Ho]. congruence. }
  apply eq_None_not_Some in Hdel. subst ct. assert (on_demand cps c) as Hon by done.
  destruct (if reserved c then _ else _) as [k r1] eqn:Er.
  assert (demotes core_labels (claim_due cps) (ct_claims s0) k ∧ (∀ x, claim_demoted (ct_claims s) x → claim_demoted k x) ∧
    (ignore_kube_not_found (match r1 with Err e => Some e | Ok _ => None end) = None → reserved c = true → claim_demoted k c))
    as (Hk1 & Hkeep & Hdone).
  { destruct (reserved c) eqn:Eres; [|injection Er as <- <-; by split_and!].
    destruct (patch_current core_labels (claim_due cps) (ct_claims s0) _ c k r1 Hk Hc) as (? & ? & ?); [done|done|].
    split_and!; [done|done|]. intros Hi _. by destruct r1 as [|[]]. }
  destruct (ignore_kube_not_found _) as [e|]; [intros [= <- <-]; split_and!; [by split|by split|done]|].
  specialize (Hdone eq_refl). cbn [ct_nodes ct_cloud ct_claims].
  destruct (AllNodesForNodeClaim c (ct_nodes s)) as [l|e] eqn:Ea; [|intros [= <- <-]; split_and!; [by split|by split|done]].
  destruct (listed_nodes cps (ct_claims s0) (ct_nodes s0) _ c l Hn Hc Hon Ea) as [Hl Hall].
  destruct (sync_nodes core_labels l (reserved c) (ct_nodes s)) as [n r2] eqn:Es. intros [= <- <-].
  destruct (sync_nodes_spec _ _ _ _ _ _ _ Hn Hl Es) as (Hn1 & Hkn & Hdn).
  split_and!; [by split|by split|]. intros b Hb _. split; [done|]. intros x Hx Hsx Hpc Hpx.
  destruct (Hall x Hx Hpc Hpx); [by eapply Hdn|by apply Hkn].
Qed.

Lemma sync_all_spec cps ncs s0 s s' es :
  synced cps s0 s → (∀ c, c ∈ ncs → stored NodeClaim (ct_claims s0) !! ncl_Name c = Some c) →
  sync_all core_labels cps ncs s = (s', es) →
  synced cps s0 s' ∧ keeps s s' ∧ (es = [] → ∀ c, c ∈ ncs → handled cps s0 s' c).
Proof.
  revert s es. induction ncs as [|c ncs IH]; intros s es Hs Hncs; cbn [sync_all].
  { intros [= <- <-]. split_and!; [done|by split|]. by intros _ c ?%elem_of_nil. }
  destruct (match capacity_type_of cps (ncl_ProviderID c) with Some _ => _ | None => _ end) as [s1 es1] eqn:E1.
  destruct (sync_all core_labels cps ncs s1) as [s2 es2] eqn:E2. intros [= <- <-].
  assert (synced cps s0 s1 ∧ keeps s s1 ∧ (es1 = [] → handled cps s0 s1 c)) as (Hs1 & Hk1 & Hh1).
  { destruct (capacity_type_of cps (ncl_ProviderID c)) as [ct|] eqn:Ect.
    - destruct (syncCapacityType core_labels ct c s) as [s3 r] eqn:Ey. injection E1 as <- <-.
      destruct (syncCapacityType_spec _ _ _ _ _ _ _ Hs (Hncs c ltac:(by left)) Ect Ey) as (? & ? & Hh).
      split_and!; [done|done|]. intros Hr. destruct r as [b|]; [by apply (Hh b)|done].
    - injection E1 as <- <-. split_and!; [done|by split|]. intros _ [_ Hon]. congruence. }
  destruct (IH s1 es2 Hs1) as (Hs2 & Hk2 & Hh2); [by intros; apply Hncs; right|done|].
  destruct Hk1 as [A1 B1], Hk2 as [A2 B2]. split_and!; [done|split; auto|].
  intros [He1 He2]%app_eq_nil c' [-> | Hin]%elem_of_cons; [|by apply Hh2].
  intros Hon. destruct (Hh1 He1 Hon) as [Hr Hn]. split; [auto|]. intros n. specialize (Hn n). auto 6.
Qed.

(** The labels follow the capacity type, and nothing else changes.  Whatever fails in a
    round, a NodeClaim either stays as it is, or it is labelled reserved, is not terminating
    and its instance is on-demand by now, and then it becomes on-demand without reservation
    labels; likewise its registered nodes.  After a round without an error this has happened
    to all of them. *)
Theorem Reconcile_capacitytype_spec s s' r :
  Reconcile_capacitytype core_labels s = Some (s', r) →
  ∃ c l, cp_List (ct_cloud s) = Some (c, l) ∧
    let cps := match l with Ok cps => cps | Err _ => [] end in
    synced cps s s' ∧
    (r = Ok (RequeueAfter Minute) → ∀ n c, stored NodeClaim (ct_claims s) !! n = Some c → handled cps s s' c).
Proof.
  intros Hr. unfold Reconcile_capacitytype in Hr. destruct (cp_List (ct_cloud s)) as [[c l]|]; [|done].
  exists c, l. split; [done|]. intros cps. cbn [mbind option_bind ct_claims] in Hr.
  assert (∀ c, synced cps s {| ct_cloud := c; ct_claims := ct_claims s; ct_nodes := ct_nodes s |}) as Hsame
    by (intros; split; apply demotes_refl).
  destruct l as [l|e]; [|injection Hr as <- <-; by split].
  destruct (kList NodeClaim (ct_claims s)) as [ncs|e] eqn:El; [|injection Hr as <- <-; by split].
  destruct (sync_all core_labels l ncs _) as [s1 es] eqn:Es. injection Hr as <- <-.
  assert (∀ x, x ∈ ncs → stored NodeClaim (ct_claims s) !! ncl_Name x = Some x) as Hncs
    by (intros x; apply (kList_current _ _ _ El)).
  destruct (sync_all_spec l ncs s _ _ _ (Hsame c) Hncs Es) as (Hs1 & _ & Hh). split; [done|].
  intros He n x Hx. apply Hh.
  - destruct es as [|e es]; [done|]. destruct (forallb _ _); [done|]. by destruct (Combine _).
  - pose proof (stored_Name _ _ _ Hx) as Hn. simpl in Hn. subst n. by apply (kList_current _ _ _ El).
Qed.
End capacitytype_properties.

(** ** Concrete executions *)

Section concrete.
#[local] Existing Instance RefCloud.

Definition w_labelled (name pid : string) (labels : list (string * string)) : NodeClaim :=
  obj_with (list_to_map labels) ∅ (w_nodeclaim name pid "node" 0).
Definition w_reserved (type : string) : list (string * string) :=
  [(CapacityTypeLabelKey, CapacityTypeReserved); (ReservationIDLabel, "cr-1"); (LabelCapacityReservationType, type);
   (LabelCapacityReservationInterruptible, "true"); ("team", "a")].

(** A capacity block with half an hour left. *)
Definition w_block : Ec2CapacityReservation :=
  {| CapacityReservationId := "cr-1"; AvailableInstanceCount := 2; EndDate := Some (30 * Minute);
     AvailabilityZone := "us-west-2a"; InstanceMatchCriteria := "targeted"; ApiV1.InstanceType := "p5.48xlarge";
     OwnerId := "123456789012"; ReservationType := "capacity-block"; Interruptible := None |}.
Definition w_expiration : Expiration (RefKube.t NodeClaim) (RefCache.t positive) (RefCache.t unit)
    (RefCache.t (list Ec2CapacityReservation)) :=
  {| ex_claims := RefKube.of_list [w_labelled "claim" "aws:///z/i-1" (w_reserved "capacity-block"); w_nodeclaim "other" "aws:///z/i-2" "" 0];
     ex_reservations := w_provider |}.
Definition w_expired := Reconcile_expiration (λ _, true) q_ID (λ _, [Ok [w_block]]) 0 0 w_expiration.

Example w_expired_value :
  w_expired.2 = Ok Minute ∧
  (λ c, ncl_DeletionTimestamp c) <$> stored NodeClaim (ex_claims w_expired.1) !! "claim" = Some (Some 0).
Proof. vm_compute. split; reflexivity. Qed.

(** The NodeClaim of another instance stays as it is. *)
Lemma Reconcile_expiration_spec_witness :
  stored NodeClaim (ex_claims w_expired.1) !! "other" = Some (w_nodeclaim "other" "aws:///z/i-2" "" 0).
Proof.
  destruct (Reconcile_expiration_spec (λ _, true) q_ID (λ _, [Ok [w_block]]) 0 0 w_expiration w_expired.1 w_expired.2
    (surjective_pairing w_expired)) as [Hframe _].
  destruct (Hframe "other") as [E|(c & Hc & _ & id & terms & p & rs & ec2CR & cr & Hid & _)]; [exact E|exfalso].
  change (Some (w_nodeclaim "other" "aws:///z/i-2" "" 0) = Some c) in Hc. injection Hc as <-. discriminate Hid.
Defined.

(** An instance of an interruptible reservation that is on-demand by now, and its node. *)
Definition w_demoted_state : CapacityTypes (list NodeClaim) (RefKube.t NodeClaim) (RefKube.t Node) :=
  {| ct_cloud := [w_labelled "" "aws:///z/i-1" [(CapacityTypeLabelKey, CapacityTypeOnDemand)]];
     ct_claims := RefKube.of_list [w_labelled "claim" "aws:///z/i-1" (w_reserved "default")];
     ct_nodes := RefKube.of_list
       [{| nd_Name := "node"; nd_Labels := list_to_map ((NodeRegisteredLabelKey, "true") :: w_reserved "default");
           nd_Annotations := ∅; nd_DeletionTimestamp := None; nd_ProviderID := "aws:///z/i-1" |}] |}.
Definition w_synced := Reconcile_capacitytype [] w_demoted_state.
(** The label that says that the reservation is interruptible stays. *)
Example interruptible_label_stays :
  (λ sr : CapacityTypes _ _ _ * result error Requeue, (sr.2,
    (λ c, map_to_list (ncl_Labels c)) <$> stored NodeClaim (ct_claims sr.1) !! "claim",
    (λ n, nd_Labels n !! LabelCapacityReservationInterruptible) <$> stored Node (ct_nodes sr.1) !! "node")) <$> w_synced
  = Some (Ok (RequeueAfter Minute),
      Some [(LabelCapacityReservationInterruptible, "true"); (CapacityTypeLabelKey, CapacityTypeOnDemand); ("team", "a")],
      Some (Some "true")).
Proof. vm_compute. reflexivity. Qed.

Lemma Reconcile_capacitytype_spec_witness :
  ∃ s, w_synced = Some (s, Ok (RequeueAfter Minute)) ∧
    stored NodeClaim (ct_claims s) !! "claim" =
    Some (demoted [] (w_labelled "claim" "aws:///z/i-1" (w_reserved "default"))).
Proof.
  assert (snd <$> w_synced = Some (Ok (RequeueAfter Minute))) as Hr by (vm_compute; reflexivity).
  pose proof (Reconcile_capacitytype_spec [] w_demoted_state) as Hspec. fold w_synced in Hspec.
  destruct w_synced as [[s r]|]; [|discriminate Hr]. apply (inj Some) in Hr. cbn [snd] in Hr. subst r.
  exists s. split; [reflexivity|]. destruct (Hspec s _ eq_refl) as (c & l & Hl & _ & Hall).
  injection Hl as _ Hl. subst l.
  refine (proj1 (Hall eq_refl "claim" (w_labelled "claim" "aws:///z/i-1" (w_reserved "default")) eq_refl _) _);
    [split|]; vm_compute; reflexivity.
Defined.
End concrete.
