(* ===== verification/Pricing.v ===== *)
(** * [pkg/providers/pricing]: prices

    On-demand and spot prices start from a static table and are refreshed from the pricing
    API and from EC2.  A refresh that fails leaves what is known; one that succeeds adds to
    it.  The pages of the answers, JSON and [strconv.ParseFloat] are parameters; a Go map is
    iterated in the order of [map_to_list]. *)
From S2P Require Import Prelude GoStd AwsErrors Interruption InstanceTypeProvider.

(** ** Data *)

(** Spot prices by zone, and a price until there are any. *)
Record zonal := { defaultPrice : float64; prices : gmap string float64 }.
Definition newZonalPricing (defaultPrice : float64) : zonal := {| defaultPrice := defaultPrice; prices := ∅ |}.
Definition combine_zonal (z elem : zonal) : zonal :=
  {| defaultPrice := if decide (defaultPrice elem ≠ 0) then defaultPrice elem else defaultPrice z;
     prices := prices elem ∪ prices z |}.
Definition combineZonalPricing (pricingData : list zonal) : zonal := foldl combine_zonal (newZonalPricing 0) pricingData.

Record Pricing := {
  onDemandPrices : gmap string float64;
  spotPrices : gmap string zonal;
  spotPricingUpdated : bool;
}.

(** [ec2types.SpotPrice], and what is read of an item of the price list. *)
Record SpotPriceRecord := {
  sph_InstanceType : string;
  sph_AvailabilityZone : option string;
  sph_SpotPrice : option string;
  sph_Timestamp : option Z;
}.
Record PriceItem := {
  pi_InstanceType : string;
  pi_OnDemand : gmap string (gmap string (gmap string string));
}.

(** The pages up to the last one, or the first error. *)
Definition all_pages {B} (pages : list (result error (list B))) : result error (list (list B)) :=
  collect_pages ((λ page, match page with Ok l => Ok [l] | Err e => Err e end) <$> pages).

Section pricing.
Variable ParseFloat : string → option float64.
(** [json.Unmarshal], as far as it got. *)
Variable Unmarshal : string → PriceItem.
Variable initialOnDemandPrices : gmap string (gmap string float64).
Variable region : string.
Variable isolatedVPC : bool.
Variable skipRegionCheck : bool.
Implicit Types p : Pricing.

(** ** Reading *)

Definition InstanceTypes p : gset string := dom (onDemandPrices p) ∪ dom (spotPrices p).
Definition OnDemandPrice (instanceType : string) p : option float64 := onDemandPrices p !! instanceType.
Definition SpotPrice (instanceType zone : string) p : option float64 :=
  val ← spotPrices p !! instanceType;
  if negb (spotPricingUpdated p) then Some (defaultPrice val) else prices val !! zone.

(** ** On-demand prices *)

Definition currency : string := if HasPrefix region "cn-" then "CNY" else "USD".
(** The prices of the dimensions of all terms that can be read and are not zero. *)
Definition item_prices (item : PriceItem) : list float64 :=
  (map_to_list (pi_OnDemand item)).*2 ≫= λ term,
  omap (λ unit_prices : gmap string string,
          price ← ParseFloat (default "" (unit_prices !! currency));
          if decide (price = 0) then None else Some price) (map_to_list term).*2.
Definition add_item (m : gmap string float64) (item : PriceItem) : gmap string float64 :=
  if decide (pi_InstanceType item = "") then m
  else foldl (λ m price, <[pi_InstanceType item := price]> m) m (item_prices item).
Definition onDemandPage (PriceList : list string) : gmap string float64 := foldl add_item ∅ (Unmarshal <$> PriceList).

(** Later pages win. *)
Definition fetchOnDemandPricing (pages : list (result error (list string))) : result error (gmap string float64) :=
  match all_pages pages with
  | Ok pages => Ok (foldl (λ prices page, onDemandPage page ∪ prices) ∅ pages)
  | Err e => Err (wrap "getting pricing data" e)
  end.

Definition result_error {A} (r : result error A) : option error := match r with Err e => Some e | Ok _ => None end.
Definition UpdateOnDemandPricing (pages metalPages : list (result error (list string))) p : Pricing * option error :=
  if isolatedVPC then (p, None)
  else if negb skipRegionCheck && HasPrefix region "us-gov" then (p, None)
  else
    match fetchOnDemandPricing pages, fetchOnDemandPricing metalPages with
    | Ok onDemand, Ok metal =>
        if decide (onDemand = ∅ ∨ metal = ∅) then (p, Some (errorf "no on-demand pricing found"))
        else ({| onDemandPrices := metal ∪ (onDemand ∪ onDemandPrices p); spotPrices := spotPrices p;
                 spotPricingUpdated := spotPricingUpdated p |}, None)
    | r, r' => (p, wrap "retreiving on-demand pricing data" <$> Combine (option_list (result_error r) ++ option_list (result_error r')))
    end.

(** ** Spot prices *)

Definition add_spot (m : gmap string zonal) (sph : SpotPriceRecord) : gmap string zonal :=
  match ParseFloat (default "" (sph_SpotPrice sph)), sph_Timestamp sph with
  | Some price, Some _ =>
      let z := default (newZonalPricing 0) (m !! sph_InstanceType sph) in
      <[sph_InstanceType sph := {| defaultPrice := defaultPrice z;
                                   prices := <[default "" (sph_AvailabilityZone sph) := price]> (prices z) |}]> m
  | _, _ => m
  end.
Definition spotPage (SpotPriceHistory : list SpotPriceRecord) : gmap string zonal := foldl add_spot ∅ SpotPriceHistory.

(** [m[it] = combineZonalPricing(m[it], z)] for all that is new. *)
Definition combine_all (m new : gmap string zonal) : gmap string zonal :=
  foldl (λ m kv, <[kv.1 := combineZonalPricing [default (newZonalPricing 0) (m !! kv.1); kv.2]]> m) m (map_to_list new).
Definition UpdateSpotPricing (pages : list (result error (list SpotPriceRecord))) p : Pricing * option error :=
  match all_pages pages with
  | Err e => (p, Some (wrap "retrieving spot pricing data" e))
  | Ok pages =>
      let new := foldl (λ m page, combine_all m (spotPage page)) ∅ pages in
      if decide (new = ∅) then (p, Some (errorf "no spot pricing found"))
      else ({| onDemandPrices := onDemandPrices p; spotPrices := combine_all (spotPrices p) new; spotPricingUpdated := true |}, None)
  end.

(** ** The static table *)

Definition populateInitialSpotPricing (pricing : gmap string float64) : gmap string zonal := newZonalPricing <$> pricing.
Definition staticPricing : gmap string float64 :=
  default (initialOnDemandPrices !!! "us-east-1") (initialOnDemandPrices !! region).
Definition Reset : Pricing :=
  {| onDemandPrices := staticPricing; spotPrices := populateInitialSpotPricing staticPricing; spotPricingUpdated := false |}.
End pricing.

(** ** What is known *)

Section properties.
Variable ParseFloat : string → option float64.
Variable Unmarshal : string → PriceItem.
Variable initialOnDemandPrices : gmap string (gmap string float64).
Variable region : string.
Variable isolatedVPC : bool.
Variable skipRegionCheck : bool.

(** A record of a spot price that counts. *)
Definition quote (sph : SpotPriceRecord) : option (string * string * float64) :=
  price ← ParseFloat (default "" (sph_SpotPrice sph)); _ ← sph_Timestamp sph;
  Some (sph_InstanceType sph, default "" (sph_AvailabilityZone sph), price).
(** The last of the quotes for an instance type in a zone. *)
Definition later (it zone : string) (acc : option float64) (q : string * string * float64) : option float64 :=
  if decide (q.1 = (it, zone)) then Some q.2 else acc.
Definition last_price (it zone : string) (l : list (string * string * float64)) : option float64 := foldl (later it zone) None l.

Lemma foldl_later it zone acc l : foldl (later it zone) acc l = match last_price it zone l with Some p => Some p | None => acc end.
Proof.
  unfold last_price. induction l as [|q l IH] using rev_ind; [done|]. rewrite !foldl_app. simpl. unfold later at 1 3.
  by case_decide.
Qed.
Lemma last_price_app it zone l l' :
  last_price it zone (l ++ l') = match last_price it zone l' with Some p => Some p | None => last_price it zone l end.
Proof. unfold last_price at 1. by rewrite foldl_app, foldl_later. Qed.

Definition zone_price (m : gmap string zonal) (it zone : string) : option float64 := z ← m !! it; prices z !! zone.

Lemma combine_all_lookup m new it :
  combine_all m new !! it =
  match new !! it with
  | Some z => Some (combineZonalPricing [default (newZonalPricing 0) (m !! it); z])
  | None => m !! it
  end.
Proof.
  unfold combine_all.
  assert (∀ l : list (string * zonal), NoDup l.*1 → ∀ (m : gmap string zonal) it,
    foldl (λ (m : gmap string zonal) kv, <[kv.1 := combineZonalPricing [default (newZonalPricing 0) (m !! kv.1); kv.2]]> m) m l !! it =
    match (list_to_map l : gmap string zonal) !! it with
    | Some z => Some (combineZonalPricing [default (newZonalPricing 0) (m !! it); z])
    | None => m !! it
    end) as Hl.
  { induction l as [|[k z] l IH]; intros Hn m' it'; [done|]. cbn [foldl list_to_map foldr fst snd uncurry].
    apply NoDup_cons in Hn as [Hk Hn]. rewrite (IH Hn). destruct (decide (k = it')) as [->|Hne].
    - rewrite (not_elem_of_list_to_map_1 l it') by done. by rewrite !lookup_insert_eq.
    - by rewrite !lookup_insert_ne. }
  rewrite Hl by apply NoDup_fst_map_to_list. by rewrite list_to_map_to_list.
Qed.
Lemma zone_price_combine m new it zone :
  zone_price (combine_all m new) it zone =
  match zone_price new it zone with Some p => Some p | None => zone_price m it zone end.
Proof.
  unfold zone_price. rewrite combine_all_lookup. destruct (new !! it) as [z|]; simpl; [|done].
  rewrite lookup_union, (right_id_L ∅ _). destruct (prices z !! zone); simpl; [by rewrite union_Some_l|].
  rewrite (left_id_L None _). by destruct (m !! it).
Qed.

(** Maps with the same prices by zone, and the same instance types. *)
Definition shows (m : gmap string zonal) (l : list (string * string * float64)) : Prop :=
  (∀ it zone, zone_price m it zone = last_price it zone l) ∧ (m = ∅ ↔ l = []).

Lemma spotPage_shows l : shows (spotPage ParseFloat l) (omap quote l).
Proof.
  unfold spotPage. induction l as [|sph l [IHp IHe]] using rev_ind; [done|].
  rewrite foldl_app, omap_app. cbn [foldl omap list_omap]. set (m := foldl (add_spot ParseFloat) ∅ l) in *.
  unfold add_spot. unfold quote at 2. destruct (ParseFloat _) as [price|]; cbn [mbind option_bind];
    [|rewrite app_nil_r; by split]. destruct (sph_Timestamp sph); cbn [mbind option_bind]; [|rewrite app_nil_r; by split].
  split.
  - intros it zone. unfold last_price. rewrite foldl_app. fold (last_price it zone (omap quote l)). rewrite <- IHp.
    simpl. unfold later, zone_price. simpl. case_decide as Hd.
    + injection Hd as -> ->. rewrite lookup_insert_eq. simpl. by rewrite lookup_insert_eq.
    + destruct (decide (it = sph_InstanceType sph)) as [->|Hne]; [|by rewrite lookup_insert_ne].
      rewrite lookup_insert_eq. simpl. rewrite lookup_insert_ne by (intros <-; by apply Hd).
      by destruct (m !! sph_InstanceType sph).
  - split; [intros E; by apply insert_non_empty in E|by intros [_ ?]%app_eq_nil].
Qed.
Lemma combine_all_shows m new l l' : shows m l → shows new l' → shows (combine_all m new) (l ++ l').
Proof.
  intros [Hp He] [Hp' He']. split; [intros it zone; by rewrite zone_price_combine, last_price_app, Hp, Hp'|].
  split.
  - intros E. assert (new = ∅ ∧ m = ∅) as [En Em].
    { split; apply map_empty; intros it; pose proof (combine_all_lookup m new it) as Hl; rewrite E, lookup_empty in Hl;
        by destruct (new !! it), (m !! it). }
    apply He in Em. apply He' in En. by subst.
  - intros [-> ->]%app_eq_nil. assert (m = ∅) as -> by by apply He. assert (new = ∅) as -> by by apply He'. done.
Qed.
Lemma pages_show pages l m : shows m l → shows (foldl (λ m page, combine_all m (spotPage ParseFloat page)) m pages)
  (l ++ (pages ≫= omap quote)).
Proof.
  revert l m. induction pages as [|page pages IH]; intros l m Hm; [by rewrite app_nil_r|].
  cbn [foldl]. rewrite bind_cons, (assoc_L (++)). apply IH, combine_all_shows; [done|apply spotPage_shows].
Qed.

(** *** Histories *)

Inductive update := UpdateOnDemand (pages metalPages : list (result error (list string)))
                  | UpdateSpot (pages : list (result error (list SpotPriceRecord))).
Definition apply_update (p : Pricing) (u : update) : Pricing :=
  match u with
  | UpdateOnDemand pages metal => (UpdateOnDemandPricing ParseFloat Unmarshal region isolatedVPC skipRegionCheck pages metal p).1
  | UpdateSpot pages => (UpdateSpotPricing ParseFloat pages p).1
  end.
(** The provider after some refreshes. *)
Definition run (us : list update) : Pricing := foldl apply_update (Reset initialOnDemandPrices region) us.

(** The quotes of a refresh, if it succeeds, and the maps of on-demand prices. *)
Definition spot_answer (u : update) : list (string * string * float64) :=
  match u with
  | UpdateSpot pages => match all_pages pages with Ok pages => pages ≫= omap quote | Err _ => [] end
  | UpdateOnDemand _ _ => []
  end.
Definition on_demand_answer (u : update) : list (gmap string float64) :=
  match u with
  | UpdateOnDemand pages metal =>
      if isolatedVPC || negb skipRegionCheck && HasPrefix region "us-gov" then []
      else match fetchOnDemandPricing ParseFloat Unmarshal region pages, fetchOnDemandPricing ParseFloat Unmarshal region metal with
           | Ok a, Ok b => if decide (a = ∅ ∨ b = ∅) then [] else [a; b]
           | _, _ => []
           end
  | UpdateSpot _ => []
  end.

Lemma run_snoc us u : run (us ++ [u]) = apply_update (run us) u.
Proof. unfold run. by rewrite foldl_app. Qed.

Lemma UpdateSpotPricing_fields pages p :
  let new := spot_answer (UpdateSpot pages) in let p' := apply_update p (UpdateSpot pages) in
  onDemandPrices p' = onDemandPrices p ∧
  (new = [] → p' = p) ∧ (new ≠ [] → spotPricingUpdated p' = true ∧
    ∃ m, shows m new ∧ spotPrices p' = combine_all (spotPrices p) m).
Proof.
  cbn [apply_update spot_answer]. unfold UpdateSpotPricing. destruct (all_pages pages) as [l|e]; [|by split_and!].
  pose proof (pages_show l [] ∅ (conj (λ _ _, eq_refl) (conj (λ _, eq_refl) (λ _, eq_refl)))) as Hm. rewrite app_nil_l in Hm.
  destruct Hm as [Hp He]. case_decide as E; simpl.
  - split_and!; [done|done|]. intros Hn. by apply He in E.
  - split_and!; [done|intros Hn; by apply He in Hn|]. intros _. split; [done|]. eexists. split; [by split|done].
Qed.

(** The spot prices: static ones, or those quoted and the rest of the static types. *)
Lemma run_spot us :
  let quotes := us ≫= spot_answer in let p := run us in
  (quotes = [] → spotPrices p = populateInitialSpotPricing (staticPricing initialOnDemandPrices region) ∧ spotPricingUpdated p = false) ∧
  (quotes ≠ [] → spotPricingUpdated p = true) ∧ ∀ it zone, zone_price (spotPrices p) it zone = last_price it zone quotes.
Proof.
  induction us as [|u us (IH1 & IH2 & IH3)] using rev_ind.
  { split_and!; [done|done|]. intros it zone. cbn. unfold zone_price, populateInitialSpotPricing. rewrite lookup_fmap.
    by destruct (_ !! it). }
  cbv zeta in *. rewrite run_snoc, bind_app, bind_singleton. destruct u as [pages metal|pages].
  - cbn [spot_answer]. rewrite app_nil_r.
    assert (spotPrices (apply_update (run us) (UpdateOnDemand pages metal)) = spotPrices (run us) ∧
            spotPricingUpdated (apply_update (run us) (UpdateOnDemand pages metal)) = spotPricingUpdated (run us)) as [E1 E2].
    { cbn [apply_update]. unfold UpdateOnDemandPricing. destruct isolatedVPC; [done|]. destruct (negb _ && _); [done|].
      destruct (fetchOnDemandPricing _ _ _ pages), (fetchOnDemandPricing _ _ _ metal); try done. by case_decide. }
    by rewrite E1, E2.
  - destruct (UpdateSpotPricing_fields pages (run us)) as (_ & Hsame & Hnew).
    destruct (spot_answer (UpdateSpot pages)) as [|q new] eqn:En; [rewrite app_nil_r, (Hsame eq_refl); done|].
    destruct (Hnew ltac:(done)) as (Hup & m & [Hm _] & Hs). split_and!; [|done|].
    + intros E. by apply app_eq_nil in E as [_ ?].
    + intros it zone. by rewrite Hs, zone_price_combine, last_price_app, Hm, IH3.
Qed.
Lemma spot_last_known us it zone :
  SpotPrice it zone (run us) =
    match us ≫= spot_answer with
    | [] => staticPricing initialOnDemandPrices region !! it
    | quotes => last_price it zone quotes
    end.
Proof.
  destruct (run_spot us) as (H1 & H2 & H3). cbv zeta in *. unfold SpotPrice.
  destruct (us ≫= spot_answer) as [|q l].
  - destruct (H1 eq_refl) as [E1 E2]. rewrite E1, E2. unfold populateInitialSpotPricing. rewrite lookup_fmap.
    by destruct (_ !! it).
  - rewrite H2 by done. rewrite <- H3. done.
Qed.

Lemma on_demand_last_known us it :
  OnDemandPrice it (run us) =
    match last (omap (lookup it) (us ≫= on_demand_answer)) with
    | Some price => Some price
    | None => staticPricing initialOnDemandPrices region !! it
    end.
Proof.
  induction us as [|u us IH] using rev_ind; [done|]. rewrite run_snoc, bind_app, bind_singleton, omap_app.
  unfold OnDemandPrice in *. destruct u as [pages metal|pages]; cbn [on_demand_answer].
  - cbn [apply_update]. unfold UpdateOnDemandPricing. destruct isolatedVPC; [by rewrite app_nil_r|].
    destruct (negb skipRegionCheck && HasPrefix region "us-gov"); cbn [orb]; [by rewrite app_nil_r|].
    destruct (fetchOnDemandPricing _ _ _ pages) as [a|e], (fetchOnDemandPricing _ _ _ metal) as [b|e'];
      [|cbn; by rewrite app_nil_r..]. case_decide; [cbn; by rewrite app_nil_r|].
    cbn [fst onDemandPrices omap list_omap]. rewrite !lookup_union, IH.
    destruct (a !! it) as [x|], (b !! it) as [y|]; rewrite ?app_nil_r, ?last_snoc, ?last_app; simpl;
      rewrite ?(left_id_L None _), ?union_Some_l; done.
  - destruct (UpdateSpotPricing_fields pages (run us)) as [-> _]. cbn. by rewrite app_nil_r.
Qed.

(** C36: Prices are the last known ones.  After any sequence of refreshes, failed or not, the
    spot price of an instance type in a zone is the last quote for it in the answers of the
    refreshes that succeeded (and before the first of them the static price of the type);
    the on-demand price is the one of the last answer that has the type, or else the static
    one.  In particular a refresh that fails changes no price, and a known price is never
    forgotten. *)
Theorem prices_last_known us it zone :
  SpotPrice it zone (run us) =
    match us ≫= spot_answer with
    | [] => staticPricing initialOnDemandPrices region !! it
    | quotes => last_price it zone quotes
    end ∧
  OnDemandPrice it (run us) =
    match last (omap (lookup it) (us ≫= on_demand_answer)) with
    | Some price => Some price
    | None => staticPricing initialOnDemandPrices region !! it
    end.
Proof.
  split; [apply spot_last_known|apply on_demand_last_known].
Qed.
End properties.

(** ** A concrete history *)

Section concrete.
Definition w_parse (s : string) : option float64 := if decide (s = "0.5") then Some 5 else if decide (s = "0.7") then Some 7 else None.
Definition w_item (s : string) : PriceItem :=
  {| pi_InstanceType := s; pi_OnDemand := {[ "term" := {[ "dim" := {[ "USD" := "0.7" ]} ]} ]} |}.
Definition w_quote (it zone price : string) : SpotPriceRecord :=
  {| sph_InstanceType := it; sph_AvailabilityZone := Some zone; sph_SpotPrice := Some price; sph_Timestamp := Some 0 |}.
Definition w_static : gmap string (gmap string float64) := {[ "us-east-1" := list_to_map [("m5.large", 9); ("c5.large", 8)] ]}.
Abbreviation w_run := (run w_parse w_item w_static "us-west-2" false false).
Definition w_history : list update :=
  [UpdateSpot [Ok [w_quote "m5.large" "a" "0.5"; w_quote "m5.large" "b" "?"]; Ok [w_quote "m5.large" "a" "0.7"]];
   UpdateOnDemand [Ok ["m5.large"]] [Ok ["m5.metal"]]; UpdateSpot [Ok [w_quote "m5.large" "a" "0.5"]; Err (errorf "throttled")]].

(** The failed refresh changes nothing; the unreadable price is not known. *)
Example w_history_value :
  (SpotPrice "m5.large" "a" (w_run w_history), SpotPrice "m5.large" "b" (w_run w_history), SpotPrice "c5.large" "a" (w_run []),
   OnDemandPrice "m5.large" (w_run w_history), OnDemandPrice "c5.large" (w_run w_history))
  = (Some 7, None, Some 8, Some 7, Some 8).
Proof. vm_compute. reflexivity. Qed.
End concrete.
