(* ===== verification/ZonalShift.v ===== *)
(** * [pkg/providers/arczonalshift], [pkg/controllers/arczonalshift]: zonal shifts

    Application Recovery Controller can shift a cluster away from an availability zone.  The
    provider keeps what the last answers said of each zone; launches and offerings ask it
    whether a zone is shifted away from.  The controller refreshes the provider and tells the
    NodePools that can launch into a zone when it is shifted away from and when the shift
    ends.  The answers of the API and of the API server are arguments of the operations. *)
From S2P Require Import Prelude GoCache AwsErrors ApiV1 Scheduling Kube Offerings.

(** ** The provider *)

(** [arczonalshifttypes.ZonalShiftInResource]; the fields are pointers. *)
Record ZonalShift := { AwayFrom : option string; ExpiryTime : option Z; AppliedStatus : string }.
Definition AppliedStatusApplied := "APPLIED".

Record shiftStatus := { shiftExpiry : Z; applied : bool }.
Record ShiftProvider := { zonalShiftStatuses : gmap string shiftStatus; hydrated : bool }.
Definition NewProvider : ShiftProvider := {| zonalShiftStatuses := ∅; hydrated := false |}.
Definition with_statuses (m : gmap string shiftStatus) (p : ShiftProvider) : ShiftProvider :=
  {| zonalShiftStatuses := m; hydrated := hydrated p |}.

(** [None] is the panic on a shift without a zone or without an expiry. *)
Definition shift_entry (s : ZonalShift) : option (string * shiftStatus) :=
  match AwayFrom s, ExpiryTime s with
  | Some zone, Some t => Some (zone, {| shiftExpiry := t; applied := bool_decide (AppliedStatus s = AppliedStatusApplied) |})
  | _, _ => None
  end.
Definition shift_statuses (activeZonalShifts : list ZonalShift) : option (gmap string shiftStatus) :=
  entries ← mapM shift_entry activeZonalShifts;
  Some (foldl (λ m e, <[e.1 := e.2]> m) ∅ entries).

Definition UpdateZonalShifts (answer : result error (list ZonalShift)) (p : ShiftProvider) :
    option (ShiftProvider * option error) :=
  match answer with
  | Err e => Some (p, Some (wrap "getting zonal shifts" e))
  | Ok activeZonalShifts =>
      statuses ← shift_statuses activeZonalShifts;
      Some (with_statuses (if decide (statuses = ∅) then ∅ else statuses ∪ zonalShiftStatuses p) p, None)
  end.

Definition Reset_shifts (p : ShiftProvider) : ShiftProvider := with_statuses ∅ p.

(** A failure is logged. *)
Definition ensureHydrated (answer : result error (list ZonalShift)) (p : ShiftProvider) : option ShiftProvider :=
  if hydrated p then Some p
  else '(p, e) ← UpdateZonalShifts answer p;
       Some match e with
            | Some _ => p
            | None => {| zonalShiftStatuses := zonalShiftStatuses p; hydrated := true |}
            end.

Definition in_effect (now : Z) (status : shiftStatus) : bool := bool_decide (now < shiftExpiry status) && applied status.

Definition IsZonalShifted (answer : result error (list ZonalShift)) (now : Z) (zoneId : string) (p : ShiftProvider) :
    option (ShiftProvider * bool) :=
  p ← ensureHydrated answer p;
  Some (p, match zonalShiftStatuses p !! zoneId with
           | Some shift => in_effect now shift
           | None => false
           end).

(** The clock is read once per zone; the model takes one instant. *)
Definition ShiftedZones (now : Z) (p : ShiftProvider) : gset string :=
  dom (filter (λ kv, in_effect now kv.2 = true) (zonalShiftStatuses p)).

(** ** The controller *)

Section controller.
Context `{SC : Scheduling}.

(** A NodePool, and the requirements of its template. *)
Record ShiftPool := { shp_Pool : NodePool; shp_Requirements : Requirements }.

Inductive shift_event :=
  | NodePoolZonalShiftDetected (nodePool zoneName zoneID : string)
  | NodePoolZonalShiftCleared (nodePool zoneName zoneID : string).

Record ShiftController := {
  shc_provider : ShiftProvider;
  previousShiftedZones : gset string;
  (** What the recorder was given. *)
  shc_events : list shift_event;
}.
Definition NewController : ShiftController :=
  {| shc_provider := NewProvider; previousShiftedZones := ∅; shc_events := [] |}.

Definition zoneAffected (requirements : Requirements) (zoneInfos : list ZoneInfo_) (shiftedZoneID : string) : option string :=
  match Find (λ zi, bool_decide (zi_ZoneID zi = shiftedZoneID)) zoneInfos with
  | None => None
  | Some zoneInfo =>
      if negb (req_Has (Get requirements LabelTopologyZone) (zi_Zone zoneInfo)) then None
      else if negb (req_Has (Get requirements LabelTopologyZoneID) shiftedZoneID) then None
      else Some (zi_Zone zoneInfo)
  end.

Definition zone_events (mk : string → string → string → shift_event) (zones : gset string)
    (pool : ShiftPool) (zoneInfos : list ZoneInfo_) : list shift_event :=
  omap (λ zoneID, (λ zoneName, mk (np_Name (shp_Pool pool)) zoneName zoneID)
                    <$> zoneAffected (shp_Requirements pool) zoneInfos zoneID) (elements zones).
(** Go iterates over the map of NodePools and over the sets in any order. *)
Definition PublishZonalShiftEvents (previous current : gset string) (pools : list (ShiftPool * list ZoneInfo_)) :
    list shift_event :=
  let shifted := current ∖ previous in
  let cleared := previous ∖ current in
  mjoin ((λ pz, zone_events NodePoolZonalShiftDetected shifted pz.1 pz.2
                ++ zone_events NodePoolZonalShiftCleared cleared pz.1 pz.2) <$> pools).

(** A NodePool without a reference to a NodeClass is skipped; [nodeClass] gives the subnets in
    the status of a NodeClass. *)
Fixpoint pool_zone_infos (nodeClass : string → result kube_error (list Subnet)) (pools : list ShiftPool) :
    result error (list (ShiftPool * list ZoneInfo_)) :=
  match pools with
  | [] => Ok []
  | pool :: pools =>
      match np_NodeClassRef (shp_Pool pool) with
      | None => pool_zone_infos nodeClass pools
      | Some name =>
          match nodeClass name with
          | Err e => Err (wrap "getting nodeclass for nodepool" (kube_cause e))
          | Ok subnets =>
              match pool_zone_infos nodeClass pools with
              | Ok l => Ok ((pool, ZoneInfo subnets) :: l)
              | Err e => Err e
              end
          end
      end
  end.
Definition zoneInfosByNodePool (nodePools : result kube_error (list ShiftPool))
    (nodeClass : string → result kube_error (list Subnet)) : result error (list (ShiftPool * list ZoneInfo_)) :=
  match nodePools with
  | Err e => Err (wrap "listing nodepools" (kube_cause e))
  | Ok pools => pool_zone_infos nodeClass pools
  end.

(** What a round meets: the answer of the API, the instant, and the API server. *)
Record Round := {
  rd_answer : result error (list ZonalShift);
  rd_now : Z;
  rd_pools : result kube_error (list ShiftPool);
  rd_class : string → result kube_error (list Subnet);
}.
(** The result is the time until the next round. *)
Definition Reconcile_shift (r : Round) (c : ShiftController) : option (ShiftController * result error Z) :=
  '(p, e) ← UpdateZonalShifts (rd_answer r) (shc_provider c);
  let c := {| shc_provider := p; previousShiftedZones := previousShiftedZones c; shc_events := shc_events c |} in
  Some match e with
       | Some e => (c, Err (wrap "updating zonal shifts" e))
       | None =>
           let currentShiftedZones := ShiftedZones (rd_now r) p in
           let advance events :=
             {| shc_provider := p; previousShiftedZones := currentShiftedZones; shc_events := shc_events c ++ events |} in
           if decide (currentShiftedZones = previousShiftedZones c) then (advance [], Ok (30 * Second))
           else match zoneInfosByNodePool (rd_pools r) (rd_class r) with
                | Err e => (c, Err (wrap "publishing zonal shift events" e))
                | Ok pools => (advance (PublishZonalShiftEvents (previousShiftedZones c) currentShiftedZones pools), Ok (30 * Second))
                end
       end.
End controller.

(** ** What the provider knows *)

(** The listings the provider has seen, latest first; a reset is an empty listing. *)
Definition told (answer : result error (list ZonalShift)) (H : list (list ZonalShift)) : list (list ZonalShift) :=
  match answer with Ok l => l :: H | Err _ => H end.
Inductive provider_reach : list (list ZonalShift) → ShiftProvider → Prop :=
  | provider_new : provider_reach [] NewProvider
  | provider_updated H p answer p' e :
      provider_reach H p → UpdateZonalShifts answer p = Some (p', e) → provider_reach (told answer H) p'
  | provider_asked H p answer now zone p' b :
      provider_reach H p → IsZonalShifted answer now zone p = Some (p', b) →
      provider_reach (if hydrated p then H else told answer H) p'
  | provider_reset H p : provider_reach H p → provider_reach ([] :: H) (Reset_shifts p).

(** What a listing states about a zone: its last entry. *)
Definition stated (l : list ZonalShift) (zone : string) : option shiftStatus :=
  snd <$> last (filter (λ e, e.1 = zone) (omap shift_entry l)).
(** The latest listing that names the zone and that no empty listing follows. *)
Fixpoint known (H : list (list ZonalShift)) (zone : string) : option shiftStatus :=
  match H with
  | [] | [] :: _ => None
  | l :: H => match stated l zone with Some status => Some status | None => known H zone end
  end.
Definition well_formed (answer : result error (list ZonalShift)) : Prop :=
  ∀ l, answer = Ok l → Forall (λ s, is_Some (shift_entry s)) l.

Lemma foldl_insert_lookup {A} (entries : list (string * A)) (m : gmap string A) zone :
  foldl (λ m e, <[e.1 := e.2]> m) m entries !! zone =
  match last (filter (λ e, e.1 = zone) entries) with Some e => Some e.2 | None => m !! zone end.
Proof.
  induction entries as [|e entries IH] using rev_ind; [done|]. rewrite foldl_app, filter_app. simpl.
  destruct (decide (e.1 = zone)) as [<-|Hne].
  - rewrite filter_cons_True, filter_nil, last_snoc, lookup_insert_eq; done.
  - by rewrite filter_cons_False, filter_nil, app_nil_r, lookup_insert_ne.
Qed.

Lemma mapM_omap {A B} (f : A → option B) l k : mapM f l = Some k → omap f l = k.
Proof.
  revert k. induction l as [|x l IH]; intros k; simpl; [by intros [= <-]|]. destruct (f x); [|done]. simpl.
  destruct (mapM f l) as [k'|]; [|done]. intros [= <-]. f_equal. by apply IH.
Qed.

Lemma shift_statuses_stated l m : shift_statuses l = Some m → (∀ zone, m !! zone = stated l zone) ∧ (m = ∅ ↔ l = []).
Proof.
  unfold shift_statuses, stated. destruct (mapM shift_entry l) as [k|] eqn:Em; [|done]. intros [= <-].
  pose proof (mapM_omap _ _ _ Em) as Ho. rewrite Ho. split.
  - intros zone. rewrite foldl_insert_lookup. by destruct (last _).
  - split; [|intros ->; by injection Em as <-]. intros Hm. destruct l as [|s l]; [done|]. exfalso.
    destruct k as [|e k]; [apply length_mapM in Em; done|].
    assert (foldl (λ m e, <[e.1 := e.2]> m) ∅ (e :: k) !! e.1 = None) as Hn by by rewrite Hm.
    rewrite foldl_insert_lookup in Hn. destruct (last (filter _ (e :: k))) eqn:El; [done|].
    apply last_None in El. rewrite filter_cons_True in El; done.
Qed.

Lemma shift_statuses_total l : Forall (λ s, is_Some (shift_entry s)) l → is_Some (shift_statuses l).
Proof.
  intros Hl. unfold shift_statuses. destruct (mapM_is_Some_2 shift_entry l Hl) as [k ->]. by eexists.
Qed.

Lemma UpdateZonalShifts_known H p answer p' e :
  (∀ zone, zonalShiftStatuses p !! zone = known H zone) → UpdateZonalShifts answer p = Some (p', e) →
  (∀ zone, zonalShiftStatuses p' !! zone = known (told answer H) zone) ∧ hydrated p' = hydrated p.
Proof.
  intros Hp Hu. destruct answer as [l|err]; simpl in *; [|by injection Hu as <- _].
  destruct (shift_statuses l) as [m|] eqn:Em; [|done]. injection Hu as <- _. split; [|done].
  destruct (shift_statuses_stated _ _ Em) as [Hst Hnil]. intros zone. simpl. destruct (decide (m = ∅)) as [He|He].
  - apply Hnil in He as ->. done.
  - destruct l as [|s l]; [naive_solver|]. simpl. rewrite <- Hst, lookup_union. destruct (m !! zone); simpl.
    + by destruct (zonalShiftStatuses p !! zone).
    + rewrite <- Hp. by destruct (zonalShiftStatuses p !! zone).
Qed.

Lemma ensureHydrated_known H p answer p' :
  (∀ zone, zonalShiftStatuses p !! zone = known H zone) → ensureHydrated answer p = Some p' →
  ∀ zone, zonalShiftStatuses p' !! zone = known (if hydrated p then H else told answer H) zone.
Proof.
  unfold ensureHydrated. destruct (hydrated p) eqn:Eh; [by intros Hp [= <-]|]. intros Hp He.
  destruct (UpdateZonalShifts answer p) as [[p1 e]|] eqn:Eu; [|done]. simpl in He.
  destruct (UpdateZonalShifts_known _ _ _ _ _ Hp Eu) as [Hk _]. destruct e; injection He as <-; done.
Qed.

Lemma reach_known H p : provider_reach H p → ∀ zone, zonalShiftStatuses p !! zone = known H zone.
Proof.
  induction 1 as [|H p answer p' e _ IH Hu|H p answer now zone p' b _ IH Ha|H p _ IH]; [done| | |done].
  - by destruct (UpdateZonalShifts_known _ _ _ _ _ IH Hu).
  - unfold IsZonalShifted in Ha. destruct (ensureHydrated answer p) as [p1|] eqn:Eh; [|done]. injection Ha as <- _.
    by apply ensureHydrated_known.
Qed.

Lemma ensureHydrated_total answer p : well_formed answer → is_Some (ensureHydrated answer p).
Proof.
  intros Hw. unfold ensureHydrated. destruct (hydrated p); [by eexists|]. destruct answer as [l|e]; simpl; [|by eexists].
  destruct (shift_statuses_total l (Hw _ eq_refl)) as [m ->]. by eexists.
Qed.

Lemma in_effect_spec now status : in_effect now status = true ↔ now < shiftExpiry status ∧ applied status = true.
Proof. unfold in_effect. by rewrite andb_true_iff, bool_decide_eq_true. Qed.

Lemma elem_of_ShiftedZones now p zone :
  zone ∈ ShiftedZones now p ↔ ∃ status, zonalShiftStatuses p !! zone = Some status ∧ in_effect now status = true.
Proof. unfold ShiftedZones. rewrite elem_of_dom. unfold is_Some. setoid_rewrite map_lookup_filter_Some. done. Qed.

(** C37: Whatever the provider has been through, asking whether a zone is shifted away from
    gives an answer, and the answer follows from the listings of the API: the zone is shifted
    exactly when the latest listing that names it, of those since the last empty one, has
    an applied shift for it that has not expired.  The listings include the one that
    the first question asks for; an error of the API changes nothing.  [ShiftedZones]
    agrees. *)
Theorem IsZonalShifted_known H p answer now zone :
  provider_reach H p → well_formed answer →
  let H' := if hydrated p then H else told answer H in
  ∃ p' b, IsZonalShifted answer now zone p = Some (p', b) ∧ provider_reach H' p' ∧
    (b = true ↔ ∃ status, known H' zone = Some status ∧ now < shiftExpiry status ∧ applied status = true) ∧
    (b = true ↔ zone ∈ ShiftedZones now p').
Proof.
  intros Hr Hw H'. destruct (ensureHydrated_total answer p Hw) as [p' Hp'].
  assert (IsZonalShifted answer now zone p = Some (p',
    match zonalShiftStatuses p' !! zone with Some shift => in_effect now shift | None => false end)) as Ha
    by by (unfold IsZonalShifted; rewrite Hp').
  eexists _, _. split; [exact Ha|]. split; [by eapply provider_asked|]. rewrite elem_of_ShiftedZones.
  unfold H'. rewrite <- (ensureHydrated_known _ _ _ _ (reach_known _ _ Hr) Hp' zone). setoid_rewrite <- in_effect_spec.
  destruct (zonalShiftStatuses p' !! zone) as [status|]; naive_solver.
Qed.

(** ** What the NodePools are told *)

Section events.
Context `{SC : Scheduling}.
Variables pool zone id : string.

(** The events about the NodePool and the zone. *)
Definition about (e : shift_event) : bool :=
  match e with NodePoolZonalShiftDetected n _ i | NodePoolZonalShiftCleared n _ i => bool_decide (n = pool ∧ i = id) end.
Definition notices (es : list shift_event) : list shift_event := filter (λ e, about e = true) es.
(** Detected, cleared, detected and so on: [n] events. *)
Fixpoint turns (n : nat) : list shift_event :=
  match n with
  | O => []
  | S n => turns n ++ [if Nat.even n then NodePoolZonalShiftDetected pool zone id else NodePoolZonalShiftCleared pool zone id]
  end.

(** Whenever the round can read the NodePools, one of them has the name and can launch into
    the zone. *)
Definition concerns (r : Round) : Prop :=
  ∀ pools, zoneInfosByNodePool (rd_pools r) (rd_class r) = Ok pools →
    omap (λ pz, if decide (np_Name (shp_Pool pz.1) = pool) then zoneAffected (shp_Requirements pz.1) pz.2 id else None)
      pools = [zone].
(** Rounds of the controller; in between others use the provider. *)
Inductive controller_reach : ShiftController → Prop :=
  | controller_new : controller_reach NewController
  | controller_round r c c' res :
      controller_reach c → concerns r → Reconcile_shift r c = Some (c', res) → controller_reach c'
  | controller_between c p :
      controller_reach c →
      controller_reach {| shc_provider := p; previousShiftedZones := previousShiftedZones c; shc_events := shc_events c |}.

Lemma omap_option_list {A B} (f : A → option B) x (l : list A) : omap f (x :: l) = option_list (f x) ++ omap f l.
Proof. simpl. by destruct (f x). Qed.

Lemma omap_single `{EqDecision A} {B} (f : A → option B) (l : list A) x :
  NoDup l → (∀ y, y ≠ x → f y = None) → omap f l = if decide (x ∈ l) then option_list (f x) else [].
Proof.
  intros Hl Hf. induction Hl as [|y l Hy Hl IH]; [done|]. rewrite omap_option_list.
  destruct (decide (y = x)) as [->|Hne].
  - rewrite decide_True by by left. by rewrite IH, decide_False, app_nil_r.
  - rewrite (Hf y Hne), IH. simpl. apply decide_ext. rewrite elem_of_cons. naive_solver.
Qed.

Lemma filter_omap_bool {A B} (f : A → option B) (P : B → bool) (l : list A) :
  filter (λ y, P y = true) (omap f l) = omap (λ x, y ← f x; if P y then Some y else None) l.
Proof.
  induction l as [|x l IH]; [done|]. rewrite !omap_option_list, filter_app, IH. f_equal. destruct (f x) as [y|]; simpl; [|done].
  destruct (P y) eqn:Ep; [by rewrite filter_cons_True|by rewrite filter_cons_False by congruence].
Qed.

Lemma filter_mjoin_bool {A} (P : A → bool) (ll : list (list A)) :
  filter (λ y, P y = true) (mjoin ll) = mjoin ((λ l, filter (λ y, P y = true) l) <$> ll).
Proof. induction ll as [|l ll IH]; [done|]. simpl. rewrite filter_app. by f_equal. Qed.

Definition affected (pz : ShiftPool * list ZoneInfo_) : option string :=
  if decide (np_Name (shp_Pool pz.1) = pool) then zoneAffected (shp_Requirements pz.1) pz.2 id else None.

Lemma zone_events_notices mk X pz :
  (∀ n z i, about (mk n z i) = bool_decide (n = pool ∧ i = id)) →
  notices (zone_events mk X pz.1 pz.2) = if decide (id ∈ X) then option_list ((λ z, mk pool z id) <$> affected pz) else [].
Proof.
  intros Hmk. unfold notices, zone_events. rewrite filter_omap_bool, (omap_single _ _ id).
  - rewrite (decide_ext (id ∈ elements X) (id ∈ X)) by apply elem_of_elements.
    destruct (decide (id ∈ X)); [|done]. unfold affected. destruct (zoneAffected _ _ id) as [z|]; simpl.
    + rewrite Hmk. destruct (decide (np_Name _ = pool)) as [Hn|Hn].
      * rewrite bool_decide_eq_true_2 by done. by rewrite Hn.
      * rewrite bool_decide_eq_false_2 by naive_solver. done.
    + by destruct (decide _).
  - apply NoDup_elements.
  - intros y Hy. destruct (zoneAffected _ _ y); simpl; [|done]. rewrite Hmk, bool_decide_eq_false_2; naive_solver.
Qed.

Lemma mjoin_option_list {A B} (g : A → option B) (l : list A) : mjoin ((λ x, option_list (g x)) <$> l) = omap g l.
Proof. induction l as [|x l IH]; [done|]. rewrite omap_option_list, <- IH. done. Qed.

Lemma omap_fmap_r {A B D} (f : A → option B) (h : B → D) (l : list A) : omap (λ x, h <$> f x) l = h <$> omap f l.
Proof. induction l as [|x l IH]; [done|]. rewrite !omap_option_list, IH. by destruct (f x). Qed.

(** What a round that publishes tells the NodePool. *)
Lemma publish_notices previous current pools :
  omap affected pools = [zone] →
  notices (PublishZonalShiftEvents previous current pools) =
    if decide (id ∈ current ∖ previous) then [NodePoolZonalShiftDetected pool zone id]
    else if decide (id ∈ previous ∖ current) then [NodePoolZonalShiftCleared pool zone id] else [].
Proof.
  intros Ho. unfold notices, PublishZonalShiftEvents. rewrite filter_mjoin_bool, <- list_fmap_compose.
  set (mk := if decide (id ∈ current ∖ previous) then Some NodePoolZonalShiftDetected
             else if decide (id ∈ previous ∖ current) then Some NodePoolZonalShiftCleared else None).
  transitivity (mjoin ((λ pz, option_list (match mk with Some f => (λ z, f pool z id) <$> affected pz | None => None end)) <$> pools)).
  - f_equal. apply list_fmap_ext. intros _ pz _. unfold compose. rewrite filter_app.
    fold (notices (zone_events NodePoolZonalShiftDetected (current ∖ previous) pz.1 pz.2)).
    fold (notices (zone_events NodePoolZonalShiftCleared (previous ∖ current) pz.1 pz.2)).
    rewrite !zone_events_notices by done. unfold mk.
    destruct (decide (id ∈ current ∖ previous)); destruct (decide (id ∈ previous ∖ current)); try set_solver;
      destruct (affected pz); done.
  - rewrite mjoin_option_list. unfold mk. clear mk. destruct (decide _) as [_|_]; [|destruct (decide _) as [_|_]].
    1,2: by rewrite omap_fmap_r, Ho.
    clear Ho. by induction pools.
Qed.

Lemma Reconcile_shift_notices r c c' res n :
  concerns r → Reconcile_shift r c = Some (c', res) →
  notices (shc_events c) = turns n → (id ∈ previousShiftedZones c ↔ Nat.odd n = true) →
  ∃ n', notices (shc_events c') = turns n' ∧ (id ∈ previousShiftedZones c' ↔ Nat.odd n' = true) ∧
    (∀ wait, res = Ok wait → previousShiftedZones c' = ShiftedZones (rd_now r) (shc_provider c')) ∧
    (∀ e, res = Err e → n' = n).
Proof.
  intros Hc Hr Hn Ho. unfold Reconcile_shift in Hr. destruct (UpdateZonalShifts _ _) as [[p e]|]; [|done]. simpl in Hr.
  destruct e as [e|]; [injection Hr as <- <-; exists n; by split_and!|].
  remember (ShiftedZones (rd_now r) p) as current eqn:Hcur.
  destruct (decide (current = previousShiftedZones c)) as [He|_].
  { injection Hr as <- <-. exists n. simpl. rewrite app_nil_r. split_and!; [done|by rewrite He|done|done]. }
  destruct (zoneInfosByNodePool _ _) as [pools|e] eqn:Ez; [|injection Hr as <- <-; exists n; by split_and!].
  injection Hr as <- <-. simpl. unfold notices. rewrite filter_app. fold (notices (shc_events c)). rewrite Hn.
  match goal with |- context [filter _ ?x] => fold (notices x) end.
  rewrite publish_notices by by apply Hc. set (previous := previousShiftedZones c) in *. clearbody previous.
  pose proof (Nat.negb_odd n) as Hneg. pose proof (Nat.odd_succ n) as Hodd.
  destruct (decide (id ∈ current ∖ previous)) as [[Hin Hout]%elem_of_difference|Hs];
    [|destruct (decide (id ∈ previous ∖ current)) as [[Hin Hout]%elem_of_difference|Hs']].
  - exists (Datatypes.S n). rewrite Hodd. simpl. destruct (Nat.odd n) eqn:Eo; [by destruct Hout; apply Ho|].
    rewrite <- Hneg. by split_and!.
  - exists (Datatypes.S n). rewrite Hodd. simpl. destruct (Nat.odd n) eqn:Eo; [|by apply Ho in Hin].
    rewrite <- Hneg. by split_and!.
  - exists n. rewrite app_nil_r. split_and!; try done. rewrite <- Ho. rewrite elem_of_difference in Hs, Hs'.
    destruct (decide (id ∈ current)), (decide (id ∈ previous)); tauto.
Qed.

Lemma controller_turns c :
  controller_reach c → ∃ n, notices (shc_events c) = turns n ∧ (id ∈ previousShiftedZones c ↔ Nat.odd n = true).
Proof.
  induction 1 as [|r c c' res _ (n & Hn & Ho) Hc Hr|c p _ IH]; [exists O; by split|..|done].
  destruct (Reconcile_shift_notices _ _ _ _ _ Hc Hr Hn Ho) as (n' & ? & ? & _). eauto.
Qed.

(** C38: A NodePool that can launch into a zone is told of shifts of the zone in turns,
    detected and cleared, starting with detected, whatever rounds fail: no event is
    lost, and none is repeated.  After a round that succeeds the last one tells whether the
    zone is shifted away from at that instant; a round that fails tells nothing. *)
Theorem events_follow_shifts r c c' res :
  controller_reach c → concerns r → Reconcile_shift r c = Some (c', res) →
  ∃ n n', notices (shc_events c) = turns n ∧ notices (shc_events c') = turns n' ∧
    match res with
    | Ok _ => Nat.odd n' = true ↔ id ∈ ShiftedZones (rd_now r) (shc_provider c')
    | Err _ => n' = n
    end.
Proof.
  intros Hreach Hc Hr. destruct (controller_turns c Hreach) as (n & Hn & Ho).
  destruct (Reconcile_shift_notices _ _ _ _ _ Hc Hr Hn Ho) as (n' & Hn' & Ho' & Hok & Herr).
  exists n, n'. split; [done|]. split; [done|]. destruct res as [wait|e]; [|by eapply Herr].
  by rewrite <- Ho', (Hok _ eq_refl).
Qed.
End events.

(** ** Executions *)

Definition w_shift (zone : string) (expiry : Z) : ZonalShift :=
  {| AwayFrom := Some zone; ExpiryTime := Some expiry; AppliedStatus := AppliedStatusApplied |}.
Definition w_shift_answer (zones : list string) : result error (list ZonalShift) := Ok ((λ z, w_shift z 100) <$> zones).

Lemma IsZonalShifted_known_witness :
  ∃ p' b, IsZonalShifted (w_shift_answer ["use1-az1"]) 50 "use1-az1" NewProvider = Some (p', b) ∧ b = true.
Proof.
  destruct (IsZonalShifted_known [] NewProvider (w_shift_answer ["use1-az1"]) 50 "use1-az1") as (p' & b & Ha & _ & Hb & _).
  - apply provider_new.
  - intros l [= <-]. repeat constructor; by eexists.
  - exists p', b. split; [exact Ha|]. apply Hb. exists {| shiftExpiry := 100; applied := true |}.
    split; [vm_compute; reflexivity|]. split; [simpl; lia|reflexivity].
Defined.

(** A listing only adds to what is known: after the shift of the first zone was cancelled and
    another zone is still shifted, the first one counts as shifted until its expiry. *)
Example cancelled_shift_stays :
  (p ← (UpdateZonalShifts (w_shift_answer ["use1-az1"; "use1-az2"]) NewProvider);
   q ← UpdateZonalShifts (w_shift_answer ["use1-az2"]) p.1;
   snd <$> IsZonalShifted (w_shift_answer ["use1-az2"]) 50 "use1-az1" q.1) = Some true.
Proof. by vm_compute. Qed.

Definition w_shift_pool : ShiftPool :=
  {| shp_Pool := {| np_Name := "pool"; np_NodeClassRef := Some "class" |}; shp_Requirements := NewRequirements [] [] |}.
Definition w_shift_round (zones : list string) : Round :=
  {| rd_answer := w_shift_answer zones; rd_now := 50; rd_pools := Ok [w_shift_pool];
     rd_class _ := Ok [{| sn_ID := "subnet"; sn_Zone := "us-east-1a"; sn_ZoneID := "use1-az1" |}] |}.
Definition w_shift_infos : list (ShiftPool * list ZoneInfo_) :=
  [(w_shift_pool, [{| zi_Zone := "us-east-1a"; zi_ZoneID := "use1-az1"; zi_SubnetIDs := ["subnet"] |}])].

Definition w_shift_after : ShiftController :=
  {| shc_provider := {| zonalShiftStatuses := {[ "use1-az1" := {| shiftExpiry := 100; applied := true |} ]}; hydrated := false |};
     previousShiftedZones := {[ "use1-az1" ]};
     shc_events := [NodePoolZonalShiftDetected "pool" "us-east-1a" "use1-az1"] |}.

Lemma w_concerns : concerns "pool" "us-east-1a" "use1-az1" (w_shift_round ["use1-az1"]).
Proof.
  intros pools Hp. assert (zoneInfosByNodePool (Ok [w_shift_pool]) (rd_class (w_shift_round [])) = Ok w_shift_infos) as Hi
    by (vm_compute; reflexivity).
  assert (Ok w_shift_infos = Ok pools) as He by exact (eq_trans (eq_sym Hi) Hp). injection He as <-. vm_compute. reflexivity.
Qed.

Lemma events_follow_shifts_witness :
  ∃ n, notices "pool" "use1-az1" (shc_events w_shift_after) = turns "pool" "us-east-1a" "use1-az1" n ∧
    (Nat.odd n = true ↔ "use1-az1" ∈ ShiftedZones 50 (shc_provider w_shift_after)).
Proof.
  assert (Reconcile_shift (w_shift_round ["use1-az1"]) NewController = Some (w_shift_after, Ok (30 * Second))) as Er
    by (vm_compute; reflexivity).
  destruct (events_follow_shifts "pool" "us-east-1a" "use1-az1" _ _ _ _ (controller_new _ _ _)
    w_concerns Er)
    as (n & n' & _ & Hn & Hodd).
  exists n'. exact (conj Hn Hodd).
Defined.
