(* ===== verification/Bootstrap.v ===== *)
(** * [pkg/providers/amifamily/bootstrap]: the user data of an instance

    Each family of images has a format: a shell script in a MIME archive (AL2), a NodeConfig
    in a MIME archive (AL2023), TOML settings (Bottlerocket), PowerShell (Windows) or what
    the NodeClass says (Custom).  [Script] turns a bootstrapper of [Resolver] into user
    data, encoded as base64; it is the [Script] that the launch templates are built with.

    Texts are bytes.  TOML, YAML, the JSON of taints and the merge of maps are libraries and so
    parameters; of the standard library the readers of mail and MIME are parameters, the
    writers are definitions.  A map of the kubelet configuration that is empty counts as
    absent, and Go's iteration order over a map is that of [map_to_list]. *)
From S2P Require Import Prelude GoStd GoCache AwsErrors ApiV1 Scheduling Kubelet KubeletValidation Resolver.

(** ** fmt, strings, time and encoding/base64 *)

Definition newline : string := String "010" "".
Definition crlf : string := String "013" newline.

(** [%q] on a character below 128; others stay as they are. *)
Definition quote_char (c : ascii) : string :=
  let n := Z.of_nat (Ascii.nat_of_ascii c) in
  let escape s := String backslash s in
  if decide (c = quote ∨ c = backslash) then escape (String c "")
  else if decide (n = 7) then escape "a" else if decide (n = 8) then escape "b"
  else if decide (n = 9) then escape "t" else if decide (n = 10) then escape "n"
  else if decide (n = 11) then escape "v" else if decide (n = 12) then escape "f"
  else if decide (n = 13) then escape "r"
  else if decide (n < 32 ∨ n = 127) then escape ("x" +:+ String (hex_digit (n / 16)) (String (hex_digit (n mod 16)) ""))
  else String c "".
Fixpoint quote_chars (s : string) : string :=
  match s with EmptyString => "" | String c s' => quote_char c +:+ quote_chars s' end.
Definition Quote (s : string) : string := String quote (quote_chars s +:+ String quote "").

(** [lo.Compact] of strings. *)
Definition Compact (l : list string) : list string := filter (λ s, s ≠ "") l.

(** [strings.ReplaceAll(s, CR, empty)] *)
Fixpoint remove_cr (s : string) : string :=
  match s with
  | String c s' => if decide (c = "013"%char) then remove_cr s' else String c (remove_cr s')
  | EmptyString => ""
  end.

(** [Duration.String] *)
Definition trim_zeros (s : string) : string :=
  (fix go s := match s with
               | EmptyString => ""
               | String c s' => match go s' with
                                | EmptyString => if decide (c = "0"%char) then "" else String c ""
                                | t => String c t
                                end
               end) s.
Fixpoint pad_zeros (n : nat) (s : string) : string :=
  match n with O => s | S n => if decide (String.length s < S n)%nat then "0" +:+ pad_zeros n s else s end.
(** [v / 10^digits] with its fraction, trailing zeros dropped. *)
Definition fmt_frac (v : Z) (digits : nat) : string :=
  let unit := 10 ^ Z.of_nat digits in
  match trim_zeros (pad_zeros digits (fmt_int (v mod unit))) with
  | EmptyString => fmt_int (v / unit)
  | fraction => fmt_int (v / unit) +:+ "." +:+ fraction
  end.
(** The two bytes of the letter mu. *)
Definition micro : string := String "194" (String "181" "").
Definition Duration_String (d : Z) : string :=
  let u := Z.abs d in
  let text :=
    if decide (u = 0) then "0s"
    else if decide (u < 1000) then fmt_int u +:+ "ns"
    else if decide (u < 1000000) then fmt_frac u 3 +:+ micro +:+ "s"
    else if decide (u < Second) then fmt_frac u 6 +:+ "ms"
    else
      let h := u / Hour in let m := u / Minute mod 60 in
      (if decide (0 < h) then fmt_int h +:+ "h" else "") +:+
      (if decide (0 < h ∨ 0 < m) then fmt_int m +:+ "m" else "") +:+
      fmt_frac (u mod Minute) 9 +:+ "s" in
  if decide (d < 0) then "-" +:+ text else text.

Definition byte (c : ascii) : Z := Z.of_nat (Ascii.nat_of_ascii c).
Definition base64_char (v : Z) : ascii :=
  Ascii.ascii_of_nat (Z.to_nat
    (if decide (v < 26) then 65 + v else if decide (v < 52) then 71 + v else if decide (v < 62) then v - 4
     else if decide (v = 62) then 43 else 47)).
Fixpoint EncodeToString (s : string) : string :=
  match s with
  | EmptyString => ""
  | String a EmptyString =>
      String (base64_char (byte a / 4)) (String (base64_char (byte a mod 4 * 16)) "==")
  | String a (String b EmptyString) =>
      String (base64_char (byte a / 4)) (String (base64_char (byte a mod 4 * 16 + byte b / 16))
        (String (base64_char (byte b mod 16 * 4)) "="))
  | String a (String b (String c s)) =>
      String (base64_char (byte a / 4)) (String (base64_char (byte a mod 4 * 16 + byte b / 16))
        (String (base64_char (byte b mod 16 * 4 + byte c / 64)) (String (base64_char (byte c mod 64)) (EncodeToString s))))
  end.

Definition base64_value (c : ascii) : option Z :=
  let n := byte c in
  if decide (65 ≤ n ≤ 90) then Some (n - 65) else if decide (97 ≤ n ≤ 122) then Some (n - 71)
  else if decide (48 ≤ n ≤ 57) then Some (n + 4) else if decide (n = 43) then Some 62
  else if decide (n = 47) then Some 63 else None.
Definition chr (n : Z) : ascii := Ascii.ascii_of_nat (Z.to_nat n).
Fixpoint decode_quads (s : string) : option string :=
  match s with
  | EmptyString => Some ""
  | String w (String x (String y (String z s))) =>
      w ← base64_value w; x ← base64_value x;
      if decide (y = "="%char) then
        if decide (z = "="%char ∧ s = "") then Some (String (chr (w * 4 + x / 16)) "") else None
      else
        y ← base64_value y;
        let ab t := String (chr (w * 4 + x / 16)) (String (chr (x mod 16 * 16 + y / 4)) t) in
        if decide (z = "="%char) then (if decide (s = "") then Some (ab "") else None)
        else z ← base64_value z; s ← decode_quads s; Some (ab (String (chr (y mod 4 * 64 + z)) s))
  | _ => None
  end.
(** [base64.StdEncoding.DecodeString], which skips line breaks. *)
Fixpoint remove_breaks (s : string) : string :=
  match s with
  | String c s' => if decide (c = "010"%char ∨ c = "013"%char) then remove_breaks s' else String c (remove_breaks s')
  | EmptyString => ""
  end.
Definition DecodeString (s : string) : option string := decode_quads (remove_breaks s).


(** ** base64 is read back *)

Lemma byte_range c : 0 ≤ byte c < 256.
Proof. unfold byte. pose proof (Ascii.nat_ascii_bounded c). lia. Qed.
Lemma chr_byte c : chr (byte c) = c.
Proof. unfold chr, byte. rewrite Nat2Z.id. apply Ascii.ascii_nat_embedding. Qed.

Lemma base64_chars v : 0 ≤ v < 64 →
  base64_value (base64_char v) = Some v ∧
  base64_char v ≠ "="%char ∧ base64_char v ≠ "010"%char ∧ base64_char v ≠ "013"%char.
Proof.
  intros Hv. apply (bool_decide_unpack _).
  assert (forallb (λ v, bool_decide (base64_value (base64_char v) = Some v ∧
    base64_char v ≠ "="%char ∧ base64_char v ≠ "010"%char ∧ base64_char v ≠ "013"%char)) (seqZ 0 64) = true) as Hall
    by (vm_compute; reflexivity).
  rewrite forallb_forall in Hall. apply Is_true_true, Hall. apply list_elem_of_In, elem_of_seqZ. lia.
Qed.

Lemma string_ind3 (P : string → Prop) :
  P "" → (∀ a, P (String a "")) → (∀ a b, P (String a (String b ""))) →
  (∀ a b c s, P s → P (String a (String b (String c s)))) → ∀ s, P s.
Proof.
  intros H0 H1 H2 H3. fix IH 1. intros [|a [|b [|c s]]]; [exact H0|exact (H1 a)|exact (H2 a b)|exact (H3 a b c s (IH s))].
Qed.

Lemma remove_breaks_base64 v s : 0 ≤ v < 64 →
  remove_breaks (String (base64_char v) s) = String (base64_char v) (remove_breaks s).
Proof. intros (_ & _ & Hn & Hr)%base64_chars. simpl. by rewrite decide_False by naive_solver. Qed.

Ltac Zify.zify_post_hook ::= Z.to_euclidean_division_equations.

Lemma base64_value_char v : 0 ≤ v < 64 → base64_value (base64_char v) = Some v.
Proof. apply base64_chars. Qed.
Lemma decide_pad {A} v (x y : A) : 0 ≤ v < 64 → (if decide (base64_char v = "="%char) then x else y) = y.
Proof. intros (_ & Hn & _)%base64_chars. by rewrite decide_False. Qed.
Lemma chr_eq n c : n = byte c → chr n = c.
Proof. intros ->. apply chr_byte. Qed.

(** Decoding what was encoded gives it back. *)
Theorem DecodeString_EncodeToString s : DecodeString (EncodeToString s) = Some s.
Proof.
  unfold DecodeString. induction s as [|a|a b|a b c s IH] using string_ind3; [done|..]; cbn [EncodeToString];
    pose proof (byte_range a); try pose proof (byte_range b); try pose proof (byte_range c);
    rewrite !remove_breaks_base64 by lia; cbn [decode_quads]; rewrite !base64_value_char by lia; cbn [mbind option_bind];
    rewrite ?decide_pad by lia.
  - simpl. by rewrite (chr_eq _ a) by lia.
  - simpl. rewrite decide_pad by lia. by rewrite (chr_eq _ a), (chr_eq _ b) by lia.
  - rewrite IH. simpl. by rewrite (chr_eq _ a), (chr_eq _ b), (chr_eq _ c) by lia.
Qed.
Ltac Zify.zify_post_hook ::= idtac.

(** ** MIME archives *)

(** A part of an archive: its header and its content. *)
Record Part := { pt_header : gmap string (list string); pt_content : string }.

(** What [multipart.Writer] writes: parts after their boundaries, headers sorted, and the
    end. *)
Definition header_lines (h : gmap string (list string)) : string :=
  foldr (λ k text, foldr (λ v text, k +:+ ": " +:+ v +:+ crlf +:+ text) text (h !!! k)) "" (sorted_keys h).
Definition part_text (boundary : string) (first : bool) (p : Part) : string :=
  (if first then "" else crlf) +:+ "--" +:+ boundary +:+ crlf +:+ header_lines (pt_header p) +:+ crlf +:+ pt_content p.
Fixpoint parts_text (boundary : string) (first : bool) (parts : list Part) : string :=
  match parts with
  | [] => crlf +:+ "--" +:+ boundary +:+ "--" +:+ crlf
  | p :: parts => part_text boundary first p +:+ parts_text boundary false parts
  end.
Definition write_parts (boundary : string) (parts : list Part) : string := parts_text boundary true parts.

Definition Boundary := "//".
Definition MIMEVersionHeader := "MIME-Version: 1.0".
Definition quoted (s : string) : string := String quote (s +:+ String quote "").
(** [fmt.Sprintf(MIMEContentTypeHeaderTemplate, _)] *)
Definition MIMEContentTypeHeader (boundary : string) : string :=
  "Content-Type: multipart/mixed; boundary=" +:+ quoted boundary.
Definition ContentTypeShellScript : string := "text/x-shellscript; charset=" +:+ quoted "us-ascii".
Definition ContentTypeMultipart : string := "multipart/mixed; boundary=" +:+ quoted Boundary.
(** [textproto.MIMEHeader{"Content-Type": _}] *)
Definition content_header (contentType : string) : gmap string (list string) := {[ "Content-Type" := [contentType] ]}.
Definition shell_part (script : string) : Part := {| pt_header := content_header ContentTypeShellScript; pt_content := script |}.
Definition is_mime (userData : string) : bool :=
  HasPrefix (TrimSpace userData) "MIME-Version:" || HasPrefix (TrimSpace userData) "Content-Type:".

Section mime.
(** [mail.ReadMessage] (the content type and the body), [mime.ParseMediaType], and all
    parts that a [multipart.Reader] with a boundary returns of a body. *)
Variable ReadMessage : string → result error (string * string).
Variable ParseMediaType : string → result error (string * gmap string string).
Variable ReadParts : string → string → result error (list Part).

(** [getMultiPartReader] and [Archive.getReader], and the loop over the parts, differ in
    their errors. *)
Definition read_archive (unreadable parsing : error → error) (untyped other : string) (text : string) :
    result error (list Part) :=
  match ReadMessage text with
  | Err e => Err (unreadable e)
  | Ok (contentType, body) =>
      match ParseMediaType contentType with
      | Err e => Err (wrap untyped e)
      | Ok (mediaType, params) =>
          if negb (HasPrefix mediaType "multipart/") then Err (errorf other)
          else match ReadParts (default "" (params !! "boundary")) body with
               | Ok parts => Ok parts
               | Err e => Err (parsing e)
               end
      end
  end.
Definition getMultiPartReader : string → result error (list Part) :=
  read_archive (wrap "unreadable user data") id "user data does not define a content-type header"
    "user data is not in multipart MIME format".

Record Entry := { ContentType : string; Content : string }.
Definition entry_of (p : Part) : Entry :=
  {| ContentType := default "" (head (pt_header p !!! "Content-Type")); Content := pt_content p |}.
Definition NewArchive (content : string) : result error (list Entry) :=
  if decide (content = "") then Ok []
  else match read_archive id (wrap "parsing content") "archive doesn't have Content-Type header" "archive is not in multipart format"
               content with
       | Ok parts => Ok (entry_of <$> parts)
       | Err e => Err e
       end.
Definition part_of (e : Entry) : Part := {| pt_header := content_header (ContentType e); pt_content := Content e |}.
Definition archive_text (ma : list Entry) : string :=
  MIMEVersionHeader +:+ newline +:+ "Content-Type: " +:+ ContentTypeMultipart +:+ newline +:+ newline
  +:+ write_parts Boundary (part_of <$> ma).
Definition Serialize (ma : list Entry) : string := EncodeToString (remove_cr (archive_text ma)).

(** ** Flags of the kubelet *)

(** [Taint.ToString] of the Kubernetes API. *)
Variable Taint_ToString : Taint → string.

Definition nodeTaintArg (o : BootstrapOptions) : string :=
  "--register-with-taints=" +:+ Quote (JoinWith "," (Taint_ToString <$> bo_Taints o)).
Definition nodeLabelArg (o : BootstrapOptions) : string :=
  if decide (bo_Labels o = ∅) then ""
  else "--node-labels=" +:+ Quote (JoinWith "," ((λ k, k +:+ "=" +:+ (bo_Labels o !!! k)) <$> sorted_keys (bo_Labels o))).
Definition joinParameterArgs (name : string) (m : gmap string string) (separator : string) : string :=
  let args := (λ kv, kv.1 +:+ separator +:+ kv.2) <$> map_to_list m in
  match args with [] => "" | _ => name +:+ "=" +:+ Quote (JoinWith "," args) end.
(** The resolver always passes a configuration. *)
Definition int_flag (name : string) (v : option Z) : list string := option_list ((λ n, name +:+ "=" +:+ fmt_int n) <$> v).
Definition kubeletExtraArgs (o : BootstrapOptions) : list string :=
  let k := bo_KubeletConfig o in
  Compact
    ([nodeLabelArg o; nodeTaintArg o]
     ++ int_flag "--max-pods" (MaxPodsValue k) ++ int_flag "--pods-per-core" (PodsPerCore k)
     ++ [joinParameterArgs "--system-reserved" (SystemReserved k) "=";
         joinParameterArgs "--kube-reserved" (KubeReserved k) "=";
         joinParameterArgs "--eviction-hard" (EvictionHard k) "<";
         joinParameterArgs "--eviction-soft" (EvictionSoft k) "<";
         joinParameterArgs "--eviction-soft-grace-period" (Duration_String <$> EvictionSoftGracePeriod k) "="]
     ++ int_flag "--eviction-max-pod-grace-period" (EvictionMaxPodGracePeriod k)
     ++ int_flag "--image-gc-high-threshold" (ImageGCHighThresholdPercent k)
     ++ int_flag "--image-gc-low-threshold" (ImageGCLowThresholdPercent k)
     ++ option_list ((λ b, "--cpu-cfs-quota=" +:+ fmt_bool b) <$> CPUCFSQuota k)).

(** ** AL2 *)

(** [net.ParseIP(_).To4() != nil] *)
Variable ParseIP_To4 : string → bool.
(** The random boundaries of new writers. *)
Variable random_boundary : nat → string.

Definition isIPv6 (o : BootstrapOptions) : bool :=
  match ClusterDNS (bo_KubeletConfig o) with [] => false | ip :: _ => negb (ParseIP_To4 ip) end.
(** A line is continued after a backslash. *)
Definition continued : string := " " +:+ String backslash newline.
Definition eksBootstrapScript (o : BootstrapOptions) : string :=
  "#!/bin/bash -xe" +:+ newline
  +:+ "exec > >(tee /var/log/user-data.log|logger -t user-data -s 2>/dev/console) 2>&1" +:+ newline
  +:+ "/etc/eks/bootstrap.sh '" +:+ bo_ClusterName o +:+ "' --apiserver-endpoint '" +:+ bo_ClusterEndpoint o +:+ "' "
  +:+ match bo_CABundle o with Some ca => "--b64-cluster-ca '" +:+ ca +:+ "'" | None => "" end
  +:+ (if isIPv6 o then continued +:+ "--ip-family ipv6" else "")
  +:+ match ClusterDNS (bo_KubeletConfig o) with
      | dns :: _ => continued +:+ "--dns-cluster-ip '" +:+ dns +:+ "'"
      | [] => ""
      end
  +:+ match MaxPodsValue (bo_KubeletConfig o) with Some _ => continued +:+ "--use-max-pods false" | None => "" end
  +:+ match kubeletExtraArgs o with
      | [] => ""
      | args => continued +:+ "--kubelet-extra-args '" +:+ JoinWith " " args +:+ "'"
      end
  +:+ if decide (default "" (bo_InstanceStorePolicy o) = InstanceStorePolicyRAID0) then continued +:+ "--local-disks raid0" else "".

Definition mime_text (boundary : string) (parts : list Part) : string :=
  MIMEVersionHeader +:+ newline +:+ MIMEContentTypeHeader boundary +:+ newline +:+ newline +:+ write_parts boundary parts.
Definition mimeify (boundary customUserData : string) : string :=
  if is_mime customUserData then customUserData else mime_text boundary [shell_part customUserData].
Definition copyCustomUserDataParts (customUserData : string) : result error (list Part) :=
  if decide (customUserData = "") then Ok []
  else match getMultiPartReader customUserData with
       | Ok parts => Ok parts
       | Err e => Err (wrap "parsing custom user data input" e)
       end.
Fixpoint copy_all (i : nat) (userDatas : list string) : result error (list Part) :=
  match userDatas with
  | [] => Ok []
  | userData :: userDatas =>
      match copyCustomUserDataParts (mimeify (random_boundary i) userData) with
      | Err e => Err e
      | Ok parts =>
          match copy_all (S i) userDatas with
          | Ok parts' => Ok (parts ++ parts')
          | Err e => Err e
          end
      end
  end.
Definition mergeCustomUserData (userDatas : list string) : result error string :=
  match copy_all 0 userDatas with
  | Ok parts => Ok (mime_text Boundary parts)
  | Err e => Err e
  end.
Definition Script_EKS (o : BootstrapOptions) : result error string :=
  match mergeCustomUserData (Compact [default "" (bo_CustomUserData o); eksBootstrapScript o]) with
  | Ok userData => Ok (EncodeToString (remove_cr userData))
  | Err e => Err e
  end.

(** ** AL2023 *)

(** [base64.StdEncoding.DecodeString] of a certificate; what [yaml.Marshal] makes of a
    NodeConfig; whether [yaml.Unmarshal] takes a text for a map; the JSON of taints; the
    group of the NodeConfig API. *)
Record NodeConfig := {
  cluster_Name : string;
  cluster_APIServerEndpoint : string;
  cluster_CertificateAuthority : string;
  cluster_CIDR : string;
  localStorage_RAID0 : bool;
  kubelet_Config : gmap string string;
  kubelet_Flags : list string;
}.
Variable yaml_Marshal : NodeConfig → result error string.
Variable yaml_map : string → bool.
Variable json_taints : list Taint → string.
Variable GroupName : string.

Definition ContentTypeNodeConfig : string := "application/" +:+ GroupName.
Definition generateInlineKubeletConfiguration (o : BootstrapOptions) : gmap string string :=
  <["registerWithTaints" := json_taints (bo_Taints o)]> (bo_UnparsedKubeletConfig o).
Definition getNodeConfigYAML (o : BootstrapOptions) : result error string :=
  let cabundle := default "" (bo_CABundle o) in
  match (if decide (cabundle = "") then Some "" else DecodeString cabundle) with
  | None => Err (errorf "decoding CABundle, illegal base64 data")
  | Some ca =>
      let cidr := default "" (bo_ClusterCIDR o) in
      if decide (cidr = "") then Err (errorf "resolving cluster CIDR")
      else
        match yaml_Marshal
          {| cluster_Name := bo_ClusterName o; cluster_APIServerEndpoint := bo_ClusterEndpoint o;
             cluster_CertificateAuthority := ca; cluster_CIDR := cidr;
             localStorage_RAID0 := bool_decide (default "" (bo_InstanceStorePolicy o) = InstanceStorePolicyRAID0);
             kubelet_Config := generateInlineKubeletConfiguration o;
             kubelet_Flags := Compact [nodeLabelArg o] |} with
        | Ok configYAML => Ok ("# Karpenter Generated NodeConfig" +:+ newline +:+ configYAML)
        | Err e => Err e
        end
  end.
Definition parseUserData (o : BootstrapOptions) : result error (list Entry) :=
  let userData := default "" (bo_CustomUserData o) in
  if decide (userData = "") then Ok []
  else if is_mime userData then NewArchive userData
  else Ok [{| ContentType := if yaml_map userData then ContentTypeNodeConfig else ContentTypeShellScript; Content := userData |}].
Definition Script_Nodeadm (o : BootstrapOptions) : result error string :=
  match getNodeConfigYAML o with
  | Err e => Err (wrap "generating NodeConfig" e)
  | Ok nodeConfigYAML =>
      match parseUserData o with
      | Err e => Err (wrap "parsing custom UserData" e)
      | Ok customEntries =>
          Ok (Serialize (customEntries ++ [{| ContentType := ContentTypeNodeConfig; Content := nodeConfigYAML |}]))
      end
  end.

(** ** Bottlerocket *)

Record BootstrapCommand := { Commands : list (list string); Mode : string; Essential : bool }.
Definition BootstrapCommandModeAlways := "always".
(** [BottlerocketKubernetes]: the settings that Karpenter sets, and the others. *)
Context {Others : Type}.
Record BottlerocketKubernetes := {
  APIServer : option string;
  ClusterCertificate : option string;
  bk_ClusterName : option string;
  ClusterDNSIP : option string;
  NodeLabels : gmap string string;
  NodeTaints : gmap string (list string);
  bk_MaxPods : option Z;
  bk_EvictionHard : gmap string string;
  bk_EvictionSoft : gmap string string;
  bk_EvictionSoftGracePeriod : gmap string string;
  bk_EvictionMaxPodGracePeriod : option Z;
  bk_KubeReserved : gmap string string;
  bk_SystemReserved : gmap string string;
  bk_ImageGCHighThresholdPercent : option string;
  bk_ImageGCLowThresholdPercent : option string;
  bk_CPUCFSQuota : option bool;
  bk_Others : Others;
}.
(** [BottlerocketSettings]; the commands may be nil. *)
Record BottlerocketSettings := {
  bs_Kubernetes : BottlerocketKubernetes;
  BootstrapCommands : option (gmap string BootstrapCommand);
}.
(** The settings as TOML has them ([Raw] is what [any] holds), and typed ones put back. *)
Context {Raw : Type}.
Inductive toml_setting :=
  | RawSetting (v : Raw)
  | KubernetesSettings (k : BottlerocketKubernetes)
  | CommandSettings (c : gmap string BootstrapCommand).
Record BottlerocketConfig := { SettingsRaw : gmap string Raw; Settings : BottlerocketSettings }.
(** The zero value of the other settings; [toml.Unmarshal] of the two views, whether
    [toml.Marshal] fails on raw settings, and [toml.Marshal] of a configuration;
    [mergo.MergeWithOverwrite]. *)
Variable zero_others : Others.
Variable toml_Unmarshal_raw : string → result error (gmap string Raw).
Variable toml_Unmarshal_settings : string → result error BottlerocketSettings.
Variable toml_Marshal_raw : Raw → option error.
Variable toml_Marshal : gmap string toml_setting → result error string.
Variable MergeWithOverwrite : gmap string string → gmap string string → result error (gmap string string).

Definition zero_kubernetes : BottlerocketKubernetes :=
  {| APIServer := None; ClusterCertificate := None; bk_ClusterName := None; ClusterDNSIP := None; NodeLabels := ∅;
     NodeTaints := ∅; bk_MaxPods := None; bk_EvictionHard := ∅; bk_EvictionSoft := ∅; bk_EvictionSoftGracePeriod := ∅;
     bk_EvictionMaxPodGracePeriod := None; bk_KubeReserved := ∅; bk_SystemReserved := ∅;
     bk_ImageGCHighThresholdPercent := None; bk_ImageGCLowThresholdPercent := None; bk_CPUCFSQuota := None;
     bk_Others := zero_others |}.
(** Unknown settings are logged. *)
Definition UnmarshalTOML (data : string) : result error BottlerocketConfig :=
  match toml_Unmarshal_raw data with
  | Err e => Err e
  | Ok raw =>
      match raw !! "kubernetes" ≫= toml_Marshal_raw with
      | Some e => Err e
      | None =>
          match toml_Unmarshal_settings data with
          | Err e => Err e
          | Ok s => Ok {| SettingsRaw := raw; Settings := s |}
          end
      end
  end.
Definition NewBottlerocketConfig (userdata : option string) : result error BottlerocketConfig :=
  match userdata with
  | None => Ok {| SettingsRaw := ∅; Settings := {| bs_Kubernetes := zero_kubernetes; BootstrapCommands := None |} |}
  | Some data => UnmarshalTOML data
  end.

Definition override {A} (v user : option A) : option A := match v with Some _ => v | None => user end.
Definition override_map {A} (v user : gmap string A) : gmap string A := if decide (v = ∅) then user else v.
Definition add_taint (m : gmap string (list string)) (t : Taint) : gmap string (list string) :=
  <[t_Key t := m !!! t_Key t ++ [t_Value t +:+ ":" +:+ t_Effect t]]> m.
Definition karpenter_settings (o : BootstrapOptions) (labels : gmap string string) (s : BottlerocketKubernetes) :
    BottlerocketKubernetes :=
  let k := bo_KubeletConfig o in
  {| APIServer := Some (bo_ClusterEndpoint o); ClusterCertificate := bo_CABundle o;
     bk_ClusterName := Some (bo_ClusterName o);
     ClusterDNSIP := override (head (ClusterDNS k)) (ClusterDNSIP s);
     NodeLabels := labels;
     NodeTaints := foldl add_taint ∅ (bo_Taints o);
     bk_MaxPods := override (MaxPodsValue k) (bk_MaxPods s);
     bk_EvictionHard := override_map (EvictionHard k) (bk_EvictionHard s);
     bk_EvictionSoft := override_map (EvictionSoft k) (bk_EvictionSoft s);
     bk_EvictionSoftGracePeriod := override_map (Duration_String <$> EvictionSoftGracePeriod k) (bk_EvictionSoftGracePeriod s);
     bk_EvictionMaxPodGracePeriod := override (EvictionMaxPodGracePeriod k) (bk_EvictionMaxPodGracePeriod s);
     bk_KubeReserved := override_map (KubeReserved k) (bk_KubeReserved s);
     bk_SystemReserved := override_map (SystemReserved k) (bk_SystemReserved s);
     bk_ImageGCHighThresholdPercent := override (fmt_int <$> ImageGCHighThresholdPercent k) (bk_ImageGCHighThresholdPercent s);
     bk_ImageGCLowThresholdPercent := override (fmt_int <$> ImageGCLowThresholdPercent k) (bk_ImageGCLowThresholdPercent s);
     bk_CPUCFSQuota := override (CPUCFSQuota k) (bk_CPUCFSQuota s);
     bk_Others := bk_Others s |}.
Definition mount_instance_storage (EnableDefaultMountPaths : bool) : BootstrapCommand :=
  {| Commands := [["apiclient"; "ephemeral-storage"; "init"];
                  if EnableDefaultMountPaths then ["apiclient"; "ephemeral-storage"; "bind"]
                  else ["apiclient"; "ephemeral-storage"; "bind"; "--dirs"; "/var/lib/containerd"; "/var/lib/kubelet";
                        "/var/log/pods"]];
     Essential := true; Mode := BootstrapCommandModeAlways |}.
Definition karpenter_commands (o : BootstrapOptions) (EnableDefaultMountPaths : bool)
    (commands : option (gmap string BootstrapCommand)) : option (gmap string BootstrapCommand) :=
  if decide (default "" (bo_InstanceStorePolicy o) = InstanceStorePolicyRAID0) then
    Some (<["000-mount-instance-storage" := mount_instance_storage EnableDefaultMountPaths]> (default ∅ commands))
  else commands.
Definition MarshalTOML (c : BottlerocketConfig) : result error string :=
  let raw := <["kubernetes" := KubernetesSettings (bs_Kubernetes (Settings c))]> (RawSetting <$> SettingsRaw c) in
  toml_Marshal match BootstrapCommands (Settings c) with
               | Some commands => <["bootstrap-commands" := CommandSettings commands]> raw
               | None => raw
               end.
Definition Script_Bottlerocket (o : BootstrapOptions) (EnableDefaultMountPaths : bool) : result error string :=
  match NewBottlerocketConfig (bo_CustomUserData o) with
  | Err e => Err (wrap "invalid UserData" e)
  | Ok s =>
      match MergeWithOverwrite (NodeLabels (bs_Kubernetes (Settings s))) (bo_Labels o) with
      | Err e => Err e
      | Ok labels =>
          match MarshalTOML
            {| SettingsRaw := SettingsRaw s;
               Settings :=
                 {| bs_Kubernetes := karpenter_settings o labels (bs_Kubernetes (Settings s));
                    BootstrapCommands := karpenter_commands o EnableDefaultMountPaths (BootstrapCommands (Settings s)) |} |} with
          | Err e => Err (wrap "constructing toml UserData" e)
          | Ok script => Ok (EncodeToString script)
          end
      end
  end.

(** ** Windows and Custom *)

Definition windows_text (o : BootstrapOptions) : string :=
  "<powershell>" +:+ newline
  +:+ (if decide (default "" (bo_CustomUserData o) = "") then "" else default "" (bo_CustomUserData o) +:+ newline)
  +:+ "[string]$EKSBootstrapScriptFile = " +:+ quoted ("$env:ProgramFiles" +:+ String backslash "Amazon" +:+ String backslash "EKS"
       +:+ String backslash "Start-EKSBootstrap.ps1") +:+ newline
  +:+ "& $EKSBootstrapScriptFile -EKSClusterName '" +:+ bo_ClusterName o +:+ "' -APIServerEndpoint '" +:+ bo_ClusterEndpoint o +:+ "'"
  +:+ match bo_CABundle o with Some ca => " -Base64ClusterCA '" +:+ ca +:+ "'" | None => "" end
  +:+ match kubeletExtraArgs o with [] => "" | args => " -KubeletExtraArgs '" +:+ JoinWith " " args +:+ "'" end
  +:+ match ClusterDNS (bo_KubeletConfig o) with dns :: _ => " -DNSClusterIP '" +:+ dns +:+ "'" | [] => "" end
  +:+ newline +:+ "</powershell>".
Definition Script_Windows (o : BootstrapOptions) : result error string := Ok (EncodeToString (windows_text o)).

Definition Script_Custom (CustomUserData : option string) : result error string :=
  Ok (EncodeToString (default "" CustomUserData)).

(** [Bootstrapper.Script] *)
Definition Script (b : Bootstrapper) : result error string :=
  match b with
  | EKS o => Script_EKS o
  | Nodeadm o => Script_Nodeadm o
  | Bottlerocket o EnableDefaultMountPaths => Script_Bottlerocket o EnableDefaultMountPaths
  | Windows o => Script_Windows o
  | Custom CustomUserData => Script_Custom CustomUserData
  end.

(** ** What reaches the node *)

(** The standard library reads an archive back that it wrote with the one part [p]. *)
Definition reads_back (boundary : string) (p : Part) : Prop := getMultiPartReader (mime_text boundary [p]) = Ok [p].

Lemma remove_cr_app s t : remove_cr (s +:+ t) = remove_cr s +:+ remove_cr t.
Proof.
  induction s as [|c s IH]; [done|]. rewrite string_app_cons. simpl. rewrite IH.
  destruct (decide (c = "013"%char)); [done|]. by rewrite string_app_cons.
Qed.
Lemma Contains_self s : Contains s s = true.
Proof. apply Contains_spec. exists "", "". by rewrite string_app_nil_r. Qed.
Lemma Contains_app_l s t u : Contains s u = true → Contains (s +:+ t) u = true.
Proof.
  rewrite !Contains_spec. intros (a & b & ->). exists a, (b +:+ t). by rewrite <- !string_app_assoc.
Qed.
Lemma Contains_app_r s t u : Contains t u = true → Contains (s +:+ t) u = true.
Proof.
  rewrite !Contains_spec. intros (a & b & ->). exists (s +:+ a), b. by rewrite !string_app_assoc.
Qed.
Lemma Contains_remove_cr s u : Contains s u = true → Contains (remove_cr s) (remove_cr u) = true.
Proof.
  rewrite !Contains_spec. intros (a & b & ->). exists (remove_cr a), (remove_cr b). by rewrite !remove_cr_app.
Qed.
Lemma Contains_join sep l u : u ∈ l → Contains (JoinWith sep l) u = true.
Proof.
  induction l as [|s l IH]; [by intros ?%elem_of_nil|]. intros [->|Hu]%elem_of_cons.
  - destruct l; [apply Contains_self|apply Contains_app_l, Contains_self].
  - destruct l; [by apply elem_of_nil in Hu|]. by apply Contains_app_r, Contains_app_r, IH.
Qed.

Lemma parts_text_content boundary first parts p :
  p ∈ parts → Contains (parts_text boundary first parts) (pt_content p) = true.
Proof.
  revert first. induction parts as [|q parts IH]; intros first; [by intros ?%elem_of_nil|].
  intros [->|Hp]%elem_of_cons; [apply Contains_app_l|by apply Contains_app_r, IH].
  unfold part_text. do 6 apply Contains_app_r. apply Contains_self.
Qed.
Lemma mime_text_content boundary parts p : p ∈ parts → Contains (mime_text boundary parts) (pt_content p) = true.
Proof. intros Hp. unfold mime_text. do 5 apply Contains_app_r. by apply parts_text_content. Qed.

Lemma nodeTaintArg_passed o : nodeTaintArg o ∈ kubeletExtraArgs o.
Proof. unfold kubeletExtraArgs, Compact. apply list_elem_of_filter. split; [done|]. apply elem_of_app. left. by right; left. Qed.
Lemma flags_contain_taints o : Contains (JoinWith " " (kubeletExtraArgs o)) (nodeTaintArg o) = true.
Proof. apply Contains_join, nodeTaintArg_passed. Qed.
Lemma kubeletExtraArgs_cons o : ∃ a args, kubeletExtraArgs o = a :: args.
Proof. pose proof (nodeTaintArg_passed o) as Ha. destruct (kubeletExtraArgs o); [by apply elem_of_nil in Ha|]. eauto. Qed.

Lemma eksBootstrapScript_taints o : Contains (eksBootstrapScript o) (nodeTaintArg o) = true.
Proof.
  pose proof (flags_contain_taints o) as Hc. destruct (kubeletExtraArgs_cons o) as (a & args & Ha).
  unfold eksBootstrapScript. rewrite Ha in *. do 13 apply Contains_app_r. apply Contains_app_l. do 2 apply Contains_app_r.
  by apply Contains_app_l.
Qed.
Lemma windows_text_taints o : Contains (windows_text o) (nodeTaintArg o) = true.
Proof.
  pose proof (flags_contain_taints o) as Hc. destruct (kubeletExtraArgs_cons o) as (a & args & Ha).
  unfold windows_text. rewrite Ha in *. do 12 apply Contains_app_r. apply Contains_app_l. apply Contains_app_r.
  by apply Contains_app_l.
Qed.

Lemma not_mime c s : is_space c = false → c ≠ "M"%char → c ≠ "C"%char → is_mime (String c s) = false.
Proof.
  intros Hs HM HC. assert (∃ t, TrimSpace (String c s) = String c t) as [t Ht].
  { unfold TrimSpace. simpl. rewrite Hs. simpl. rewrite Hs. destruct (trim_end s); eauto. }
  unfold is_mime. rewrite Ht. apply orb_false_iff.
  split; apply not_true_iff_false; intros [u [= -> _]]%HasPrefix_spec; done.
Qed.

(** The parts of the user come first, the script is the last part; user data that is not
    MIME is a script of its own. *)
Definition user_parts (o : BootstrapOptions) : result error (list Part) :=
  let custom := default "" (bo_CustomUserData o) in
  if decide (custom = "") then Ok [] else copyCustomUserDataParts (mimeify (random_boundary 0) custom).
Lemma merge_script o :
  (∀ i, reads_back (random_boundary i) (shell_part (eksBootstrapScript o))) →
  mergeCustomUserData (Compact [default "" (bo_CustomUserData o); eksBootstrapScript o]) =
  match user_parts o with
  | Ok parts => Ok (mime_text Boundary (parts ++ [shell_part (eksBootstrapScript o)]))
  | Err e => Err e
  end.
Proof.
  intros Hr. assert (∀ i, copyCustomUserDataParts (mimeify (random_boundary i) (eksBootstrapScript o)) =
    Ok [shell_part (eksBootstrapScript o)]) as Hscript.
  { intros i. unfold copyCustomUserDataParts, mimeify.
    assert (is_mime (eksBootstrapScript o) = false) as -> by by apply not_mime.
    rewrite decide_False by done. by rewrite Hr. }
  assert (Compact [eksBootstrapScript o] = [eksBootstrapScript o]) as Hone by done.
  unfold user_parts, mergeCustomUserData. set (script := eksBootstrapScript o) in *. clearbody script.
  unfold Compact in *. destruct (decide (default "" (bo_CustomUserData o) = "")) as [He|He].
  - rewrite filter_cons_False, Hone by naive_solver. simpl. by rewrite Hscript.
  - rewrite filter_cons_True, Hone by done. cbn [copy_all]. rewrite Hscript.
    by destruct (copyCustomUserDataParts (mimeify (random_boundary 0) _)).
Qed.

Lemma foldl_add_taint taints m key :
  foldl add_taint m taints !!! key =
  m !!! key ++ ((λ t, t_Value t +:+ ":" +:+ t_Effect t) <$> filter (λ t, t_Key t = key) taints).
Proof.
  revert m. induction taints as [|t taints IH]; intros m; simpl; [by rewrite app_nil_r|]. rewrite IH. unfold add_taint.
  destruct (decide (t_Key t = key)) as [<-|Hne].
  - rewrite lookup_total_insert_eq, filter_cons_True by done. by rewrite <- app_assoc.
  - rewrite lookup_total_insert_ne, filter_cons_False by done. done.
Qed.

Lemma encoded s text : Ok (E := error) (EncodeToString s) = Ok text → DecodeString text = Some s.
Proof. intros Ht. assert (text = EncodeToString s) as -> by congruence. apply DecodeString_EncodeToString. Qed.

End mime.

(** ** Executions *)

Example base64_text : EncodeToString "Karpenter!" = "S2FycGVudGVyIQ==".
Proof. by vm_compute. Qed.
Example duration_text : Duration_String 90500000000 = "1m30.5s" ∧ Duration_String (-2 * Hour) = "-2h0m0s" ∧ Duration_String 1500000 = "1.5ms".
Proof. by vm_compute. Qed.

(** A part of the user's archive whose content is base64 loses the header that says so on
    its way through an [Archive]; AL2 copies the header. *)
Example transfer_encoding_is_lost :
  let p := {| pt_header := <["Content-Transfer-Encoding" := ["base64"]]> (content_header "text/x-shellscript");
              pt_content := "IyEvYmluL3No" |} in
  pt_header (part_of (entry_of p)) !! "Content-Transfer-Encoding" = None ∧ pt_content (part_of (entry_of p)) = pt_content p.
Proof. by vm_compute. Qed.

Definition w_boot : BootstrapOptions :=
  {| bo_ClusterName := "cluster"; bo_ClusterEndpoint := "https://endpoint"; bo_ClusterCIDR := None;
     bo_KubeletConfig := with_maxPods 58 (with_clusterDNS ["10.100.0.10"] empty_config); bo_UnparsedKubeletConfig := ∅;
     bo_Taints := [UnregisteredNoExecuteTaint]; bo_Labels := {[ "team" := "a" ]}; bo_CABundle := Some "Y2E=";
     bo_CustomUserData := Some "#!/bin/sh"; bo_InstanceStorePolicy := Some "RAID0" |}.
Definition w_taint_text (t : Taint) : string := t_Key t +:+ ":" +:+ t_Effect t.
(** The standard library reads what it is given as the generated script. *)
Definition w_eks_script : string := eksBootstrapScript w_taint_text (λ _, true) w_boot.
Definition w_ReadMessage (_ : string) : result error (string * string) := Ok ("multipart/mixed", "").
Definition w_ParseMediaType (mediaType : string) : result error (string * gmap string string) := Ok (mediaType, ∅).
Definition w_ReadParts (_ _ : string) : result error (list Part) := Ok [shell_part w_eks_script].
Definition w_Script (b : Bootstrapper) : result error string :=
  Script w_ReadMessage w_ParseMediaType w_ReadParts w_taint_text (λ _, true) (λ _, "boundary") (λ _, Ok "config") (λ _, false)
    (λ _, "[]") "node.eks.aws" () (λ _, Ok (∅ : gmap string ())) (λ _, Err (errorf "toml")) (λ _, None) (λ _, Ok "settings")
    (λ a b, Ok (b ∪ a)) b.
Definition w_user_data : string := match w_Script (EKS w_boot) with Ok text => text | Err _ => "" end.

