(* ===== verification/Operations.v ===== *)
(** * Versions, queues, options, refreshes and metrics

    The smaller parts of the controller: [pkg/providers/version] (the version of the
    cluster), [pkg/providers/sqs] (the interruption queue), [pkg/operator/options] (the
    options and their validation), the controllers of [pkg/controllers/providers] that
    refresh prices, instance types and versions, and [pkg/controllers/metrics].  The
    answers of the services are arguments; flag sets, URLs and the version numbers of
    Kubernetes are libraries and so parameters. *)
From S2P Require Import Prelude GoStd GoCache AwsErrors ApiV1 Scheduling Kube Interruption InstanceTypeProvider Pricing.

(** ** [pkg/providers/version] *)

Definition MinK8sVersion := "1.26".
Definition MaxK8sVersion := "1.37".

Section version.
Context `{ChangeMonitor string M} {Version : Type}.
(** [version.MustParseGeneric] ([None] is its panic), and [Version.LessThan]. *)
Variable ParseGeneric : string → option Version.
Variable LessThan : Version → Version → bool.
Variable EKSControlPlane : bool.

(** The change monitor, and the version; it is nil at first. *)
Record VersionProvider := { cm : M; version : option string }.
Definition with_version (v : string) (p : VersionProvider) : VersionProvider := {| cm := cm p; version := Some v |}.
Definition Get_version (p : VersionProvider) : option string := version p.

(** The version of the cluster in the answer of EKS may be nil; the API server answers
    with the major and the minor version, or with nothing. *)
Definition getEKSVersion (answer : result error (option string)) : result error string :=
  match answer with Ok v => Ok (default "" v) | Err e => Err e end.
Definition getK8sVersion (answer : result error (option (string * string))) : result error string :=
  match answer with
  | Ok (Some (major, minor)) => Ok (major +:+ "." +:+ TrimSuffix minor "+")
  | _ => Err (errorf "getting kubernetes version from the kubernetes API")
  end.
Definition UpdateVersion (eks : result error (option string)) (k8s : result error (option (string * string)))
    (p : VersionProvider) : VersionProvider * option error :=
  match (if EKSControlPlane then getEKSVersion eks else getK8sVersion k8s) with
  | Ok v => (with_version v p, None)
  | Err e => (p, Some (wrap "validating kubernetes version" e))
  end.

Definition validateK8sVersion (v : string) : option (option error) :=
  k8sVersion ← ParseGeneric v;
  lo ← ParseGeneric MinK8sVersion;
  hi ← ParseGeneric MaxK8sVersion;
  Some (if LessThan k8sVersion lo || LessThan hi k8sVersion
        then Some (errorf "karpenter is not compatible with kubernetes version") else None).
(** [None] is a panic: a version that is not one. *)
Definition UpdateVersionWithValidation (eks : result error (option string))
    (k8s : result error (option (string * string))) (p : VersionProvider) : option (VersionProvider * option error) :=
  let '(p, e) := UpdateVersion eks k8s p in
  match e with
  | Some e => Some (p, Some e)
  | None =>
      match Get_version p with
      | None => None
      | Some v =>
          let '(m, changed) := HasChanged v (cm p) in
          let p := {| cm := m; version := version p |} in
          if changed then
            match validateK8sVersion v with
            | Some e => Some (p, wrap "validating kubernetes version" <$> e)
            | None => None
            end
          else Some (p, None)
      end
  end.
(** [pkg/controllers/providers/version]: the time until the next round, or an error. *)
Definition Reconcile_version (eks : result error (option string)) (k8s : result error (option (string * string)))
    (p : VersionProvider) : option (VersionProvider * result error Z) :=
  match UpdateVersionWithValidation eks k8s p with
  | Some (p, Some e) => Some (p, Err (wrap "updating version" e))
  | Some (p, None) => Some (p, Ok (5 * Minute))
  | None => None
  end.
End version.
Arguments VersionProvider : clear implicits.

(** [SupportedK8sVersions]; [None] is the panic of a constant that is not a version. *)
Definition minor_of (v : string) : option Z := Split v "." !! 1%nat ≫= Atoi.
Definition SupportedK8sVersions : option (list string) :=
  minMinor ← minor_of MinK8sVersion;
  maxMinor ← minor_of MaxK8sVersion;
  Some ((λ i, "1." +:+ fmt_int i) <$> seqZ minMinor (maxMinor - minMinor + 1)).

(** ** [pkg/providers/sqs] *)

Section sqs.
Context {Message Body : Type}.
Variable queueURL : string.
(** [json.Marshal] of a body. *)
Variable Marshal : Body → result error string.

Definition QueueName : string := default "" (last (Split queueURL "/")).
Record ReceiveMessageInput := {
  MaxNumberOfMessages : Z; VisibilityTimeout : Z; WaitTimeSeconds : Z; rm_QueueUrl : string;
}.
Definition receive_input : ReceiveMessageInput :=
  {| MaxNumberOfMessages := 10; VisibilityTimeout := 20; WaitTimeSeconds := 20; rm_QueueUrl := queueURL |}.
Definition GetSQSMessages (ReceiveMessage : ReceiveMessageInput → result error (list Message)) : result error (list Message) :=
  match ReceiveMessage receive_input with
  | Ok messages => Ok messages
  | Err e => Err (wrap "receiving sqs messages" e)
  end.
(** [SendMessage] of the API takes the body and the queue. *)
Definition SendMessage (send : string → string → result error (option string)) (body : Body) : result error string :=
  match Marshal body with
  | Err e => Err (wrap "marshaling the passed body as json" e)
  | Ok raw =>
      match send raw queueURL with
      | Err e => Err (wrap "sending messages to sqs queue" e)
      | Ok id => Ok (default "" id)
      end
  end.
Definition DeleteSQSMessage (delete : string → option string → option error) (receiptHandle : option string) : option error :=
  wrap "deleting messages from sqs queue" <$> delete queueURL receiptHandle.
End sqs.

(** ** [pkg/operator/options] *)

Record FeatureGates := { NodeClassCEL : bool; DRANVIDIAGPU : bool; DRAEFA : bool; RebootForRepair : bool }.
(** The options; of a float, [None] is NaN. *)
Record Options := {
  ClusterCABundle : string;
  ClusterName : string;
  ClusterEndpoint : string;
  IsolatedVPC : bool;
  EKSControlPlane : bool;
  VMMemoryOverheadPercent : option float64;
  InterruptionQueue : string;
  ReservedENIs : Z;
  DisableDryRun : bool;
  EnableZonalShift : bool;
  AMIRefreshInterval : Z;
  SubnetRefreshInterval : Z;
  SecurityGroupRefreshInterval : Z;
  FeatureGates_ : FeatureGates;
}.

Section options.
(** [url.Parse]: whether the URL is absolute, and its host. *)
Variable ParseURL : string → result error (bool * string).
(** The flags of a feature gate string ([cliflag.NewMapStringBool]). *)
Variable MapStringBool : string → result error (gmap string bool).

Definition invalid_if (b : bool) (message : string) : list error := if b then [errorf message] else [].
Definition validateEndpoint (o : Options) : list error :=
  if decide (ClusterEndpoint o = "") then []
  else match ParseURL (ClusterEndpoint o) with
       | Ok (isAbs, host) => invalid_if (negb isAbs || bool_decide (host = "")) "cluster endpoint URL is not valid"
       | Err _ => invalid_if true "cluster endpoint URL is not valid"
       end.
(** NaN is not below zero. *)
Definition validateVMMemoryOverheadPercent (o : Options) : list error :=
  invalid_if (match VMMemoryOverheadPercent o with Some x => bool_decide (x < 0) | None => false end)
    "vm-memory-overhead-percent cannot be negative".
Definition validateReservedENIs (o : Options) : list error :=
  invalid_if (bool_decide (ReservedENIs o < 0)) "reserved-enis cannot be negative".
Definition validateRequiredFields (o : Options) : list error :=
  invalid_if (bool_decide (ClusterName o = "")) "missing field, cluster-name".
Definition validateAMIRefreshInterval (o : Options) : list error :=
  invalid_if (bool_decide (AMIRefreshInterval o < Minute)) "ami-refresh-interval must be at least 1m".
Definition validateSubnetRefreshInterval (o : Options) : list error :=
  invalid_if (bool_decide (SubnetRefreshInterval o < Minute)) "subnet-refresh-interval must be at least 1m".
Definition validateSecurityGroupRefreshInterval (o : Options) : list error :=
  invalid_if (bool_decide (SecurityGroupRefreshInterval o < Minute)) "security-group-refresh-interval must be at least 1m".
Definition Validate (o : Options) : option error :=
  Combine (validateEndpoint o ++ validateVMMemoryOverheadPercent o ++ validateReservedENIs o ++ validateRequiredFields o
    ++ validateAMIRefreshInterval o ++ validateSubnetRefreshInterval o ++ validateSecurityGroupRefreshInterval o).

Definition DefaultFeatureGates : FeatureGates :=
  {| NodeClassCEL := false; DRANVIDIAGPU := false; DRAEFA := false; RebootForRepair := false |}.
Definition ParseFeatureGates (gateStr : string) : result error FeatureGates :=
  match MapStringBool gateStr with
  | Err e => Err e
  | Ok gateMap =>
      let gate name (unset : FeatureGates → bool) := default (unset DefaultFeatureGates) (gateMap !! name) in
      Ok {| NodeClassCEL := gate "NodeClassCEL" NodeClassCEL; DRANVIDIAGPU := gate "DRANVIDIAGPU" DRANVIDIAGPU;
            DRAEFA := gate "DRAEFA" DRAEFA; RebootForRepair := gate "RebootForRepair" RebootForRepair |}
  end.
Definition with_gates (g : FeatureGates) (o : Options) : Options :=
  {| ClusterCABundle := ClusterCABundle o; ClusterName := ClusterName o; ClusterEndpoint := ClusterEndpoint o;
     IsolatedVPC := IsolatedVPC o; EKSControlPlane := EKSControlPlane o;
     VMMemoryOverheadPercent := VMMemoryOverheadPercent o; InterruptionQueue := InterruptionQueue o;
     ReservedENIs := ReservedENIs o; DisableDryRun := DisableDryRun o; EnableZonalShift := EnableZonalShift o;
     AMIRefreshInterval := AMIRefreshInterval o; SubnetRefreshInterval := SubnetRefreshInterval o;
     SecurityGroupRefreshInterval := SecurityGroupRefreshInterval o; FeatureGates_ := g |}.
(** The flag set gives the options and the text of the feature gates, or an error. *)
Definition Parse (flags : result error (Options * string)) : result error Options :=
  match flags with
  | Err e => Err (wrap "parsing flags" e)
  | Ok (o, gateStr) =>
      match ParseFeatureGates gateStr with
      | Err e => Err (wrap "parsing feature gates" e)
      | Ok gates =>
          match Validate (with_gates gates o) with
          | Some e => Err (wrap "validating options" e)
          | None => Ok (with_gates gates o)
          end
      end
  end.
End options.

(** ** [pkg/controllers/providers]: refreshes

    Go runs the two parts of a refresh at once; each changes fields of its own. *)

Definition refreshed (prefix : string) (es : list error) (requeue : Z) : result error Z :=
  match Combine es with Some e => Err (wrap prefix e) | None => Ok requeue end.

Definition Reconcile_pricing (UpdateSpotPricing UpdateOnDemandPricing : Pricing → Pricing * option error) (p : Pricing) :
    Pricing * result error Z :=
  let '(p, spot) := UpdateSpotPricing p in
  let '(p, onDemand) := UpdateOnDemandPricing p in
  (p, refreshed "updating pricing" (option_list spot ++ option_list onDemand) (12 * Hour)).
Definition Reconcile_types {P : Type} (UpdateInstanceTypes UpdateInstanceTypeOfferings : P → P * option error) (p : P) :
    P * result error Z :=
  let '(p, types) := UpdateInstanceTypes p in
  let '(p, offerings) := UpdateInstanceTypeOfferings p in
  (p, refreshed "updating instancetype" (option_list types ++ option_list offerings) (12 * Hour)).

(** The capacity that a node reports: [NodeClaimForNode] may find no NodeClaim ([None]), which
    is ignored. *)
Definition Reconcile_capacity `{SchedulingTypes} {NC P : Type} (managed : Node → bool)
    (NodeClaimForNode : Node → result error (option NodeClaim)) (GetEC2NodeClass : NodeClaim → result error NC)
    (UpdateCapacity : Node → NodeClaim → NC → P → P) (node : Node) (p : P) : P * option error :=
  if negb (managed node) then (p, None)
  else match NodeClaimForNode node with
       | Err e => (p, Some (wrap "failed to get nodeclaim for node" e))
       | Ok None => (p, None)
       | Ok (Some nodeClaim) =>
           match GetEC2NodeClass nodeClaim with
           | Err e => (p, Some (wrap "failed to get ec2nodeclass" e))
           | Ok nodeClass => (UpdateCapacity node nodeClaim nodeClass p, None)
           end
       end.

(** ** [pkg/controllers/metrics] *)

Section metrics.
Context `{SC : Scheduling}.
(** The feature gate [ReservedCapacity]. *)
Variable reservedCapacity : bool.

(** The instance type, the capacity type and the zone. *)
Definition metricDimensions : Type := string * string * string.
Record Series := { availability : gmap metricDimensions bool; price : gmap metricDimensions float64 }.
Definition dimensions (it : InstanceType) (o : Offering) : metricDimensions := (Name it, CapacityType o, Zone o).

Definition observe (it : InstanceType) (s : Series) (o : Offering) : Series :=
  let d : metricDimensions := dimensions it o in
  {| availability := <[d := default false (availability s !! d) || Available o]> (availability s);
     price := <[d := Price o]> (price s) |}.
(** A zone without reserved capacity. *)
Definition observe_reserved (it : InstanceType) (s : Series) (zone : string) : Series :=
  let d : metricDimensions := (Name it, CapacityTypeReserved, zone) in
  match availability s !! d with
  | Some _ => s
  | None => {| availability := <[d := false]> (availability s); price := <[d := 0]> (price s) |}
  end.
Definition zones_of (it : InstanceType) : gset string := list_to_set (Zone <$> Offerings it).
Definition observe_type (s : Series) (it : InstanceType) : Series :=
  let s := foldl (observe it) s (Offerings it) in
  if reservedCapacity then foldl (observe_reserved it) s (elements (zones_of it)) else s.

(** The gauges; a series that is set once stays. *)
Record Gauges := {
  InstanceTypeOfferingAvailable : gmap metricDimensions float64;
  InstanceTypeOfferingPriceEstimate : gmap metricDimensions float64;
}.
Definition publish_series (s : Series) (g : Gauges) : Gauges :=
  {| InstanceTypeOfferingAvailable :=
       ((λ available : bool, float64_of_int (if available then 1 else 0)) <$> availability s) ∪ InstanceTypeOfferingAvailable g;
     InstanceTypeOfferingPriceEstimate := price s ∪ InstanceTypeOfferingPriceEstimate g |}.

(** The instance types of each NodePool, or the error. *)
Definition resolved_types (pools : list (result error (list InstanceType))) : list InstanceType :=
  mjoin (omap (λ r, match r with Ok its => Some its | Err _ => None end) pools).
Definition pool_errors (pools : list (result error (list InstanceType))) : list error :=
  omap (λ r, match r with Ok _ => None | Err e => Some (wrap "getting instance types" e) end) pools.
Definition Reconcile_metrics (pools : result kube_error (list (result error (list InstanceType)))) (g : Gauges) :
    Gauges * result error Z :=
  match pools with
  | Err e => (g, Err (kube_cause e))
  | Ok pools =>
      (publish_series (foldl observe_type {| availability := ∅; price := ∅ |} (resolved_types pools)) g,
       match Combine (pool_errors pools) with Some e => Err e | None => Ok Minute end)
  end.
End metrics.

(** ** Properties *)

Section version_properties.
Context `{ChangeMonitor string M} {Version : Type}.
Variable ParseGeneric : string → option Version.
Variable LessThan : Version → Version → bool.
Variable EKSControlPlane : bool.

(** A version that could be read is the version from then on, supported or not; if it could
    not, the version stays.  A version is checked when it changes. *)
Lemma UpdateVersionWithValidation_spec eks k8s (p p' : VersionProvider M) e :
  UpdateVersionWithValidation ParseGeneric LessThan EKSControlPlane eks k8s p = Some (p', e) →
  match (if EKSControlPlane then getEKSVersion eks else getK8sVersion k8s) with
  | Ok v => Get_version p' = Some v ∧ cm p' = (HasChanged v (cm p)).1 ∧
      (e ≠ None → (HasChanged v (cm p)).2 = true ∧ ∃ e', validateK8sVersion ParseGeneric LessThan v = Some (Some e'))
  | Err _ => p' = p ∧ e ≠ None
  end.
Proof.
  unfold UpdateVersionWithValidation, UpdateVersion.
  destruct (if EKSControlPlane then _ else _) as [v|err]; [|by intros [= <- <-]]. simpl.
  destruct (HasChanged v (cm p)) as [m changed]. destruct changed; [|by intros [= <- <-]].
  destruct (validateK8sVersion _ _ v) as [e'|]; [|done]. intros [= <- <-]. simpl. split_and!; [done..|].
  destruct e'; [|done]. eauto.
Qed.
End version_properties.

Example SupportedK8sVersions_list :
  SupportedK8sVersions = Some ["1.26"; "1.27"; "1.28"; "1.29"; "1.30"; "1.31"; "1.32"; "1.33"; "1.34"; "1.35"; "1.36"; "1.37"].
Proof. by vm_compute. Qed.

Section options_properties.
Variable ParseURL : string → result error (bool * string).
Variable MapStringBool : string → result error (gmap string bool).

Lemma invalid_if_nil b message : invalid_if b message = [] ↔ b = false.
Proof. by destruct b. Qed.

(** Options are valid exactly if the cluster is named, its endpoint is empty or an absolute
    URL with a host, nothing is negative and data is kept for a minute at least. *)
Theorem Validate_spec o :
  Validate ParseURL o = None ↔
  ClusterName o ≠ "" ∧
  (ClusterEndpoint o = "" ∨ ∃ host, ParseURL (ClusterEndpoint o) = Ok (true, host) ∧ host ≠ "") ∧
  (∀ x, VMMemoryOverheadPercent o = Some x → 0 ≤ x) ∧ 0 ≤ ReservedENIs o ∧
  Minute ≤ AMIRefreshInterval o ∧ Minute ≤ SubnetRefreshInterval o ∧ Minute ≤ SecurityGroupRefreshInterval o.
Proof.
  unfold Validate. rewrite Combine_None, !app_nil.
  assert (validateEndpoint ParseURL o = [] ↔
    ClusterEndpoint o = "" ∨ ∃ host, ParseURL (ClusterEndpoint o) = Ok (true, host) ∧ host ≠ "") as ->.
  { unfold validateEndpoint. case_decide as He; [naive_solver|].
    destruct (ParseURL (ClusterEndpoint o)) as [[isAbs host]|e]; rewrite invalid_if_nil; [|naive_solver].
    destruct isAbs; simpl; [|naive_solver]. rewrite bool_decide_eq_false. naive_solver. }
  unfold validateVMMemoryOverheadPercent, validateReservedENIs, validateRequiredFields, validateAMIRefreshInterval,
    validateSubnetRefreshInterval, validateSecurityGroupRefreshInterval. rewrite !invalid_if_nil, !bool_decide_eq_false, !Z.nlt_ge.
  destruct (VMMemoryOverheadPercent o) as [x|]; [rewrite bool_decide_eq_false, Z.nlt_ge|]; naive_solver.
Qed.

(** What is parsed is valid, and unknown feature gates change nothing. *)
Theorem Parse_spec flags o :
  Parse ParseURL MapStringBool flags = Ok o → Validate ParseURL o = None ∧
  ∃ o' gateStr gates, flags = Ok (o', gateStr) ∧ MapStringBool gateStr = Ok gates ∧ o = with_gates (FeatureGates_ o) o' ∧
    NodeClassCEL (FeatureGates_ o) = default false (gates !! "NodeClassCEL") ∧
    DRANVIDIAGPU (FeatureGates_ o) = default false (gates !! "DRANVIDIAGPU") ∧
    DRAEFA (FeatureGates_ o) = default false (gates !! "DRAEFA") ∧
    RebootForRepair (FeatureGates_ o) = default false (gates !! "RebootForRepair").
Proof.
  unfold Parse. destruct flags as [[o' gateStr]|]; [|done]. unfold ParseFeatureGates.
  destruct (MapStringBool gateStr) as [gates|] eqn:Eg; [|done]. simpl. destruct (Validate ParseURL _) eqn:Ev; [done|].
  intros [= <-]. split; [done|]. by exists o', gateStr, gates.
Qed.
End options_properties.

Section metrics_properties.
Context `{SC : Scheduling}.
Variable reservedCapacity : bool.

(** What was observed: offerings, and zones with or without reserved capacity. *)
Definition series_of (seen : list (metricDimensions * Offering)) (zones : list metricDimensions) (s : Series) : Prop :=
  ∀ d, let offered := ∃ o, (d, o) ∈ seen in
    match availability s !! d with
    | Some b => (b = true ↔ ∃ o, (d, o) ∈ seen ∧ Available o = true) ∧ (offered ∨ d ∈ zones) ∧
        ∃ p, price s !! d = Some p ∧ ((∃ o, (d, o) ∈ seen ∧ p = Price o) ∨ (p = 0 ∧ ¬ offered))
    | None => price s !! d = None ∧ ¬ offered ∧ d ∉ zones
    end.

Lemma observe_series it s o seen zones :
  series_of seen zones s → series_of (seen ++ [(dimensions it o, o)]) zones (observe it s o).
Proof.
  intros Hs d. specialize (Hs d). simpl in *. destruct (decide (dimensions it o = d)) as [<-|Hne].
  - rewrite !lookup_insert_eq. setoid_rewrite elem_of_app. setoid_rewrite list_elem_of_singleton.
    split_and!; [|left; by exists o; right|exists (Price o); split; [done|]; left; exists o; by split; [right|]].
    rewrite orb_true_iff. destruct (availability s !! dimensions it o) as [b|]; simpl.
    + destruct Hs as (Hb & _). naive_solver.
    + destruct Hs as (_ & Hn & _). naive_solver.
  - rewrite !lookup_insert_ne by done.
    assert (∀ o', (d, o') ∈ seen ++ [(dimensions it o, o)] ↔ (d, o') ∈ seen) as Hin.
    { intros o'. rewrite elem_of_app, list_elem_of_singleton. naive_solver. }
    destruct (availability s !! d); setoid_rewrite Hin; done.
Qed.

Lemma observe_reserved_series it s zone seen zones :
  series_of seen zones s → series_of seen (zones ++ [(Name it, CapacityTypeReserved, zone)]) (observe_reserved it s zone).
Proof.
  intros Hs d. unfold observe_reserved. set (e := (Name it, CapacityTypeReserved, zone) : metricDimensions).
  pose proof (Hs e) as He. specialize (Hs d). simpl in *.
  assert (∀ x, x ∈ zones ++ [e] ↔ x ∈ zones ∨ x = e) as Hin by (intros x; rewrite elem_of_app, list_elem_of_singleton; done).
  destruct (decide (d = e)) as [->|Hne].
  - destruct (availability s !! e) as [b|] eqn:Ea; [rewrite Ea, Hin; naive_solver|]. simpl. rewrite !lookup_insert_eq, Hin.
    destruct He as (_ & Hno & _). split_and!; [naive_solver|by right; right|]. exists 0. naive_solver.
  - destruct (availability s !! e) as [b|]; [|simpl; rewrite !lookup_insert_ne by done];
      (destruct (availability s !! d); rewrite Hin; naive_solver).
Qed.

Definition type_seen (it : InstanceType) : list (metricDimensions * Offering) := (λ o, (dimensions it o, o)) <$> Offerings it.
Definition type_zones (it : InstanceType) : list metricDimensions :=
  if reservedCapacity then (λ zone, (Name it, CapacityTypeReserved, zone)) <$> elements (zones_of it) else [].

Lemma foldl_series {A} (f : Series → A → Series) (seen : A → list (metricDimensions * Offering)) (zones : A → list metricDimensions)
    (l : list A) s seen0 zones0 :
  (∀ x s seen0 zones0, series_of seen0 zones0 s → series_of (seen0 ++ seen x) (zones0 ++ zones x) (f s x)) →
  series_of seen0 zones0 s → series_of (seen0 ++ mjoin (seen <$> l)) (zones0 ++ mjoin (zones <$> l)) (foldl f s l).
Proof.
  intros Hf. revert s seen0 zones0. induction l as [|x l IH]; intros s seen0 zones0 Hs; simpl; [by rewrite !app_nil_r|].
  rewrite !(assoc_L (++)). by apply IH, Hf.
Qed.

Lemma some_union {A} (x : A) y : Some x ∪ y = Some x.
Proof. by destruct y. Qed.
Lemma mjoin_singletons {A B} (f : A → B) (l : list A) : mjoin ((λ x, [f x]) <$> l) = f <$> l.
Proof. induction l as [|x l IH]; [done|]. simpl. f_equal. apply IH. Qed.
Lemma mjoin_nils {A B} (l : list A) : mjoin ((λ _, [] : list B) <$> l) = [].
Proof. by induction l. Qed.

Lemma observe_type_series it s seen zones :
  series_of seen zones s → series_of (seen ++ type_seen it) (zones ++ type_zones it) (observe_type reservedCapacity s it).
Proof.
  intros Hs. unfold observe_type, type_seen, type_zones.
  assert (series_of (seen ++ ((λ o, (dimensions it o, o)) <$> Offerings it)) zones (foldl (observe it) s (Offerings it))) as Ho.
  { pose proof (foldl_series (observe it) (λ o, [(dimensions it o, o)]) (λ _, []) (Offerings it) s seen zones) as Hf.
    rewrite mjoin_singletons, mjoin_nils, app_nil_r in Hf. apply Hf; [|done].
    intros o s' seen0 zones0 Hs'. rewrite app_nil_r. by apply observe_series. }
  destruct reservedCapacity; [|by rewrite app_nil_r].
  pose proof (foldl_series (observe_reserved it) (λ _, []) (λ zone, [(Name it, CapacityTypeReserved, zone)]) (elements (zones_of it))
    (foldl (observe it) s (Offerings it)) (seen ++ ((λ o, (dimensions it o, o)) <$> Offerings it)) zones) as Hf.
  rewrite mjoin_singletons, mjoin_nils, app_nil_r in Hf. apply Hf; [|exact Ho].
  intros zone s' seen0 zones0 Hs'. rewrite app_nil_r. by apply observe_reserved_series.
Qed.

Lemma elem_of_resolved pools it : it ∈ resolved_types pools ↔ ∃ its, Ok its ∈ pools ∧ it ∈ its.
Proof.
  unfold resolved_types. rewrite list_elem_of_join. setoid_rewrite list_elem_of_omap. split.
  - intros (its & Hit & [its'|e] & Hp & [= ->]). eauto.
  - intros (its & Hp & Hit). exists its. split; [done|]. by exists (Ok its).
Qed.

(** An offering with the dimensions of a NodePool that resolved, and a zone of an instance
    type as dimensions of reserved capacity. *)
Definition offered (pools : list (result error (list InstanceType))) (d : metricDimensions) (o : Offering) : Prop :=
  ∃ its it, Ok its ∈ pools ∧ it ∈ its ∧ o ∈ Offerings it ∧ dimensions it o = d.
Definition reserved_zone (pools : list (result error (list InstanceType))) (d : metricDimensions) : Prop :=
  reservedCapacity = true ∧ ∃ its it o, Ok its ∈ pools ∧ it ∈ its ∧ o ∈ Offerings it ∧ d = (Name it, CapacityTypeReserved, Zone o).

Lemma seen_offered pools d o : (d, o) ∈ mjoin (type_seen <$> resolved_types pools) ↔ offered pools d o.
Proof.
  rewrite list_elem_of_join. split.
  - intros (l & Hl & (it & -> & (its & Hp & Hit)%elem_of_resolved)%list_elem_of_fmap).
    apply list_elem_of_fmap in Hl as (o' & [= -> ->] & Ho). by exists its, it.
  - intros (its & it & Hp & Hit & Ho & Hdim). exists (type_seen it). split.
    + apply list_elem_of_fmap. exists o. by rewrite Hdim.
    + apply list_elem_of_fmap. exists it. split; [done|]. apply elem_of_resolved. eauto.
Qed.
Lemma zones_reserved pools d : d ∈ mjoin (type_zones <$> resolved_types pools) ↔ reserved_zone pools d.
Proof.
  rewrite list_elem_of_join. unfold reserved_zone, type_zones. split.
  - intros (l & Hl & (it & -> & (its & Hp & Hit)%elem_of_resolved)%list_elem_of_fmap).
    destruct reservedCapacity; [|by apply elem_of_nil in Hl]. split; [done|].
    apply list_elem_of_fmap in Hl as (zone & -> & Hz). apply elem_of_elements, elem_of_list_to_set, list_elem_of_fmap in Hz as (o & -> & Ho).
    by exists its, it, o.
  - intros (Hgate & its & it & o & Hp & Hit & Ho & ->). exists (type_zones it). unfold type_zones. rewrite Hgate. split.
    + apply list_elem_of_fmap. exists (Zone o). split; [done|].
      apply elem_of_elements, elem_of_list_to_set, list_elem_of_fmap. eauto.
    + apply list_elem_of_fmap. exists it. split; [done|]. apply elem_of_resolved. eauto.
Qed.

(** What a round observes. *)
Lemma observed_series pools d :
  let s := foldl (observe_type reservedCapacity) {| availability := ∅; price := ∅ |} (resolved_types pools) in
  match availability s !! d with
  | Some b => (b = true ↔ ∃ o, offered pools d o ∧ Available o = true) ∧
      ∃ p, price s !! d = Some p ∧ ((∃ o, offered pools d o ∧ p = Price o) ∨ (p = 0 ∧ ¬ ∃ o, offered pools d o))
  | None => (¬ ∃ o, offered pools d o) ∧ ¬ reserved_zone pools d
  end.
Proof.
  intros s. assert (series_of [] [] {| availability := ∅; price := ∅ |}) as H0.
  { intros d'. simpl. rewrite lookup_empty. split_and!; [done|by intros (? & ?%elem_of_nil)|apply not_elem_of_nil]. }
  pose proof (foldl_series (observe_type reservedCapacity) type_seen type_zones (resolved_types pools) _ _ _
    (λ it s seen zones, observe_type_series it s seen zones) H0 d) as Hd. simpl in Hd. fold s in Hd. clearbody s.
  destruct (availability s !! d) as [b|]; setoid_rewrite seen_offered in Hd; [|rewrite zones_reserved in Hd]; naive_solver.
Qed.

Lemma pool_errors_none pools : Combine (pool_errors pools) = None ↔ ∀ e, Err e ∉ pools.
Proof.
  rewrite Combine_None. unfold pool_errors. split.
  - intros Hn e He. assert (wrap "getting instance types" e ∈ ([] : list error)) as []%elem_of_nil.
    rewrite <- Hn. apply list_elem_of_omap. by exists (Err e).
  - intros Hne. apply elem_of_nil_inv. intros e ([its|e'] & Hp & He)%list_elem_of_omap; [done|]. by apply (Hne e').
Qed.

(** A round publishes the NodePools that resolve, whatever becomes of the others.  The
    dimensions of an offering are available exactly if some offering with them is; their
    price is that of one of them.  With reserved capacity a zone of an instance type
    without reserved offerings is there too, not available and free. *)
Theorem Reconcile_metrics_spec pools g g' r d :
  Reconcile_metrics reservedCapacity (Ok pools) g = (g', r) →
  ((∃ o, offered pools d o) →
     (∃ n, InstanceTypeOfferingAvailable g' !! d = Some n ∧
           (n = float64_of_int 1 ↔ ∃ o, offered pools d o ∧ Available o = true)) ∧
     ∃ o, offered pools d o ∧ InstanceTypeOfferingPriceEstimate g' !! d = Some (Price o)) ∧
  (reserved_zone pools d → (¬ ∃ o, offered pools d o) →
     InstanceTypeOfferingAvailable g' !! d = Some 0 ∧ InstanceTypeOfferingPriceEstimate g' !! d = Some 0) ∧
  (r = Ok Minute ↔ ∀ e, Err e ∉ pools).
Proof.
  intros Hr. injection Hr as <- <-. pose proof (observed_series pools d) as Hd. simpl in Hd. set (s := foldl _ _ _) in *.
  clearbody s. unfold publish_series. cbn [InstanceTypeOfferingAvailable InstanceTypeOfferingPriceEstimate].
  rewrite !lookup_union, !lookup_fmap. split_and!.
  - intros Hof. destruct (availability s !! d) as [b|]; [|by destruct Hd as [[] _]].
    destruct Hd as (Hb & p & Hp & Hprice). rewrite Hp. split.
    + exists (float64_of_int (if b then 1 else 0)). split; [apply some_union|]. rewrite <- Hb.
      destruct b; [done|]. split; [|done]. intros Hf.
      assert (bool_decide (float64_of_int 0 = float64_of_int 1) = false) as Hne by (vm_compute; reflexivity).
      by rewrite bool_decide_eq_true_2 in Hne.
    + destruct Hprice as [(o' & Ho' & ->)|[_ []]]; [|done]. exists o'. split; [done|]. apply some_union.
  - intros Hz Hno. destruct (availability s !! d) as [b|]; [|by destruct Hd as [_ []]].
    destruct Hd as (Hb & p & -> & [(o' & Ho' & _)|[-> _]]); [destruct Hno; eauto|].
    destruct b; [|split; apply some_union]. destruct Hb as [Hb _]. destruct (Hb eq_refl) as (o' & Ho' & _). destruct Hno. eauto.
  - rewrite <- pool_errors_none. destruct (Combine _); naive_solver.
Qed.
End metrics_properties.
