(* ===== verification/DynamicResources.v ===== *)
(** * [efadra], [nvidiadra], [pkg/cloudprovider/dynamicresources.go]: devices of instance types

    For dynamic resource allocation the scheduler is told which devices an instance type has:
    templates per driver, built from generated tables, with GPUs that several claims may
    share as the NodeClass says, and attributes that all devices of a node have in common.
    The allocator tells devices apart by driver, pool and name alone.  The generated
    tables and the values of attributes are parameters. *)
From S2P Require Import Prelude GoStd GoCache AwsErrors ApiV1 Scheduling Kube Utils Compatibility Offerings Instances CapacityReservation PlacementGroup AmiFamily Validation CloudProvider.

(** ** Data of the core and of the Kubernetes API *)

(** [resourcev1.CapacityRequestPolicy] with its range, and [DeviceCapacity]. *)
Record RequestPolicy := { rp_Default : Z; rp_Min : Z; rp_Max : Z; rp_Step : Z }.
Record DeviceCapacity := { dc_Value : Z; dc_RequestPolicy : option RequestPolicy }.

Section resources.
(** [resourcev1.DeviceAttribute] *)
Context {Attribute : Type}.
Record Device := {
  dv_Name : string;
  dv_Attributes : gmap string Attribute;
  dv_Capacity : gmap string DeviceCapacity;
  AllowMultipleAllocations : bool;
}.
Record DeviceID := { di_Driver : string; di_Pool : string; di_Device : string }.
Record AttributeBinding := { ab_Attribute : string; ab_Devices : list DeviceID }.
(** A [ResourceSliceTemplate]; the provider's sets have one template each. *)
Record Template := { tp_Driver : string; tp_Pool : string; tp_Devices : list Device }.
Record Resources := { rs_Set : Template; AttributeBindings : list AttributeBinding }.
(** [drametadata.DRADevice] *)
Record DRADevice := { dra_Attributes : gmap string Attribute; dra_Capacity : gmap string DeviceCapacity }.

(** [GPUMetadataByInstanceType], [EFAMetadataByInstanceType] *)
Variable GPUMetadata : gmap string (list DRADevice).
Variable EFAMetadata : gmap string (list DRADevice).

(** ** EFA *)

Definition EFADriverName := "dra.net".
Definition EFAPoolName (instanceType : string) : string := "network-" +:+ instanceType.
Definition efa_device (index : nat) (d : DRADevice) : Device :=
  {| dv_Name := "efa-" +:+ fmt_int (Z.of_nat index); dv_Attributes := dra_Attributes d; dv_Capacity := ∅;
     AllowMultipleAllocations := false |}.
Definition efa_resources (instanceType : string) (devices : list DRADevice) : Resources :=
  {| rs_Set := {| tp_Driver := EFADriverName; tp_Pool := EFAPoolName instanceType; tp_Devices := imap efa_device devices |};
     AttributeBindings := [] |}.
Definition efa_buildDynamicResources : gmap string Resources := map_imap (λ it devices, Some (efa_resources it devices)) EFAMetadata.
Definition efa_DynamicResourcesFor (instanceType : string) : option Resources := efa_buildDynamicResources !! instanceType.

(** ** NVIDIA GPUs *)

Definition GPUDriverName := "gpu.nvidia.com".
Definition GPUPoolName (instanceType : string) : string := "gpus-" +:+ instanceType.
Definition AttributeDriverVersion : string := GPUDriverName +:+ "/driverVersion".
Definition AttributeCUDADriverVersion : string := GPUDriverName +:+ "/cudaDriverVersion".
Definition CapacityMemory := "memory".
Definition CapacityShares := "shares".
Definition boundAttributes : list string := [AttributeDriverVersion; AttributeCUDADriverVersion].

Definition gpu_device (index : nat) (d : DRADevice) : Device :=
  {| dv_Name := "gpu-" +:+ fmt_int (Z.of_nat index); dv_Attributes := dra_Attributes d; dv_Capacity := dra_Capacity d;
     AllowMultipleAllocations := false |}.
Definition device_id (driver pool : string) (d : Device) : DeviceID :=
  {| di_Driver := driver; di_Pool := pool; di_Device := dv_Name d |}.
Definition gpu_resources (instanceType : string) (metadata : list DRADevice) : Resources :=
  let devices := imap gpu_device metadata in
  let deviceIDs := device_id GPUDriverName (GPUPoolName instanceType) <$> devices in
  {| rs_Set := {| tp_Driver := GPUDriverName; tp_Pool := GPUPoolName instanceType; tp_Devices := devices |};
     AttributeBindings := (λ a, {| ab_Attribute := a; ab_Devices := deviceIDs |}) <$> boundAttributes |}.
Definition gpu_buildDynamicResources : gmap string Resources := map_imap (λ it devices, Some (gpu_resources it devices)) GPUMetadata.

(** The mode of a NodeClass is that of [Validation]; the capacity of memory is known to be
    there. *)
Definition Mi : Z := 1024 * 1024.
Definition memory_policy (mode : ConsumableCapacityMode) (memory : Z) : RequestPolicy :=
  {| rp_Default := if FullMemoryDefault mode then memory else 0; rp_Min := if FullMemoryDefault mode then Mi else 0;
     rp_Max := memory; rp_Step := Mi |}.
Definition shares_capacity (shares : Z) : DeviceCapacity :=
  {| dc_Value := shares; dc_RequestPolicy := Some {| rp_Default := 1; rp_Min := 1; rp_Max := shares; rp_Step := 1 |} |}.
Definition capacityFor (scraped : gmap string DeviceCapacity) (memory : DeviceCapacity) (mode : ConsumableCapacityMode) :
    gmap string DeviceCapacity :=
  let capacities := <[CapacityMemory := {| dc_Value := dc_Value memory;
                                           dc_RequestPolicy := Some (memory_policy mode (dc_Value memory)) |}]> scraped in
  if decide (0 < Shares mode) then <[CapacityShares := shares_capacity (Shares mode)]> capacities else capacities.
Definition share_device (mode : ConsumableCapacityMode) (d : Device) : Device :=
  match dv_Capacity d !! CapacityMemory with
  | None => d
  | Some memory =>
      {| dv_Name := dv_Name d; dv_Attributes := dv_Attributes d; dv_Capacity := capacityFor (dv_Capacity d) memory mode;
         AllowMultipleAllocations := true |}
  end.
Definition withConsumableCapacity (base : Resources) (mode : ConsumableCapacityMode) : Resources :=
  {| rs_Set := {| tp_Driver := tp_Driver (rs_Set base); tp_Pool := tp_Pool (rs_Set base);
                  tp_Devices := share_device mode <$> tp_Devices (rs_Set base) |};
     AttributeBindings := AttributeBindings base |}.
Definition gpu_DynamicResourcesFor (instanceType : string) (mode : option ConsumableCapacityMode) : option Resources :=
  base ← gpu_buildDynamicResources !! instanceType;
  Some match mode with None => base | Some mode => withConsumableCapacity base mode end.

(** [ResolveDynamicResources] of both providers. *)
Definition resolve_all (resourcesFor : string → option Resources) (names : list string) : gmap string Resources :=
  foldl (λ m name, match resourcesFor name with Some r => <[name := r]> m | None => m end) ∅ names.
Definition gpu_ResolveDynamicResources (names : list string) (mode : option ConsumableCapacityMode) : gmap string Resources :=
  resolve_all (λ name, gpu_DynamicResourcesFor name mode) names.
Definition efa_ResolveDynamicResources (names : list string) : gmap string Resources :=
  resolve_all efa_DynamicResourcesFor names.

(** ** [populateDynamicResources] *)

(** The feature gates, and [IgnoreDRARequests]. *)
Variables DRANVIDIAGPU DRAEFA IgnoreDRARequests : bool.

(** An annotation that cannot be parsed counts as none. *)
Definition consumable_capacity (annotations : gmap string string) : option ConsumableCapacityMode :=
  match ParseConsumableCapacity (default "" (annotations !! AnnotationNVIDIAConsumableCapacity)) with
  | Ok mode => mode
  | Err _ => None
  end.
(** The sets and the bindings that an instance type gets; [None] leaves it as it is. *)
Definition dynamic_resources (nvidia efa : gmap string Resources) (name : string) :
    option (list Template * list AttributeBinding) :=
  let rs := option_list (nvidia !! name) ++ option_list (efa !! name) in
  match rs with
  | [] => None
  | _ => Some (rs_Set <$> rs, mjoin (AttributeBindings <$> rs))
  end.
Definition populateDynamicResources (annotations : gmap string string) (names : list string) :
    list (string * option (list Template * list AttributeBinding)) :=
  if (negb DRANVIDIAGPU && negb DRAEFA) || IgnoreDRARequests then (λ name, (name, None)) <$> names
  else
    let nvidia := if DRANVIDIAGPU then gpu_ResolveDynamicResources names (consumable_capacity annotations) else ∅ in
    let efa := if DRAEFA then efa_ResolveDynamicResources names else ∅ in
    (λ name, (name, dynamic_resources nvidia efa name)) <$> names.
End resources.
Arguments Device : clear implicits.
Arguments Template : clear implicits.
Arguments Resources : clear implicits.
Arguments DRADevice : clear implicits.

(** ** [GetInstanceTypes] *)

Section types.
Context `{IR : ImageRequirements} {CL CT CP CA : Type}.
Context `{GoCache positive CL, GoCache unit CT, GoCache unit CP, GoCache PlacementGroup CA}.
Context {I : Type} `{InstanceAPI CL CT I} {Attribute : Type}.
Variables (GPUMetadata EFAMetadata : gmap string (list (DRADevice Attribute))).
Variables DRANVIDIAGPU DRAEFA IgnoreDRARequests : bool.
Variable GetNodeClass : string → result provider_error NodeClass.
Variable instanceTypes_List : NodeClass → result error (list InstanceType).

(** Each instance type with what it is given; none ([None]) if the NodeClass cannot be found. *)
Definition GetInstanceTypes (pool : NodePool) :
    M (CL := CL) (CT := CT) (CP := CP) (CA := CA) (I := I) (option (list (InstanceType * option (list (Template Attribute) * list AttributeBinding)))) :=
  nc ← find_node_class GetNodeClass pool;
  match nc with
  | None => mret None
  | Some nc =>
      its ← plain (instanceTypes_List nc);
      mret (Some (zip its (populateDynamicResources GPUMetadata EFAMetadata DRANVIDIAGPU DRAEFA IgnoreDRARequests
                             (nc_Annotations nc) (Name <$> its)).*2))
  end.
End types.

(** ** What the allocator can tell apart *)

Section devices.
Context {Attribute : Type}.
Variables (GPUMetadata EFAMetadata : gmap string (list (DRADevice Attribute))).
Variables DRANVIDIAGPU DRAEFA IgnoreDRARequests : bool.
Abbreviation populate := (populateDynamicResources GPUMetadata EFAMetadata DRANVIDIAGPU DRAEFA IgnoreDRARequests).

Lemma share_device_Name mode (d : Device Attribute) : dv_Name (share_device mode d) = dv_Name d.
Proof. unfold share_device. by destruct (dv_Capacity d !! CapacityMemory). Qed.

Lemma resolve_all_lookup (resourcesFor : string → option (Resources Attribute)) names name r :
  resolve_all resourcesFor names !! name = Some r → resourcesFor name = Some r.
Proof.
  unfold resolve_all. rewrite <- (reverse_involutive names). generalize (reverse names). clear names. intros names.
  induction names as [|n names IH]; [done|]. rewrite reverse_cons, foldl_app. simpl.
  destruct (resourcesFor n) as [r'|] eqn:En; [|done]. destruct (decide (n = name)) as [->|Hne].
  - rewrite lookup_insert_eq. congruence.
  - rewrite lookup_insert_ne by done. exact IH.
Qed.

(** What a driver contributes for an instance type: its own pool, devices numbered from zero,
    and bindings of all of them. *)
Record driver_resources (driver pool prefix : string) (r : Resources Attribute) : Prop := {
  dr_driver : tp_Driver (rs_Set r) = driver;
  dr_pool : tp_Pool (rs_Set r) = pool;
  dr_names i d : tp_Devices (rs_Set r) !! i = Some d → dv_Name d = prefix +:+ fmt_int (Z.of_nat i);
  dr_bindings ab : ab ∈ AttributeBindings r → ab_Devices ab = device_id driver pool <$> tp_Devices (rs_Set r);
}.

Lemma efa_driver name r : efa_DynamicResourcesFor EFAMetadata name = Some r → driver_resources EFADriverName (EFAPoolName name) "efa-" r.
Proof.
  unfold efa_DynamicResourcesFor, efa_buildDynamicResources. rewrite map_lookup_imap.
  destruct (EFAMetadata !! name) as [devices|]; [|done]. intros [= <-]. split; [done..| |by intros ab ?%elem_of_nil].
  intros i d. simpl. rewrite list_lookup_imap. destruct (devices !! i); [|done]. by intros [= <-].
Qed.

Lemma gpu_base_driver name devices : driver_resources GPUDriverName (GPUPoolName name) "gpu-" (gpu_resources name devices).
Proof.
  split; [done..| |].
  - intros i d. simpl. rewrite list_lookup_imap. destruct (devices !! i); [|done]. by intros [= <-].
  - intros ab (a & -> & _)%list_elem_of_fmap. done.
Qed.

Lemma shared_driver driver pool prefix r mode :
  driver_resources driver pool prefix r → driver_resources driver pool prefix (withConsumableCapacity r mode).
Proof.
  intros [Hd Hp Hn Hb]. split; [done..| |].
  - intros i d. simpl. rewrite list_lookup_fmap. destruct (tp_Devices (rs_Set r) !! i) as [d'|] eqn:Ed; [|done].
    intros [= <-]. rewrite share_device_Name. by apply Hn.
  - intros ab Hab. rewrite (Hb ab Hab). simpl. rewrite <- list_fmap_compose. apply list_fmap_ext. intros i d _.
    unfold compose, device_id. by rewrite share_device_Name.
Qed.

Lemma gpu_driver name mode r :
  gpu_DynamicResourcesFor GPUMetadata name mode = Some r → driver_resources GPUDriverName (GPUPoolName name) "gpu-" r.
Proof.
  unfold gpu_DynamicResourcesFor, gpu_buildDynamicResources. rewrite map_lookup_imap.
  destruct (GPUMetadata !! name) as [devices|]; [|done]. simpl. intros [= <-].
  destruct mode; [apply shared_driver|]; apply gpu_base_driver.
Qed.

(** What an instance type is given comes from the drivers that are enabled. *)
Definition contributes (annotations : gmap string string) (name : string) (r : Resources Attribute) : Prop :=
  (DRANVIDIAGPU = true ∧ gpu_DynamicResourcesFor GPUMetadata name (consumable_capacity annotations) = Some r) ∨
  (DRAEFA = true ∧ efa_DynamicResourcesFor EFAMetadata name = Some r).
Lemma populate_contributes annotations names name sets bindings :
  (name, Some (sets, bindings)) ∈ populate annotations names →
  IgnoreDRARequests = false ∧
  (∀ t, t ∈ sets → ∃ r, contributes annotations name r ∧ t = rs_Set r) ∧
  (∀ ab, ab ∈ bindings → ∃ r, contributes annotations name r ∧ rs_Set r ∈ sets ∧ ab ∈ AttributeBindings r).
Proof.
  unfold populateDynamicResources. destruct IgnoreDRARequests.
  { rewrite orb_true_r. by intros (n & [= _ ?] & _)%list_elem_of_fmap. }
  destruct (negb DRANVIDIAGPU && negb DRAEFA); [by intros (n & [= _ ?] & _)%list_elem_of_fmap|]. simpl.
  set (nvidia := if DRANVIDIAGPU then _ else ∅). set (efa := if DRAEFA then _ else ∅).
  intros (n & [= <- Hd] & _)%list_elem_of_fmap. split; [done|].
  assert (∀ r, r ∈ option_list (nvidia !! name) ++ option_list (efa !! name) → contributes annotations name r) as Hc.
  { intros r. rewrite elem_of_app. unfold contributes, nvidia, efa. intros [Hr|Hr].
    - left. destruct DRANVIDIAGPU; [|by apply elem_of_nil in Hr]. split; [done|].
      apply (resolve_all_lookup (λ n, gpu_DynamicResourcesFor GPUMetadata n (consumable_capacity annotations)) names name r).
      change (resolve_all _ _) with (gpu_ResolveDynamicResources GPUMetadata names (consumable_capacity annotations)).
      by destruct (gpu_ResolveDynamicResources _ _ _ !! name); [apply list_elem_of_singleton in Hr as ->|apply elem_of_nil in Hr].
    - right. destruct DRAEFA; [|by apply elem_of_nil in Hr]. split; [done|].
      apply (resolve_all_lookup (efa_DynamicResourcesFor EFAMetadata) names name r).
      change (resolve_all _ _) with (efa_ResolveDynamicResources EFAMetadata names).
      by destruct (efa_ResolveDynamicResources _ _ !! name); [apply list_elem_of_singleton in Hr as ->|apply elem_of_nil in Hr]. }
  unfold dynamic_resources in Hd. set (rs := option_list (nvidia !! name) ++ _) in *. clearbody rs.
  assert (sets = rs_Set <$> rs ∧ bindings = mjoin (AttributeBindings <$> rs)) as [-> ->] by (destruct rs; naive_solver).
  split.
  - intros t (r & -> & Hr)%list_elem_of_fmap. eauto.
  - intros ab (bs & Hab & (r & -> & Hr)%list_elem_of_fmap)%list_elem_of_join. exists r. split; [auto|]. split; [|done].
    apply list_elem_of_fmap. eauto.
Qed.

Lemma contributes_pool annotations name r :
  contributes annotations name r →
  driver_resources GPUDriverName (GPUPoolName name) "gpu-" r ∨ driver_resources EFADriverName (EFAPoolName name) "efa-" r.
Proof. intros [[_ Hr]|[_ Hr]]; [left; by eapply gpu_driver|right; by eapply efa_driver]. Qed.

(** The driver and the pool of a contribution tell the instance type and the contribution. *)
Lemma contributes_inj annotations name name' r r' :
  contributes annotations name r → contributes annotations name' r' →
  tp_Driver (rs_Set r) = tp_Driver (rs_Set r') → tp_Pool (rs_Set r) = tp_Pool (rs_Set r') → name = name' ∧ r = r'.
Proof.
  intros [[Hg Hr]|[Hg Hr]] [[Hg' Hr']|[Hg' Hr']];
    first [pose proof (gpu_driver _ _ _ Hr) as Hd|pose proof (efa_driver _ _ Hr) as Hd];
    first [pose proof (gpu_driver _ _ _ Hr') as Hd'|pose proof (efa_driver _ _ Hr') as Hd'];
    rewrite (dr_driver _ _ _ _ Hd), (dr_driver _ _ _ _ Hd'), (dr_pool _ _ _ _ Hd), (dr_pool _ _ _ _ Hd'); intros Hdr Hp;
    try discriminate Hdr; apply (inj (String.append _)) in Hp; subst; split; congruence.
Qed.

(** A device that several claims may share has a policy for its memory that can be met, and
    a number of shares if the mode has one. *)
Definition shareable (mode : ConsumableCapacityMode) (d : Device Attribute) : Prop :=
  (∃ memory p, dv_Capacity d !! CapacityMemory = Some {| dc_Value := memory; dc_RequestPolicy := Some p |} ∧
     rp_Min p ≤ rp_Default p ≤ rp_Max p ∧ rp_Max p = memory) ∧
  (0 < Shares mode → dv_Capacity d !! CapacityShares = Some (shares_capacity (Shares mode))).

Lemma share_device_shareable mode d :
  (∀ memory, dv_Capacity d !! CapacityMemory = Some memory → Mi ≤ dc_Value memory) →
  AllowMultipleAllocations d = false → AllowMultipleAllocations (share_device mode d) = true → shareable mode (share_device mode d).
Proof.
  unfold share_device. destruct (dv_Capacity d !! CapacityMemory) as [memory|]; [|congruence].
  intros Hm _ _. specialize (Hm _ eq_refl). assert (0 < Mi) by done. unfold shareable, capacityFor. cbn [dv_Capacity]. split.
  - exists (dc_Value memory), (memory_policy mode (dc_Value memory)). split.
    + destruct (decide (0 < Shares mode)); [rewrite lookup_insert_ne by done|]; by rewrite lookup_insert_eq.
    + unfold memory_policy. simpl. destruct (FullMemoryDefault mode); lia.
  - intros Hs. rewrite decide_True by done. by rewrite lookup_insert_eq.
Qed.

Lemma contributes_shared annotations name r d :
  (∀ name devices d memory, GPUMetadata !! name = Some devices → d ∈ devices →
     dra_Capacity d !! CapacityMemory = Some memory → Mi ≤ dc_Value memory) →
  contributes annotations name r → d ∈ tp_Devices (rs_Set r) → AllowMultipleAllocations d = true →
  ∃ mode, consumable_capacity annotations = Some mode ∧ shareable mode d.
Proof.
  intros Htable [[_ Hr]|[_ Hr]].
  - unfold gpu_DynamicResourcesFor, gpu_buildDynamicResources in Hr. rewrite map_lookup_imap in Hr.
    destruct (GPUMetadata !! name) as [devices|] eqn:Eg; [|done]. simpl in Hr. injection Hr as <-.
    destruct (consumable_capacity annotations) as [mode|].
    + simpl. intros (d' & -> & (i & x & -> & Hx)%elem_of_lookup_imap)%list_elem_of_fmap Ha. exists mode. split; [done|].
      apply share_device_shareable; [|done|done]. intros memory Hm. eapply Htable; [exact Eg| |exact Hm].
      by eapply list_elem_of_lookup_2.
    + simpl. by intros (i & x & -> & Hx)%elem_of_lookup_imap.
  - unfold efa_DynamicResourcesFor, efa_buildDynamicResources in Hr. rewrite map_lookup_imap in Hr.
    destruct (EFAMetadata !! name) as [devices|]; [|done]. simpl in Hr. injection Hr as <-. simpl.
    by intros (i & x & -> & Hx)%elem_of_lookup_imap.
Qed.

(** C40: The allocator can tell the devices of all instance types apart by driver, pool and
    name; an attribute that is bound is bound for devices the same instance type has; and
    a device is shared only if the NodeClass says so, with a policy for its memory whose
    default is in its range (the tables have a mebibyte for every GPU at least) and the
    shares it asks for.  Without a feature gate, or when requests are ignored, instance
    types have no devices. *)
Theorem populate_devices annotations names :
  (∀ name devices d memory, GPUMetadata !! name = Some devices → d ∈ devices →
     dra_Capacity d !! CapacityMemory = Some memory → Mi ≤ dc_Value memory) →
  let given name t i d := ∃ sets bindings, (name, Some (sets, bindings)) ∈ populate annotations names ∧ t ∈ sets ∧
    tp_Devices t !! i = Some d in
  (∀ name name' t t' i i' d d', given name t i d → given name' t' i' d' →
     device_id (tp_Driver t) (tp_Pool t) d = device_id (tp_Driver t') (tp_Pool t') d' → name = name' ∧ t = t' ∧ i = i') ∧
  (∀ name sets bindings ab id, (name, Some (sets, bindings)) ∈ populate annotations names → ab ∈ bindings → id ∈ ab_Devices ab →
     ∃ t d, t ∈ sets ∧ d ∈ tp_Devices t ∧ id = device_id (tp_Driver t) (tp_Pool t) d) ∧
  (∀ name t i d, given name t i d → IgnoreDRARequests = false ∧ (DRANVIDIAGPU = true ∨ DRAEFA = true) ∧
     (AllowMultipleAllocations d = true → ∃ mode, consumable_capacity annotations = Some mode ∧ shareable mode d)).
Proof.
  intros Htable given. split_and!.
  - intros name name' t t' i i' d d' (sets & bs & Hp & Ht & Hd) (sets' & bs' & Hp' & Ht' & Hd') Hid.
    apply populate_contributes in Hp as (_ & Hs & _), Hp' as (_ & Hs' & _).
    apply Hs in Ht as (r & Hr & ->). apply Hs' in Ht' as (r' & Hr' & ->).
    injection Hid as Hdr Hpool Hname. destruct (contributes_inj _ _ _ _ _ Hr Hr' Hdr Hpool) as [-> ->].
    split; [done|]. split; [done|].
    destruct (contributes_pool _ _ _ Hr') as [Hc|Hc]; rewrite (dr_names _ _ _ _ Hc _ _ Hd), (dr_names _ _ _ _ Hc _ _ Hd') in Hname;
      apply (inj (String.append _)), fmt_int_inj in Hname; lia.
  - intros name sets bs ab id Hp Hab Hid. apply populate_contributes in Hp as (_ & _ & Hb).
    apply Hb in Hab as (r & Hr & Hin & Hab). exists (rs_Set r).
    destruct (contributes_pool _ _ _ Hr) as [Hc|Hc]; rewrite (dr_bindings _ _ _ _ Hc _ Hab) in Hid;
      apply list_elem_of_fmap in Hid as (d & -> & Hd); exists d; by rewrite (dr_driver _ _ _ _ Hc), (dr_pool _ _ _ _ Hc).
  - intros name t i d (sets & bs & Hp & Ht & Hd). apply populate_contributes in Hp as (Hi & Hs & _).
    apply Hs in Ht as (r & Hr & ->). split; [done|]. split; [destruct Hr as [[? _]|[? _]]; auto|].
    apply (contributes_shared annotations name r d Htable Hr). by eapply list_elem_of_lookup_2.
Qed.
End devices.

(** ** An execution *)

Definition w_gpu : DRADevice string :=
  {| dra_Attributes := {[ "productName" := "NVIDIA A10G" ]};
     dra_Capacity := {[ CapacityMemory := {| dc_Value := 23028 * Mi; dc_RequestPolicy := None |} ]} |}.
Definition w_gpu_table : gmap string (list (DRADevice string)) := {[ "g5.xlarge" := [w_gpu] ]}.
Definition w_gpu_annotations : gmap string string := {[ AnnotationNVIDIAConsumableCapacity := "4" ]}.
Definition w_gpu_mode : ConsumableCapacityMode := {| Shares := 4; Memory := false; FullMemoryDefault := false |}.
Definition w_gpu_result : Resources string := withConsumableCapacity (gpu_resources "g5.xlarge" [w_gpu]) w_gpu_mode.
Definition w_gpu_device : Device string := share_device w_gpu_mode (gpu_device 0 w_gpu).

Lemma populate_devices_witness :
  ∃ mode, consumable_capacity w_gpu_annotations = Some mode ∧ shareable mode w_gpu_device.
Proof.
  destruct (populate_devices w_gpu_table ∅ true true false w_gpu_annotations ["g5.xlarge"]) as (_ & _ & Hgiven).
  - intros name devices d memory Hn Hd Hm. unfold w_gpu_table in Hn. apply lookup_singleton_Some in Hn as [<- <-].
    apply list_elem_of_singleton in Hd as ->. unfold w_gpu in Hm. simpl in Hm. apply lookup_singleton_Some in Hm as [_ <-].
    simpl. unfold Mi. lia.
  - destruct (Hgiven "g5.xlarge" (rs_Set w_gpu_result) O w_gpu_device) as (_ & _ & Hshare).
    + exists [rs_Set w_gpu_result], (AttributeBindings w_gpu_result). split; [|split; [by left|reflexivity]].
      assert (populateDynamicResources w_gpu_table ∅ true true false w_gpu_annotations ["g5.xlarge"] =
        [("g5.xlarge", Some ([rs_Set w_gpu_result], AttributeBindings w_gpu_result))]) as -> by (vm_compute; reflexivity).
      by left.
    + apply Hshare. reflexivity.
Defined.
