(* ===== verification/NodeHealth.v ===== *)
(** * [pkg/controllers/instancestatus], [RepairPolicies]: health of nodes

    With node repair, the status checks of EC2 become a condition of the node, from which
    the core decides by the repair policies of the cloud provider.  [Interruption] has the
    listing of the checks.  The node of a NodeClaim, the reading of a condition and the
    patch of the API server are parameters; workers that run in parallel are taken one
    after the other.  The label of the partition that a registered NodeClaim gets
    ([registrationhooks/placementgrouphook.go]) is here too. *)
From S2P Require Import Prelude GoStd AwsErrors ApiV1 Scheduling Kube Utils Offerings Instances CloudProvider Interruption NodeClaimControllers GoCache.

(** ** The condition of a node *)

Definition ConditionTypeEC2StatusReady := "EC2StatusReady".
Definition ReasonInstanceReachabilityFailed := "InstanceReachabilityFailed".
Definition ReasonSystemReachabilityFailed := "SystemReachabilityFailed".
Definition ReasonNoImpairmentReported := "NoImpairmentReported".
Definition pollInterval : Z := Minute.

(** [corev1.NodeCondition] without the heartbeat, which is never set, and a node. *)
Record NodeCondition := {
  nk_Type : string;
  nk_Status : string;
  nk_Reason : string;
  nk_Message : string;
  nk_LastTransitionTime : option Z;
}.
#[export] Instance NodeCondition_eq_dec : EqDecision NodeCondition.
Proof. solve_decision. Defined.
Record HealthNode := { hn_Name : string; hn_Conditions : list NodeCondition }.

Definition StatusTrue := "True".
Definition StatusFalse := "False".

(** What EC2 reports of an instance; [impaired] are the failing checks. *)
Definition healthy_condition (now : Z) : NodeCondition :=
  {| nk_Type := ConditionTypeEC2StatusReady; nk_Status := StatusTrue; nk_Reason := ReasonNoImpairmentReported;
     nk_Message := "EC2 reports no recognized instance or system reachability impairment"; nk_LastTransitionTime := Some now |}.
Definition impaired_condition (now : Z) (hs : HealthStatus) : NodeCondition :=
  {| nk_Type := ConditionTypeEC2StatusReady; nk_Status := StatusFalse;
     nk_Reason := if existsb (λ d, bool_decide (dt_Category d = SystemStatus)) (hs_Details hs)
                  then ReasonSystemReachabilityFailed else ReasonInstanceReachabilityFailed;
     nk_Message := "EC2 reports failing reachability checks: "
                   +:+ JoinWith ", " (UniqBy id (Category_string <$> (dt_Category <$> hs_Details hs)));
     nk_LastTransitionTime := Some (default now (hs_ImpairedSince hs)) |}.
Definition reported (now : Z) (impaired : gmap string HealthStatus) (instanceID : string) : NodeCondition :=
  match impaired !! instanceID with Some hs => impaired_condition now hs | None => healthy_condition now end.

Definition with_transition (t : option Z) (c : NodeCondition) : NodeCondition :=
  {| nk_Type := nk_Type c; nk_Status := nk_Status c; nk_Reason := nk_Reason c; nk_Message := nk_Message c;
     nk_LastTransitionTime := t |}.
(** The first condition of the type is replaced, or the condition is added. *)
Fixpoint set_condition (c : NodeCondition) (cs : list NodeCondition) : list NodeCondition :=
  match cs with
  | [] => [c]
  | c' :: cs => if decide (nk_Type c' = nk_Type c) then c :: cs else c' :: set_condition c cs
  end.

Section health.
(** [nodeutils.GetCondition] *)
Variable GetCondition : HealthNode → string → NodeCondition.

(** The node with its new condition, if that is not the one it has. *)
Definition refresh (c : NodeCondition) (node : HealthNode) : option HealthNode :=
  let current := GetCondition node (nk_Type c) in
  let c := if decide (nk_Status current = nk_Status c) then with_transition (nk_LastTransitionTime current) c else c in
  if decide (current = c) then None
  else Some {| hn_Name := hn_Name node; hn_Conditions := set_condition c (hn_Conditions node) |}.

Context `{SchedulingTypes} {K N : Type} `{!KubeAPI NodeClaim K}.
Variable managed : NodeClaim → bool.
(** [NodeForNodeClaim] ([None]: no node, which is ignored) and the patch of a status. *)
Variable NodeForNodeClaim : NodeClaim → N → result error (option HealthNode).
Variable PatchStatus : HealthNode → N → N * option kube_error.

Definition ConditionTypeRegistered := "Registered".
Definition ConditionTypeRebooting := "Rebooting".
Definition reports_health (c : NodeClaim) : bool :=
  bool_decide (ncl_Conditions c !! ConditionTypeRegistered = Some ConditionTrue) &&
  negb (bool_decide (ncl_Conditions c !! ConditionTypeRebooting = Some ConditionTrue)).

(** One NodeClaim: its error, and whether the rest is given up. *)
Definition publish_health (now : Z) (impaired : gmap string HealthStatus) (claim : NodeClaim) (w : N) : N * option error * bool :=
  match NodeForNodeClaim claim w with
  | Err e => (w, Some e, false)
  | Ok None => (w, None, false)
  | Ok (Some node) =>
      match ParseInstanceID (ncl_ProviderID claim) with
      | Err e => (w, Some e, false)
      | Ok instanceID =>
          match refresh (reported now impaired instanceID) node with
          | None => (w, None, false)
          | Some node =>
              let '(w, e) := PatchStatus node w in
              match ignore_kube_not_found e with
              | None => (w, None, false)
              | Some e => (w, Some (wrap "patching node status" (kube_cause e)),
                           match e with KubeForbidden _ => true | _ => false end)
              end
          end
      end
  end.
Fixpoint publish_all (now : Z) (impaired : gmap string HealthStatus) (claims : list NodeClaim) (w : N) : N * list error :=
  match claims with
  | [] => (w, [])
  | claim :: claims =>
      let '(w, e, forbidden) := publish_health now impaired claim w in
      if forbidden then (w, option_list e)
      else let '(w, es) := publish_all now impaired claims w in (w, option_list e ++ es)
  end.

(** [lo.SliceToMap]: the last of an instance stays. *)
Definition impaired_map (statuses : list HealthStatus) : gmap string HealthStatus :=
  foldl (λ m hs, <[hs_InstanceID hs := hs]> m) ∅ statuses.
Definition Reconcile_health (now : Z) (DescribeInstanceStatus : Category → list (result error (list EC2InstanceStatus)))
    (k : K) (w : N) : N * result error Z :=
  match ListStatuses now DescribeInstanceStatus [InstanceStatus; SystemStatus] with
  | Err e => (w, Err (wrap (if IsUnauthorizedOperationError (Some e) then "ec2:DescribeInstanceStatus permission is not allowed"
                            else "getting instance statuses") e))
  | Ok statuses =>
      match ListManaged managed k with
      | Err e => (w, Err (wrap "listing nodeclaims" (kube_cause e)))
      | Ok nodeClaims =>
          let '(w, es) := publish_all now (impaired_map statuses) (filter (λ c, reports_health c = true) nodeClaims) w in
          (w, match Combine es with Some e => Err e | None => Ok pollInterval end)
      end
  end.
End health.

(** ** Repair policies *)

Inductive RepairAction := ReplaceNode | RebootNode.
#[export] Instance RepairAction_eq_dec : EqDecision RepairAction.
Proof. solve_decision. Defined.
(** [cloudprovider.RepairPolicy] *)
Record RepairPolicy := {
  rp_ConditionType : string;
  rp_ConditionStatus : string;
  ReasonRegex : string;
  TolerationDuration : Z;
  rp_TerminationGracePeriod : option Z;
  Action : RepairAction;
}.
Definition StatusUnknown := "Unknown".
Definition NodeReady := "Ready".
Definition policy (type status regex : string) (toleration grace : Z) (action : RepairAction) : RepairPolicy :=
  {| rp_ConditionType := type; rp_ConditionStatus := status; ReasonRegex := regex; TolerationDuration := toleration;
     rp_TerminationGracePeriod := Some grace; Action := action |}.
Definition legacy_policy (type status : string) (toleration : Z) : RepairPolicy :=
  {| rp_ConditionType := type; rp_ConditionStatus := status; ReasonRegex := ""; TolerationDuration := toleration;
     rp_TerminationGracePeriod := None; Action := ReplaceNode |}.
Definition legacyRepairPolicies : list RepairPolicy :=
  [legacy_policy NodeReady StatusFalse (30 * Minute); legacy_policy NodeReady StatusUnknown (30 * Minute);
   legacy_policy "AcceleratedHardwareReady" StatusFalse (10 * Minute); legacy_policy "StorageReady" StatusFalse (30 * Minute);
   legacy_policy "NetworkingReady" StatusFalse (30 * Minute); legacy_policy "KernelReady" StatusFalse (30 * Minute);
   legacy_policy "ContainerRuntimeReady" StatusFalse (30 * Minute)].
Definition rebootable_xids := ".*XID(46|48|54|62|63|95|109|110|119|120|136|140|143|155|156|158).*".
Definition hung_driver := "^(NvidiaDriverUnresponsive|FabricManagerNotStarted)$".
Definition fatal_xids := ".*XID(64|74|79|142|151).*".
(** [math.MaxInt64] nanoseconds never elapse. *)
Definition never : Z := 2 ^ 63 - 1.
(** A policy for a condition that is false, and the same for one that is unknown. *)
Definition both (type regex : string) (toleration grace : Z) (action : RepairAction) : list RepairPolicy :=
  [policy type StatusFalse regex toleration grace action; policy type StatusUnknown regex toleration grace action].
Definition RepairPolicies (legacy rebootForRepair : bool) : list RepairPolicy :=
  if legacy then legacyRepairPolicies
  else
    let reboot := if rebootForRepair then RebootNode else ReplaceNode in
    [policy ConditionTypeEC2StatusReady StatusFalse ".*" UnhealthyThreshold (5 * Minute) ReplaceNode]
    ++ both NodeReady ".*" (30 * Minute) (10 * Minute) ReplaceNode
    ++ both "AcceleratedHardwareReady" rebootable_xids (10 * Minute) (5 * Minute) reboot
    ++ both "AcceleratedHardwareReady" hung_driver (10 * Minute) (5 * Minute) reboot
    ++ both "AcceleratedHardwareReady" fatal_xids (10 * Minute) (5 * Minute) ReplaceNode
    ++ both "AcceleratedHardwareReady" "^DCGM" never (10 * Minute) ReplaceNode
    ++ [policy "AcceleratedHardwareReady" StatusFalse "" (10 * Minute) (10 * Minute) ReplaceNode]
    ++ both "StorageReady" ".*" (30 * Minute) (10 * Minute) ReplaceNode
    ++ both "NetworkingReady" ".*" (30 * Minute) (10 * Minute) ReplaceNode
    ++ both "KernelReady" ".*" (30 * Minute) (10 * Minute) ReplaceNode
    ++ both "ContainerRuntimeReady" ".*" (30 * Minute) (10 * Minute) ReplaceNode.

(** ** Registration in a placement group *)

(** [instance.Provider.Get] without the cache: the partition of the instance.  The result is
    the NodeClaim's labels and whether to come back. *)
Definition Registered `{SchedulingTypes} (PartitionOf : string → result error (option Z)) (claim : NodeClaim) :
    result error (gmap string string * bool) :=
  let labels := ncl_Labels claim in
  match labels !! LabelPlacementGroupID, labels !! LabelPlacementGroupPartition with
  | Some _, Some partitionValue =>
      if decide (partitionValue ≠ "") then Ok (labels, false)
      else if decide (ncl_ProviderID claim = "") then Ok (labels, true)
      else match ParseInstanceID (ncl_ProviderID claim) with
           | Err e => Err (wrap "parsing instance ID from provider ID" e)
           | Ok instanceID =>
               match PartitionOf instanceID with
               | Err e => Err (wrap "describing instance for partition number" e)
               | Ok None => Ok (labels, true)
               | Ok (Some n) => Ok (<[LabelPlacementGroupPartition := fmt_int n]> labels, false)
               end
           end
  | _, _ => Ok (labels, false)
  end.

(** ** Properties *)

Section health_properties.
Variable GetCondition : HealthNode → string → NodeCondition.
Definition zero_condition : NodeCondition :=
  {| nk_Type := ""; nk_Status := ""; nk_Reason := ""; nk_Message := ""; nk_LastTransitionTime := None |}.
(** [GetCondition] gives the first condition of the type, or the zero condition. *)
Hypothesis GetCondition_first : ∀ node t,
  GetCondition node t = default zero_condition (Find (λ c, bool_decide (nk_Type c = t)) (hn_Conditions node)).

Lemma Find_cons {A} (p : A → bool) x l : Find p (x :: l) = if p x then Some x else Find p l.
Proof. unfold Find. destruct (p x) eqn:E; [by rewrite filter_cons_True|by rewrite filter_cons_False by congruence]. Qed.

Lemma Find_set_condition c cs t :
  Find (λ c, bool_decide (nk_Type c = t)) (set_condition c cs) =
  if decide (nk_Type c = t) then Some c else Find (λ c, bool_decide (nk_Type c = t)) cs.
Proof.
  induction cs as [|c' cs IH]; simpl.
  - rewrite Find_cons. destruct (decide (nk_Type c = t)); by case_bool_decide.
  - destruct (decide (nk_Type c' = nk_Type c)) as [He|He]; rewrite !Find_cons.
    + destruct (decide (nk_Type c = t)); repeat case_bool_decide; congruence.
    + rewrite IH. destruct (decide (nk_Type c = t)); repeat case_bool_decide; congruence.
Qed.

(** After a refresh the node has the condition, with its transition kept if the status
    is what it was; other conditions are what they were. *)
Definition kept_transition (current c : NodeCondition) : NodeCondition :=
  if decide (nk_Status current = nk_Status c) then with_transition (nk_LastTransitionTime current) c else c.
Lemma refresh_spec c node t :
  let node' := default node (refresh GetCondition c node) in
  hn_Name node' = hn_Name node ∧
  GetCondition node' t =
    if decide (nk_Type c = t) then kept_transition (GetCondition node (nk_Type c)) c else GetCondition node t.
Proof.
  unfold refresh. fold (kept_transition (GetCondition node (nk_Type c)) c).
  set (c' := kept_transition _ c). assert (nk_Type c' = nk_Type c) as Ht by (unfold c', kept_transition; by case_decide).
  destruct (decide (GetCondition node (nk_Type c) = c')) as [He|He]; simpl.
  - split; [done|]. by destruct (decide (nk_Type c = t)) as [<-|].
  - split; [done|]. rewrite !(GetCondition_first _ t). simpl. rewrite Find_set_condition, Ht. by destruct (decide _).
Qed.

(** A poll of the node's instance: the instant and what EC2 reports as impaired. *)
Definition poll (id : string) (node : HealthNode) (p : Z * gmap string HealthStatus) : HealthNode :=
  default node (refresh GetCondition (reported p.1 p.2 id) node).
Definition ready (node : HealthNode) : NodeCondition := GetCondition node ConditionTypeEC2StatusReady.

Lemma poll_ready id node p : ready (poll id node p) = kept_transition (ready node) (reported p.1 p.2 id).
Proof.
  unfold ready, poll. assert (nk_Type (reported p.1 p.2 id) = ConditionTypeEC2StatusReady) as Ht
    by (unfold reported; by destruct (p.2 !! id)).
  destruct (refresh_spec (reported p.1 p.2 id) node ConditionTypeEC2StatusReady) as [_ ->]. by rewrite Ht, decide_True.
Qed.

(** The status follows EC2, and the toleration of a failure runs from its first report:
    while every poll finds the instance impaired, the transition stays what EC2 said it
    was, or the observation, at the first of them; other conditions stay. *)
Theorem toleration_from_first id node now hs impaired polls :
  nk_Status (ready node) ≠ StatusFalse → impaired !! id = Some hs →
  Forall (λ p : Z * gmap string HealthStatus, is_Some (p.2 !! id)) polls →
  let node' := foldl (poll id) node ((now, impaired) :: polls) in
  nk_Status (ready node') = StatusFalse ∧ nk_LastTransitionTime (ready node') = Some (default now (hs_ImpairedSince hs)) ∧
  ∀ t, t ≠ ConditionTypeEC2StatusReady → GetCondition node' t = GetCondition node t.
Proof.
  intros Hs Hi Hp. simpl.
  assert (∀ n p t, t ≠ ConditionTypeEC2StatusReady → GetCondition (poll id n p) t = GetCondition n t) as Hother.
  { intros n p t Ht. unfold poll. destruct (refresh_spec (reported p.1 p.2 id) n t) as [_ ->]. rewrite decide_False; [done|].
    unfold reported. by destruct (p.2 !! id). }
  assert (nk_Status (ready (poll id node (now, impaired))) = StatusFalse ∧
          nk_LastTransitionTime (ready (poll id node (now, impaired))) = Some (default now (hs_ImpairedSince hs)) ∧
          ∀ t, t ≠ ConditionTypeEC2StatusReady → GetCondition (poll id node (now, impaired)) t = GetCondition node t) as H0.
  { rewrite poll_ready. unfold reported, kept_transition. simpl. rewrite Hi. rewrite decide_False by done. split_and!; [done..|].
    intros t Ht. by apply Hother. }
  clear Hs Hi. generalize dependent (poll id node (now, impaired)).
  induction Hp as [|p polls [hs' Hp] _ IH]; intros n (Hs & Ht & Ho); [done|]. simpl. apply IH.
  rewrite poll_ready. unfold reported, kept_transition. rewrite Hp. rewrite decide_True by done.
  split_and!; [done..|]. intros t Hne. rewrite Hother by done. by apply Ho.
Qed.
End health_properties.

(** The schema allows one policy without a reason; without the feature gate nothing is
    rebooted, and every policy bounds the drain. *)
Example RepairPolicies_fallback rebootForRepair :
  length (filter (λ p, ReasonRegex p = "") (RepairPolicies false rebootForRepair)) = 1%nat.
Proof. by destruct rebootForRepair; vm_compute. Qed.
Example RepairPolicies_gated : Forall (λ p, Action p = ReplaceNode) (RepairPolicies false false).
Proof. repeat constructor. Qed.
Example RepairPolicies_bounded rebootForRepair :
  Forall (λ p, is_Some (rp_TerminationGracePeriod p)) (RepairPolicies false rebootForRepair).
Proof. destruct rebootForRepair; repeat constructor; by eexists. Qed.
