(* ===== verification/OverlayPrices.v ===== *)
(** * [GetOverlayPrice] of [pkg/providers/instancetype/offering] and start-up helpers of [pkg/operator]

    When no other price is known for an instance type, the price of a NodeOverlay that is
    about the type alone counts; the overlays are listed at most every five minutes.
    [operator.go] discovers a few facts when the process starts.  The API server and AWS
    answer through arguments. *)
From S2P Require Import Prelude GoCache UnavailableOfferings AwsErrors ApiV1 Scheduling Kube Operations.

(** ** Prices of overlays *)

Definition LabelInstanceTypeStable := "node.kubernetes.io/instance-type".
Definition NodeSelectorOpIn := "In".

(** [v1alpha1.NodeOverlay]: whether it is valid, its weight, its price and its
    requirements. *)
Record NodeOverlay := {
  no_Validated : bool;
  no_Weight : Z;
  no_Price : option string;
  no_Requirements : list NodeSelectorRequirement;
}.
(** The prices, and when they expire; the zero time is long past. *)
Record OverlayPrices := { overlayPrices : gmap string float64; overlayPricesExpiry : option Z }.
Definition no_prices : OverlayPrices := {| overlayPrices := ∅; overlayPricesExpiry := None |}.

Section overlays.
Variable ParseFloat : string → option float64.
(** The feature gate, and whether there is a client. *)
Variables NodeOverlayGate hasClient : bool.

(** The instance types an overlay prices. *)
Definition priced_types (o : NodeOverlay) : option (list string * float64) :=
  if negb (no_Validated o) then None
  else price ← no_Price o;
       match no_Requirements o with
       | [r] =>
           if decide (nsr_Key r = LabelInstanceTypeStable ∧ nsr_Operator r = NodeSelectorOpIn)
           then overlayPrice ← ParseFloat price; Some (nsr_Values r, overlayPrice)
           else None
       | _ => None
       end.
Definition add_overlay (prices : gmap string float64) (o : NodeOverlay) : gmap string float64 :=
  match priced_types o with
  | Some (types, overlayPrice) => foldl (λ m t, <[t := overlayPrice]> m) prices types
  | None => prices
  end.
Definition prices_of (overlays : list NodeOverlay) : gmap string float64 := foldl add_overlay ∅ overlays.

Definition fresh (now : Z) (p : OverlayPrices) : bool :=
  match overlayPricesExpiry p with Some t => bool_decide (now < t) | None => false end.
(** A failure to list is logged. *)
Definition GetOverlayPrice (now : Z) (overlays : result kube_error (list NodeOverlay)) (instanceTypeName : string)
    (p : OverlayPrices) : OverlayPrices * option float64 :=
  if negb NodeOverlayGate || negb hasClient then (p, None)
  else if fresh now p then (p, overlayPrices p !! instanceTypeName)
  else match overlays with
       | Err _ => (p, None)
       | Ok overlays =>
           let prices := prices_of overlays in
           ({| overlayPrices := prices; overlayPricesExpiry := Some (now + OverlayPricedTypesTTL) |}, prices !! instanceTypeName)
       end.
Definition ResetOverlayPrices (p : OverlayPrices) : OverlayPrices := no_prices.

(** *** Properties *)

(** The listings of overlays the cache has been through, with their instants. *)
Inductive overlay_reach : list (Z * list NodeOverlay) → OverlayPrices → Prop :=
  | overlay_start : overlay_reach [] no_prices
  | overlay_asked H p now overlays name p' r :
      overlay_reach H p → GetOverlayPrice now overlays name p = (p', r) →
      overlay_reach (match overlays with Ok l => (now, l) :: H | Err _ => H end) p'
  | overlay_reset H p : overlay_reach H p → overlay_reach H (ResetOverlayPrices p).

Definition priced (l : list NodeOverlay) (name : string) (price : float64) : Prop :=
  ∃ o types, o ∈ l ∧ priced_types o = Some (types, price) ∧ name ∈ types.

Lemma foldl_insert_const (types : list string) (price : float64) (m : gmap string float64) name :
  foldl (λ m t, <[t := price]> m) m types !! name = if decide (name ∈ types) then Some price else m !! name.
Proof.
  induction types as [|t types IH] using rev_ind; [done|]. rewrite foldl_app. simpl.
  destruct (decide (t = name)) as [->|Hne].
  - rewrite lookup_insert_eq, decide_True; [done|]. apply elem_of_app. right. by left.
  - rewrite lookup_insert_ne, IH by done. apply decide_ext. rewrite elem_of_app, list_elem_of_singleton. naive_solver.
Qed.

(** The price of a type is that of the last overlay that prices it. *)
Lemma prices_of_last l name :
  prices_of l !! name = last (omap (λ o, '(types, price) ← priced_types o; if decide (name ∈ types) then Some price else None) l).
Proof.
  induction l as [|o l IH] using rev_ind; [done|]. unfold prices_of in *. rewrite foldl_app, omap_app. simpl.
  unfold add_overlay at 1. destruct (priced_types o) as [[types price]|]; simpl; [|by rewrite app_nil_r].
  rewrite foldl_insert_const. destruct (decide (name ∈ types)); [by rewrite last_snoc|by rewrite app_nil_r].
Qed.
Lemma prices_of_priced l name price : prices_of l !! name = Some price → priced l name price.
Proof.
  rewrite prices_of_last. intros Hl%last_Some_elem_of. apply list_elem_of_omap in Hl as (o & Ho & Hx).
  destruct (priced_types o) as [[types x]|] eqn:Ep; [|done]. simpl in Hx. case_decide; [|done]. injection Hx as ->.
  by exists o, types.
Qed.

Lemma overlay_reach_prices H p t :
  overlay_reach H p → overlayPricesExpiry p = Some t → ∃ l, (t - OverlayPricedTypesTTL, l) ∈ H ∧ overlayPrices p = prices_of l.
Proof.
  intros Hr. revert t. induction Hr as [|H p now overlays name p' r _ IH Hg|H p _ IH]; intros t; [done| |done].
  unfold GetOverlayPrice in Hg.
  assert (overlayPricesExpiry p = Some t → ∃ l, (t - OverlayPricedTypesTTL, l) ∈
    match overlays with Ok l => (now, l) :: H | Err _ => H end ∧ overlayPrices p = prices_of l) as Hkeep.
  { intros Ht. destruct (IH t Ht) as (l & Hl & Hp). exists l. split; [|done]. destruct overlays; [by right|done]. }
  destruct (negb _ || negb _); [by injection Hg as <- _|]. destruct (fresh now p); [by injection Hg as <- _|].
  destruct overlays as [l|e]; [|by injection Hg as <- _]. injection Hg as <- _. simpl. intros [= <-]. exists l.
  split; [|done]. replace (now + OverlayPricedTypesTTL - OverlayPricedTypesTTL) with now by lia. by left.
Qed.

(** A price is that of a valid overlay for the type alone, in a listing that is less than five
    minutes old. *)
Theorem GetOverlayPrice_recent H p p' now overlays name price :
  overlay_reach H p → GetOverlayPrice now overlays name p = (p', Some price) →
  NodeOverlayGate = true ∧ ∃ t l, (t, l) ∈ match overlays with Ok l => (now, l) :: H | Err _ => H end ∧
    now < t + OverlayPricedTypesTTL ∧ priced l name price.
Proof.
  intros Hr Hg. unfold GetOverlayPrice in Hg. destruct NodeOverlayGate; [|done]. split; [done|].
  destruct hasClient; [|done]. simpl in Hg. unfold fresh in Hg. destruct (overlayPricesExpiry p) as [t|] eqn:Et.
  - case_bool_decide as Hlt.
    + injection Hg as _ Hp. destruct (overlay_reach_prices _ _ _ Hr Et) as (l & Hl & Heq). exists (t - OverlayPricedTypesTTL), l.
      split; [destruct overlays; [by right|done]|]. split; [lia|]. rewrite Heq in Hp. by apply prices_of_priced.
    + destruct overlays as [l|e]; [|done]. injection Hg as _ Hp. exists now, l. split; [by left|].
      split; [unfold OverlayPricedTypesTTL, Minute, Second, Millisecond; lia|by apply prices_of_priced].
  - destruct overlays as [l|e]; [|done]. injection Hg as _ Hp. exists now, l. split; [by left|].
    split; [unfold OverlayPricedTypesTTL, Minute, Second, Millisecond; lia|by apply prices_of_priced].
Qed.
End overlays.

(** The weights of overlays do not count: of two overlays for a type the one listed last
    sets the price. *)
Definition w_overlay (weight : Z) (price : string) : NodeOverlay :=
  {| no_Validated := true; no_Weight := weight; no_Price := Some price;
     no_Requirements := [{| nsr_Key := LabelInstanceTypeStable; nsr_Operator := NodeSelectorOpIn; nsr_Values := ["m5.large"] |}] |}.
Definition w_parse_price (s : string) : option float64 := if decide (s = "1") then Some 1 else if decide (s = "2") then Some 2 else None.
Example overlay_weight_ignored :
  prices_of w_parse_price [w_overlay 10 "1"; w_overlay 0 "2"] !! "m5.large" = Some 2.
Proof. by vm_compute. Qed.

(** ** Start-up *)

Section startup.
(** The dry run of [DescribeInstanceTypes] fails with [DryRunOperation] when it is allowed. *)
Definition CheckEC2Connectivity (answer : option error) : option error :=
  match answer with
  | Some e => match asAPIError e with
              | Some a => if decide (ErrorCode a = "DryRunOperation") then None else Some e
              | None => Some e
              end
  | None => None
  end.
(** [None] is the panic on an endpoint that is nil. *)
Definition ResolveClusterEndpoint (o : Options) (DescribeCluster : string → result error (option string)) :
    option (result error string) :=
  if decide (ClusterEndpoint o ≠ "") then Some (Ok (ClusterEndpoint o))
  else match DescribeCluster (ClusterName o) with
       | Err e => Some (Err (wrap "failed to resolve cluster endpoint" e))
       | Ok (Some endpoint) => Some (Ok endpoint)
       | Ok None => None
       end.
(** The certificate is that of the REST client, loading its configuration, then its TLS
    configuration, may fail; base64 is an argument. *)
Definition GetCABundle (o : Options) (EncodeToString : string → string) (transport tls : option error) (CAData : string) :
    result error string :=
  if decide (ClusterCABundle o ≠ "") then Ok (ClusterCABundle o)
  else match transport, tls with
       | Some e, _ => Err (wrap "discovering caBundle, loading transport config" e)
       | None, Some e => Err (wrap "discovering caBundle, loading TLS config" e)
       | None, None => Ok (EncodeToString CAData)
       end.
(** The address of the service of the DNS; [ParseIP] may not parse it. *)
Definition KubeDNSIP {IP} (ParseIP : string → option IP) (service : option (result error string)) : result error IP :=
  match service with
  | None => Err (errorf "no K8s client provided")
  | Some (Err e) => Err e
  | Some (Ok clusterIP) => match ParseIP clusterIP with Some ip => Ok ip | None => Err (errorf "parsing cluster IP") end
  end.
(** The error of [DescribeCluster] is dropped, so there is no cluster to take the ARN of:
    [None] is the panic, also on an ARN that is nil. *)
Definition ValidateZonalShiftEnablement (DescribeCluster : result error (option string))
    (GetManagedResource : option string → option error) : option (result error string) :=
  match DescribeCluster with
  | Err _ => None
  | Ok clusterArn =>
      match GetManagedResource clusterArn with
      | Some e => Some (Err (wrap "cluster not registered to Zonal Shift" e))
      | None => Ok <$> clusterArn
      end
  end.
End startup.

(** The process panics on a nil cluster rather than with its message. *)
Example describe_cluster_error_panics e GetManagedResource : ValidateZonalShiftEnablement (Err e) GetManagedResource = None.
Proof. done. Qed.
